(** * conda-smithy: the variant-matrix engine of [configure_feedstock.py]

    A shallow embedding of the functions of
    [conda_smithy/configure_feedstock.py] that collapse, partition, name and
    migrate the build matrix, and the properties they satisfy.

    Python data is modelled as follows.
    - A value is a string, a list or a mapping with string keys ([value]);
      scalars are strings, the way the YAML base loader produces them.
      Tuples are not told apart from lists.
    - A [dict] is an association list in insertion order with no key twice.
    - A raised exception is a [Raise e] result; every function that can raise
      returns a [result].
    - Strings are sequences of one-byte characters. *)

From Stdlib Require Import String Ascii List Bool Arith Lia Permutation Sorted ZArith.
Import ListNotations.
Local Open Scope string_scope.
Local Open Scope list_scope.

(** ** Exceptions *)

Inductive exn : Type :=
| KeyError
| IndexError
| TypeError
| AttributeError
| RuntimeError.

Inductive result (A : Type) : Type :=
| Ok (a : A)
| Raise (e : exn).

Arguments Ok {A} a.
Arguments Raise {A} e.

Definition bind {A B : Type} (r : result A) (f : A -> result B) : result B :=
  match r with
  | Ok a => f a
  | Raise e => Raise e
  end.

Notation "x <- r ;; k" := (bind r (fun x => k))
  (at level 61, r at next level, right associativity).

Fixpoint mapM {A B : Type} (f : A -> result B) (l : list A) : result (list B) :=
  match l with
  | [] => Ok []
  | x :: r => y <- f x ;; ys <- mapM f r ;; Ok (y :: ys)
  end.

Fixpoint foldM {A S : Type} (f : S -> A -> result S) (l : list A) (s : S) : result S :=
  match l with
  | [] => Ok s
  | x :: r => s' <- f s x ;; foldM f r s'
  end.

(** ** Keys with decidable equality, and insertion-ordered mappings *)

Class EqDec (K : Type) := eq_dec : forall x y : K, {x = y} + {x <> y}.

#[global] Instance string_EqDec : EqDec string := string_dec.
#[global] Instance list_string_EqDec : EqDec (list string) := list_eq_dec string_dec.

Section Assoc.
Context {K V : Type} `{EqDec K}.

(** [d.get(k)] *)
Fixpoint lookup (k : K) (d : list (K * V)) : option V :=
  match d with
  | [] => None
  | (k', v) :: r => if eq_dec k k' then Some v else lookup k r
  end.

(** [k in d] *)
Definition contains (k : K) (d : list (K * V)) : bool :=
  match lookup k d with
  | Some _ => true
  | None => false
  end.

(** [d[k]] *)
Definition getitem (k : K) (d : list (K * V)) : result V :=
  match lookup k d with
  | Some v => Ok v
  | None => Raise KeyError
  end.

(** [d[k] = v]: an existing key keeps its place, a new key goes last. *)
Fixpoint setitem (k : K) (v : V) (d : list (K * V)) : list (K * V) :=
  match d with
  | [] => [(k, v)]
  | (k', v') :: r =>
      if eq_dec k k' then (k, v) :: r else (k', v') :: setitem k v r
  end.

Fixpoint remove_key (k : K) (d : list (K * V)) : list (K * V) :=
  match d with
  | [] => []
  | (k', v') :: r =>
      if eq_dec k k' then remove_key k r else (k', v') :: remove_key k r
  end.

(** [del d[k]] *)
Definition delitem (k : K) (d : list (K * V)) : result (list (K * V)) :=
  if contains k d then Ok (remove_key k d) else Raise KeyError.

(** [d.update(d')] *)
Definition update (d d' : list (K * V)) : list (K * V) :=
  fold_left (fun acc kv => setitem (fst kv) (snd kv) acc) d' d.

(** [d[k].append(v)], creating the list on first use (an [OrderedDict] of
    lists). *)
Fixpoint group_append (k : K) (v : V) (d : list (K * list V)) : list (K * list V) :=
  match d with
  | [] => [(k, [v])]
  | (k', vs) :: r =>
      if eq_dec k k' then (k', vs ++ [v]) :: r else (k', vs) :: group_append k v r
  end.

Definition mem (k : K) (l : list K) : bool :=
  if in_dec eq_dec k l then true else false.
End Assoc.

Definition is_nil {A : Type} (l : list A) : bool :=
  match l with
  | [] => true
  | _ :: _ => false
  end.

(** ** Values *)

#[warnings="-register-all"]
Inductive value : Type :=
| VStr (s : string)
| VList (l : list value)
| VDict (d : list (string * value)).

Definition dict : Type := list (string * value).

Definition chars (s : string) : list value :=
  map (fun c => VStr (String c EmptyString)) (list_ascii_of_string s).

(** [for x in v]: the elements of a list, the characters of a string, the
    keys of a mapping. *)
Definition iter_value (v : value) : list value :=
  match v with
  | VStr s => chars s
  | VList l => l
  | VDict d => map (fun kv => VStr (fst kv)) d
  end.

(** [len(v)] *)
Definition len_value (v : value) : nat := length (iter_value v).

(** [bool(v)] *)
Definition truthy (v : value) : bool := negb (is_nil (iter_value v)).

(** [v[i]] for an integer [i >= 0]; a mapping has no integer key. *)
Definition index_value (v : value) (i : nat) : result value :=
  match v with
  | VDict _ => Raise KeyError
  | _ => match nth_error (iter_value v) i with
         | Some x => Ok x
         | None => Raise IndexError
         end
  end.

(** [v[k]] for a string [k]. *)
Definition subscript (v : value) (k : string) : result value :=
  match v with
  | VDict d => getitem k d
  | _ => Raise TypeError
  end.

Definition is_list (v : value) : bool :=
  match v with
  | VList _ => true
  | _ => false
  end.

(** Only strings are hashable: a list or a mapping used as a key or as a set
    element raises [TypeError]. *)
Definition as_key (v : value) : result string :=
  match v with
  | VStr s => Ok s
  | _ => Raise TypeError
  end.

Definition is_substring (s t : string) : bool :=
  match index 0 s t with
  | Some _ => true
  | None => false
  end.

(** [key in v] for a string [key]: an element of a list, a substring of a
    string, a key of a mapping. *)
Definition key_in (key : string) (v : value) : bool :=
  match v with
  | VStr s => is_substring key s
  | VList l =>
      existsb (fun x => match x with VStr s => String.eqb key s | _ => false end) l
  | VDict d => contains key d
  end.

(** [a == b]; mappings compare without regard to order. *)
Fixpoint py_eqb (a b : value) {struct a} : bool :=
  match a, b with
  | VStr s, VStr t => String.eqb s t
  | VList l, VList l' =>
      (fix go (l l' : list value) {struct l} : bool :=
         match l, l' with
         | [], [] => true
         | x :: xs, y :: ys => py_eqb x y && go xs ys
         | _, _ => false
         end) l l'
  | VDict d, VDict d' =>
      Nat.eqb (length d) (length d') &&
      (fix go (d : list (string * value)) : bool :=
         match d with
         | [] => true
         | (k, v) :: r =>
             match lookup k d' with
             | Some v' => py_eqb v v'
             | None => false
             end && go r
         end) d
  | _, _ => false
  end.

(** [a < b]: strings by character code, lists lexicographically on the first
    pair of unequal elements; anything else raises [TypeError]. *)
Fixpoint py_lt (a b : value) {struct a} : result bool :=
  match a, b with
  | VStr s, VStr t => Ok (String.ltb s t)
  | VList l, VList l' =>
      (fix go (l l' : list value) {struct l} : result bool :=
         match l, l' with
         | [], [] => Ok false
         | [], _ :: _ => Ok true
         | _ :: _, [] => Ok false
         | x :: xs, y :: ys => if py_eqb x y then go xs ys else py_lt x y
         end) l l'
  | _, _ => Raise TypeError
  end.

(** ** Sorting

    [sorted] is stable; it is modelled by insertion from the right, which
    yields the same list as any stable sort whenever the comparisons succeed. *)

Fixpoint insert_by {A : Type} (lt : A -> A -> result bool) (x : A) (l : list A)
  : result (list A) :=
  match l with
  | [] => Ok [x]
  | y :: r =>
      b <- lt y x ;;
      if b then r' <- insert_by lt x r ;; Ok (y :: r') else Ok (x :: l)
  end.

Fixpoint sorted_by {A : Type} (lt : A -> A -> result bool) (l : list A)
  : result (list A) :=
  match l with
  | [] => Ok []
  | x :: r => r' <- sorted_by lt r ;; insert_by lt x r'
  end.

(** [sorted(l)] *)
Definition sorted (l : list value) : result (list value) := sorted_by py_lt l.

(** The same for comparisons that cannot raise. *)
Fixpoint insert_pure {A : Type} (ltb : A -> A -> bool) (x : A) (l : list A) : list A :=
  match l with
  | [] => [x]
  | y :: r => if ltb y x then y :: insert_pure ltb x r else x :: l
  end.

Fixpoint sort_pure {A : Type} (ltb : A -> A -> bool) (l : list A) : list A :=
  match l with
  | [] => []
  | x :: r => insert_pure ltb x (sort_pure ltb r)
  end.

Definition sort_strings (l : list string) : list string := sort_pure String.ltb l.

(** [argsort(seq)]: [sorted(range(len(seq)), key=seq.__getitem__)] *)
Definition argsort (seq_ : list value) : result (list nat) :=
  sorted_by (fun i j => py_lt (nth i seq_ (VList [])) (nth j seq_ (VList [])))
            (seq 0 (length seq_)).

(** ** [merge_list_of_dicts] *)

Definition merge_list_of_dicts (list_of_dicts : list dict) : dict :=
  fold_left
    (fun squished_dict idict =>
       fold_left
         (fun sq kv =>
            let cur := match lookup (fst kv) sq with
                       | Some (VList c) => c
                       | _ => []
                       end in
            setitem (fst kv) (VList (cur ++ iter_value (snd kv))) sq)
         idict squished_dict)
    list_of_dicts [].

(** ** [sort_config] *)

(** [[pkg for pkg in group if pkg in config.keys()]] *)
Definition filter_group (config : dict) (group : value) : result (list string) :=
  ks <- mapM as_key (iter_value group) ;;
  Ok (filter (fun k => contains k config) ks).

(** The first loop of [sort_config] and the filter after it. Assigning
    [groups[i]] raises when [groups] is a non-empty string, and changes the
    size of a non-empty mapping while it is iterated. *)
Definition usable_groups (config : dict) (zip_key_groups : value)
  : result (list (list string)) :=
  match zip_key_groups with
  | VList gs =>
      gs' <- mapM (filter_group config) gs ;;
      Ok (filter (fun g => negb (is_nil g)) gs')
  | VStr EmptyString => Ok []
  | VStr _ => Raise TypeError
  | VDict [] => Ok []
  | VDict _ => Raise RuntimeError
  end.

(** [list_of_values]: the index-aligned tuples of a group. *)
Definition group_rows (config : dict) (group : list string) : result (list value) :=
  match group with
  | [] => Ok []
  | k0 :: _ =>
      c0 <- getitem k0 config ;;
      mapM (fun idx =>
              vals <- mapM (fun key => c <- getitem key config ;; index_value c idx) group ;;
              Ok (VList vals))
           (seq 0 (len_value c0))
  end.

Definition sorting_order_of (config : dict) (groups : list (list string))
  : result (list (string * list nat)) :=
  foldM (fun so group =>
           rows <- group_rows config group ;;
           order <- argsort rows ;;
           Ok (fold_left (fun so key => setitem key order so) group so))
        groups [].

Definition reorder (ks : list string) (d : dict) : dict :=
  flat_map (fun k => match lookup k d with
                     | Some v => [(k, v)]
                     | None => []
                     end) ks.

(** The [pin_run_as_build] branch: packages ascending, pins descending. *)
Definition sort_pins (v : value) : result value :=
  match v with
  | VDict d =>
      p <- mapM (fun kv =>
                   match snd kv with
                   | VDict pkg_pins =>
                       Ok (fst kv,
                           VDict (reorder (rev (sort_strings (map fst pkg_pins))) pkg_pins))
                   | _ => Raise AttributeError
                   end)
                (reorder (sort_strings (map fst d)) d) ;;
      Ok (VDict p)
  | _ => Raise AttributeError
  end.

(** The body of the loop over [config.items()]. *)
Definition sort_entry (sorting_order : list (string * list nat)) (key : string) (v : value)
  : result value :=
  v1 <- match v with
        | VList val =>
            match lookup key sorting_order with
            | Some order => vs <- mapM (index_value v) order ;; Ok (VList vs)
            | None => vs <- sorted val ;; Ok (VList vs)
            end
        | _ => Ok v
        end ;;
  if String.eqb key "pin_run_as_build" then sort_pins v else Ok v1.

Definition sort_config (config : dict) (zip_key_groups : value) : result dict :=
  groups <- usable_groups config zip_key_groups ;;
  sorting_order <- sorting_order_of config groups ;;
  mapM (fun kv => v' <- sort_entry sorting_order (fst kv) (snd kv) ;; Ok (fst kv, v')) config.

(** ** [break_up_top_level_values] *)

(** A [zip_keys] value read as a list of groups: a non-empty value whose
    first element is not a list is one group. *)
Definition as_groups (z : value) : result (list value) :=
  if truthy z
  then x <- index_value z 0 ;; Ok (if is_list x then iter_value z else [z])
  else Ok (iter_value z).

(** The groups under [zip_keys], none when the key is absent. *)
Definition zip_key_groups_of (variants : dict) : result (list value) :=
  match lookup "zip_keys" variants with
  | Some z => as_groups z
  | None => Ok []
  end.

Record bstate : Type := mk_bstate {
  accounted_for_keys : list string;
  zipped_configs : list (list dict);
  top_level_dimensions : list (list dict);
  squished : dict
}.

(** [set(group)] *)
Definition group_members (group : value) : result (list string) :=
  mapM as_key (iter_value group).

Definition dict_of_items (items : list (string * value)) : dict :=
  fold_left (fun d kv => setitem (fst kv) (snd kv) d) items [].

(** One turn of the loop over [enumerate(squished_variants[key])]: the tuple
    of top-level values at [idx] and the one-row mapping of the group. *)
Definition zip_row (top_level_keys : list string) (sq : dict) (members : list string)
  (idx : nat) : result (list string * dict) :=
  top_level_config <-
    mapM (fun k => c <- getitem k sq ;; index_value c idx)
         (filter (fun k => mem k top_level_keys) members) ;;
  tkey <- mapM as_key top_level_config ;;
  entry <- mapM (fun k => c <- getitem k sq ;; v <- index_value c idx ;; Ok (k, VList [v]))
                members ;;
  Ok (tkey, dict_of_items entry).

(** The body of the loop over [top_level_keys]. *)
Definition break_up_key (top_level_keys : list string) (zip_key_groups : list value)
  (st : bstate) (key : string) : result bstate :=
  if mem key (accounted_for_keys st) then Ok st else
  match find (key_in key) zip_key_groups with
  | Some group =>
      members <- group_members group ;;
      col <- getitem key (squished st) ;;
      rows <- mapM (zip_row top_level_keys (squished st) members) (seq 0 (len_value col)) ;;
      let top_level_config_dict :=
        fold_left (fun d r => group_append (fst r) (snd r) d) rows [] in
      let zipped_config :=
        map (fun e => merge_list_of_dicts (snd e)) top_level_config_dict in
      sq' <- foldM (fun sq k => delitem k sq) members (squished st) ;;
      Ok (mk_bstate (accounted_for_keys st ++ members)
                    (zipped_configs st ++ [zipped_config])
                    (top_level_dimensions st)
                    sq')
  | None =>
      col <- getitem key (squished st) ;;
      Ok (mk_bstate (accounted_for_keys st)
                    (zipped_configs st)
                    (top_level_dimensions st
                       ++ [map (fun val => [(key, VList [val])]) (iter_value col)])
                    (remove_key key (squished st)))
  end.

(** [itertools.product]: the leftmost dimension varies slowest. *)
Fixpoint product {A : Type} (dimensions : list (list A)) : list (list A) :=
  match dimensions with
  | [] => [[]]
  | d :: r => flat_map (fun x => map (cons x) (product r)) d
  end.

Definition merge_permutation (permutation : list dict) : dict :=
  fold_left update permutation [].

(** [top_level_keys] is a set; the list gives its iteration order. *)
Definition break_up_top_level_values (top_level_keys : list string)
  (squished_variants : dict) : result (list dict) :=
  zip_key_groups <- zip_key_groups_of squished_variants ;;
  st <- foldM (break_up_key top_level_keys zip_key_groups) top_level_keys
              (mk_bstate [] [] [] squished_variants) ;;
  let zip_key_groups' :=
    match lookup "zip_keys" (squished st) with
    | Some z => z
    | None => VList zip_key_groups
    end in
  background <- sort_config (squished st) zip_key_groups' ;;
  zipped <- mapM (mapM (fun config => sort_config config zip_key_groups'))
                 (zipped_configs st) ;;
  let dimensions :=
    top_level_dimensions st ++ zipped
      ++ (if is_nil background then [] else [[background]]) in
  Ok (map merge_permutation (product dimensions)).

(** ** [package_key] and the naming in [dump_subspace_config_files] *)

(** [s.replace(old, new)] for one-character [old] and [new]. *)
Fixpoint replace_char (old new : ascii) (s : string) : string :=
  match s with
  | EmptyString => EmptyString
  | String c r =>
      String (if Ascii.eqb c old then new else c) (replace_char old new r)
  end.

(** [str(v)]: a string is itself; the text Python prints for a list or a
    mapping is left to [repr]. *)
Definition str_of (repr : value -> string) (v : value) : string :=
  match v with
  | VStr s => s
  | _ => repr v
  end.

(** [used_loop_vars] is a set; [subdir] is not used by the function. *)
Definition package_key (repr : value -> string) (config : dict)
  (used_loop_vars : list string) : result string :=
  parts <- mapM (fun k =>
                   c <- getitem k config ;;
                   v <- index_value c 0 ;;
                   Ok (k ++ str_of repr v)%string)
                (filter (fun k => negb (String.eqb k "target_platform"))
                        (sort_strings used_loop_vars)) ;;
  Ok (replace_char " " "_" (replace_char "*" "_" (String.concat "" parts))).

(** The two names [dump_subspace_config_files] gives a config:
    [(config_name, short_config_name)]. [sha256_hex] is
    [hashlib.sha256(s.encode("utf-8")).hexdigest()]. *)
Definition config_names (sha256_hex : string -> string) (platform arch key : string)
  : string * string :=
  let config_name := (platform ++ "_" ++ arch ++ "_" ++ key)%string in
  let short_config_name :=
    if (49 <=? String.length config_name)%nat
    then (substring 0 35 config_name ++ "_h" ++ substring 0 10 (sha256_hex config_name))%string
    else config_name in
  (if (250 <=? String.length ("conda-forge-build-done-" ++ config_name)%string)%nat
   then short_config_name else config_name,
   short_config_name).

(** ** [finalize_config] *)

Definition truncate_key (config : dict) (key : string) : result dict :=
  c <- getitem key config ;;
  x <- index_value c 0 ;;
  Ok (setitem key (VList [x]) config).

(** The body of the loop over the keys of one [ziplist]. *)
Definition finalize_step (config : dict) (key : value) : result dict :=
  if py_eqb key (VStr "docker_image") then Ok config
  else k <- as_key key ;; truncate_key config k.

(** The loop over one [ziplist] of [zip_keys]. *)
Definition finalize_ziplist (config : dict) (ziplist : value) : result dict :=
  if key_in "docker_image" ziplist
  then foldM finalize_step (iter_value ziplist) config
  else Ok config.

Definition finalize_config (config : dict) (platform arch : string) (forge_config : dict)
  : result dict :=
  bps <- getitem "build_platform" forge_config ;;
  bp <- subscript bps (platform ++ "_" ++ arch)%string ;;
  match bp with
  | VStr build_platform =>
      if prefix "linux" build_platform then
        config1 <-
          (if contains "docker_image" config
           then truncate_key config "docker_image"
           else d <- getitem "docker" forge_config ;;
                f <- subscript d "fallback_image" ;;
                Ok (setitem "docker_image" (VList [f]) config)) ;;
        match lookup "zip_keys" config1 with
        | Some zip_keys => foldM finalize_ziplist (iter_value zip_keys) config1
        | None => Ok config1
        end
      else Ok config
  | _ => Raise AttributeError
  end.

(** ** [_trim_unused_zip_keys] *)

(** A list of strings as a value. *)
Definition strings (l : list string) : value := VList (map VStr l).

(** A list of groups of names as a value. *)
Definition groups_value (groups : list (list string)) : value :=
  VList (map (fun g => VList (map VStr g)) groups).

Definition _trim_unused_zip_keys (all_used_vars : dict) : result dict :=
  groups <- zip_key_groups_of all_used_vars ;;
  filtered <- mapM (filter_group all_used_vars) groups ;;
  let used_groups := filter (fun g => (1 <? length g)%nat) filtered in
  if is_nil used_groups
  then Ok (remove_key "zip_keys" all_used_vars)
  else Ok (setitem "zip_keys" (groups_value used_groups) all_used_vars).

(** ** Migrations *)

(** A migration file: its path and the document the YAML base loader reads
    from it ([None] for an empty file). *)
Record mfile : Type := mk_mfile {
  mf_path : string;
  mf_doc : option value
}.

(** The key of a migration: its [migrator_ts] string, or the fresh [object()]
    that stands for a missing one. Objects are equal only to themselves; [id]
    is the allocation number. *)
Inductive ts_key : Type :=
| TsVal (s : string)
| TsObject (id : nat).

#[global] Instance ts_key_EqDec : EqDec ts_key.
Proof. intros x y. unfold EqDec in *. decide equality; [apply string_dec | apply Nat.eq_dec]. Defined.

(** [migration_number]: the loaded value, or the integer [1] when absent. *)
Inductive mig_num : Type :=
| DefaultOne
| Loaded (v : value).

(** [num == new_num]: the integer 1 equals no loaded string, list or mapping. *)
Definition num_eqb (a b : mig_num) : bool :=
  match a, b with
  | DefaultOne, DefaultOne => true
  | Loaded v, Loaded w => py_eqb v w
  | _, _ => false
  end.

Definition lower_ascii (c : ascii) : ascii :=
  let n := nat_of_ascii c in
  if ((65 <=? n) && (n <=? 90))%nat then ascii_of_nat (n + 32) else c.

Fixpoint lower (s : string) : string :=
  match s with
  | EmptyString => EmptyString
  | String c r => String (lower_ascii c) (lower r)
  end.

Definition mig_entry : Type := string * mig_num * bool.

(** [yaml.load(...) or {}] *)
Definition loaded_document (f : mfile) : value :=
  match mf_doc f with
  | Some v => if truthy v then v else VDict []
  | None => VDict []
  end.

(** What the body of the loop of [get_migrations_in_dir] reads from one
    file: the [migrator_ts] string if there is one, and the tuple stored
    under it. A timestamp that is a list or a mapping cannot be a key. *)
Definition read_migration (f : mfile) : result (option string * mig_entry) :=
  match loaded_document f with
  | VDict migration_yaml =>
      migrator <- match lookup "__migrator" migration_yaml with
                  | Some (VDict m) => Ok m
                  | Some _ => Raise AttributeError
                  | None => Ok []
                  end ;;
      let migration_number := match lookup "migration_number" migrator with
                              | Some n => Loaded n
                              | None => DefaultOne
                              end in
      use_local <- match lookup "use_local" migrator with
                   | Some (VStr s) => Ok (String.eqb (lower s) "true")
                   | Some _ => Raise AttributeError
                   | None => Ok false
                   end ;;
      ts <- match lookup "migrator_ts" migration_yaml with
            | Some (VStr s) => Ok (Some s)
            | Some _ => Raise TypeError
            | None => Ok None
            end ;;
      Ok (ts, (mf_path f, migration_number, use_local))
  | _ => Raise AttributeError
  end.

(** [migration_yaml.get("migrator_ts", object())]: [fresh] numbers the
    object allocated for this file. *)
Definition migration_ts_key (fresh : nat) (ts : option string) : ts_key :=
  match ts with
  | Some s => TsVal s
  | None => TsObject fresh
  end.

(** The directory is the list of its [*.yaml] files in the order [glob]
    yields them; [fresh] is the number of objects allocated so far. *)
Fixpoint get_migrations_in_dir_from (fresh : nat) (files : list mfile)
  (res : list (ts_key * mig_entry)) : result (list (ts_key * mig_entry)) :=
  match files with
  | [] => Ok res
  | f :: r =>
      e <- read_migration f ;;
      get_migrations_in_dir_from (S fresh) r
        (setitem (migration_ts_key fresh (fst e)) (snd e) res)
  end.

Definition get_migrations_in_dir (fresh : nat) (files : list mfile)
  : result (list (ts_key * mig_entry)) :=
  get_migrations_in_dir_from fresh files [].

(** [isinstance(ts, (int, str, float))] *)
Definition is_timestamp (ts : ts_key) : bool :=
  match ts with
  | TsVal _ => true
  | TsObject _ => false
  end.

(** What [set_migration_fns] leaves behind: [forge_config["migration_fns"]]
    and the files it removed. *)
Record migration_outcome : Type := mk_outcome {
  migration_fns : list string;
  removed_files : list string
}.

(** The loop over [migrations_in_feedstock.items()]. *)
Definition select_migration (migrations_in_cfp : list (ts_key * mig_entry))
  (acc : migration_outcome) (item : ts_key * mig_entry) : migration_outcome :=
  let '(ts, (fn, num, use_local)) := item in
  if use_local || negb (is_timestamp ts) then
    mk_outcome (migration_fns acc ++ [fn]) (removed_files acc)
  else
    match lookup ts migrations_in_cfp with
    | Some (new_fn, new_num, _) =>
        if num_eqb num new_num
        then mk_outcome (migration_fns acc ++ [new_fn]) (removed_files acc)
        else mk_outcome (migration_fns acc ++ [fn]) (removed_files acc)
    | None => mk_outcome (migration_fns acc) (removed_files acc ++ [fn])
    end.

(** [feedstock] is the content of [.ci_support/migrations]; [cfp] is the
    content of the shared migrations directory, [None] when it does not
    exist. *)
Definition set_migration_fns (feedstock : list mfile) (cfp : option (list mfile))
  : result migration_outcome :=
  migrations_in_feedstock <- get_migrations_in_dir 0 feedstock ;;
  match cfp with
  | None =>
      Ok (mk_outcome (map (fun e => fst (fst (snd e))) migrations_in_feedstock) [])
  | Some cfp_files =>
      migrations_in_cfp <- get_migrations_in_dir (length feedstock) cfp_files ;;
      Ok (fold_left (select_migration migrations_in_cfp) migrations_in_feedstock
                    (mk_outcome [] []))
  end.

(** ** [migrate_combined_spec] *)

(** What [parse_variant] leaves under [migrator_ts] is a value of some type
    [T] with Python's [==] and [<]; [<] may raise, as it does between a
    number and a string. [parse_variant] and [variant_add] are the variant
    algebra's, which the function imports: the parsed migrations and
    [variant_add] are given, and [variant_add] may raise. *)
Class Stamp (T : Type) : Type := {
  stamp_eqb : T -> T -> bool;
  stamp_lt : T -> T -> result bool
}.

(** Timestamps that are numbers. *)
#[global] Instance Z_Stamp : Stamp Z := {|
  stamp_eqb := Z.eqb;
  stamp_lt := fun a b => Ok (Z.ltb a b)
|}.

(** Timestamps some of which are numbers and some strings. *)
Inductive number_or_text : Type :=
| Number (z : Z)
| Text (s : string).

#[global] Instance number_or_text_Stamp : Stamp number_or_text := {|
  stamp_eqb := fun a b =>
    match a, b with
    | Number x, Number y => Z.eqb x y
    | Text s, Text t => String.eqb s t
    | _, _ => false
    end;
  stamp_lt := fun a b =>
    match a, b with
    | Number x, Number y => Ok (Z.ltb x y)
    | Text s, Text t => Ok (String.ltb s t)
    | _, _ => Raise TypeError
    end
|}.

(** A parsed migration: the value under [migrator_ts], if any, and the rest
    of the mapping. *)
Record migration (T : Type) : Type := mk_migration {
  migrator_ts : option T;
  patch : dict
}.

Arguments mk_migration {T} _ _.
Arguments migrator_ts {T} _.
Arguments patch {T} _.

(** [(ts, fn) < (ts', fn')]: tuples are compared on their first components
    that are not equal. *)
Definition migration_key_lt {T : Type} `{Stamp T} (a b : T * string) : result bool :=
  if stamp_eqb (fst a) (fst b) then Ok (String.ltb (snd a) (snd b))
  else stamp_lt (fst a) (fst b).

(** The sort key of [(fn, migration)]; a migration without [migrator_ts]
    raises [KeyError]. *)
Definition migration_key {T : Type} (fn_v : string * migration T) : result (T * string) :=
  match migrator_ts (snd fn_v) with
  | Some ts => Ok (ts, fst fn_v)
  | None => Raise KeyError
  end.

(** [migration_variants.sort(key=...)]: the keys are computed first, then
    compared. A comparison that raises ends the sort; between keys of
    kinds that cannot be compared every sort has to make one. *)
Definition sort_migrations {T : Type} `{Stamp T}
  (migration_variants : list (string * migration T))
  : result (list (string * migration T)) :=
  keys <- mapM (fun fn_v => k <- migration_key fn_v ;; Ok (k, fn_v)) migration_variants ;;
  ordered <- sorted_by (fun a b => migration_key_lt (fst a) (fst b)) keys ;;
  Ok (map snd ordered).

(** The body of the loop that applies the sorted migrations. *)
Definition apply_migration {T : Type} (variant_add : dict -> dict -> result dict)
  (combined_spec : dict) (fn_v : string * migration T) : result dict :=
  if is_nil (patch (snd fn_v)) then Ok combined_spec
  else variant_add combined_spec (patch (snd fn_v)).

(** [migration_variants] is the list of [(fn, parse_variant(...))] in the
    order of [forge_config["migration_fns"]]. *)
Definition migrate_combined_spec {T : Type} `{Stamp T}
  (variant_add : dict -> dict -> result dict)
  (combined_spec : dict) (migration_variants : list (string * migration T))
  : result dict :=
  ordered <- sort_migrations migration_variants ;;
  foldM (apply_migration variant_add) ordered combined_spec.

(** ** Vocabulary of the statements *)

(** [config[k][0]], the single value a top-level variable resolves to. *)
Definition top_value (config : dict) (k : string) : option value :=
  match lookup k config with
  | Some c => match index_value c 0 with
              | Ok x => Some x
              | Raise _ => None
              end
  | None => None
  end.

Definition is_alnum (c : ascii) : bool :=
  let n := nat_of_ascii c in
  (((48 <=? n) && (n <=? 57)) || ((65 <=? n) && (n <=? 90)) || ((97 <=? n) && (n <=? 122)))%nat.

(** Every character is a letter, a digit or an underscore. *)
Definition name_normalized (s : string) : bool :=
  forallb (fun c => is_alnum c || Ascii.eqb c "_") (list_ascii_of_string s).

(** What [package_key] does to one character. *)
Definition star_space_to_underscore (c : ascii) : ascii :=
  if Ascii.eqb c "*" || Ascii.eqb c " " then "_"%char else c.

Fixpoint map_string (f : ascii -> ascii) (s : string) : string :=
  match s with
  | EmptyString => EmptyString
  | String c r => String (f c) (map_string f r)
  end.

(** The name before any character is replaced: each variable, in ascending
    order and without [target_platform], followed by its value. *)
Definition raw_package_key (repr : value -> string) (config : dict)
  (used_loop_vars : list string) : string :=
  String.concat ""
    (map (fun k => (k ++ match top_value config k with
                         | Some v => str_of repr v
                         | None => ""
                         end)%string)
         (filter (fun k => negb (String.eqb k "target_platform"))
                 (sort_strings used_loop_vars))).

(** A package key long enough to need shortening. *)
Definition long_key : string :=
  "c_compilergcccuda_compilernvcccuda_compiler_version11.2cxx_compilergxxdocker_imagequay.io_condaforge_linux_anvil_cudafortran_compilergfortranlibblas3.9_netliblibcblas3.9_netlibliblapack3.9_netlibmpiopenmpinumpy1.22python3.10.____cpythonvery_long_suffix_to_reach_the_ceiling".


(** [k] is zipped with [docker_image]: a group listed under [zip_keys]
    contains [docker_image] and has [k] among its members. *)
Definition zipped_with_docker (config : dict) (k : string) : Prop :=
  exists zip_keys ziplist,
    lookup "zip_keys" config = Some zip_keys
    /\ In ziplist (iter_value zip_keys)
    /\ key_in "docker_image" ziplist = true
    /\ In (VStr k) (iter_value ziplist).

(** [config'] holds under [k] the one-element list made of the first element
    that [config] holds under [k]. *)
Definition truncated_at (config config' : dict) (k : string) : Prop :=
  exists x, top_value config k = Some x /\ lookup k config' = Some (VList [x]).

(** [forge_config["docker"]["fallback_image"]] *)
Definition fallback_image (forge_config : dict) : result value :=
  d <- getitem "docker" forge_config ;; subscript d "fallback_image".

(** [forge_config["build_platform"][f"{platform}_{arch}"]] *)
Definition build_platform_of (forge_config : dict) (platform arch : string) : result value :=
  bps <- getitem "build_platform" forge_config ;;
  subscript bps (platform ++ "_" ++ arch)%string.

(** Nothing in [finalize_config] can raise: [docker_image] or the fallback
    is there, and every member of a group zipped with [docker_image] is a
    string under which the config holds a non-empty value. *)
Definition finalize_ready (config forge_config : dict) : Prop :=
  (if contains "docker_image" config
   then exists x, top_value config "docker_image" = Some x
   else exists f, fallback_image forge_config = Ok f)
  /\ (forall zip_keys ziplist key,
         lookup "zip_keys" config = Some zip_keys ->
         In ziplist (iter_value zip_keys) ->
         key_in "docker_image" ziplist = true ->
         In key (iter_value ziplist) ->
         exists k, key = VStr k
                   /\ (k = "docker_image" \/ exists x, top_value config k = Some x)).

(** The invariant of the loops of [finalize_config]: every key still holds
    what [base] holds, or its truncation. *)
Definition finalize_inv (base cfg : dict) : Prop :=
  forall k, lookup k cfg = lookup k base \/ truncated_at base cfg k.

(** A config whose [docker_image] is zipped with [python], and a
    [forge_config] for [linux_64]. *)
Definition docker_zip_config : dict :=
  [("python", VList [VStr "3.9"; VStr "3.10"]);
   ("docker_image", VList [VStr "a"; VStr "b"]);
   ("numpy", VList [VStr "1.21"; VStr "1.23"]);
   ("zip_keys", VList [VList [VStr "python"; VStr "docker_image"]])].

Definition linux_forge_config : dict :=
  [("build_platform", VDict [("linux_64", VStr "linux_64")]);
   ("docker", VDict [("fallback_image", VStr "quay.io/condaforge/linux-anvil-comp7")])].

(** [zip_keys] is absent, a list of lists of names or a single list of
    names, the shapes the variant files give it. *)
Definition zip_keys_well_formed (variants : dict) : Prop :=
  match lookup "zip_keys" variants with
  | Some z => (exists groups, z = groups_value groups) \/ (exists names, z = strings names)
  | None => True
  end.

(** The path stored in an entry of the mapping of a directory. *)
Definition entry_path (e : mig_entry) : string := fst (fst e).

(** Every file of the directory loads as a migration. *)
Definition readable (files : list mfile) : Prop :=
  forall f, In f files -> exists e, read_migration f = Ok e.

(** [f] carries the timestamp [t]. *)
Definition has_ts (f : mfile) (t : string) : Prop :=
  exists e, read_migration f = Ok (Some t, e).

(** [f] is the last file of the directory that carries the timestamp [t];
    [num] and [use_local] are its migration number and its flag. *)
Definition last_with_ts (files : list mfile) (f : mfile) (t : string)
  (num : mig_num) (use_local : bool) : Prop :=
  exists pre post,
    files = pre ++ f :: post
    /\ read_migration f = Ok (Some t, (mf_path f, num, use_local))
    /\ forall h, In h post -> ~ has_ts h t.

(** The path a feedstock entry contributes to [migration_fns], if any. *)
Definition kept_path (migrations_in_cfp : list (ts_key * mig_entry))
  (item : ts_key * mig_entry) : option string :=
  let '(ts, (fn, num, use_local)) := item in
  if use_local || negb (is_timestamp ts) then Some fn
  else match lookup ts migrations_in_cfp with
       | Some (new_fn, new_num, _) => if num_eqb num new_num then Some new_fn else Some fn
       | None => None
       end.

(** The path of a feedstock entry that is removed, if it is. *)
Definition dropped_path (migrations_in_cfp : list (ts_key * mig_entry))
  (item : ts_key * mig_entry) : option string :=
  let '(ts, (fn, num, use_local)) := item in
  if use_local || negb (is_timestamp ts) then None
  else match lookup ts migrations_in_cfp with
       | Some _ => None
       | None => Some fn
       end.

(** Example migration files: two in the feedstock, one in the shared
    directory with the timestamp and number of the first. *)
Definition migration_doc (ts number : string) (use_local : string) : option value :=
  Some (VDict [("migrator_ts", VStr ts);
               ("__migrator", VDict [("migration_number", VStr number);
                                     ("use_local", VStr use_local)]);
               ("python", VList [VStr "3.10"])]).

Definition feedstock_a : mfile := mk_mfile "feedstock/a.yaml" (migration_doc "1" "2" "false").
Definition feedstock_b : mfile := mk_mfile "feedstock/b.yaml" (migration_doc "2" "1" "True").
Definition feedstock_c : mfile := mk_mfile "feedstock/c.yaml" (migration_doc "3" "1" "false").
Definition feedstock_untimed : mfile :=
  mk_mfile "feedstock/d.yaml" (Some (VDict [("python", VList [VStr "3.11"])])).
Definition shared_a : mfile := mk_mfile "shared/a.yaml" (migration_doc "1" "2" "false").

(** A second shared file with the timestamp of [shared_a] and another
    number; a feedstock file that gives no migration number and a shared
    file with its timestamp and the number 1; two feedstock files with one
    timestamp; a feedstock file whose timestamp reads as no number. *)
Definition shared_a_later : mfile :=
  mk_mfile "shared/z.yaml" (migration_doc "1" "3" "false").
Definition feedstock_plain : mfile :=
  mk_mfile "feedstock/plain.yaml"
           (Some (VDict [("migrator_ts", VStr "4"); ("python", VList [VStr "3.10"])])).
Definition shared_plain : mfile :=
  mk_mfile "shared/plain.yaml" (migration_doc "4" "1" "false").
Definition feedstock_one : mfile :=
  mk_mfile "feedstock/one.yaml" (migration_doc "5" "1" "false").
Definition feedstock_two : mfile :=
  mk_mfile "feedstock/two.yaml" (migration_doc "5" "1" "false").
Definition feedstock_bad : mfile :=
  mk_mfile "feedstock/bad.yaml" (migration_doc "not-a-date" "1" "false").

(** The timestamps of the migrations that have one. *)
Definition stamps {T : Type} (ms : list (string * migration T)) : list T :=
  flat_map (fun fn_v => match migrator_ts (snd fn_v) with
                        | Some ts => [ts]
                        | None => []
                        end) ms.

(** The timestamps [ts] are ordered: between any two of them [<] raises
    nothing and returns what [ltb] says, [ltb] is a strict weak order, and
    [==] holds of the timestamps neither of which is below the other. *)
Record ordered_stamps {T : Type} `{Stamp T} (ltb : T -> T -> bool) (ts : list T)
  : Prop := mk_ordered_stamps {
  os_lt : forall a b, In a ts -> In b ts -> stamp_lt a b = Ok (ltb a b);
  os_eq : forall a b, In a ts -> In b ts ->
                      stamp_eqb a b = negb (ltb a b) && negb (ltb b a);
  os_asym : forall a b, In a ts -> In b ts -> ltb a b = true -> ltb b a = false;
  os_trans : forall a b c, In a ts -> In b ts -> In c ts ->
                           ltb a b = false -> ltb b c = false -> ltb a c = false
}.

(** [(ts, fn) <= (ts', fn')]: by timestamp, ties by file name. *)
Definition key_le {T : Type} (ltb : T -> T -> bool) (a b : T * string) : Prop :=
  ltb (fst a) (fst b) = true
  \/ (ltb (fst b) (fst a) = false /\ String.leb (snd a) (snd b) = true).

(** The order in which migrations are to be applied. *)
Definition migration_le {T : Type} (ltb : T -> T -> bool) (a b : string * migration T)
  : Prop :=
  match migrator_ts (snd a), migrator_ts (snd b) with
  | Some x, Some y => key_le ltb (x, fst a) (y, fst b)
  | _, _ => False
  end.

(** The patches of the migrations that hold something besides their
    timestamp. *)
Definition patches {T : Type} (ms : list (string * migration T)) : list dict :=
  filter (fun p => negb (is_nil p)) (map (fun fn_v => patch (snd fn_v)) ms).

(** The comparison [list.sort] makes on the migrations paired with their
    keys when the timestamps are ordered by [ltb], and the order it gives. *)
Definition keyed_ltb {T X : Type} `{Stamp T} (ltb : T -> T -> bool)
  (a b : (T * string) * X) : bool :=
  if stamp_eqb (fst (fst a)) (fst (fst b))
  then String.ltb (snd (fst a)) (snd (fst b))
  else ltb (fst (fst a)) (fst (fst b)).

Definition keyed_le {T X : Type} (ltb : T -> T -> bool) (a b : (T * string) * X) : Prop :=
  key_le ltb (fst a) (fst b).

(** A migration paired with its key. *)
Definition is_keyed {T : Type} (ts : list T)
  (a : (T * string) * (string * migration T)) : Prop :=
  In (fst (fst a)) ts
  /\ snd (fst a) = fst (snd a)
  /\ migrator_ts (snd (snd a)) = Some (fst (fst a)).

(** Three migrations stamped 3, 1 and 2, in that order. *)
Definition migration_at (ts : Z) (pin : string) : migration Z :=
  mk_migration (Some ts) [("python", VList [VStr pin])].

Definition three_one_two : list (string * migration Z) :=
  [("c.yaml", migration_at 3 "3.12"); ("a.yaml", migration_at 1 "3.10");
   ("b.yaml", migration_at 2 "3.11")].

(** A migration stamped with a number and one stamped with a string. *)
Definition number_and_text : list (string * migration number_or_text) :=
  [("a.yaml", mk_migration (Some (Number 1)) [("python", VList [VStr "3.10"])]);
   ("b.yaml", mk_migration (Some (Text "2")) [("python", VList [VStr "3.11"])])].

(** The list a mapping holds under a key, empty when the key is absent. *)
Definition items (m : dict) (k : string) : list value :=
  match lookup k m with
  | Some v => iter_value v
  | None => []
  end.

(** [pin_run_as_build] maps packages to mappings. *)
Definition pins_well_formed (v : value) : Prop :=
  exists d, v = VDict d /\ forall pkg p, In (pkg, p) d -> exists pins, p = VDict pins.

(** A mapping [sort_config] can sort for the zip groups [gs]: every
    variable holds a list of strings, [zip_keys] a list of groups,
    [pin_run_as_build] a mapping of mappings, and the members of a group
    that are present have lists of one length. *)
Record sortable (gs : list (list string)) (c : dict) : Prop := mk_sortable {
  sortable_keys : NoDup (map fst c);
  sortable_values :
    forall k v, lookup k c = Some v -> k <> "zip_keys" -> k <> "pin_run_as_build" ->
                exists l, v = strings l;
  sortable_zip_keys :
    forall v, lookup "zip_keys" c = Some v -> exists groups, v = groups_value groups;
  sortable_pins :
    forall v, lookup "pin_run_as_build" c = Some v -> pins_well_formed v;
  sortable_lengths :
    forall g k k', In g gs -> In k g -> In k' g ->
                   lookup k c <> None -> lookup k' c <> None ->
                   length (items c k) = length (items c k');
  sortable_members :
    forall g k, In g gs -> In k g -> k <> "zip_keys" /\ k <> "pin_run_as_build"
}.

(** A group whose members are all present with lists of strings of one
    length. *)
Definition uniform_group (c : dict) (g : list string) : Prop :=
  (forall k, In k g -> exists l, lookup k c = Some (strings l))
  /\ (forall k k', In k g -> In k' g -> length (items c k) = length (items c k')).


(** [gs] are the groups under [zip_keys], none when the key is absent. *)
Definition zip_groups_are (gs : list (list string)) (m : dict) : Prop :=
  lookup "zip_keys" m = Some (groups_value gs)
  \/ (lookup "zip_keys" m = None /\ gs = []).

(** The groups [sort_config] is given after the loop over the top-level
    keys. *)
Definition groups_after (zip_key_groups : list value) (sq : dict) : value :=
  match lookup "zip_keys" sq with
  | Some z => z
  | None => VList zip_key_groups
  end.


(** The scenario of the specification: [python] and [numpy] zipped,
    [docker_image] constant, one free compiler variable. *)
Definition python_numpy : dict :=
  [("python", strings ["3.9"; "3.10"; "3.9"]);
   ("numpy", strings ["1.21"; "1.23"; "1.22"]);
   ("c_compiler", strings ["gcc"; "clang"]);
   ("docker_image", strings ["quay.io/condaforge/linux-anvil-cos7-x86_64"]);
   ("zip_keys", groups_value [["python"; "numpy"]])].

(** The same mapping before trimming: [pypy] and [cxx_compiler] are named
    in [zip_keys] but are no keys of the mapping. *)
Definition untrimmed_python_numpy : dict :=
  [("python", strings ["3.9"; "3.10"; "3.9"]);
   ("numpy", strings ["1.21"; "1.23"; "1.22"]);
   ("c_compiler", strings ["gcc"; "clang"]);
   ("docker_image", strings ["quay.io/condaforge/linux-anvil-cos7-x86_64"]);
   ("zip_keys", groups_value [["python"; "numpy"; "pypy"];
                              ["c_compiler"; "cxx_compiler"]])].

(** ** Vocabulary of the partition *)

(** The top-level combination of a config: the single value of every
    top-level variable. *)
Definition top_combo (tl : list string) (config : dict) : list (option value) :=
  map (top_value config) tl.

(** A row of a squished mapping picks one position for every variable, the
    same position for variables zipped together. *)
Definition row_selector (gs : list (list string)) (sel : string -> nat) : Prop :=
  forall g k k', In g gs -> In k g -> In k' g -> sel k = sel k'.

(** A top-level combination is present in the mapping when it is what some
    row holds under the top-level variables. *)
Definition present (tl : list string) (gs : list (list string)) (m : dict)
  (c : list (option value)) : Prop :=
  exists sel,
    row_selector gs sel
    /\ (forall k, In k tl -> sel k < length (items m k))
    /\ c = map (fun k => nth_error (items m k) (sel k)) tl.

(** What [break_up_top_level_values] is given: a squished mapping whose zip
    groups [gs] are disjoint and have all their members present, and
    top-level variables that are keys of the mapping. *)
Record partition_input (tl : list string) (gs : list (list string)) (m : dict)
  : Prop := mk_partition_input {
  pi_sortable : sortable gs m;
  pi_zip : zip_groups_are gs m;
  pi_disjoint : NoDup (concat gs);
  pi_members : forall g k, In g gs -> In k g -> lookup k m <> None;
  pi_set : NoDup tl;
  pi_keys : forall k, In k tl ->
                      lookup k m <> None /\ k <> "zip_keys" /\ k <> "pin_run_as_build"
}.

(** The mapping is deduplicated: the list of a top-level variable that is
    in no zip group holds no value twice. *)
Definition deduplicated (tl : list string) (gs : list (list string)) (m : dict) : Prop :=
  forall k, In k tl -> find (mem k) gs = None -> NoDup (items m k).

(** The dimension of a standalone top-level variable. *)
Definition standalone_dim (m : dict) (k : string) : list dict :=
  map (fun val => [(k, VList [val])]) (items m k).

Definition str_at (m : dict) (k : string) (idx : nat) : string :=
  match nth_error (items m k) idx with
  | Some (VStr s) => s
  | _ => ""
  end.

(** The tuple of top-level values of a group at a position, and the
    one-row mapping of the group there. *)
Definition zip_key_at (tl : list string) (m : dict) (g : list string) (idx : nat)
  : list string :=
  map (fun k => str_at m k idx) (filter (fun k => mem k tl) g).

Definition zip_entry_at (m : dict) (g : list string) (idx : nat) : dict :=
  map (fun k => (k, VList [VStr (str_at m k idx)])) g.

(** The rows of a group gathered by their tuple of top-level values. *)
Definition zip_classes (tl : list string) (m : dict) (g : list string) (n : nat)
  : list (list string * list dict) :=
  fold_left (fun d r => group_append (fst r) (snd r) d)
            (map (fun idx => (zip_key_at tl m g idx, zip_entry_at m g idx)) (seq 0 n)) [].

(** The pseudo-dimension of a zip group with [n] rows. *)
Definition zipped_dim (tl : list string) (m : dict) (g : list string) (n : nat)
  : list dict :=
  map (fun e => merge_list_of_dicts (snd e)) (zip_classes tl m g n).

(** The units the loop over the top-level keys makes: a standalone key, or
    the key that reaches a zip group with that group. [acc] are the keys
    accounted for. *)
Fixpoint plan (gs : list (list string)) (keys acc : list string)
  : list (string * option (list string)) :=
  match keys with
  | [] => []
  | k :: r =>
      if mem k acc then plan gs r acc
      else match find (mem k) gs with
           | Some g => (k, Some g) :: plan gs r (acc ++ g)
           | None => (k, None) :: plan gs r acc
           end
  end.

Definition unit_keys (u : string * option (list string)) : list string :=
  match snd u with
  | Some g => g
  | None => [fst u]
  end.

Definition standalone_keys (p : list (string * option (list string))) : list string :=
  flat_map (fun u => match snd u with Some _ => [] | None => [fst u] end) p.

Definition zipped_units (p : list (string * option (list string)))
  : list (string * list string) :=
  flat_map (fun u => match snd u with Some g => [(fst u, g)] | None => [] end) p.

Definition remove_keys (ks : list string) (d : dict) : dict :=
  fold_left (fun d k => remove_key k d) ks d.

(** The invariant of the loop over the top-level keys still to come. *)
Definition loop_inv (tl : list string) (gs : list (list string)) (m : dict)
  (keys : list string) (st : bstate) : Prop :=
  NoDup keys
  /\ (forall k, In k keys -> In k tl)
  /\ (forall k, In k keys -> ~ In k (accounted_for_keys st) ->
                lookup k (squished st) = lookup k m
                /\ forall g k', In g gs -> In k g -> In k' g ->
                                lookup k' (squished st) = lookup k' m)
  /\ (forall k, In k (accounted_for_keys st) ->
                exists g, In g gs /\ In k g
                          /\ forall k', In k' g -> In k' (accounted_for_keys st)).

(** The top-level variables that vary together with [k]: the top-level
    members of its zip group, or [k] alone. *)
Definition peers (tl : list string) (gs : list (list string)) (k : string) : list string :=
  match find (mem k) gs with
  | Some g => filter (fun k' => mem k' tl) g
  | None => [k]
  end.

(** What a dimension [d] of the product contributes for the top-level
    variables [K] it owns: each of its entries is a row of the mapping on
    [K], every row is there, and no two entries agree on [K]. *)
Record dim_ok (tl : list string) (gs : list (list string)) (m : dict)
  (K : list string) (d : list dict) : Prop := mk_dim_ok {
  dim_keys : forall y, In y d -> NoDup (map fst y);
  dim_owns : forall y k, In y d -> In k tl -> lookup k y <> None -> In k K;
  dim_sub : forall k, In k K -> In k tl /\ peers tl gs k = K;
  dim_row : forall y, In y d ->
            exists idx, forall k, In k K ->
                          idx < length (items m k)
                          /\ top_value y k = nth_error (items m k) idx;
  dim_all : forall sel, row_selector gs sel ->
            (forall k, In k tl -> sel k < length (items m k)) ->
            exists y, In y d
                      /\ forall k, In k K ->
                           top_value y k = nth_error (items m k) (sel k);
  dim_inj : deduplicated tl gs m ->
            forall y y', In y d -> In y' d ->
            (forall k, In k K -> top_value y k = top_value y' k) -> y = y';
  dim_nodup : deduplicated tl gs m -> NoDup d;
  dim_reserved : forall y, In y d -> K <> [] -> lookup "zip_keys" y = None
}.

(** [config] holds under [k] the string the mapping has at position [idx]. *)
Definition agrees (m config : dict) (idx : nat) (k : string) : bool :=
  match top_value config k, nth_error (items m k) idx with
  | Some a, Some (VStr s) => py_eqb a (VStr s)
  | _, _ => false
  end.

(** The first position at which the mapping agrees with [config] on [k] and
    on the variables zipped with it. *)
Definition sel_of (tl : list string) (gs : list (list string)) (m config : dict)
  (k : string) : nat :=
  match find (fun idx => forallb (agrees m config idx) (peers tl gs k))
             (seq 0 (length (items m k))) with
  | Some idx => idx
  | None => 0
  end.

(** [perm] takes one entry from every dimension. *)
Definition chosen (specs : list (list string * list dict)) (perm : list dict) : Prop :=
  Forall2 (fun y s => In y (snd s)) perm specs.

(** The values [merge_list_of_dicts] has gathered under a key, and the
    body of its inner loop. *)
Definition gathered (sq : dict) (k : string) : list value :=
  match lookup k sq with
  | Some (VList c) => c
  | _ => []
  end.

Definition merge_step (sq : dict) (kv : string * value) : dict :=
  setitem (fst kv) (VList (gathered sq (fst kv) ++ iter_value (snd kv))) sq.

(** What the items of the merged mappings hold under [k], in order. *)
Definition collect (k : string) (its : list (string * value)) : list value :=
  flat_map (fun kv => if eq_dec (fst kv) k then iter_value (snd kv) else []) its.

(** Every value of the mapping is a list. *)
Definition all_lists (sq : dict) : Prop :=
  forall k v, lookup k sq = Some v -> exists c, v = VList c.

(** The entries of a class of rows: those stored under the key [t]. *)
Definition picks {K V : Type} `{EqDec K} (t : K) (rows : list (K * V)) : list V :=
  map snd (filter (fun r => if eq_dec (fst r) t then true else false) rows).

(** The positions of a zip group whose tuple of top-level values is [t]. *)
Definition zip_class (tl : list string) (m : dict) (g : list string) (n : nat)
  (t : list string) : list nat :=
  filter (fun idx => if eq_dec (zip_key_at tl m g idx) t then true else false) (seq 0 n).

(** The merged mapping of a class of positions. *)
Definition zip_config (m : dict) (g : list string) (idxs : list nat) : dict :=
  merge_list_of_dicts (map (zip_entry_at m g) idxs).

(** The accounted keys are whole zip groups. *)
Definition whole_groups (gs : list (list string)) (acc : list string) : Prop :=
  forall k, In k acc -> exists g, In g gs /\ In k g /\ forall k', In k' g -> In k' acc.

(** * Further functions of [configure_feedstock.py] *)

(** ** [_package_var_name] and [_trim_unused_pin_run_as_build] *)

Definition _package_var_name (pkg : string) : string := replace_char "-" "_" pkg.

(** [all_used_vars.get("pin_run_as_build", {})] *)
Definition pin_run_as_build_of (all_used_vars : dict) : value :=
  match lookup "pin_run_as_build" all_used_vars with
  | Some pkgs => pkgs
  | None => VDict []
  end.

(** A non-empty list or string has no [keys]. *)
Definition _trim_unused_pin_run_as_build (all_used_vars : dict) : result dict :=
  let pkgs := pin_run_as_build_of all_used_vars in
  used_pkgs <-
    (if truthy pkgs
     then match pkgs with
          | VDict d =>
              Ok (filter (fun kv => contains (_package_var_name (fst kv)) all_used_vars) d)
          | _ => Raise AttributeError
          end
     else Ok []) ;;
  if is_nil used_pkgs
  then Ok (remove_key "pin_run_as_build" all_used_vars)
  else Ok (setitem "pin_run_as_build" (VDict used_pkgs) all_used_vars).

(** ** [_santize_remote_ci_setup] *)

Definition double_quote : string := String "034"%char EmptyString.

(** The body of the loop: the package as it is appended. *)
Definition sanitized_package (package : string) : string :=
  if prefix "'" package || prefix double_quote package then package
  else if is_substring "<" package || is_substring ">" package || is_substring "|" package
       then (double_quote ++ package ++ double_quote)%string
       else package.

(** [remote_ci_setup_] is the list [ensure_list] makes of the argument. *)
Definition _santize_remote_ci_setup (remote_ci_setup_ : list string) : list string :=
  map sanitized_package remote_ci_setup_.

(** A mapping with pins for [numpy] and for [boost-cpp], whose variable
    [boost_cpp] is not used. *)
Definition pinned_numpy : dict :=
  [("numpy", strings ["1.21"]);
   ("pin_run_as_build",
    VDict [("numpy", VDict [("min_pin", VStr "x.x"); ("max_pin", VStr "x.x")]);
           ("boost-cpp", VDict [("max_pin", VStr "x.x.x")])])].

(** ** Vocabulary of the further statements *)

(** [config] holds a one-element list under [k]. *)
Definition single_valued (config : dict) (k : string) : Prop :=
  exists x, lookup k config = Some (VList [x]).

(** Every member of [ziplist] is [docker_image] or a name under which
    [config] holds a one-element list. *)
Definition group_finalized (config : dict) (ziplist : value) : Prop :=
  forall key, In key (iter_value ziplist) ->
              key = VStr "docker_image" \/ exists k, key = VStr k /\ single_valued config k.

(** [a <= b] on strings, by character code. *)
Definition string_le (a b : string) : Prop := String.leb a b = true.

(** [a < b] on tuples of strings: the order of the first pair of unequal
    elements, a proper prefix being smaller. *)
Fixpoint lex_ltb (a b : list string) : bool :=
  match a, b with
  | [], [] => false
  | [], _ :: _ => true
  | _ :: _, [] => false
  | x :: xs, y :: ys => if String.eqb x y then lex_ltb xs ys else String.ltb x y
  end.

(** The three-way comparison of tuples of strings. *)
Fixpoint lex_compare (a b : list string) : comparison :=
  match a, b with
  | [], [] => Eq
  | [], _ :: _ => Lt
  | _ :: _, [] => Gt
  | x :: xs, y :: ys =>
      match String.compare x y with
      | Eq => lex_compare xs ys
      | c => c
      end
  end.

(** [a <= b] on tuples of strings. *)
Definition lex_le (a b : list string) : Prop := lex_ltb b a = false.

(** The positions [i] and [j] of rows are in the order of a stable
    ascending sort: the row at [i] is not above the row at [j], and equal
    rows keep the order of their positions. *)
Definition stably_before {A : Type} (ltb : A -> A -> bool) (row : nat -> A) (i j : nat)
  : Prop :=
  ltb (row j) (row i) = false /\ (ltb (row i) (row j) = false -> i < j).

(** The members of a zip group that are keys of the config. *)
Definition present_members (c : dict) (g : list string) : list string :=
  filter (fun k => contains k c) g.

(** The row of a zip group at a position: what its present members hold
    there. *)
Definition group_row (c : dict) (g : list string) (idx : nat) : list string :=
  map (fun k => str_at c k idx) (present_members c g).

(** A config with a free variable, two zipped variables and pins. *)
Definition unsorted_pins : dict :=
  [("zlib", VDict [("max_pin", VStr "x.x"); ("min_pin", VStr "x")]);
   ("boost", VDict [("max_pin", VStr "x")])].

Definition unsorted_config : dict :=
  [("c_compiler", strings ["gcc"; "clang"]);
   ("python", strings ["3.9"; "3.10"; "3.9"]);
   ("numpy", strings ["1.22"; "1.23"; "1.21"]);
   ("zip_keys", groups_value [["python"; "numpy"]]);
   ("pin_run_as_build", VDict unsorted_pins)].

(** What [sort_config] makes of the pins of one package. *)
Definition sorted_pins (pins : value) : value :=
  match pins with
  | VDict pkg_pins => VDict (reorder (rev (sort_strings (map fst pkg_pins))) pkg_pins)
  | _ => pins
  end.

(** ** [_update_dict_within_dict] *)

(** [config.get(key, {})]: only a mapping has [get]. *)
Definition config_get (key : string) (config : value) : result value :=
  match config with
  | VDict d => Ok (match lookup key d with
                   | Some v => v
                   | None => VDict []
                   end)
  | _ => Raise AttributeError
  end.

(** [config[key] = v]: a string or a list takes no string key. *)
Definition config_set (key : string) (v : value) (config : value) : result value :=
  match config with
  | VDict d => Ok (VDict (setitem key v d))
  | _ => Raise TypeError
  end.

(** [_update_dict_within_dict(v.items(), config)]: the recursive call is
    made with the items of a mapping. *)
Fixpoint update_within (v : value) (config : value) {struct v} : result value :=
  match v with
  | VDict items =>
      (fix loop (items : list (string * value)) (config : value) {struct items}
         : result value :=
         match items with
         | [] => Ok config
         | (key, value) :: rest =>
             config' <- match value with
                        | VDict _ =>
                            sub <- config_get key config ;;
                            merged <- update_within value sub ;;
                            config_set key merged config
                        | _ => config_set key value config
                        end ;;
             loop rest config'
         end) items config
  | _ => Raise AttributeError
  end.

Definition _update_dict_within_dict (items : list (string * value)) (config : value)
  : result value :=
  update_within (VDict items) config.

(** What [config] holds under [key], or the empty mapping. *)
Definition sub_config (key : string) (c : dict) : value :=
  match lookup key c with
  | Some v => v
  | None => VDict []
  end.

(** Default settings and the settings of a file that override some. *)
Definition default_settings : dict :=
  [("recipe_dir", VStr "recipe");
   ("azure", VDict [("force", VStr "False"); ("timeout_minutes", VStr "360")]);
   ("provider", VDict [("linux_64", VList [VStr "azure"])])].

Definition file_settings : dict :=
  [("azure", VDict [("force", VStr "True")]);
   ("github", VDict [("branch_name", VStr "main")])].

(** No mapping inside [v], at any depth below mappings, has a key twice. *)
Fixpoint well_keyed (v : value) : Prop :=
  match v with
  | VDict d =>
      NoDup (map fst d)
      /\ (fix all (d : list (string * value)) : Prop :=
            match d with
            | [] => True
            | (_, x) :: r => well_keyed x /\ all r
            end) d
  | _ => True
  end.

(** The rows of the mapping at which the top-level members of the zip
    group [g] hold the values [config] holds for them; [n] is the number
    of rows of the group. *)
Definition merged_rows (tl : list string) (m config : dict) (g : list string) (n : nat)
  : list nat :=
  filter (fun idx => forallb (agrees m config idx) (filter (fun k => mem k tl) g))
         (seq 0 n).

(** ** [dump_subspace_config_files] *)

(** One entry of the list [dump_subspace_config_files] returns. *)
Record dumped : Type := mk_dumped {
  dumped_config_name : string;
  dumped_platform : value;
  dumped_upload : bool;
  dumped_config : dict;
  dumped_short_config_name : string;
  dumped_build_platform : string
}.

(** [config.get("target_platform", [platform_arch])[0]] *)
Definition target_platform_of (config : dict) (platform arch : string) : result value :=
  match lookup "target_platform" config with
  | Some v => index_value v 0
  | None => Ok (VStr (platform ++ "-" ++ arch))
  end.

(** The body of the loop over the configs; the file it writes holds the
    finalized config under the name [config_name]. *)
Definition dump_config (repr : value -> string) (sha256_hex : string -> string)
  (top_level_loop_vars : list string) (platform arch : string) (upload : bool)
  (forge_config : dict) (config : dict) : result dumped :=
  key <- package_key repr config top_level_loop_vars ;;
  let names := config_names sha256_hex platform arch key in
  config' <- finalize_config config platform arch forge_config ;;
  target_platform <- target_platform_of config' platform arch ;;
  bp <- build_platform_of forge_config platform arch ;;
  match bp with
  | VStr build_platform =>
      Ok (mk_dumped (fst names) target_platform upload config' (snd names)
                    (replace_char "_" "-" build_platform))
  | _ => Raise AttributeError
  end.

(** [configs] and [top_level_loop_vars] are what
    [_collapse_subpackage_variants] returns for the metas. *)
Definition dump_subspace_config_files (repr : value -> string)
  (sha256_hex : string -> string) (configs : list dict)
  (top_level_loop_vars : list string) (platform arch : string) (upload : bool)
  (forge_config : dict) : result (list dumped) :=
  result <- mapM (dump_config repr sha256_hex top_level_loop_vars platform arch upload
                              forge_config) configs ;;
  Ok (sort_pure (fun a b => String.ltb (dumped_config_name a) (dumped_config_name b))
                result).
(** * Properties *)

(** ** The result monad *)

Lemma bind_ok {A B : Type} (r : result A) (f : A -> result B) (b : B) :
  bind r f = Ok b -> exists a, r = Ok a /\ f a = Ok b.
Proof.
  destruct r as [a | e]; simpl; intros Hb; [exists a; auto | discriminate].
Qed.

Ltac inv_bind H :=
  let a := fresh "a" in
  let Ha := fresh "Ha" in
  apply bind_ok in H; destruct H as [a [Ha H]].

Lemma bind_then {A B C : Type} (r : result A) (f : A -> result B) (g : B -> result C)
  (x : B) :
  bind r f = Ok x -> bind r (fun c => bind (f c) g) = g x.
Proof.
  destruct r as [a | e]; simpl; [intros ->; reflexivity | discriminate].
Qed.

Lemma mapM_ok_Forall2 {A B : Type} (f : A -> result B) (l : list A) (l' : list B) :
  mapM f l = Ok l' -> Forall2 (fun x y => f x = Ok y) l l'.
Proof.
  revert l'; induction l as [| x r IH]; simpl; intros l' Hm.
  - inversion Hm; constructor.
  - inv_bind Hm. inv_bind Hm. inversion Hm; subst. constructor; auto.
Qed.

Lemma Forall2_mapM_ok {A B : Type} (f : A -> result B) (l : list A) (l' : list B) :
  Forall2 (fun x y => f x = Ok y) l l' -> mapM f l = Ok l'.
Proof.
  induction 1 as [| x y r r' Hxy _ IH]; simpl; [reflexivity |].
  rewrite Hxy; simpl. rewrite IH; reflexivity.
Qed.

Lemma mapM_total {A B : Type} (f : A -> result B) (l : list A) :
  (forall x, In x l -> exists y, f x = Ok y) -> exists l', mapM f l = Ok l'.
Proof.
  induction l as [| x r IH]; simpl; intros Hf.
  - eexists; reflexivity.
  - destruct (Hf x (or_introl eq_refl)) as [y Hy]. rewrite Hy; simpl.
    destruct IH as [ys Hys]; [intros; apply Hf; auto |].
    rewrite Hys; simpl. eexists; reflexivity.
Qed.

Lemma mapM_pure {A B : Type} (f : A -> result B) (g : A -> B) (l : list A) :
  (forall x, In x l -> f x = Ok (g x)) -> mapM f l = Ok (map g l).
Proof.
  induction l as [| x r IH]; simpl; intros Hf; [reflexivity |].
  rewrite (Hf x (or_introl eq_refl)); simpl.
  rewrite IH; [reflexivity | intros; apply Hf; auto].
Qed.

(** ** Sorting *)

Lemma insert_pure_perm {A : Type} (ltb : A -> A -> bool) (x : A) (l : list A) :
  Permutation (x :: l) (insert_pure ltb x l).
Proof.
  induction l as [| y r IH]; simpl; [apply Permutation_refl |].
  destruct (ltb y x).
  - eapply perm_trans; [apply perm_swap | apply perm_skip, IH].
  - apply Permutation_refl.
Qed.

Lemma sort_pure_perm {A : Type} (ltb : A -> A -> bool) (l : list A) :
  Permutation l (sort_pure ltb l).
Proof.
  induction l as [| x r IH]; simpl; [constructor |].
  eapply perm_trans; [apply perm_skip, IH | apply insert_pure_perm].
Qed.

Lemma sort_strings_In (l : list string) (k : string) :
  In k (sort_strings l) <-> In k l.
Proof.
  split; apply Permutation_in;
    [apply Permutation_sym |]; apply sort_pure_perm.
Qed.

(** ** Naming *)

Lemma replace_twice (s : string) :
  replace_char " " "_" (replace_char "*" "_" s) = map_string star_space_to_underscore s.
Proof.
  induction s as [| c r IH]; simpl; [reflexivity |].
  rewrite IH. f_equal. unfold star_space_to_underscore.
  destruct (Ascii.eqb c "*") eqn:Hstar; simpl.
  - reflexivity.
  - reflexivity.
Qed.

Lemma map_string_chars (f : ascii -> ascii) (s : string) :
  list_ascii_of_string (map_string f s) = map f (list_ascii_of_string s).
Proof.
  induction s as [| c r IH]; simpl; [reflexivity | rewrite IH; reflexivity].
Qed.

Lemma star_space_gone (c : ascii) :
  star_space_to_underscore c <> "*"%char /\ star_space_to_underscore c <> " "%char.
Proof.
  unfold star_space_to_underscore.
  destruct (Ascii.eqb c "*") eqn:Hs; simpl; [split; discriminate |].
  destruct (Ascii.eqb c " ") eqn:Hp; simpl; [split; discriminate |].
  apply Ascii.eqb_neq in Hs, Hp. split; assumption.
Qed.

Lemma star_space_other (c : ascii) :
  c <> "*"%char -> c <> " "%char -> star_space_to_underscore c = c.
Proof.
  intros Hs Hp. unfold star_space_to_underscore.
  apply Ascii.eqb_neq in Hs, Hp. rewrite Hs, Hp. reflexivity.
Qed.

Lemma package_key_parts (repr : value -> string) (config : dict) (ks : list string) :
  (forall k, In k ks -> exists v, top_value config k = Some v) ->
  mapM (fun k => c <- getitem k config ;; v <- index_value c 0 ;;
                 Ok (k ++ str_of repr v)%string) ks
  = Ok (map (fun k => (k ++ match top_value config k with
                            | Some v => str_of repr v
                            | None => ""
                            end)%string) ks).
Proof.
  intros Hks. apply mapM_pure. intros k Hk.
  destruct (Hks k Hk) as [v Hv]. rewrite Hv.
  unfold top_value, getitem in *.
  destruct (lookup k config) as [c |]; [| discriminate]. simpl.
  destruct (index_value c 0) as [x | e]; [| discriminate].
  inversion Hv; subst. reflexivity.
Qed.

(** C2, as the code has it: when every top-level variable other than
    [target_platform] resolves to a value in the config, [package_key]
    returns the concatenation, in ascending order of the variable names, of
    each such name with its value, in which exactly the characters [*] and
    space are replaced by an underscore; every other character, alphanumeric
    or not, stays. *)
Theorem package_key_replaces_star_and_space
  (repr : value -> string) (config : dict) (used_loop_vars : list string) :
  (forall k, In k used_loop_vars -> k <> "target_platform" ->
             exists v, top_value config k = Some v) ->
  exists name,
    package_key repr config used_loop_vars = Ok name
    /\ name = map_string star_space_to_underscore
                         (raw_package_key repr config used_loop_vars)
    /\ (forall c, In c (list_ascii_of_string name) -> c <> "*"%char /\ c <> " "%char)
    /\ (forall c, c <> "*"%char -> c <> " "%char -> star_space_to_underscore c = c).
Proof.
  intros Hres. unfold package_key, raw_package_key.
  rewrite package_key_parts.
  - simpl. rewrite replace_twice. eexists; split; [reflexivity |].
    split; [reflexivity |]. split.
    + intros c Hc. rewrite map_string_chars in Hc.
      apply in_map_iff in Hc. destruct Hc as [c0 [Hc0 _]]. subst c.
      apply star_space_gone.
    + exact star_space_other.
  - intros k Hk. apply filter_In in Hk. destruct Hk as [Hk Hne].
    apply (proj1 (sort_strings_In _ _)) in Hk. apply Hres; [assumption |].
    intros Heq; subst k. discriminate.
Qed.

Lemma package_key_replaces_star_and_space_witness :
  exists name,
    package_key (fun _ => "") [("python", VList [VStr "3.9"]); ("c_compiler", VList [VStr "gcc *"])]
                ["python"; "c_compiler"] = Ok name
    /\ name = "c_compilergcc__python3.9".
Proof.
  destruct (package_key_replaces_star_and_space (fun _ => "")
              [("python", VList [VStr "3.9"]); ("c_compiler", VList [VStr "gcc *"])]
              ["python"; "c_compiler"]) as [name [Hn [He _]]].
  - intros k [Hk | [Hk | []]] _; subst k; eexists; reflexivity.
  - exists name. split; [exact Hn | rewrite He; reflexivity].
Defined.

(** C2, as stated, fails: the name of a config whose [python] is [3.9] keeps
    the dot, which is neither alphanumeric nor an underscore. *)
Lemma package_key_keeps_other_characters :
  ~ (forall (repr : value -> string) (config : dict) (used_loop_vars : list string)
            (name : string),
        package_key repr config used_loop_vars = Ok name ->
        name_normalized name = true).
Proof.
  intros Hall.
  specialize (Hall (fun _ => "") [("python", VList [VStr "3.9"])] ["python"]
                   "python3.9" eq_refl).
  discriminate Hall.
Qed.

Lemma length_substring_prefix (n : nat) (s : string) :
  n <= String.length s -> String.length (substring 0 n s) = n.
Proof.
  revert s; induction n as [| n IH]; intros s Hn.
  - destruct s; reflexivity.
  - destruct s as [| c r]; simpl in *; [lia |].
    rewrite IH; [reflexivity | lia].
Qed.

Lemma length_string_app (s t : string) :
  String.length (s ++ t)%string = String.length s + String.length t.
Proof.
  induction s as [| c r IH]; simpl; [reflexivity | rewrite IH; reflexivity].
Qed.

(** C8: when the assembled name with the [conda-forge-build-done-] prefix
    reaches 250 characters, the emitted name is the first 35 characters of
    the full name, then [_h], then the first ten characters of the SHA-256
    digest of the full name. The prefix has exactly 35 characters, both
    emitted names are then this short form, and the names are a function of
    the full name alone. The function has no way to raise. *)
Theorem config_name_shortened (sha256_hex : string -> string)
  (platform arch key : string) :
  let full := (platform ++ "_" ++ arch ++ "_" ++ key)%string in
  250 <= String.length ("conda-forge-build-done-" ++ full)%string ->
  fst (config_names sha256_hex platform arch key)
  = (substring 0 35 full ++ "_h" ++ substring 0 10 (sha256_hex full))%string
  /\ String.length (substring 0 35 full) = 35
  /\ snd (config_names sha256_hex platform arch key)
     = fst (config_names sha256_hex platform arch key)
  /\ (forall platform' arch' key',
         (platform' ++ "_" ++ arch' ++ "_" ++ key')%string = full ->
         config_names sha256_hex platform' arch' key'
         = config_names sha256_hex platform arch key).
Proof.
  intros full Hlen.
  assert (Hfull : 227 <= String.length full).
  { rewrite length_string_app in Hlen. simpl in Hlen. lia. }
  unfold config_names. fold full.
  assert (H250 : (250 <=? String.length ("conda-forge-build-done-" ++ full)%string)%nat = true)
    by (apply Nat.leb_le; exact Hlen).
  assert (H49 : (49 <=? String.length full)%nat = true) by (apply Nat.leb_le; lia).
  rewrite H250, H49. cbn [fst snd].
  split; [reflexivity |].
  split; [apply length_substring_prefix; lia |].
  split; [reflexivity |].
  intros platform' arch' key' Heq. rewrite Heq, H250, H49. reflexivity.
Qed.

(** A name that stays under the ceiling is emitted as it is. *)
Lemma config_name_kept (sha256_hex : string -> string) (platform arch key : string) :
  let full := (platform ++ "_" ++ arch ++ "_" ++ key)%string in
  String.length ("conda-forge-build-done-" ++ full)%string < 250 ->
  fst (config_names sha256_hex platform arch key) = full.
Proof.
  intros full Hlen. unfold config_names. fold full.
  assert (H250 : (250 <=? String.length ("conda-forge-build-done-" ++ full)%string)%nat = false)
    by (apply Nat.leb_gt; exact Hlen).
  rewrite H250. reflexivity.
Qed.

Lemma config_name_shortened_witness :
  250 <= String.length ("conda-forge-build-done-" ++ "linux" ++ "_" ++ "64" ++ "_" ++ long_key)%string
  /\ fst (config_names (fun _ => "0123456789abcdef") "linux" "64" long_key)
     = "linux_64_c_compilergcccuda_compiler_h0123456789".
Proof.
  split.
  - vm_compute. lia.
  - rewrite (proj1 (config_name_shortened (fun _ => "0123456789abcdef")
                      "linux" "64" long_key ltac:(vm_compute; lia))).
    reflexivity.
Defined.

(** ** Mappings *)

Section AssocFacts.
Context {K V : Type} `{EqDec K}.

Lemma lookup_setitem_eq (k : K) (v : V) (d : list (K * V)) :
  lookup k (setitem k v d) = Some v.
Proof.
  induction d as [| [k' v'] r IH]; simpl.
  - destruct (eq_dec k k); [reflexivity | contradiction].
  - destruct (eq_dec k k') as [He | Hn]; simpl.
    + destruct (eq_dec k k); [reflexivity | contradiction].
    + destruct (eq_dec k k'); [contradiction | exact IH].
Qed.

Lemma lookup_setitem_ne (k k' : K) (v : V) (d : list (K * V)) :
  k <> k' -> lookup k' (setitem k v d) = lookup k' d.
Proof.
  intros Hne. induction d as [| [k0 v0] r IH]; simpl.
  - destruct (eq_dec k' k); [subst; contradiction | reflexivity].
  - destruct (eq_dec k k0) as [He | Hn]; simpl.
    + subst k0. destruct (eq_dec k' k); [subst; contradiction | reflexivity].
    + destruct (eq_dec k' k0); [reflexivity | exact IH].
Qed.

Lemma keys_setitem_present (k : K) (v : V) (d : list (K * V)) :
  In k (map fst d) -> map fst (setitem k v d) = map fst d.
Proof.
  induction d as [| [k0 v0] r IH]; simpl; intros Hin; [contradiction |].
  destruct (eq_dec k k0) as [He | Hn]; simpl; [subst; reflexivity |].
  f_equal. apply IH. destruct Hin as [Hin | Hin]; [subst; contradiction | exact Hin].
Qed.

Lemma keys_setitem_absent (k : K) (v : V) (d : list (K * V)) :
  ~ In k (map fst d) -> map fst (setitem k v d) = map fst d ++ [k].
Proof.
  induction d as [| [k0 v0] r IH]; simpl; intros Hin; [reflexivity |].
  destruct (eq_dec k k0) as [He | Hn]; simpl; [subst; tauto |].
  f_equal. apply IH. tauto.
Qed.

Lemma lookup_In_keys (k : K) (d : list (K * V)) :
  lookup k d <> None <-> In k (map fst d).
Proof.
  induction d as [| [k0 v0] r IH]; simpl; [tauto |].
  destruct (eq_dec k k0) as [He | Hn].
  - subst. split; [auto | discriminate].
  - rewrite IH. split; [auto | intros [Hk | Hk]; [subst; contradiction | exact Hk]].
Qed.

Lemma lookup_None_keys (k : K) (d : list (K * V)) :
  lookup k d = None <-> ~ In k (map fst d).
Proof.
  rewrite <- lookup_In_keys. destruct (lookup k d) as [v |].
  - split; [discriminate | intros Hx; exfalso; apply Hx; discriminate].
  - split; [intros _ Hc; apply Hc; reflexivity | reflexivity].
Qed.

Lemma lookup_In (k : K) (v : V) (d : list (K * V)) :
  lookup k d = Some v -> In (k, v) d.
Proof.
  induction d as [| [k0 v0] r IH]; simpl; [discriminate |].
  destruct (eq_dec k k0) as [He | Hn]; intros Hl.
  - inversion Hl; subst. left; reflexivity.
  - right; apply IH, Hl.
Qed.

Lemma In_lookup_NoDup (k : K) (v : V) (d : list (K * V)) :
  NoDup (map fst d) -> In (k, v) d -> lookup k d = Some v.
Proof.
  induction d as [| [k0 v0] r IH]; simpl; intros Hnd Hin; [contradiction |].
  inversion Hnd as [| ? ? Hnot Hnd']; subst.
  destruct Hin as [Hin | Hin].
  - inversion Hin; subst. destruct (eq_dec k k); [reflexivity | contradiction].
  - destruct (eq_dec k k0) as [He | Hn].
    + subst. exfalso. apply Hnot. apply in_map_iff. exists (k0, v); auto.
    + apply IH; assumption.
Qed.

Lemma NoDup_keys_setitem (k : K) (v : V) (d : list (K * V)) :
  NoDup (map fst d) -> NoDup (map fst (setitem k v d)).
Proof.
  intros Hnd. destruct (in_dec eq_dec k (map fst d)) as [Hin | Hout].
  - rewrite keys_setitem_present; assumption.
  - rewrite keys_setitem_absent by assumption.
    apply NoDup_app; [assumption | constructor; [intros [] | constructor] |].
    intros x Hx [Hk | []]. subst. contradiction.
Qed.

Lemma lookup_remove_key_eq (k : K) (d : list (K * V)) :
  lookup k (remove_key k d) = None.
Proof.
  induction d as [| [k0 v0] r IH]; simpl; [reflexivity |].
  destruct (eq_dec k k0) as [He | Hn]; simpl; [exact IH |].
  destruct (eq_dec k k0); [contradiction | exact IH].
Qed.

Lemma lookup_remove_key_ne (k k' : K) (d : list (K * V)) :
  k <> k' -> lookup k' (remove_key k d) = lookup k' d.
Proof.
  intros Hne. induction d as [| [k0 v0] r IH]; simpl; [reflexivity |].
  destruct (eq_dec k k0) as [He | Hn]; simpl.
  - subst k0. destruct (eq_dec k' k); [subst; contradiction | exact IH].
  - destruct (eq_dec k' k0); [reflexivity | exact IH].
Qed.

Lemma keys_remove_key (k : K) (d : list (K * V)) :
  map fst (remove_key k d) = filter (fun x => if eq_dec k x then false else true) (map fst d).
Proof.
  induction d as [| [k0 v0] r IH]; simpl; [reflexivity |].
  destruct (eq_dec k k0); simpl; rewrite IH; reflexivity.
Qed.

Lemma mem_true (k : K) (l : list K) : mem k l = true <-> In k l.
Proof.
  unfold mem. destruct (in_dec eq_dec k l); split; intros; auto; try discriminate; contradiction.
Qed.

Lemma mem_false (k : K) (l : list K) : mem k l = false <-> ~ In k l.
Proof.
  unfold mem. destruct (in_dec eq_dec k l); split; intros; auto; try discriminate; contradiction.
Qed.

Lemma contains_true (k : K) (d : list (K * V)) :
  contains k d = true <-> In k (map fst d).
Proof.
  rewrite <- lookup_In_keys. unfold contains.
  destruct (lookup k d); split; intros; auto; try discriminate; contradiction.
Qed.
End AssocFacts.

(** ** [finalize_config] *)

Lemma py_eqb_str (key : value) (s : string) :
  py_eqb key (VStr s) = true <-> key = VStr s.
Proof.
  destruct key as [t | l | d]; simpl.
  - rewrite String.eqb_eq. split; [intros ->; reflexivity | intros Hk; inversion Hk; reflexivity].
  - split; discriminate.
  - split; discriminate.
Qed.

Lemma top_value_lookup (config : dict) (k : string) (x : value) :
  top_value config k = Some x <->
  exists c, lookup k config = Some c /\ index_value c 0 = Ok x.
Proof.
  unfold top_value. destruct (lookup k config) as [c |].
  - destruct (index_value c 0) as [y | e] eqn:Hi; split.
    + intros Hy; inversion Hy; subst. exists c; auto.
    + intros [c' [Hc Hx]]. inversion Hc; subst. rewrite Hi in Hx. inversion Hx; reflexivity.
    + discriminate.
    + intros [c' [Hc Hx]]. inversion Hc; subst. rewrite Hi in Hx. discriminate.
  - split; [discriminate | intros [c [Hc _]]; discriminate].
Qed.

Lemma top_value_same_lookup (config config' : dict) (k : string) :
  lookup k config = lookup k config' -> top_value config k = top_value config' k.
Proof. unfold top_value. intros ->. reflexivity. Qed.

Lemma top_value_singleton (config : dict) (k : string) (x : value) :
  lookup k config = Some (VList [x]) -> top_value config k = Some x.
Proof. unfold top_value. intros ->. reflexivity. Qed.

Lemma truncate_key_ok (cfg cfg' : dict) (k : string) :
  truncate_key cfg k = Ok cfg' ->
  exists x, top_value cfg k = Some x /\ cfg' = setitem k (VList [x]) cfg.
Proof.
  unfold truncate_key. intros Ht. inv_bind Ht. inv_bind Ht. inversion Ht; subst.
  exists a0. split; [| reflexivity].
  apply top_value_lookup. exists a. split; [| assumption].
  unfold getitem in Ha. destruct (lookup k cfg); inversion Ha; reflexivity.
Qed.

Lemma truncate_key_total (cfg : dict) (k : string) (x : value) :
  top_value cfg k = Some x -> truncate_key cfg k = Ok (setitem k (VList [x]) cfg).
Proof.
  intros Hx. apply top_value_lookup in Hx. destruct Hx as [c [Hc Hx]].
  unfold truncate_key, getitem. rewrite Hc. simpl. rewrite Hx. reflexivity.
Qed.

Section Finalize.
Variable base : dict.

Lemma finalize_inv_top (cfg : dict) (k : string) :
  finalize_inv base cfg -> top_value cfg k = top_value base k.
Proof.
  intros Hinv. destruct (Hinv k) as [Hsame | [x [Hx Hl]]].
  - apply top_value_same_lookup, Hsame.
  - rewrite Hx. apply top_value_singleton, Hl.
Qed.

Lemma finalize_inv_truncate (cfg cfg' : dict) (k : string) :
  finalize_inv base cfg -> truncate_key cfg k = Ok cfg' ->
  finalize_inv base cfg' /\ truncated_at base cfg' k
  /\ (forall k', k' <> k -> lookup k' cfg' = lookup k' cfg).
Proof.
  intros Hinv Ht. apply truncate_key_ok in Ht. destruct Ht as [x [Hx ->]].
  rewrite (finalize_inv_top cfg k Hinv) in Hx.
  assert (Hk : truncated_at base (setitem k (VList [x]) cfg) k).
  { exists x. split; [exact Hx | apply lookup_setitem_eq]. }
  assert (Hother : forall k', k' <> k ->
              lookup k' (setitem k (VList [x]) cfg) = lookup k' cfg).
  { intros k' Hne. apply lookup_setitem_ne. congruence. }
  split; [| split; assumption].
  intros k'. destruct (string_dec k' k) as [-> | Hne].
  - right; exact Hk.
  - rewrite (Hother k' Hne). destruct (Hinv k') as [Hs | [y [Hy Hl]]].
    + left; exact Hs.
    + right. exists y. split; [exact Hy |]. rewrite (Hother k' Hne). exact Hl.
Qed.

Lemma finalize_keys (keys : list value) (cfg cfg' : dict) :
  finalize_inv base cfg -> foldM finalize_step keys cfg = Ok cfg' ->
  finalize_inv base cfg'
  /\ (forall k, k <> "docker_image" -> In (VStr k) keys -> truncated_at base cfg' k)
  /\ (forall k, truncated_at base cfg k -> truncated_at base cfg' k)
  /\ (forall k, k = "docker_image" \/ ~ In (VStr k) keys -> lookup k cfg' = lookup k cfg).
Proof.
  revert cfg; induction keys as [| key r IH]; simpl; intros cfg Hinv Hf.
  - inversion Hf; subst. repeat split; auto. intros k _ [].
  - inv_bind Hf. rename a into cfg1.
    assert (Hstep : finalize_inv base cfg1
                    /\ (forall k, k <> "docker_image" -> key = VStr k ->
                                  truncated_at base cfg1 k)
                    /\ (forall k, truncated_at base cfg k -> truncated_at base cfg1 k)
                    /\ (forall k, k = "docker_image" \/ key <> VStr k ->
                                  lookup k cfg1 = lookup k cfg)).
    { unfold finalize_step in Ha.
      destruct (py_eqb key (VStr "docker_image")) eqn:Hd.
      - inversion Ha; subst cfg1. apply py_eqb_str in Hd. subst key.
        repeat split; auto. intros k Hne Hk. inversion Hk; subst; contradiction.
      - inv_bind Ha. destruct key as [s | l | d]; simpl in Ha0; inversion Ha0; subst a.
        assert (Hs : s <> "docker_image").
        { intros ->. simpl in Hd. discriminate. }
        destruct (finalize_inv_truncate cfg cfg1 s Hinv Ha) as [Hi [Ht Ho]].
        split; [exact Hi |]. split; [| split].
        + intros k _ Hk. inversion Hk; subst. exact Ht.
        + intros k [x [Hx Hl]]. destruct (string_dec k s) as [-> | Hne]; [exact Ht |].
          exists x. split; [exact Hx |]. rewrite Ho by exact Hne. exact Hl.
        + intros k [-> | Hk]; apply Ho; congruence. }
    destruct Hstep as [Hi1 [Ht1 [Hp1 Ho1]]].
    destruct (IH cfg1 Hi1 Hf) as [Hi2 [Ht2 [Hp2 Ho2]]].
    split; [exact Hi2 |]. split; [| split].
    + intros k Hne [Hk | Hk]; [apply Hp2, Ht1; auto | apply Ht2; auto].
    + intros k Hk. apply Hp2, Hp1, Hk.
    + intros k Hk. rewrite Ho2, Ho1; [reflexivity | |]; destruct Hk as [-> | Hk]; auto.
Qed.

Lemma finalize_groups (ziplists : list value) (cfg cfg' : dict) :
  finalize_inv base cfg -> foldM finalize_ziplist ziplists cfg = Ok cfg' ->
  finalize_inv base cfg'
  /\ (forall k ziplist, k <> "docker_image" -> In ziplist ziplists ->
                        key_in "docker_image" ziplist = true ->
                        In (VStr k) (iter_value ziplist) -> truncated_at base cfg' k)
  /\ (forall k, truncated_at base cfg k -> truncated_at base cfg' k)
  /\ (forall k, k = "docker_image"
                \/ (forall ziplist, In ziplist ziplists ->
                                    key_in "docker_image" ziplist = true ->
                                    ~ In (VStr k) (iter_value ziplist)) ->
                lookup k cfg' = lookup k cfg).
Proof.
  revert cfg; induction ziplists as [| z r IH]; simpl; intros cfg Hinv Hf.
  - inversion Hf; subst. repeat split; auto. intros k zl _ [].
  - inv_bind Hf. rename a into cfg1. unfold finalize_ziplist in Ha.
    destruct (key_in "docker_image" z) eqn:Hz.
    + destruct (finalize_keys _ _ _ Hinv Ha) as [Hi1 [Ht1 [Hp1 Ho1]]].
      destruct (IH cfg1 Hi1 Hf) as [Hi2 [Ht2 [Hp2 Ho2]]].
      split; [exact Hi2 |]. split; [| split].
      * intros k zl Hne [-> | Hin] Hk Hm; [apply Hp2, Ht1; auto | eapply Ht2; eauto].
      * intros k Hk. apply Hp2, Hp1, Hk.
      * intros k Hk. rewrite Ho2, Ho1; [reflexivity | |].
        -- destruct Hk as [-> | Hk]; [left; reflexivity | right; apply Hk; auto].
        -- destruct Hk as [-> | Hk]; [left; reflexivity | right].
           intros zl Hin. apply Hk. right; exact Hin.
    + inversion Ha; subst cfg1.
      destruct (IH cfg Hinv Hf) as [Hi2 [Ht2 [Hp2 Ho2]]].
      split; [exact Hi2 |]. split; [| split].
      * intros k zl Hne [-> | Hin] Hk Hm; [congruence | eapply Ht2; eauto].
      * exact Hp2.
      * intros k Hk. apply Ho2. destruct Hk as [-> | Hk]; [left; reflexivity | right].
        intros zl Hin. apply Hk. right; exact Hin.
Qed.

Lemma finalize_keys_total (keys : list value) (cfg : dict) :
  finalize_inv base cfg ->
  (forall key, In key keys ->
               exists k, key = VStr k
                         /\ (k = "docker_image" \/ exists x, top_value base k = Some x)) ->
  exists cfg', foldM finalize_step keys cfg = Ok cfg'.
Proof.
  revert cfg; induction keys as [| key r IH]; simpl; intros cfg Hinv Hkeys.
  - eexists; reflexivity.
  - destruct (Hkeys key (or_introl eq_refl)) as [k [-> Hk]].
    assert (Hstep : exists cfg1, finalize_step cfg (VStr k) = Ok cfg1 /\ finalize_inv base cfg1).
    { unfold finalize_step. destruct (py_eqb (VStr k) (VStr "docker_image")) eqn:Hd.
      - exists cfg; auto.
      - destruct Hk as [-> | [x Hx]]; [simpl in Hd; discriminate |].
        rewrite <- (finalize_inv_top cfg k Hinv) in Hx. simpl.
        rewrite (truncate_key_total cfg k x Hx). eexists; split; [reflexivity |].
        eapply finalize_inv_truncate; [exact Hinv |].
        apply truncate_key_total, Hx. }
    destruct Hstep as [cfg1 [Hs Hi1]]. rewrite Hs; simpl.
    apply IH; [exact Hi1 | intros; apply Hkeys; auto].
Qed.

Lemma finalize_groups_total (ziplists : list value) (cfg : dict) :
  finalize_inv base cfg ->
  (forall ziplist key, In ziplist ziplists -> key_in "docker_image" ziplist = true ->
                       In key (iter_value ziplist) ->
                       exists k, key = VStr k
                                 /\ (k = "docker_image" \/ exists x, top_value base k = Some x)) ->
  exists cfg', foldM finalize_ziplist ziplists cfg = Ok cfg'.
Proof.
  revert cfg; induction ziplists as [| z r IH]; simpl; intros cfg Hinv Hz.
  - eexists; reflexivity.
  - unfold finalize_ziplist. destruct (key_in "docker_image" z) eqn:Hd.
    + destruct (finalize_keys_total (iter_value z) cfg Hinv) as [cfg1 Hc1].
      { intros key Hkey. eapply Hz; eauto. }
      rewrite Hc1; simpl. apply IH.
      * eapply finalize_keys; eauto.
      * intros; eapply Hz; eauto.
    + simpl. apply IH; [exact Hinv | intros; eapply Hz; eauto].
Qed.
End Finalize.

Lemma finalize_config_unfold (config : dict) (platform arch : string)
  (forge_config : dict) (build_platform : string) :
  build_platform_of forge_config platform arch = Ok (VStr build_platform) ->
  prefix "linux" build_platform = true ->
  finalize_config config platform arch forge_config
  = (config1 <- (if contains "docker_image" config
                 then truncate_key config "docker_image"
                 else f <- fallback_image forge_config ;;
                      Ok (setitem "docker_image" (VList [f]) config)) ;;
     match lookup "zip_keys" config1 with
     | Some zip_keys => foldM finalize_ziplist (iter_value zip_keys) config1
     | None => Ok config1
     end).
Proof.
  unfold build_platform_of, finalize_config, fallback_image. intros Hbp Hlinux.
  destruct (getitem "build_platform" forge_config) as [bps | e]; cbn [bind] in *;
    [| discriminate].
  rewrite Hbp. cbn [bind]. rewrite Hlinux.
  destruct (contains "docker_image" config); [reflexivity |].
  destruct (getitem "docker" forge_config) as [d | e]; reflexivity.
Qed.

(** What the first step of [finalize_config] leaves: [docker_image] is a
    one-element list and no other key has changed. *)
Lemma finalize_docker_image (config forge_config config1 : dict) :
  (if contains "docker_image" config
   then truncate_key config "docker_image"
   else f <- fallback_image forge_config ;;
        Ok (setitem "docker_image" (VList [f]) config)) = Ok config1 ->
  (exists x, lookup "docker_image" config1 = Some (VList [x])
             /\ (if contains "docker_image" config
                 then top_value config "docker_image" = Some x
                 else fallback_image forge_config = Ok x))
  /\ (forall k, k <> "docker_image" -> lookup k config1 = lookup k config).
Proof.
  destruct (contains "docker_image" config) eqn:Hc; intros H1.
  - apply truncate_key_ok in H1. destruct H1 as [x [Hx ->]]. split.
    + exists x. split; [apply lookup_setitem_eq | exact Hx].
    + intros k Hne. apply lookup_setitem_ne. congruence.
  - inv_bind H1. inversion H1; subst config1. split.
    + exists a. split; [apply lookup_setitem_eq | exact Ha].
    + intros k Hne. apply lookup_setitem_ne. congruence.
Qed.

Lemma finalize_config_partial (config : dict) (platform arch : string)
  (forge_config : dict) (build_platform : string) (config' : dict) :
  build_platform_of forge_config platform arch = Ok (VStr build_platform) ->
  prefix "linux" build_platform = true ->
  finalize_config config platform arch forge_config = Ok config' ->
  (exists x, lookup "docker_image" config' = Some (VList [x])
             /\ (if contains "docker_image" config
                 then top_value config "docker_image" = Some x
                 else fallback_image forge_config = Ok x))
  /\ (forall k, k <> "docker_image" -> zipped_with_docker config k ->
                truncated_at config config' k)
  /\ (forall k, k <> "docker_image" -> ~ zipped_with_docker config k ->
                lookup k config' = lookup k config).
Proof.
  intros Hbp Hlinux Hf. rewrite (finalize_config_unfold _ _ _ _ _ Hbp Hlinux) in Hf.
  inv_bind Hf. rename a into config1.
  destruct (finalize_docker_image _ _ _ Ha) as [[x [Hdi Hx]] Hother].
  assert (Hzk : lookup "zip_keys" config1 = lookup "zip_keys" config)
    by (apply Hother; discriminate).
  assert (Htop : forall k, k <> "docker_image" -> top_value config1 k = top_value config k).
  { intros k Hne. apply top_value_same_lookup, Hother, Hne. }
  assert (Hinv : finalize_inv config1 config1) by (intros k; left; reflexivity).
  rewrite Hzk in Hf. destruct (lookup "zip_keys" config) as [zip_keys |] eqn:Hz.
  - destruct (finalize_groups config1 _ _ _ Hinv Hf) as [_ [Ht [_ Ho]]].
    split; [| split].
    + exists x. split; [| exact Hx]. rewrite Ho; [exact Hdi | left; reflexivity].
    + intros k Hne [zk [zl [Hzk' [Hin [Hd Hm]]]]]. rewrite Hz in Hzk'. inversion Hzk'; subst zk.
      destruct (Ht k zl Hne Hin Hd Hm) as [y [Hy Hl]].
      exists y. split; [rewrite <- Htop by exact Hne; exact Hy | exact Hl].
    + intros k Hne Hnz. rewrite Ho; [apply Hother, Hne |].
      right. intros zl Hin Hd Hm. apply Hnz. exists zip_keys, zl. auto.
  - inversion Hf; subst config'. split; [| split].
    + exists x; auto.
    + intros k _ [zk [zl [Hzk' _]]]. rewrite Hz in Hzk'. discriminate.
    + intros k Hne _. apply Hother, Hne.
Qed.

Lemma finalize_config_total (config : dict) (platform arch : string)
  (forge_config : dict) (build_platform : string) :
  build_platform_of forge_config platform arch = Ok (VStr build_platform) ->
  prefix "linux" build_platform = true ->
  finalize_ready config forge_config ->
  exists config', finalize_config config platform arch forge_config = Ok config'.
Proof.
  intros Hbp Hlinux [Hdocker Hmembers].
  rewrite (finalize_config_unfold _ _ _ _ _ Hbp Hlinux).
  assert (H1 : exists config1,
             (if contains "docker_image" config
              then truncate_key config "docker_image"
              else f <- fallback_image forge_config ;;
                   Ok (setitem "docker_image" (VList [f]) config)) = Ok config1).
  { destruct (contains "docker_image" config).
    - destruct Hdocker as [x Hx]. rewrite (truncate_key_total _ _ _ Hx). eexists; reflexivity.
    - destruct Hdocker as [f Hf]. rewrite Hf. simpl. eexists; reflexivity. }
  destruct H1 as [config1 H1]. rewrite H1. simpl.
  destruct (finalize_docker_image _ _ _ H1) as [[x [Hdi Hx]] Hother].
  assert (Hzk : lookup "zip_keys" config1 = lookup "zip_keys" config)
    by (apply Hother; discriminate).
  rewrite Hzk. destruct (lookup "zip_keys" config) as [zip_keys |] eqn:Hz.
  - apply (finalize_groups_total config1).
    + intros k; left; reflexivity.
    + intros zl key Hin Hd Hkey.
      destruct (Hmembers zip_keys zl key eq_refl Hin Hd Hkey) as [k [-> Hk]].
      exists k. split; [reflexivity |].
      destruct Hk as [-> | [y Hy]]; [left; reflexivity |].
      destruct (string_dec k "docker_image") as [-> | Hne]; [left; reflexivity | right].
      exists y. rewrite <- Hy. apply top_value_same_lookup, Hother, Hne.
  - eexists; reflexivity.
Qed.

(** On any other build platform the config is returned as it is. *)
Lemma finalize_config_other_platform (config : dict) (platform arch : string)
  (forge_config : dict) (build_platform : string) :
  build_platform_of forge_config platform arch = Ok (VStr build_platform) ->
  prefix "linux" build_platform = false ->
  finalize_config config platform arch forge_config = Ok config.
Proof.
  unfold build_platform_of, finalize_config. intros Hbp Hlinux.
  destruct (getitem "build_platform" forge_config) as [bps | e]; cbn [bind] in *;
    [| discriminate].
  rewrite Hbp. cbn [bind]. rewrite Hlinux. reflexivity.
Qed.

(** C9: for a build platform that starts with [linux], [finalize_config]
    returns a config in which [docker_image] is the one-element list of its
    former first element, or of the fallback image when it was absent; every
    other member of a [zip_keys] group that contains [docker_image] is the
    one-element list of its former first element; every other key holds what
    it held. The function returns whenever the values it reads are there. *)
Theorem finalize_config_truncates_docker_groups (config : dict) (platform arch : string)
  (forge_config : dict) (build_platform : string) :
  build_platform_of forge_config platform arch = Ok (VStr build_platform) ->
  prefix "linux" build_platform = true ->
  finalize_ready config forge_config ->
  exists config',
    finalize_config config platform arch forge_config = Ok config'
    /\ (exists x, lookup "docker_image" config' = Some (VList [x])
                  /\ (if contains "docker_image" config
                      then top_value config "docker_image" = Some x
                      else fallback_image forge_config = Ok x))
    /\ (forall k, k <> "docker_image" -> zipped_with_docker config k ->
                  truncated_at config config' k)
    /\ (forall k, k <> "docker_image" -> ~ zipped_with_docker config k ->
                  lookup k config' = lookup k config).
Proof.
  intros Hbp Hlinux Hready.
  destruct (finalize_config_total _ _ _ _ _ Hbp Hlinux Hready) as [config' Hf].
  exists config'. split; [exact Hf |].
  exact (finalize_config_partial _ _ _ _ _ _ Hbp Hlinux Hf).
Qed.

Lemma finalize_config_truncates_docker_groups_witness :
  exists config',
    finalize_config docker_zip_config "linux" "64" linux_forge_config = Ok config'
    /\ lookup "docker_image" config' = Some (VList [VStr "a"])
    /\ lookup "python" config' = Some (VList [VStr "3.9"])
    /\ lookup "numpy" config' = Some (VList [VStr "1.21"; VStr "1.23"]).
Proof.
  destruct (finalize_config_truncates_docker_groups
              docker_zip_config "linux" "64" linux_forge_config "linux_64")
    as [config' [Hf _]].
  - reflexivity.
  - reflexivity.
  - split.
    + simpl. exists (VStr "a"). reflexivity.
    + intros zip_keys ziplist key Hz Hin Hd Hkey.
      inversion Hz; subst zip_keys.
      destruct Hin as [<- | []].
      destruct Hkey as [<- | [<- | []]].
      * exists "python". split; [reflexivity | right]. exists (VStr "3.9"). reflexivity.
      * exists "docker_image". split; [reflexivity | left; reflexivity].
  - exists config'. split; [exact Hf |].
    vm_compute in Hf. inversion Hf; subst config'. repeat split; reflexivity.
Defined.

(** ** [_trim_unused_zip_keys] *)

Lemma mapM_as_key_strings (g : list string) : mapM as_key (map VStr g) = Ok g.
Proof.
  induction g as [| k r IH]; simpl; [reflexivity | rewrite IH; reflexivity].
Qed.

Lemma filter_group_names (config : dict) (g : list string) :
  filter_group config (VList (map VStr g)) = Ok (filter (fun k => contains k config) g).
Proof.
  unfold filter_group. simpl. rewrite mapM_as_key_strings. reflexivity.
Qed.

Lemma as_groups_groups_value (groups : list (list string)) :
  as_groups (groups_value groups) = Ok (map (fun g => VList (map VStr g)) groups).
Proof.
  destruct groups as [| g r]; reflexivity.
Qed.

Lemma filter_group_members (config : dict) (group : value) (ks : list string) :
  filter_group config group = Ok ks ->
  forall k, In k ks -> contains k config = true /\ In (VStr k) (iter_value group).
Proof.
  unfold filter_group. intros Hf. inv_bind Hf. inversion Hf; subst ks.
  intros k Hk. apply filter_In in Hk. destruct Hk as [Hk Hc]. split; [exact Hc |].
  apply mapM_ok_Forall2 in Ha. clear Hf Hc.
  induction Ha as [| x y l l' Hxy _ IH]; [contradiction |].
  destruct Hk as [-> | Hk]; [| right; apply IH, Hk].
  left. destruct x; simpl in Hxy; inversion Hxy; reflexivity.
Qed.

Lemma trim_zip_keys_partial (all_used_vars trimmed : dict) :
  _trim_unused_zip_keys all_used_vars = Ok trimmed ->
  (forall z, lookup "zip_keys" trimmed = Some z ->
     exists used_groups,
       z = groups_value used_groups /\ used_groups <> []
       /\ forall g, In g used_groups ->
            2 <= length g
            /\ (forall k, In k g -> contains k trimmed = true)
            /\ exists groups group,
                 zip_key_groups_of all_used_vars = Ok groups
                 /\ In group groups /\ filter_group all_used_vars group = Ok g)
  /\ (forall groups,
        zip_key_groups_of all_used_vars = Ok groups ->
        (forall group ks, In group groups -> filter_group all_used_vars group = Ok ks ->
                          length ks < 2) ->
        lookup "zip_keys" trimmed = None)
  /\ (forall k, k <> "zip_keys" -> lookup k trimmed = lookup k all_used_vars).
Proof.
  unfold _trim_unused_zip_keys. intros Ht. inv_bind Ht. rename a into groups.
  inv_bind Ht. rename a into filtered.
  assert (Hfilt := mapM_ok_Forall2 _ _ _ Ha0).
  assert (Hsrc : forall g, In g filtered ->
             exists group, In group groups /\ filter_group all_used_vars group = Ok g).
  { clear -Hfilt. induction Hfilt as [| x y l l' Hxy _ IH]; [intros g [] |].
    intros g [<- | Hg].
    - exists x; split; [left; reflexivity | exact Hxy].
    - destruct (IH g Hg) as [group [Hin Hgr]]. exists group; split; [right |]; assumption. }
  assert (Hdst : forall group, In group groups ->
             exists g, In g filtered /\ filter_group all_used_vars group = Ok g).
  { clear -Hfilt. induction Hfilt as [| x y l l' Hxy _ IH]; [intros g [] |].
    intros g [<- | Hg].
    - exists y; split; [left; reflexivity | exact Hxy].
    - destruct (IH g Hg) as [g' [Hin Hgr]]. exists g'; split; [right |]; assumption. }
  destruct (filter (fun g => (1 <? length g)%nat) filtered) as [| g0 gs] eqn:Hused;
    simpl in Ht; inversion Ht; subst trimmed; clear Ht.
  - split; [| split].
    + intros z Hz. rewrite lookup_remove_key_eq in Hz. discriminate.
    + intros; apply lookup_remove_key_eq.
    + intros k Hne. apply lookup_remove_key_ne. congruence.
  - split; [| split].
    + intros z Hz. rewrite lookup_setitem_eq in Hz. inversion Hz; subst z.
      exists (g0 :: gs). split; [reflexivity |]. split; [discriminate |].
      intros g Hg. rewrite <- Hused in Hg. apply filter_In in Hg.
      destruct Hg as [Hg Hlen]. apply Nat.ltb_lt in Hlen.
      destruct (Hsrc g Hg) as [group [Hin Hgr]].
      split; [lia |]. split.
      * intros k Hk. destruct (filter_group_members _ _ _ Hgr k Hk) as [Hc _].
        apply contains_true. apply contains_true in Hc.
        destruct (in_dec string_dec "zip_keys" (map fst all_used_vars)) as [Hzk | Hzk].
        -- rewrite keys_setitem_present by exact Hzk. exact Hc.
        -- rewrite keys_setitem_absent by exact Hzk. apply in_or_app; left; exact Hc.
      * exists groups, group. auto.
    + intros groups' Hgroups' Hsmall. exfalso.
      rewrite Ha in Hgroups'. inversion Hgroups'; subst groups'.
      assert (Hg0 : In g0 (filter (fun g => (1 <? length g)%nat) filtered))
        by (rewrite Hused; left; reflexivity).
      apply filter_In in Hg0. destruct Hg0 as [Hg0 Hlen]. apply Nat.ltb_lt in Hlen.
      destruct (Hsrc g0 Hg0) as [group [Hin Hgr]].
      specialize (Hsmall group g0 Hin Hgr). lia.
    + intros k Hne. apply lookup_setitem_ne. congruence.
Qed.

Lemma trim_zip_keys_total (all_used_vars : dict) :
  zip_keys_well_formed all_used_vars ->
  exists trimmed, _trim_unused_zip_keys all_used_vars = Ok trimmed.
Proof.
  unfold zip_keys_well_formed, _trim_unused_zip_keys, zip_key_groups_of.
  assert (Hgroups : forall groups : list (list string),
            exists filtered,
              mapM (filter_group all_used_vars)
                   (map (fun g => VList (map VStr g)) groups) = Ok filtered).
  { intros groups. apply mapM_total. intros x Hx. apply in_map_iff in Hx.
    destruct Hx as [g [<- _]]. rewrite filter_group_names. eexists; reflexivity. }
  destruct (lookup "zip_keys" all_used_vars) as [z |].
  - intros [[groups ->] | [names ->]].
    + rewrite as_groups_groups_value. cbn [bind].
      destruct (Hgroups groups) as [filtered ->]. cbn [bind].
      match goal with |- context [is_nil ?l] => destruct (is_nil l) end;
        eexists; reflexivity.
    + destruct names as [| n r].
      * simpl. eexists; reflexivity.
      * destruct (Hgroups [n :: r]) as [filtered Hf].
        change (as_groups (strings (n :: r))) with (Ok [strings (n :: r)]).
        cbn [bind].
        change [strings (n :: r)] with (map (fun g => VList (map VStr g)) [n :: r]).
        rewrite Hf. cbn [bind].
        match goal with |- context [is_nil ?l] => destruct (is_nil l) end;
          eexists; reflexivity.
  - intros _. simpl. eexists; reflexivity.
Qed.

(** ** Migrations of a directory *)

Lemma In_setitem {K V : Type} `{EqDec K} (k k0 : K) (v v0 : V) (d : list (K * V)) :
  In (k, v) (setitem k0 v0 d) -> (k = k0 /\ v = v0) \/ In (k, v) d.
Proof.
  induction d as [| [k1 v1] r IH]; simpl.
  - intros [He | []]. inversion He; auto.
  - destruct (eq_dec k0 k1) as [-> | Hne]; simpl.
    + intros [He | Hin]; [inversion He; auto | auto].
    + intros [He | Hin]; [auto |]. destruct (IH Hin); auto.
Qed.

Lemma NoDup_map_injective {A B : Type} (f : A -> B) (l : list A) (x y : A) :
  NoDup (map f l) -> In x l -> In y l -> f x = f y -> x = y.
Proof.
  induction l as [| a r IH]; simpl; intros Hnd Hx Hy Hf; [contradiction |].
  inversion Hnd as [| ? ? Hnot Hnd']; subst.
  destruct Hx as [-> | Hx]; destruct Hy as [-> | Hy]; auto.
  - exfalso. apply Hnot. rewrite Hf. apply in_map, Hy.
  - exfalso. apply Hnot. rewrite <- Hf. apply in_map, Hx.
Qed.

Lemma read_migration_path (f : mfile) (ts : option string) (e : mig_entry) :
  read_migration f = Ok (ts, e) -> entry_path e = mf_path f.
Proof.
  unfold read_migration. destruct (loaded_document f) as [s | l | d]; try discriminate.
  intros Hr. inv_bind Hr. inv_bind Hr. inv_bind Hr. inversion Hr; subst. reflexivity.
Qed.

Section Directory.
Variable t : string.

Lemma migrations_total (files : list mfile) :
  readable files ->
  forall fresh res, exists res', get_migrations_in_dir_from fresh files res = Ok res'.
Proof.
  induction files as [| f r IH]; intros Hread fresh res; simpl.
  - eexists; reflexivity.
  - destruct (Hread f (or_introl eq_refl)) as [e He]. rewrite He. cbn [bind].
    apply IH. intros h Hh. apply Hread. right; exact Hh.
Qed.

Lemma migrations_keys_NoDup (files : list mfile) :
  forall fresh res res',
    get_migrations_in_dir_from fresh files res = Ok res' ->
    NoDup (map fst res) -> NoDup (map fst res').
Proof.
  induction files as [| f r IH]; simpl; intros fresh res res' Hg Hnd.
  - inversion Hg; subst; exact Hnd.
  - inv_bind Hg. eapply IH; [exact Hg |]. apply NoDup_keys_setitem, Hnd.
Qed.

(** Every entry of the result is an old one or was read from a file. *)
Lemma migrations_origin (files : list mfile) :
  forall fresh res res' k e,
    get_migrations_in_dir_from fresh files res = Ok res' ->
    In (k, e) res' ->
    In (k, e) res
    \/ exists f ts, In f files /\ read_migration f = Ok (ts, e)
                    /\ (forall s, ts = Some s -> k = TsVal s)
                    /\ (ts = None -> is_timestamp k = false).
Proof.
  induction files as [| f r IH]; simpl; intros fresh res res' k e Hg Hin.
  - inversion Hg; subst; left; exact Hin.
  - inv_bind Hg. destruct a as [ts0 e0]. simpl in Hg.
    destruct (IH _ _ _ _ _ Hg Hin) as [Hold | [h [ts [Hh [Hr [Hs Hn]]]]]].
    + apply In_setitem in Hold. destruct Hold as [[-> ->] | Hold]; [| left; exact Hold].
      right. exists f, ts0. split; [left; reflexivity |]. split; [exact Ha |].
      split; [intros s ->; reflexivity | intros ->; reflexivity].
    + right. exists h, ts. auto.
Qed.

Lemma migrations_lookup_absent (files : list mfile) :
  forall fresh res res',
    get_migrations_in_dir_from fresh files res = Ok res' ->
    (forall h, In h files -> ~ has_ts h t) ->
    lookup (TsVal t) res' = lookup (TsVal t) res.
Proof.
  induction files as [| f r IH]; simpl; intros fresh res res' Hg Habs.
  - inversion Hg; reflexivity.
  - inv_bind Hg. destruct a as [ts0 e0]. simpl in Hg.
    rewrite (IH _ _ _ Hg) by (intros h Hh; apply Habs; right; exact Hh).
    apply lookup_setitem_ne. destruct ts0 as [s |]; simpl; [| discriminate].
    intros Heq. inversion Heq; subst s.
    apply (Habs f (or_introl eq_refl)). exists e0. exact Ha.
Qed.

(** The last file that carries a timestamp owns its entry. *)
Lemma migrations_lookup_last (pre post : list mfile) (f : mfile) (e : mig_entry) :
  forall fresh res res',
    get_migrations_in_dir_from fresh (pre ++ f :: post) res = Ok res' ->
    read_migration f = Ok (Some t, e) ->
    (forall h, In h post -> ~ has_ts h t) ->
    lookup (TsVal t) res' = Some e.
Proof.
  induction pre as [| p r IH]; simpl; intros fresh res res' Hg Hr Habs.
  - rewrite Hr in Hg. cbn [bind fst snd migration_ts_key] in Hg.
    rewrite (migrations_lookup_absent _ _ _ _ Hg Habs). apply lookup_setitem_eq.
  - inv_bind Hg. eapply IH; eauto.
Qed.

Lemma migrations_lookup_object (files : list mfile) (i : nat) :
  forall fresh res res',
    get_migrations_in_dir_from fresh files res = Ok res' ->
    i < fresh ->
    lookup (TsObject i) res' = lookup (TsObject i) res.
Proof.
  induction files as [| f r IH]; simpl; intros fresh res res' Hg Hi.
  - inversion Hg; reflexivity.
  - inv_bind Hg. destruct a as [ts0 e0]. simpl in Hg.
    rewrite (IH _ _ _ Hg) by lia.
    apply lookup_setitem_ne. destruct ts0 as [s |]; simpl; [discriminate |].
    intros Heq. inversion Heq. lia.
Qed.

(** A file without timestamp owns the entry of its own object. *)
Lemma migrations_lookup_untimed (pre post : list mfile) (f : mfile) (e : mig_entry) :
  forall fresh res res',
    get_migrations_in_dir_from fresh (pre ++ f :: post) res = Ok res' ->
    read_migration f = Ok (None, e) ->
    lookup (TsObject (fresh + length pre)) res' = Some e.
Proof.
  induction pre as [| p r IH]; simpl; intros fresh res res' Hg Hr.
  - rewrite Hr in Hg. cbn [bind fst snd migration_ts_key] in Hg.
    rewrite Nat.add_0_r.
    rewrite (migrations_lookup_object _ fresh _ _ _ Hg) by lia.
    apply lookup_setitem_eq.
  - inv_bind Hg. replace (fresh + S (length r)) with (S fresh + length r) by lia.
    eapply IH; eauto.
Qed.
End Directory.

(** ** [set_migration_fns] *)

Lemma select_migration_paths (migrations_in_cfp : list (ts_key * mig_entry))
  (acc : migration_outcome) (item : ts_key * mig_entry) :
  select_migration migrations_in_cfp acc item
  = mk_outcome
      (migration_fns acc ++ match kept_path migrations_in_cfp item with
                            | Some fn => [fn]
                            | None => []
                            end)
      (removed_files acc ++ match dropped_path migrations_in_cfp item with
                            | Some fn => [fn]
                            | None => []
                            end).
Proof.
  destruct item as [ts [[fn num] use_local]]. unfold select_migration, kept_path, dropped_path.
  destruct (use_local || negb (is_timestamp ts)).
  - rewrite app_nil_r. reflexivity.
  - destruct (lookup ts migrations_in_cfp) as [[[new_fn new_num] u] |].
    + destruct (num_eqb num new_num); rewrite app_nil_r; reflexivity.
    + rewrite app_nil_r. reflexivity.
Qed.

Lemma selected_fns (migrations_in_cfp items : list (ts_key * mig_entry)) (fn : string) :
  forall acc,
    In fn (migration_fns (fold_left (select_migration migrations_in_cfp) items acc))
    <-> In fn (migration_fns acc)
        \/ exists item, In item items /\ kept_path migrations_in_cfp item = Some fn.
Proof.
  induction items as [| item r IH]; simpl; intros acc.
  - split; [auto | intros [Hin | [item [[] _]]]; exact Hin].
  - rewrite IH, select_migration_paths. simpl. rewrite in_app_iff. split.
    + intros [[Hin | Hk] | [it [Hit Hk]]]; [auto | | right; exists it; auto].
      right. exists item. split; [left; reflexivity |].
      destruct (kept_path migrations_in_cfp item) as [p |]; [| contradiction].
      destruct Hk as [-> | []]. reflexivity.
    + intros [Hin | [it [[<- | Hit] Hk]]]; [auto | | right; exists it; auto].
      left. right. rewrite Hk. left; reflexivity.
Qed.

Lemma selected_removed (migrations_in_cfp items : list (ts_key * mig_entry)) (fn : string) :
  forall acc,
    In fn (removed_files (fold_left (select_migration migrations_in_cfp) items acc))
    <-> In fn (removed_files acc)
        \/ exists item, In item items /\ dropped_path migrations_in_cfp item = Some fn.
Proof.
  induction items as [| item r IH]; simpl; intros acc.
  - split; [auto | intros [Hin | [item [[] _]]]; exact Hin].
  - rewrite IH, select_migration_paths. simpl. rewrite in_app_iff. split.
    + intros [[Hin | Hk] | [it [Hit Hk]]]; [auto | | right; exists it; auto].
      right. exists item. split; [left; reflexivity |].
      destruct (dropped_path migrations_in_cfp item) as [p |]; [| contradiction].
      destruct Hk as [-> | []]. reflexivity.
    + intros [Hin | [it [[<- | Hit] Hk]]]; [auto | | right; exists it; auto].
      left. right. rewrite Hk. left; reflexivity.
Qed.

Lemma entry_of_path (files : list mfile) (fresh : nat) (res : list (ts_key * mig_entry))
  (f : mfile) (ts : option string) (e : mig_entry) :
  get_migrations_in_dir fresh files = Ok res ->
  NoDup (map mf_path files) ->
  In f files -> read_migration f = Ok (ts, e) ->
  forall k e', In (k, e') res -> entry_path e' = mf_path f ->
               e' = e /\ (forall s, ts = Some s -> k = TsVal s)
               /\ (ts = None -> is_timestamp k = false).
Proof.
  intros Hg Hnd Hf Hr k e' Hin Hpath.
  destruct (migrations_origin _ _ _ _ _ _ Hg Hin) as [[] | [h [ts' [Hh [Hr' [Hs Hn]]]]]].
  assert (h = f).
  { apply (NoDup_map_injective mf_path files); auto.
    rewrite <- (read_migration_path _ _ _ Hr'). exact Hpath. }
  subst h. rewrite Hr in Hr'. inversion Hr'; subst. auto.
Qed.

Lemma entry_path_in_directory (files : list mfile) (fresh : nat)
  (res : list (ts_key * mig_entry)) (k : ts_key) (e : mig_entry) :
  get_migrations_in_dir fresh files = Ok res ->
  In (k, e) res -> In (entry_path e) (map mf_path files).
Proof.
  intros Hg Hin.
  destruct (migrations_origin _ _ _ _ _ _ Hg Hin) as [[] | [h [ts' [Hh [Hr' _]]]]].
  rewrite (read_migration_path _ _ _ Hr'). apply in_map, Hh.
Qed.

Lemma last_with_ts_lookup (files : list mfile) (fresh : nat)
  (res : list (ts_key * mig_entry)) (f : mfile) (t : string) (num : mig_num) (u : bool) :
  get_migrations_in_dir fresh files = Ok res ->
  last_with_ts files f t num u ->
  lookup (TsVal t) res = Some (mf_path f, num, u) /\ In f files.
Proof.
  intros Hg [pre [post [-> [Hr Habs]]]]. split.
  - eapply migrations_lookup_last; eauto.
  - apply in_or_app; right; left; reflexivity.
Qed.

Lemma set_migration_fns_total (feedstock : list mfile) (cfp : option (list mfile)) :
  readable feedstock ->
  (forall cfp_files, cfp = Some cfp_files -> readable cfp_files) ->
  exists out, set_migration_fns feedstock cfp = Ok out.
Proof.
  intros Hf Hc. unfold set_migration_fns, get_migrations_in_dir.
  destruct (migrations_total feedstock Hf 0 []) as [mf Hmf]. rewrite Hmf. cbn [bind].
  destruct cfp as [cfp_files |]; [| eexists; reflexivity].
  destruct (migrations_total cfp_files (Hc _ eq_refl) (length feedstock) []) as [mc Hmc].
  rewrite Hmc. cbn [bind]. eexists; reflexivity.
Qed.

Lemma set_migration_fns_shared (feedstock cfp_files : list mfile) (out : migration_outcome) :
  set_migration_fns feedstock (Some cfp_files) = Ok out ->
  exists migrations_in_feedstock migrations_in_cfp,
    get_migrations_in_dir 0 feedstock = Ok migrations_in_feedstock
    /\ get_migrations_in_dir (length feedstock) cfp_files = Ok migrations_in_cfp
    /\ (forall fn, In fn (migration_fns out) <->
                   exists item, In item migrations_in_feedstock
                                /\ kept_path migrations_in_cfp item = Some fn)
    /\ (forall fn, In fn (removed_files out) <->
                   exists item, In item migrations_in_feedstock
                                /\ dropped_path migrations_in_cfp item = Some fn).
Proof.
  unfold set_migration_fns. intros Hs. inv_bind Hs. inv_bind Hs. inversion Hs; subst out.
  exists a, a0. split; [exact Ha |]. split; [exact Ha0 |]. split; intros fn.
  - rewrite selected_fns. simpl. tauto.
  - rewrite selected_removed. simpl. tauto.
Qed.

(** C4, as the code has it: [f] is the last feedstock file with the
    timestamp [t] and [g] the last shared file with it, the files the two
    mappings retain. When their migration numbers are equal, both left out
    or both given and equal, [migration_fns] gets the path of [g] and not
    the path of [f], unless [f] has [use_local] set, in which case its own
    path is used. When the numbers differ the path of [f] is kept; a number
    left out is the integer 1 and differs from every number read from a
    file. The feedstock file is not removed. *)
Theorem shared_migration_supersedes_local (feedstock cfp_files : list mfile)
  (f g : mfile) (t : string) (num new_num : mig_num) (use_local u : bool) :
  readable feedstock -> readable cfp_files ->
  NoDup (map mf_path feedstock) ->
  ~ In (mf_path f) (map mf_path cfp_files) ->
  last_with_ts feedstock f t num use_local ->
  last_with_ts cfp_files g t new_num u ->
  exists out,
    set_migration_fns feedstock (Some cfp_files) = Ok out
    /\ (use_local = true -> In (mf_path f) (migration_fns out))
    /\ (use_local = false ->
        (num = DefaultOne /\ new_num = DefaultOne)
        \/ (exists v w, num = Loaded v /\ new_num = Loaded w /\ py_eqb v w = true) ->
        In (mf_path g) (migration_fns out) /\ ~ In (mf_path f) (migration_fns out))
    /\ (use_local = false ->
        (exists v w, num = Loaded v /\ new_num = Loaded w /\ py_eqb v w = false)
        \/ (num = DefaultOne /\ exists w, new_num = Loaded w)
        \/ (new_num = DefaultOne /\ exists v, num = Loaded v) ->
        In (mf_path f) (migration_fns out))
    /\ ~ In (mf_path f) (removed_files out).
Proof.
  intros Hrf Hrc Hnd Hdir Hlf Hlg.
  destruct (set_migration_fns_total feedstock (Some cfp_files) Hrf) as [out Hout].
  { intros c Hc. inversion Hc; subst; exact Hrc. }
  exists out. split; [exact Hout |].
  destruct (set_migration_fns_shared _ _ _ Hout) as [mf [mc [Hmf [Hmc [Hfns Hrem]]]]].
  destruct (last_with_ts_lookup _ _ _ _ _ _ _ Hmf Hlf) as [Hf Hfin].
  destruct (last_with_ts_lookup _ _ _ _ _ _ _ Hmc Hlg) as [Hg Hgin].
  assert (Hread : read_migration f = Ok (Some t, (mf_path f, num, use_local))).
  { destruct Hlf as [pre [post [_ [Hr _]]]]. exact Hr. }
  assert (Hitem : In (TsVal t, (mf_path f, num, use_local)) mf) by (apply lookup_In, Hf).
  assert (Hown : forall item, In item mf -> entry_path (snd item) = mf_path f ->
                              item = (TsVal t, (mf_path f, num, use_local))).
  { intros [k e'] Hin Hp. simpl in Hp.
    destruct (entry_of_path _ _ _ _ _ _ Hmf Hnd Hfin Hread k e' Hin Hp) as [-> [Hk _]].
    rewrite (Hk t eq_refl). reflexivity. }
  assert (Hkept : kept_path mc (TsVal t, (mf_path f, num, use_local))
                  = if use_local then Some (mf_path f)
                    else if num_eqb num new_num then Some (mf_path g)
                         else Some (mf_path f)).
  { unfold kept_path. destruct use_local; simpl; [reflexivity |]. rewrite Hg. reflexivity. }
  assert (Hsource : forall item, In item mf -> kept_path mc item = Some (mf_path f) ->
                                 item = (TsVal t, (mf_path f, num, use_local))).
  { intros [k [[fn n] ul]] Hin Hk. apply Hown; [exact Hin |]. simpl.
    unfold kept_path in Hk. destruct (ul || negb (is_timestamp k)).
    - inversion Hk; reflexivity.
    - destruct (lookup k mc) as [[[new_fn nn] uu] |] eqn:Hl; [| discriminate].
      destruct (num_eqb n nn); inversion Hk; [| reflexivity].
      exfalso. apply Hdir. subst new_fn.
      apply (entry_path_in_directory _ _ _ k (mf_path f, nn, uu) Hmc).
      apply lookup_In, Hl. }
  split; [| split; [| split]].
  - intros ->. apply Hfns. eexists; split; [exact Hitem | exact Hkept].
  - intros -> Hsame.
    assert (Hnum : num_eqb num new_num = true).
    { destruct Hsame as [[-> ->] | [v [w [-> [-> Hvw]]]]]; [reflexivity | exact Hvw]. }
    rewrite Hnum in Hkept. split.
    + apply Hfns. eexists; split; [exact Hitem | exact Hkept].
    + intros Hin. apply Hfns in Hin. destruct Hin as [item [Hin Hk]].
      rewrite (Hsource item Hin Hk) in Hk. rewrite Hkept in Hk. inversion Hk as [Hp].
      apply Hdir. rewrite <- Hp. apply in_map, Hgin.
  - intros -> Hdiff.
    assert (Hnum : num_eqb num new_num = false).
    { destruct Hdiff as [[v [w [-> [-> Hvw]]]] | [[-> [w ->]] | [-> [v ->]]]];
        [exact Hvw | reflexivity | reflexivity]. }
    rewrite Hnum in Hkept.
    apply Hfns. eexists; split; [exact Hitem | exact Hkept].
  - intros Hin. apply Hrem in Hin. destruct Hin as [[k [[fn n] ul]] [Hin Hd]].
    assert (Hfn : fn = mf_path f).
    { unfold dropped_path in Hd. destruct (ul || negb (is_timestamp k)); [discriminate |].
      destruct (lookup k mc); [discriminate | inversion Hd; reflexivity]. }
    subst fn. assert (Heq := Hown _ Hin eq_refl). inversion Heq; subst.
    unfold dropped_path in Hd. destruct (use_local || negb (is_timestamp (TsVal t)));
      [discriminate |]. rewrite Hg in Hd. discriminate.
Qed.

Ltac solve_readable :=
  let f := fresh "f" in
  let Hf := fresh "Hf" in
  intros f Hf; simpl in Hf;
  repeat (destruct Hf as [<- | Hf]; [eexists; reflexivity |]);
  contradiction.

Ltac solve_no_ts :=
  let h := fresh "h" in
  let Hh := fresh "Hh" in
  let e := fresh "e" in
  let He := fresh "He" in
  intros h Hh [e He]; simpl in Hh;
  repeat (destruct Hh as [<- | Hh]; [vm_compute in He; discriminate |]);
  contradiction.

Lemma shared_migration_supersedes_local_witness :
  exists out,
    set_migration_fns [feedstock_a; feedstock_b] (Some [shared_a]) = Ok out
    /\ In "shared/a.yaml" (migration_fns out)
    /\ ~ In "feedstock/a.yaml" (migration_fns out).
Proof.
  destruct (shared_migration_supersedes_local
              [feedstock_a; feedstock_b] [shared_a] feedstock_a shared_a
              "1" (Loaded (VStr "2")) (Loaded (VStr "2")) false false)
    as [out [Hout [_ [Hshared _]]]].
  - solve_readable.
  - solve_readable.
  - simpl. repeat constructor; simpl; intuition discriminate.
  - simpl. intuition discriminate.
  - exists [], [feedstock_b]. split; [reflexivity |]. split; [reflexivity | solve_no_ts].
  - exists [], []. split; [reflexivity |]. split; [reflexivity | solve_no_ts].
  - exists out. split; [exact Hout |]. apply (Hshared eq_refl). right.
    exists (VStr "2"), (VStr "2"). repeat split; reflexivity.
Defined.

(** C4, as stated, fails. The shared file [shared/a.yaml] has the timestamp
    and the number of the feedstock file, but a later shared file has the
    same timestamp and another number: the mapping of the shared directory
    retains the later one, and the feedstock path is listed. *)
Lemma shared_match_is_not_always_used :
  ~ (forall (feedstock cfp_files : list mfile) (out : migration_outcome)
            (f g : mfile) (t : string) (num : mig_num) (u : bool),
        set_migration_fns feedstock (Some cfp_files) = Ok out ->
        In f feedstock -> In g cfp_files ->
        read_migration f = Ok (Some t, (mf_path f, num, false)) ->
        read_migration g = Ok (Some t, (mf_path g, num, u)) ->
        In (mf_path g) (migration_fns out) /\ ~ In (mf_path f) (migration_fns out)).
Proof.
  intros Hall.
  destruct (Hall [feedstock_a] [shared_a; shared_a_later]
                 (mk_outcome ["feedstock/a.yaml"] []) feedstock_a shared_a
                 "1" (Loaded (VStr "2")) false) as [Hshared _].
  - reflexivity.
  - left; reflexivity.
  - left; reflexivity.
  - reflexivity.
  - reflexivity.
  - simpl in Hshared. destruct Hshared as [Hs | []]. discriminate Hs.
Qed.

(** A feedstock file that gives no migration number keeps its path when
    the shared file with its timestamp gives the number 1: the number left
    out is an integer, the number read from the file a string. *)
Example omitted_number_differs_from_one :
  set_migration_fns [feedstock_plain] (Some [shared_plain])
  = Ok (mk_outcome ["feedstock/plain.yaml"] []).
Proof. reflexivity. Qed.

Lemma kept_path_source (cfp_files : list mfile) (fresh : nat)
  (migrations_in_cfp : list (ts_key * mig_entry)) (item : ts_key * mig_entry) (p : string) :
  get_migrations_in_dir fresh cfp_files = Ok migrations_in_cfp ->
  ~ In p (map mf_path cfp_files) ->
  kept_path migrations_in_cfp item = Some p ->
  entry_path (snd item) = p.
Proof.
  intros Hmc Hdir. destruct item as [k [[fn n] ul]]. unfold kept_path. simpl.
  destruct (ul || negb (is_timestamp k)); [intros Hk; inversion Hk; reflexivity |].
  destruct (lookup k migrations_in_cfp) as [[[new_fn nn] uu] |] eqn:Hl; [| discriminate].
  destruct (num_eqb n nn); intros Hk; inversion Hk; [| reflexivity].
  exfalso. apply Hdir. subst new_fn.
  apply (entry_path_in_directory _ _ _ k (p, nn, uu) Hmc). apply lookup_In, Hl.
Qed.

Lemma dropped_path_source (migrations_in_cfp : list (ts_key * mig_entry))
  (item : ts_key * mig_entry) (p : string) :
  dropped_path migrations_in_cfp item = Some p -> entry_path (snd item) = p.
Proof.
  destruct item as [k [[fn n] ul]]. unfold dropped_path. simpl.
  destruct (ul || negb (is_timestamp k)); [discriminate |].
  destruct (lookup k migrations_in_cfp); [discriminate |].
  intros Hd; inversion Hd; reflexivity.
Qed.

Lemma untimed_entry (files : list mfile) (fresh : nat) (res : list (ts_key * mig_entry))
  (f : mfile) (e : mig_entry) :
  get_migrations_in_dir fresh files = Ok res ->
  In f files -> read_migration f = Ok (None, e) ->
  exists i, In (TsObject i, e) res.
Proof.
  intros Hg Hin Hr. apply in_split in Hin. destruct Hin as [pre [post ->]].
  exists (fresh + length pre). apply lookup_In.
  eapply migrations_lookup_untimed; eauto.
Qed.

(** A feedstock migration without [migrator_ts] is listed and not removed,
    whether the shared directory exists or not. *)
Lemma untimed_migration_kept (feedstock : list mfile) (cfp : option (list mfile))
  (out : migration_outcome) (f : mfile) (e : mig_entry) :
  set_migration_fns feedstock cfp = Ok out ->
  NoDup (map mf_path feedstock) ->
  In f feedstock -> read_migration f = Ok (None, e) ->
  In (mf_path f) (migration_fns out) /\ ~ In (mf_path f) (removed_files out).
Proof.
  intros Hout Hnd Hin Hr. destruct cfp as [cfp_files |].
  - destruct (set_migration_fns_shared _ _ _ Hout) as [mf [mc [Hmf [Hmc [Hfns Hrem]]]]].
    destruct (untimed_entry _ _ _ _ _ Hmf Hin Hr) as [i Hi]. split.
    + apply Hfns. exists (TsObject i, e). split; [exact Hi |].
      destruct e as [[fn n] ul]. assert (Hp := read_migration_path _ _ _ Hr).
      unfold entry_path in Hp. simpl in Hp. subst fn. unfold kept_path. simpl.
      rewrite orb_true_r. reflexivity.
    + intros Hd. apply Hrem in Hd. destruct Hd as [[k e'] [Hk Hd]].
      assert (Hp := dropped_path_source _ _ _ Hd). simpl in Hp.
      destruct (entry_of_path _ _ _ _ _ _ Hmf Hnd Hin Hr k e' Hk Hp) as [-> [_ Hts]].
      destruct e as [[fn n] ul]. unfold dropped_path in Hd.
      rewrite (Hts eq_refl) in Hd. simpl in Hd. rewrite orb_true_r in Hd. discriminate.
  - unfold set_migration_fns in Hout. inv_bind Hout. inversion Hout; subst out. simpl.
    split; [| intros []].
    destruct (untimed_entry _ _ _ _ _ Ha Hin Hr) as [i Hi].
    rewrite <- (read_migration_path _ _ _ Hr).
    change (entry_path e) with ((fun x : ts_key * mig_entry => fst (fst (snd x))) (TsObject i, e)).
    apply in_map, Hi.
Qed.

(** A feedstock migration whose timestamp the existing shared directory does
    not have, and which is not flagged [use_local], is removed and not
    listed. *)
Lemma expired_migration_removed (feedstock cfp_files : list mfile)
  (out : migration_outcome) (f : mfile) (t : string) (num : mig_num) :
  set_migration_fns feedstock (Some cfp_files) = Ok out ->
  NoDup (map mf_path feedstock) ->
  ~ In (mf_path f) (map mf_path cfp_files) ->
  last_with_ts feedstock f t num false ->
  (forall h, In h cfp_files -> ~ has_ts h t) ->
  In (mf_path f) (removed_files out) /\ ~ In (mf_path f) (migration_fns out).
Proof.
  intros Hout Hnd Hdir Hlf Habs.
  destruct (set_migration_fns_shared _ _ _ Hout) as [mf [mc [Hmf [Hmc [Hfns Hrem]]]]].
  destruct (last_with_ts_lookup _ _ _ _ _ _ _ Hmf Hlf) as [Hf Hfin].
  assert (Hread : read_migration f = Ok (Some t, (mf_path f, num, false))).
  { destruct Hlf as [pre [post [_ [Hr _]]]]. exact Hr. }
  assert (Hnone : lookup (TsVal t) mc = None).
  { unfold get_migrations_in_dir in Hmc.
    rewrite (migrations_lookup_absent t _ _ _ _ Hmc Habs). reflexivity. }
  split.
  - apply Hrem. exists (TsVal t, (mf_path f, num, false)). split; [apply lookup_In, Hf |].
    unfold dropped_path. simpl. rewrite Hnone. reflexivity.
  - intros Hk. apply Hfns in Hk. destruct Hk as [[k e'] [Hin Hk]].
    assert (Hp := kept_path_source _ _ _ _ _ Hmc Hdir Hk). simpl in Hp.
    destruct (entry_of_path _ _ _ _ _ _ Hmf Hnd Hfin Hread k e' Hin Hp) as [-> [Hts _]].
    rewrite (Hts t eq_refl) in Hk. unfold kept_path in Hk. simpl in Hk.
    rewrite Hnone in Hk. discriminate.
Qed.

(** C5, as the code has it: a feedstock migration that is the last file of
    the feedstock directory with its [migrator_ts], whatever string that is,
    that is not flagged [use_local] and whose [migrator_ts] no file of the
    existing shared directory has, is removed and left out of
    [migration_fns]; a feedstock migration without [migrator_ts] is listed
    and never removed, with or without a shared directory. *)
Theorem expired_removed_and_untimed_kept (feedstock : list mfile)
  (cfp : option (list mfile)) (f : mfile) :
  readable feedstock ->
  (forall cfp_files, cfp = Some cfp_files ->
                     readable cfp_files /\ ~ In (mf_path f) (map mf_path cfp_files)) ->
  NoDup (map mf_path feedstock) ->
  In f feedstock ->
  exists out,
    set_migration_fns feedstock cfp = Ok out
    /\ (forall cfp_files t num,
          cfp = Some cfp_files ->
          last_with_ts feedstock f t num false ->
          (forall h, In h cfp_files -> ~ has_ts h t) ->
          In (mf_path f) (removed_files out) /\ ~ In (mf_path f) (migration_fns out))
    /\ (forall e,
          read_migration f = Ok (None, e) ->
          In (mf_path f) (migration_fns out) /\ ~ In (mf_path f) (removed_files out)).
Proof.
  intros Hrf Hcfp Hnd Hin.
  destruct (set_migration_fns_total feedstock cfp Hrf) as [out Hout].
  { intros c Hc. apply (Hcfp c Hc). }
  exists out. split; [exact Hout |]. split.
  - intros cfp_files t num -> Hlf Habs.
    eapply expired_migration_removed; eauto. apply (Hcfp cfp_files eq_refl).
  - intros e Hr. eapply untimed_migration_kept; eauto.
Qed.

Lemma expired_removed_and_untimed_kept_witness :
  exists out,
    set_migration_fns [feedstock_a; feedstock_c; feedstock_untimed] (Some [shared_a]) = Ok out
    /\ In "feedstock/c.yaml" (removed_files out)
    /\ ~ In "feedstock/c.yaml" (migration_fns out).
Proof.
  destruct (expired_removed_and_untimed_kept
              [feedstock_a; feedstock_c; feedstock_untimed] (Some [shared_a]) feedstock_c)
    as [out [Hout [Hexpired _]]].
  - solve_readable.
  - intros c Hc. inversion Hc; subst c. split; [solve_readable |].
    simpl. intuition discriminate.
  - simpl. repeat constructor; simpl; intuition discriminate.
  - simpl. auto.
  - exists out. split; [exact Hout |].
    apply (Hexpired [shared_a] "3" (Loaded (VStr "1")) eq_refl).
    + exists [feedstock_a], [feedstock_untimed].
      split; [reflexivity |]. split; [reflexivity | solve_no_ts].
    + solve_no_ts.
Defined.

(** C5, as stated, fails, in three ways. A feedstock migration flagged
    [use_local] whose timestamp the shared directory does not have is
    listed, not removed. Of two feedstock files with one timestamp that the
    shared directory does not have, neither flagged, the first is not
    removed. And a feedstock file whose [migrator_ts] reads as no number,
    [not-a-date], is removed like any file with a timestamp. *)
Lemma expired_and_untimed_not_as_stated :
  ~ (forall (feedstock cfp_files : list mfile) (out : migration_outcome)
            (f : mfile) (t : string),
        set_migration_fns feedstock (Some cfp_files) = Ok out ->
        In f feedstock -> has_ts f t ->
        (forall h, In h cfp_files -> ~ has_ts h t) ->
        In (mf_path f) (removed_files out) /\ ~ In (mf_path f) (migration_fns out))
  /\ ~ (forall (feedstock cfp_files : list mfile) (out : migration_outcome)
               (f : mfile) (t : string) (num : mig_num),
           set_migration_fns feedstock (Some cfp_files) = Ok out ->
           In f feedstock ->
           read_migration f = Ok (Some t, (mf_path f, num, false)) ->
           (forall h, In h cfp_files -> ~ has_ts h t) ->
           In (mf_path f) (removed_files out) /\ ~ In (mf_path f) (migration_fns out))
  /\ set_migration_fns [feedstock_bad] (Some [shared_a])
     = Ok (mk_outcome [] ["feedstock/bad.yaml"]).
Proof.
  split; [| split; [| reflexivity]].
  - intros Hall.
    destruct (Hall [feedstock_b] [shared_a]
                   (mk_outcome ["feedstock/b.yaml"] []) feedstock_b "2") as [Hrem _].
    + reflexivity.
    + left; reflexivity.
    + eexists; reflexivity.
    + solve_no_ts.
    + destruct Hrem.
  - intros Hall.
    destruct (Hall [feedstock_one; feedstock_two] [shared_a]
                   (mk_outcome [] ["feedstock/two.yaml"]) feedstock_one "5"
                   (Loaded (VStr "1"))) as [Hrem _].
    + reflexivity.
    + left; reflexivity.
    + reflexivity.
    + solve_no_ts.
    + simpl in Hrem. destruct Hrem as [Hr | []]. discriminate Hr.
Qed.

Lemma NoDup_split_distinct {A B : Type} (f : A -> B) (pre mid post : list A) (x y : A) :
  NoDup (map f (pre ++ x :: mid ++ y :: post)) -> f x <> f y.
Proof.
  rewrite map_app. simpl. rewrite map_app. simpl. intros Hnd Heq.
  apply NoDup_app_remove_l in Hnd. inversion Hnd as [| ? ? Hnot _]; subst.
  apply Hnot. apply in_or_app. right. left. symmetry; exact Heq.
Qed.

(** The path of a file that a later file with the same timestamp overwrites
    is in no entry of the mapping. *)
Lemma overwritten_file_absent (files pre mid post : list mfile) (f1 f2 : mfile)
  (t : string) (e2 : mig_entry) (fresh : nat) (res : list (ts_key * mig_entry)) :
  get_migrations_in_dir fresh files = Ok res ->
  NoDup (map mf_path files) ->
  files = pre ++ f1 :: mid ++ f2 :: post ->
  has_ts f1 t ->
  read_migration f2 = Ok (Some t, e2) ->
  (forall h, In h post -> ~ has_ts h t) ->
  lookup (TsVal t) res = Some e2
  /\ forall k e, In (k, e) res -> entry_path e <> mf_path f1.
Proof.
  intros Hg Hnd Hfiles [e1 Hr1] Hr2 Habs.
  assert (Hlast : lookup (TsVal t) res = Some e2).
  { unfold get_migrations_in_dir in Hg. rewrite Hfiles in Hg.
    replace (pre ++ f1 :: mid ++ f2 :: post) with ((pre ++ f1 :: mid) ++ f2 :: post) in Hg
      by (rewrite <- app_assoc; reflexivity).
    eapply migrations_lookup_last; eauto. }
  split; [exact Hlast |]. intros k e Hin Hp.
  assert (Hf1 : In f1 files).
  { rewrite Hfiles. apply in_or_app; right; left; reflexivity. }
  destruct (entry_of_path _ _ _ _ _ _ Hg Hnd Hf1 Hr1 k e Hin Hp) as [-> [Hk _]].
  rewrite (Hk t eq_refl) in Hin.
  assert (Hkeys : NoDup (map fst res)).
  { eapply migrations_keys_NoDup; [exact Hg | constructor]. }
  rewrite (In_lookup_NoDup _ _ _ Hkeys Hin) in Hlast. inversion Hlast; subst e2.
  rewrite Hfiles in Hnd. apply (NoDup_split_distinct mf_path pre mid post f1 f2 Hnd).
  rewrite <- (read_migration_path _ _ _ Hr1), <- (read_migration_path _ _ _ Hr2).
  reflexivity.
Qed.

(** C10: the mapping [get_migrations_in_dir] returns has one entry per
    timestamp. When two files of a directory carry the same timestamp, the
    entry is the one of the last such file, and the path of the earlier file
    is in no entry; [set_migration_fns] then neither lists nor removes the
    earlier file, whether the directory is the feedstock's or the shared
    one. *)
Theorem same_timestamp_keeps_last_file (files pre mid post : list mfile)
  (f1 f2 : mfile) (t : string) (e2 : mig_entry) (fresh : nat) :
  readable files ->
  NoDup (map mf_path files) ->
  files = pre ++ f1 :: mid ++ f2 :: post ->
  has_ts f1 t ->
  read_migration f2 = Ok (Some t, e2) ->
  (forall h, In h post -> ~ has_ts h t) ->
  exists res,
    get_migrations_in_dir fresh files = Ok res
    /\ NoDup (map fst res)
    /\ lookup (TsVal t) res = Some e2
    /\ entry_path e2 = mf_path f2
    /\ (forall k e, In (k, e) res -> entry_path e <> mf_path f1)
    /\ (forall cfp out,
          set_migration_fns files cfp = Ok out ->
          (forall cfp_files, cfp = Some cfp_files ->
                             ~ In (mf_path f1) (map mf_path cfp_files)) ->
          ~ In (mf_path f1) (migration_fns out) /\ ~ In (mf_path f1) (removed_files out))
    /\ (forall feedstock out,
          set_migration_fns feedstock (Some files) = Ok out ->
          ~ In (mf_path f1) (map mf_path feedstock) ->
          ~ In (mf_path f1) (migration_fns out) /\ ~ In (mf_path f1) (removed_files out)).
Proof.
  intros Hread Hnd Hfiles Hts1 Hr2 Habs.
  destruct (migrations_total files Hread fresh []) as [res Hres].
  exists res. split; [exact Hres |].
  split; [eapply migrations_keys_NoDup; [exact Hres | constructor] |].
  destruct (overwritten_file_absent _ _ _ _ _ _ _ _ _ _ Hres Hnd Hfiles Hts1 Hr2 Habs)
    as [Hlast Hgone].
  split; [exact Hlast |]. split; [exact (read_migration_path _ _ _ Hr2) |].
  split; [exact Hgone |]. split.
  - intros cfp out Hout Hdir. destruct cfp as [cfp_files |].
    + destruct (set_migration_fns_shared _ _ _ Hout) as [mf [mc [Hmf [Hmc [Hfns Hrem]]]]].
      destruct (overwritten_file_absent _ _ _ _ _ _ _ _ _ _ Hmf Hnd Hfiles Hts1 Hr2 Habs)
        as [_ Hgone'].
      split; intros Hin.
      * apply Hfns in Hin. destruct Hin as [[k e] [Hin Hk]].
        apply (Hgone' k e Hin).
        apply (kept_path_source _ _ _ _ _ Hmc (Hdir cfp_files eq_refl) Hk).
      * apply Hrem in Hin. destruct Hin as [[k e] [Hin Hk]].
        apply (Hgone' k e Hin). apply (dropped_path_source _ _ _ Hk).
    + unfold set_migration_fns in Hout. inv_bind Hout. inversion Hout; subst out. simpl.
      destruct (overwritten_file_absent _ _ _ _ _ _ _ _ _ _ Ha Hnd Hfiles Hts1 Hr2 Habs)
        as [_ Hgone'].
      split; [| intros []]. intros Hin. apply in_map_iff in Hin.
      destruct Hin as [[k e] [Hp Hin]]. apply (Hgone' k e Hin). exact Hp.
  - intros feedstock out Hout Hdir.
    destruct (set_migration_fns_shared _ _ _ Hout) as [mf [mc [Hmf [Hmc [Hfns Hrem]]]]].
    destruct (overwritten_file_absent _ _ _ _ _ _ _ _ _ _ Hmc Hnd Hfiles Hts1 Hr2 Habs)
      as [_ Hgone'].
    split; intros Hin.
    + apply Hfns in Hin. destruct Hin as [[k [[fn n] ul]] [Hin Hk]].
      unfold kept_path in Hk.
      assert (Hfn : fn <> mf_path f1).
      { intros ->. apply Hdir.
        apply (entry_path_in_directory _ _ _ k (mf_path f1, n, ul) Hmf Hin). }
      destruct (ul || negb (is_timestamp k)); [inversion Hk; contradiction |].
      destruct (lookup k mc) as [[[new_fn nn] uu] |] eqn:Hl; [| discriminate].
      destruct (num_eqb n nn); inversion Hk; [| contradiction].
      subst new_fn. apply lookup_In in Hl. apply (Hgone' _ _ Hl). reflexivity.
    + apply Hrem in Hin. destruct Hin as [[k e] [Hin Hk]].
      apply Hdir. rewrite <- (dropped_path_source _ _ _ Hk).
      apply (entry_path_in_directory _ _ _ k e Hmf Hin).
Qed.

Lemma same_timestamp_keeps_last_file_witness :
  exists res,
    get_migrations_in_dir 0 [feedstock_a; shared_a; feedstock_c] = Ok res
    /\ lookup (TsVal "1") res = Some ("shared/a.yaml", Loaded (VStr "2"), false)
    /\ forall k e, In (k, e) res -> entry_path e <> "feedstock/a.yaml".
Proof.
  destruct (same_timestamp_keeps_last_file
              [feedstock_a; shared_a; feedstock_c] [] [] [feedstock_c]
              feedstock_a shared_a "1" ("shared/a.yaml", Loaded (VStr "2"), false) 0)
    as [res [Hres [_ [Hlast [_ [Hgone _]]]]]].
  - solve_readable.
  - simpl. repeat constructor; simpl; intuition discriminate.
  - reflexivity.
  - eexists; reflexivity.
  - reflexivity.
  - solve_no_ts.
  - exists res. split; [exact Hres |]. split; [exact Hlast | exact Hgone].
Defined.

(** ** The order of strings and of migration keys *)

Lemma ascii_compare_refl (c : ascii) : Ascii.compare c c = Eq.
Proof. unfold Ascii.compare. apply N.compare_refl. Qed.

Lemma ascii_compare_lt_trans (a b c : ascii) :
  Ascii.compare a b = Lt -> Ascii.compare b c = Lt -> Ascii.compare a c = Lt.
Proof.
  unfold Ascii.compare. rewrite !N.compare_lt_iff. apply N.lt_trans.
Qed.

Lemma string_compare_refl (s : string) : String.compare s s = Eq.
Proof.
  induction s as [| c r IH]; simpl; [reflexivity |].
  rewrite ascii_compare_refl. exact IH.
Qed.

Lemma string_compare_lt_trans (a b c : string) :
  String.compare a b = Lt -> String.compare b c = Lt -> String.compare a c = Lt.
Proof.
  revert b c; induction a as [| x a IH]; intros [| y b] [| z c]; simpl;
    try discriminate; try reflexivity.
  destruct (Ascii.compare x y) eqn:Hxy; try discriminate;
    destruct (Ascii.compare y z) eqn:Hyz; try discriminate; intros Hab Hbc.
  - apply Ascii.compare_eq_iff in Hxy, Hyz. subst. rewrite ascii_compare_refl.
    eapply IH; eauto.
  - apply Ascii.compare_eq_iff in Hxy. subst. rewrite Hyz. reflexivity.
  - apply Ascii.compare_eq_iff in Hyz. subst. rewrite Hxy. reflexivity.
  - rewrite (ascii_compare_lt_trans _ _ _ Hxy Hyz). reflexivity.
Qed.

Lemma string_ltb_leb (a b : string) : String.ltb a b = false <-> String.leb b a = true.
Proof.
  unfold String.ltb, String.leb. rewrite (String.compare_antisym a b).
  destruct (String.compare b a); simpl; split; intros Hx; try reflexivity; discriminate Hx.
Qed.

Lemma string_leb_trans (a b c : string) :
  String.leb a b = true -> String.leb b c = true -> String.leb a c = true.
Proof.
  unfold String.leb. intros Hab Hbc.
  destruct (String.compare a b) eqn:Eab; try discriminate;
    destruct (String.compare b c) eqn:Ebc; try discriminate.
  - apply String.compare_eq_iff in Eab, Ebc. subst. rewrite string_compare_refl. reflexivity.
  - apply String.compare_eq_iff in Eab. subst. rewrite Ebc. reflexivity.
  - apply String.compare_eq_iff in Ebc. subst. rewrite Eab. reflexivity.
  - rewrite (string_compare_lt_trans _ _ _ Eab Ebc). reflexivity.
Qed.

(** ** Insertion sort gives an ascending list *)

Section SortPure.
Context {A : Type} (ltb : A -> A -> bool) (le : A -> A -> Prop).
Hypothesis ltb_le : forall a b, ltb b a = false <-> le a b.
Hypothesis le_total : forall a b, le a b \/ le b a.
Hypothesis le_trans : forall a b c, le a b -> le b c -> le a c.

Lemma insert_pure_Sorted (x : A) (l : list A) :
  Sorted le l -> Sorted le (insert_pure ltb x l).
Proof.
  induction l as [| y r IH]; simpl; intros Hs.
  - repeat constructor.
  - destruct (ltb y x) eqn:Hyx.
    + inversion Hs as [| ? ? Hr Hhd]; subst. constructor; [apply IH, Hr |].
      assert (Hle : le y x).
      { destruct (le_total y x) as [Hle | Hle]; [exact Hle |].
        apply ltb_le in Hle. congruence. }
      destruct r as [| z r']; simpl; [constructor; exact Hle |].
      destruct (ltb z x); constructor; [inversion Hhd; assumption | exact Hle].
    + constructor; [exact Hs |]. constructor. apply ltb_le, Hyx.
Qed.

Lemma sort_pure_Sorted (l : list A) : Sorted le (sort_pure ltb l).
Proof.
  induction l as [| x r IH]; simpl; [constructor | apply insert_pure_Sorted, IH].
Qed.

Lemma sort_pure_StronglySorted (l : list A) : StronglySorted le (sort_pure ltb l).
Proof.
  apply Sorted_StronglySorted; [exact le_trans | apply sort_pure_Sorted].
Qed.
End SortPure.

(** Two ascending arrangements of the same elements are the same list when
    no two distinct elements are each below the other. *)
Lemma StronglySorted_unique {A : Type} (le : A -> A -> Prop) (l1 l2 : list A) :
  (forall a b, In a l1 -> In b l1 -> le a b -> le b a -> a = b) ->
  StronglySorted le l1 -> StronglySorted le l2 -> Permutation l1 l2 -> l1 = l2.
Proof.
  revert l2; induction l1 as [| a r1 IH]; intros l2 Hanti Hs1 Hs2 Hp.
  - apply Permutation_nil in Hp. subst; reflexivity.
  - destruct l2 as [| b r2]; [apply Permutation_sym, Permutation_nil in Hp; discriminate |].
    inversion Hs1 as [| ? ? Hr1 Ha]; subst. inversion Hs2 as [| ? ? Hr2 Hb]; subst.
    assert (Hab : a = b).
    { assert (Hain : In a (b :: r2)) by (eapply Permutation_in; [exact Hp | left; reflexivity]).
      assert (Hbin : In b (a :: r1))
        by (eapply Permutation_in; [apply Permutation_sym, Hp | left; reflexivity]).
      destruct Hain as [<- | Hain]; [reflexivity |].
      destruct Hbin as [<- | Hbin]; [reflexivity |].
      rewrite Forall_forall in Ha, Hb.
      apply Hanti; [left; reflexivity | right; exact Hbin | apply Ha, Hbin | apply Hb, Hain]. }
    subst b. f_equal. apply IH; auto.
    + intros x y Hx Hy. apply Hanti; right; assumption.
    + eapply Permutation_cons_inv; exact Hp.
Qed.

(** ** [sorted] and [argsort] *)

Section SortedBy.
Context {A : Type} (lt : A -> A -> result bool).

Lemma insert_by_perm (x : A) (l l' : list A) :
  insert_by lt x l = Ok l' -> Permutation (x :: l) l'.
Proof.
  revert l'; induction l as [| y r IH]; simpl; intros l' Hi.
  - inversion Hi; subst. apply Permutation_refl.
  - inv_bind Hi. destruct a.
    + inv_bind Hi. inversion Hi; subst.
      eapply perm_trans; [apply perm_swap | apply perm_skip, IH, Ha0].
    + inversion Hi; subst. apply Permutation_refl.
Qed.

Lemma sorted_by_perm (l l' : list A) : sorted_by lt l = Ok l' -> Permutation l l'.
Proof.
  revert l'; induction l as [| x r IH]; simpl; intros l' Hs.
  - inversion Hs; subst. constructor.
  - inv_bind Hs. eapply perm_trans; [apply perm_skip, IH, Ha | apply insert_by_perm, Hs].
Qed.

Lemma insert_by_total (x : A) (l : list A) :
  (forall y, In y l -> exists b, lt y x = Ok b) -> exists l', insert_by lt x l = Ok l'.
Proof.
  induction l as [| y r IH]; simpl; intros Hlt.
  - eexists; reflexivity.
  - destruct (Hlt y (or_introl eq_refl)) as [b Hb]. rewrite Hb. cbn [bind].
    destruct b; [| eexists; reflexivity].
    destruct IH as [r' Hr']; [intros z Hz; apply Hlt; right; exact Hz |].
    rewrite Hr'. cbn [bind]. eexists; reflexivity.
Qed.

Lemma sorted_by_total (l : list A) :
  (forall a b, In a l -> In b l -> exists r, lt a b = Ok r) ->
  exists l', sorted_by lt l = Ok l'.
Proof.
  induction l as [| x r IH]; simpl; intros Hlt.
  - eexists; reflexivity.
  - destruct IH as [r' Hr']; [intros a b Ha Hb; apply Hlt; right; assumption |].
    rewrite Hr'. cbn [bind]. apply insert_by_total.
    intros y Hy. apply Hlt; [right | left; reflexivity].
    eapply Permutation_in; [apply Permutation_sym, sorted_by_perm, Hr' | exact Hy].
Qed.
End SortedBy.

Lemma py_lt_strings_total (l l' : list string) :
  exists b, py_lt (strings l) (strings l') = Ok b.
Proof.
  unfold strings. revert l'; induction l as [| a r IH]; intros [| b r']; simpl;
    try (eexists; reflexivity).
  destruct (String.eqb a b); [| eexists; reflexivity].
  destruct (IH r') as [x Hx]. simpl in Hx. exists x. exact Hx.
Qed.

Lemma sorted_strings_total (l : list string) :
  exists l', sorted (map VStr l) = Ok l'.
Proof.
  apply sorted_by_total. intros a b Ha Hb.
  apply in_map_iff in Ha, Hb. destruct Ha as [x [<- _]], Hb as [y [<- _]].
  simpl. eexists; reflexivity.
Qed.

Lemma sorted_groups_total (groups : list (list string)) :
  exists l', sorted (map (fun g => VList (map VStr g)) groups) = Ok l'.
Proof.
  apply sorted_by_total. intros a b Ha Hb.
  apply in_map_iff in Ha, Hb. destruct Ha as [x [<- _]], Hb as [y [<- _]].
  apply py_lt_strings_total.
Qed.

Lemma argsort_perm (rows : list value) (order : list nat) :
  argsort rows = Ok order -> Permutation (seq 0 (length rows)) order.
Proof. apply sorted_by_perm. Qed.

Lemma argsort_total (rows : list value) :
  (forall r, In r rows -> exists l, r = strings l) ->
  exists order, argsort rows = Ok order.
Proof.
  intros Hrows. apply sorted_by_total. intros i j Hi Hj.
  apply in_seq in Hi, Hj.
  destruct (Hrows (nth i rows (VList []))) as [li ->]; [apply nth_In; lia |].
  destruct (Hrows (nth j rows (VList []))) as [lj ->]; [apply nth_In; lia |].
  apply py_lt_strings_total.
Qed.

Lemma map_nth_seq {A : Type} (l : list A) (d : A) :
  map (fun i => nth i l d) (seq 0 (length l)) = l.
Proof.
  induction l as [| x r IH]; simpl; [reflexivity |].
  f_equal. rewrite <- seq_shift, map_map. exact IH.
Qed.

(** Picking the elements of a list along a rearrangement of its indices
    rearranges the list. *)
Lemma pick_permutation (l : list value) (order : list nat) (picked : list value) :
  Permutation (seq 0 (length l)) order ->
  mapM (index_value (VList l)) order = Ok picked ->
  Permutation l picked.
Proof.
  intros Hp Hm.
  assert (Hpick : picked = map (fun i => nth i l (VList [])) order).
  { apply mapM_ok_Forall2 in Hm. clear Hp.
    induction Hm as [| i y r r' Hiy _ IH]; simpl; [reflexivity |].
    f_equal; [| exact IH]. unfold index_value in Hiy. simpl in Hiy.
    destruct (nth_error l i) as [x |] eqn:Hn; inversion Hiy; subst.
    symmetry. apply nth_error_nth, Hn. }
  subst picked. rewrite <- (map_nth_seq l (VList [])) at 1.
  apply Permutation_map, Hp.
Qed.

Lemma pick_total (l : list value) (order : list nat) :
  Permutation (seq 0 (length l)) order ->
  exists picked, mapM (index_value (VList l)) order = Ok picked.
Proof.
  intros Hp. apply mapM_total. intros i Hi.
  apply (Permutation_in _ (Permutation_sym Hp)) in Hi. apply in_seq in Hi.
  unfold index_value. simpl.
  destruct (nth_error l i) as [x |] eqn:Hn; [eexists; reflexivity |].
  apply nth_error_None in Hn. lia.
Qed.

(** ** [sort_config] *)

Lemma mapM_length {A B : Type} (f : A -> result B) (l : list A) (l' : list B) :
  mapM f l = Ok l' -> length l' = length l.
Proof.
  intros Hm. apply mapM_ok_Forall2 in Hm. symmetry. eapply Forall2_length; eauto.
Qed.

Lemma mapM_In {A B : Type} (f : A -> result B) (l : list A) (l' : list B) (y : B) :
  mapM f l = Ok l' -> In y l' -> exists x, In x l /\ f x = Ok y.
Proof.
  intros Hm. apply mapM_ok_Forall2 in Hm.
  induction Hm as [| a b r r' Hab _ IH]; intros Hy; [contradiction |].
  destruct Hy as [<- | Hy]; [exists a; split; [left; reflexivity | exact Hab] |].
  destruct (IH Hy) as [x [Hx Hf]]. exists x; split; [right |]; assumption.
Qed.

Lemma mapM_entries (f : string -> value -> result value) (c c' : dict) :
  mapM (fun kv => v' <- f (fst kv) (snd kv) ;; Ok (fst kv, v')) c = Ok c' ->
  map fst c' = map fst c
  /\ forall k v, lookup k c = Some v -> exists v', lookup k c' = Some v' /\ f k v = Ok v'.
Proof.
  revert c'; induction c as [| [k0 v0] r IH]; simpl; intros c' Hm.
  - inversion Hm; subst. split; [reflexivity | discriminate].
  - inv_bind Hm. inv_bind Ha. inversion Ha; subst a. clear Ha.
    inv_bind Hm. inversion Hm; subst c'. clear Hm.
    destruct (IH _ Ha) as [Hkeys Hl]. split; [simpl; f_equal; exact Hkeys |].
    intros k v. simpl. destruct (eq_dec k k0) as [-> | Hne].
    + intros Hv; inversion Hv; subst. exists a0; auto.
    + apply Hl.
Qed.

Lemma mapM_entries_total (f : string -> value -> result value) (c : dict) :
  (forall k v, In (k, v) c -> exists v', f k v = Ok v') ->
  exists c', mapM (fun kv => v' <- f (fst kv) (snd kv) ;; Ok (fst kv, v')) c = Ok c'.
Proof.
  intros Hf. apply mapM_total. intros [k v] Hin.
  destruct (Hf k v Hin) as [v' Hv']. simpl. rewrite Hv'. eexists; reflexivity.
Qed.

Lemma usable_groups_value (c : dict) (gs : list (list string)) :
  usable_groups c (groups_value gs)
  = Ok (filter (fun g => negb (is_nil g))
               (map (fun g => filter (fun k => contains k c) g) gs)).
Proof.
  unfold usable_groups, groups_value.
  assert (Hm : mapM (filter_group c) (map (fun g => VList (map VStr g)) gs)
               = Ok (map (fun g => filter (fun k => contains k c) g) gs)).
  { induction gs as [| g r IH]; simpl; [reflexivity |].
    rewrite filter_group_names. cbn [bind]. rewrite IH. reflexivity. }
  rewrite Hm. reflexivity.
Qed.

Lemma items_strings (c : dict) (k : string) (l : list string) :
  lookup k c = Some (strings l) -> items c k = map VStr l.
Proof. unfold items. intros ->. reflexivity. Qed.

Lemma group_rows_uniform (c : dict) (g : list string) :
  uniform_group c g ->
  exists rows,
    group_rows c g = Ok rows
    /\ (forall k, In k g -> length rows = length (items c k))
    /\ (forall r, In r rows -> exists l, r = strings l).
Proof.
  intros [Hpresent Hlen]. destruct g as [| k0 g']; [exists []; simpl; intuition |].
  unfold group_rows. destruct (Hpresent k0 (or_introl eq_refl)) as [l0 Hl0].
  unfold getitem at 1. rewrite Hl0. cbn [bind].
  set (group := k0 :: g') in *.
  set (n := len_value (strings l0)).
  assert (Hn : forall k, In k group -> length (items c k) = n).
  { intros k Hk. rewrite (Hlen k k0 Hk (or_introl eq_refl)).
    rewrite (items_strings _ _ _ Hl0). reflexivity. }
  assert (Hrow : forall idx, In idx (seq 0 n) ->
            exists l, (vals <- mapM (fun key => c0 <- getitem key c ;; index_value c0 idx)
                                    group ;; Ok (VList vals)) = Ok (strings l)).
  { intros idx Hidx. apply in_seq in Hidx.
    assert (Hvals : forall key, In key group ->
              exists s, (c0 <- getitem key c ;; index_value c0 idx) = Ok (VStr s)).
    { intros key Hkey. destruct (Hpresent key Hkey) as [l Hl].
      unfold getitem. rewrite Hl. cbn [bind]. unfold index_value, strings. simpl.
      specialize (Hn key Hkey). rewrite (items_strings _ _ _ Hl) in Hn.
      destruct (nth_error (map VStr l) idx) as [x |] eqn:Hx.
      - apply nth_error_In, in_map_iff in Hx. destruct Hx as [s [<- _]]. exists s; reflexivity.
      - apply nth_error_None in Hx. lia. }
    clear -Hvals. induction group as [| key r IH]; simpl.
    - exists []. reflexivity.
    - destruct (Hvals key (or_introl eq_refl)) as [s Hs]. rewrite Hs. cbn [bind].
      destruct IH as [l Hl]; [intros k Hk; apply Hvals; right; exact Hk |].
      inv_bind Hl. rewrite Ha. cbn [bind]. exists (s :: l).
      inversion Hl; subst. reflexivity. }
  destruct (mapM_total _ (seq 0 n)
              (fun idx Hidx => let (l, Hl) := Hrow idx Hidx in ex_intro _ (strings l) Hl))
    as [rows Hrows].
  exists rows. split; [exact Hrows |]. split.
  - intros k Hk. rewrite (mapM_length _ _ _ Hrows), length_seq. symmetry. apply Hn, Hk.
  - intros r Hr. destruct (mapM_In _ _ _ _ Hrows Hr) as [idx [Hidx Hf]].
    destruct (Hrow idx Hidx) as [l Hl]. rewrite Hl in Hf. inversion Hf. exists l; reflexivity.
Qed.

Lemma lookup_fold_setitem (g : list string) (order : list nat)
  (so : list (string * list nat)) (k : string) :
  lookup k (fold_left (fun so key => setitem key order so) g so)
  = if mem k g then Some order else lookup k so.
Proof.
  revert so; induction g as [| key r IH]; intros so; simpl; [reflexivity |].
  rewrite IH. unfold mem. simpl.
  destruct (in_dec eq_dec k r) as [Hin | Hout].
  - destruct (eq_dec key k); reflexivity.
  - destruct (eq_dec key k) as [-> | Hne].
    + apply lookup_setitem_eq.
    + apply lookup_setitem_ne. exact Hne.
Qed.

(** Every order [sort_config] records for a key rearranges the indices of
    the list under that key. *)
Lemma sorting_order_uniform (c : dict) (groups : list (list string)) :
  (forall g, In g groups -> uniform_group c g) ->
  forall so0,
    (forall k order, lookup k so0 = Some order ->
                     Permutation (seq 0 (length (items c k))) order) ->
    exists so,
      foldM (fun so group =>
               rows <- group_rows c group ;;
               order <- argsort rows ;;
               Ok (fold_left (fun so key => setitem key order so) group so))
            groups so0 = Ok so
      /\ (forall k order, lookup k so = Some order ->
                          Permutation (seq 0 (length (items c k))) order)
      /\ (forall k, lookup k so <> None ->
                    lookup k so0 <> None \/ exists g, In g groups /\ In k g).
Proof.
  induction groups as [| g r IH]; simpl; intros Hu so0 Hso0.
  - exists so0. split; [reflexivity |]. split; [exact Hso0 | auto].
  - destruct (group_rows_uniform c g (Hu g (or_introl eq_refl))) as [rows [Hrows [Hlen Hstr]]].
    rewrite Hrows. cbn [bind].
    destruct (argsort_total rows Hstr) as [order Horder]. rewrite Horder. cbn [bind].
    destruct (IH (fun g' Hg' => Hu g' (or_intror Hg'))
                 (fold_left (fun so key => setitem key order so) g so0))
      as [so [Hso [Hperm Hdom]]].
    + intros k o. rewrite lookup_fold_setitem.
      destruct (mem k g) eqn:Hk; [| apply Hso0].
      intros Ho; inversion Ho; subst o. apply mem_true in Hk.
      rewrite <- (Hlen k Hk). apply argsort_perm, Horder.
    + exists so. split; [exact Hso |]. split; [exact Hperm |].
      intros k Hk. destruct (Hdom k Hk) as [H0 | [g' [Hg' Hin]]].
      * rewrite lookup_fold_setitem in H0. destruct (mem k g) eqn:Hm; [| left; exact H0].
        right. exists g. split; [left; reflexivity | apply mem_true, Hm].
      * right. exists g'. split; [right |]; assumption.
Qed.

Lemma reorder_In (ks : list string) (d : dict) (kv : string * value) :
  In kv (reorder ks d) -> In kv d.
Proof.
  unfold reorder. intros Hin. apply in_flat_map in Hin. destruct Hin as [k [_ Hk]].
  destruct (lookup k d) as [v |] eqn:Hl; [| contradiction].
  destruct Hk as [<- | []]. apply lookup_In, Hl.
Qed.

Lemma sort_pins_total (v : value) : pins_well_formed v -> exists v', sort_pins v = Ok v'.
Proof.
  intros [d [-> Hd]]. unfold sort_pins.
  match goal with |- context [mapM ?f ?l] => destruct (mapM_total f l) as [p Hp] end.
  - intros [pkg pv] Hin. apply reorder_In in Hin.
    destruct (Hd pkg pv Hin) as [pins ->]. simpl. eexists; reflexivity.
  - rewrite Hp. cbn [bind]. eexists; reflexivity.
Qed.

Lemma usable_groups_uniform (gs : list (list string)) (c : dict) :
  sortable gs c ->
  forall g, In g (filter (fun g => negb (is_nil g))
                         (map (fun g => filter (fun k => contains k c) g) gs)) ->
            uniform_group c g
            /\ exists g0, In g0 gs /\ forall k, In k g -> In k g0.
Proof.
  intros Hs g Hg. apply filter_In in Hg. destruct Hg as [Hg _].
  apply in_map_iff in Hg. destruct Hg as [g0 [<- Hg0]].
  assert (Hmem : forall k, In k (filter (fun k => contains k c) g0) ->
                           In k g0 /\ lookup k c <> None).
  { intros k Hk. apply filter_In in Hk. destruct Hk as [Hk Hc]. split; [exact Hk |].
    apply contains_true in Hc. apply lookup_In_keys, Hc. }
  split; [split |].
  - intros k Hk. destruct (Hmem k Hk) as [Hin Hl].
    destruct (lookup k c) as [v |] eqn:Hv; [| contradiction].
    destruct (sortable_members gs c Hs g0 k Hg0 Hin) as [Hz Hp].
    destruct (sortable_values gs c Hs k v Hv Hz Hp) as [l ->]. exists l; reflexivity.
  - intros k k' Hk Hk'. destruct (Hmem k Hk), (Hmem k' Hk').
    eapply (sortable_lengths gs c Hs g0); eauto.
  - exists g0. split; [exact Hg0 |]. intros k Hk. apply (Hmem k Hk).
Qed.

(** [sort_config] returns on a sortable mapping. The result has the same
    keys in the same order; the list of strings under a variable and the
    list of groups under [zip_keys] are rearranged. *)
Lemma sort_config_sortable (gs : list (list string)) (c : dict) :
  sortable gs c ->
  exists c',
    sort_config c (groups_value gs) = Ok c'
    /\ map fst c' = map fst c
    /\ (forall k l, lookup k c = Some (VList l) -> k <> "pin_run_as_build" ->
                    exists l', lookup k c' = Some (VList l') /\ Permutation l l').
Proof.
  intros Hs. unfold sort_config. rewrite usable_groups_value. cbn [bind].
  unfold sorting_order_of.
  destruct (sorting_order_uniform c _ (fun g Hg => proj1 (usable_groups_uniform gs c Hs g Hg)) [])
    as [so [Hso [Hperm Hdom]]]; [discriminate |].
  rewrite Hso. cbn [bind].
  assert (Hgrouped : forall k, lookup k so <> None -> exists g, In g gs /\ In k g).
  { intros k Hk. destruct (Hdom k Hk) as [H0 | [g [Hg Hin]]]; [exfalso; apply H0; reflexivity |].
    destruct (usable_groups_uniform gs c Hs g Hg) as [_ [g0 [Hg0 Hsub]]].
    exists g0. split; [exact Hg0 | apply Hsub, Hin]. }
  assert (Hentry : forall k v, lookup k c = Some v ->
            exists v', sort_entry so k v = Ok v'
                       /\ forall l, v = VList l -> k <> "pin_run_as_build" ->
                                    exists l', v' = VList l' /\ Permutation l l').
  { intros k v Hv. unfold sort_entry.
    destruct (string_dec k "pin_run_as_build") as [-> | Hpin].
    - destruct (sortable_pins gs c Hs v Hv) as [d [-> Hd]]. cbn [bind]. simpl.
      destruct (sort_pins_total (VDict d)) as [v' Hv']; [exists d; auto |].
      exists v'. split; [exact Hv' | intros l _ Hne; contradiction].
    - assert (Hnot : String.eqb k "pin_run_as_build" = false) by (apply String.eqb_neq, Hpin).
      destruct (string_dec k "zip_keys") as [-> | Hzip].
      + destruct (sortable_zip_keys gs c Hs v Hv) as [groups ->]. unfold groups_value.
        destruct (lookup "zip_keys" so) as [order |] eqn:Hso'.
        * exfalso. destruct (Hgrouped "zip_keys") as [g [Hg Hin]]; [rewrite Hso'; discriminate |].
          destruct (sortable_members gs c Hs g _ Hg Hin) as [Hz _]. apply Hz; reflexivity.
        * destruct (sorted_groups_total groups) as [l' Hl']. rewrite Hl'. cbn [bind].
          rewrite Hnot. eexists; split; [reflexivity |].
          intros l Hl _. inversion Hl; subst l. exists l'. split; [reflexivity |].
          apply (sorted_by_perm _ _ _ Hl').
      + destruct (sortable_values gs c Hs k v Hv Hzip Hpin) as [l ->]. unfold strings.
        destruct (lookup k so) as [order |] eqn:Hso'.
        * specialize (Hperm k order Hso'). rewrite (items_strings _ _ _ Hv) in Hperm.
          destruct (pick_total _ _ Hperm) as [picked Hpicked]. rewrite Hpicked. cbn [bind].
          rewrite Hnot. eexists; split; [reflexivity |].
          intros l0 Hl0 _. inversion Hl0; subst l0. exists picked. split; [reflexivity |].
          eapply pick_permutation; eauto.
        * destruct (sorted_strings_total l) as [l' Hl']. rewrite Hl'. cbn [bind].
          rewrite Hnot. eexists; split; [reflexivity |].
          intros l0 Hl0 _. inversion Hl0; subst l0. exists l'. split; [reflexivity |].
          apply (sorted_by_perm _ _ _ Hl'). }
  destruct (mapM_entries_total (sort_entry so) c) as [c' Hc'].
  { intros k v Hin. destruct (Hentry k v) as [v' [Hv' _]]; [| exists v'; exact Hv'].
    apply In_lookup_NoDup; [apply (sortable_keys gs c Hs) | exact Hin]. }
  exists c'. split; [exact Hc' |].
  destruct (mapM_entries _ _ _ Hc') as [Hkeys Hl]. split; [exact Hkeys |].
  intros k l Hk Hpin. destruct (Hl k _ Hk) as [v' [Hv' Hsort]].
  destruct (Hentry k _ Hk) as [v'' [Hv'' Hlist]]. rewrite Hsort in Hv''. inversion Hv''; subst v''.
  destruct (Hlist l eq_refl Hpin) as [l' [-> Hp]]. exists l'. auto.
Qed.

(** ** [break_up_top_level_values] without top-level keys *)

Lemma setitem_absent {K V : Type} `{EqDec K} (k : K) (v : V) (d : list (K * V)) :
  ~ In k (map fst d) -> setitem k v d = d ++ [(k, v)].
Proof.
  induction d as [| [k0 v0] r IH]; simpl; intros Hout; [reflexivity |].
  destruct (eq_dec k k0) as [-> | Hne]; [exfalso; apply Hout; left; reflexivity |].
  f_equal. apply IH. intros Hin. apply Hout. right; exact Hin.
Qed.

Lemma fold_setitem_fresh {K V : Type} `{EqDec K} (l acc : list (K * V)) :
  NoDup (map fst (acc ++ l)) ->
  fold_left (fun d kv => setitem (fst kv) (snd kv) d) l acc = acc ++ l.
Proof.
  revert acc; induction l as [| [k v] r IH]; simpl; intros acc Hnd.
  - rewrite app_nil_r. reflexivity.
  - assert (Hout : ~ In k (map fst acc)).
    { rewrite map_app in Hnd. simpl in Hnd. apply NoDup_remove_2 in Hnd.
      intros Hin. apply Hnd. apply in_or_app. left; exact Hin. }
    rewrite (setitem_absent k v acc Hout).
    rewrite IH; rewrite <- app_assoc; [reflexivity | exact Hnd].
Qed.


Lemma sort_config_keys (c c' : dict) (z : value) :
  sort_config c z = Ok c' -> map fst c' = map fst c.
Proof.
  unfold sort_config. intros Hs. inv_bind Hs. inv_bind Hs.
  apply (mapM_entries _ _ _ Hs).
Qed.


Lemma zip_groups_known (gs : list (list string)) (m : dict) :
  zip_groups_are gs m ->
  zip_key_groups_of m = Ok (map (fun g => VList (map VStr g)) gs)
  /\ groups_after (map (fun g => VList (map VStr g)) gs) m = groups_value gs.
Proof.
  unfold zip_key_groups_of, groups_after.
  intros [Hz | [Hz ->]]; rewrite Hz.
  - split; [apply as_groups_groups_value | reflexivity].
  - split; reflexivity.
Qed.


Lemma break_up_key_missing (k : string) (tl : list string) (groups : list value)
  (st : bstate) :
  ~ In k (accounted_for_keys st) -> lookup k (squished st) = None ->
  exists e, break_up_key tl groups st k = Raise e.
Proof.
  intros Hacc Hk. unfold break_up_key.
  replace (mem k (accounted_for_keys st)) with false by (symmetry; apply mem_false, Hacc).
  assert (Hget : getitem k (squished st) = Raise KeyError)
    by (unfold getitem; rewrite Hk; reflexivity).
  destruct (find (key_in k) groups) as [group |].
  - destruct (group_members group) as [members | e]; [| exists e; reflexivity].
    cbn [bind]. rewrite Hget. exists KeyError; reflexivity.
  - rewrite Hget. exists KeyError; reflexivity.
Qed.

Lemma break_up_missing_key (k : string) (tl : list string) (m : dict) :
  lookup k m = None -> exists e, break_up_top_level_values (k :: tl) m = Raise e.
Proof.
  intros Hk. unfold break_up_top_level_values.
  destruct (zip_key_groups_of m) as [groups | e]; [| exists e; reflexivity].
  cbn [bind foldM].
  destruct (break_up_key_missing k (k :: tl) groups (mk_bstate [] [] [] m)
              (fun H => H) Hk) as [e He].
  rewrite He. exists e; reflexivity.
Qed.


Ltac lookup_cases H :=
  simpl in H;
  repeat match type of H with
         | context [eq_dec ?a ?b] => destruct (eq_dec a b) as [-> | ?]
         end;
  try discriminate H.

Lemma python_numpy_sortable : sortable [["python"; "numpy"]] python_numpy.
Proof.
  constructor.
  - simpl. repeat constructor; simpl; intuition discriminate.
  - intros k v H Hz Hp. lookup_cases H; inversion H; subst; try contradiction;
      eexists; reflexivity.
  - intros v H. inversion H. exists [["python"; "numpy"]]. reflexivity.
  - intros v H. discriminate H.
  - intros g k k' [<- | []] Hk Hk' _ _.
    destruct Hk as [<- | [<- | []]]; destruct Hk' as [<- | [<- | []]]; reflexivity.
  - intros g k [<- | []] [<- | [<- | []]]; split; discriminate.
Qed.

(** ** Zip groups *)

Lemma key_in_names_true (key : string) (g : list string) :
  key_in key (VList (map VStr g)) = true <-> In key g.
Proof.
  simpl. rewrite existsb_exists. split.
  - intros [x [Hx Hk]]. apply in_map_iff in Hx. destruct Hx as [s [<- Hs]].
    apply String.eqb_eq in Hk. subst; exact Hs.
  - intros Hin. exists (VStr key). split; [apply in_map, Hin | apply String.eqb_refl].
Qed.

Lemma key_in_names (key : string) (g : list string) :
  key_in key (VList (map VStr g)) = mem key g.
Proof.
  destruct (mem key g) eqn:Hm.
  - apply key_in_names_true, mem_true, Hm.
  - destruct (key_in key (VList (map VStr g))) eqn:Hk; [| reflexivity].
    apply key_in_names_true, mem_true in Hk. congruence.
Qed.

Lemma find_group_value (key : string) (gs : list (list string)) :
  find (key_in key) (map (fun g => VList (map VStr g)) gs)
  = option_map (fun g => VList (map VStr g)) (find (mem key) gs).
Proof.
  induction gs as [| g r IH]; [reflexivity |].
  cbn [map find]. rewrite key_in_names. destruct (mem key g); [reflexivity | exact IH].
Qed.

Lemma NoDup_concat_member {A : Type} (gs : list (list A)) (g : list A) :
  NoDup (concat gs) -> In g gs -> NoDup g.
Proof.
  induction gs as [| g0 r IH]; simpl; intros Hnd Hin; [contradiction |].
  destruct Hin as [-> | Hin].
  - apply NoDup_app_remove_r in Hnd. exact Hnd.
  - apply IH; [apply NoDup_app_remove_l in Hnd; exact Hnd | exact Hin].
Qed.

Lemma NoDup_app_apart {A : Type} (l l' : list A) (y : A) :
  NoDup (l ++ l') -> In y l -> In y l' -> False.
Proof.
  induction l as [| a r IH]; simpl; intros Hnd Hy Hy'; [contradiction |].
  inversion Hnd as [| ? ? Hnot Hnd']; subst. destruct Hy as [-> | Hy].
  - apply Hnot. apply in_or_app. right; exact Hy'.
  - apply IH; assumption.
Qed.

Lemma NoDup_concat_disjoint {A : Type} (gs : list (list A)) (g g' : list A) (x : A) :
  NoDup (concat gs) -> In g gs -> In g' gs -> In x g -> In x g' -> g = g'.
Proof.
  induction gs as [| g0 r IH]; simpl; intros Hnd Hg Hg' Hx Hx'; [contradiction |].
  assert (Hsplit : forall y h, In y g0 -> In h r -> In y h -> False).
  { intros y h Hy Hh Hyh. apply (NoDup_app_apart _ _ y Hnd Hy).
    apply in_concat. exists h; auto. }
  destruct Hg as [-> | Hg]; destruct Hg' as [-> | Hg'].
  - reflexivity.
  - exfalso. eapply Hsplit; eauto.
  - exfalso. eapply Hsplit; eauto.
  - apply IH; auto. apply NoDup_app_remove_l in Hnd. exact Hnd.
Qed.

Lemma find_group_unique (gs : list (list string)) (g : list string) (k : string) :
  NoDup (concat gs) -> In g gs -> In k g -> find (mem k) gs = Some g.
Proof.
  intros Hnd Hg Hk. destruct (find (mem k) gs) as [g' |] eqn:Hf.
  - apply find_some in Hf. destruct Hf as [Hg' Hk']. apply mem_true in Hk'.
    f_equal. eapply NoDup_concat_disjoint; eauto.
  - exfalso. assert (Hm := find_none _ _ Hf g Hg). simpl in Hm.
    apply mem_true in Hk. congruence.
Qed.

Lemma find_group_some (gs : list (list string)) (g : list string) (k : string) :
  find (mem k) gs = Some g -> In g gs /\ In k g.
Proof.
  intros Hf. apply find_some in Hf. destruct Hf as [Hg Hk]. apply mem_true in Hk. auto.
Qed.

Lemma find_group_none (gs : list (list string)) (k : string) :
  find (mem k) gs = None -> forall g, In g gs -> ~ In k g.
Proof.
  intros Hf g Hg Hk. apply (find_none _ _ Hf) in Hg. apply mem_true in Hk. congruence.
Qed.

(** ** Removing keys *)

Lemma lookup_remove_keys (ks : list string) (d : dict) (k : string) :
  lookup k (remove_keys ks d) = if mem k ks then None else lookup k d.
Proof.
  unfold remove_keys. revert d; induction ks as [| k0 r IH]; intros d; simpl; [reflexivity |].
  rewrite IH. unfold mem. simpl.
  destruct (in_dec eq_dec k r) as [Hin | Hout].
  - destruct (eq_dec k0 k); reflexivity.
  - destruct (eq_dec k0 k) as [-> | Hne].
    + apply lookup_remove_key_eq.
    + apply lookup_remove_key_ne. exact Hne.
Qed.

Lemma NoDup_keys_remove_key (k : string) (d : dict) :
  NoDup (map fst d) -> NoDup (map fst (remove_key k d)).
Proof. intros Hnd. rewrite keys_remove_key. apply NoDup_filter, Hnd. Qed.

Lemma NoDup_keys_remove_keys (ks : list string) (d : dict) :
  NoDup (map fst d) -> NoDup (map fst (remove_keys ks d)).
Proof.
  unfold remove_keys. revert d; induction ks as [| k r IH]; intros d Hnd; simpl; [exact Hnd |].
  apply IH, NoDup_keys_remove_key, Hnd.
Qed.

Lemma remove_keys_app (ks ks' : list string) (d : dict) :
  remove_keys (ks ++ ks') d = remove_keys ks' (remove_keys ks d).
Proof. unfold remove_keys. apply fold_left_app. Qed.

Lemma delete_group (g : list string) (sq : dict) :
  NoDup g -> (forall k, In k g -> lookup k sq <> None) ->
  foldM (fun sq k => delitem k sq) g sq = Ok (remove_keys g sq).
Proof.
  revert sq; induction g as [| k r IH]; intros sq Hnd Hall; simpl; [reflexivity |].
  inversion Hnd as [| ? ? Hnot Hnd']; subst.
  unfold delitem at 1.
  assert (Hc : contains k sq = true).
  { apply contains_true, lookup_In_keys, Hall. left; reflexivity. }
  rewrite Hc. cbn [bind]. apply IH; [exact Hnd' |].
  intros k' Hk'. rewrite lookup_remove_key_ne; [apply Hall; right; exact Hk' |].
  intros ->. contradiction.
Qed.

(** ** The loop over the top-level keys *)

Lemma str_at_strings (m : dict) (k : string) (l : list string) (idx : nat) :
  lookup k m = Some (strings l) -> idx < length l ->
  nth_error (items m k) idx = Some (VStr (str_at m k idx)).
Proof.
  intros Hl Hidx. unfold str_at. rewrite (items_strings _ _ _ Hl).
  destruct (nth_error (map VStr l) idx) as [x |] eqn:Hx.
  - apply nth_error_In, in_map_iff in Hx. destruct Hx as [s [<- _]]. reflexivity.
  - apply nth_error_None in Hx. rewrite length_map in Hx. lia.
Qed.

Lemma str_at_same (m sq : dict) (k : string) (idx : nat) :
  lookup k sq = lookup k m -> str_at sq k idx = str_at m k idx.
Proof. unfold str_at, items. intros ->. reflexivity. Qed.

Section Partition.
Variables (tl : list string) (gs : list (list string)) (m : dict).
Hypothesis Hpi : partition_input tl gs m.

Lemma member_strings (g : list string) (k : string) :
  In g gs -> In k g -> exists l, lookup k m = Some (strings l).
Proof.
  intros Hg Hk. destruct (lookup k m) as [v |] eqn:Hv.
  - destruct (sortable_members gs m (pi_sortable _ _ _ Hpi) g k Hg Hk) as [Hz Hp].
    destruct (sortable_values gs m (pi_sortable _ _ _ Hpi) k v Hv Hz Hp) as [l ->].
    exists l; reflexivity.
  - exfalso. apply (pi_members _ _ _ Hpi g k Hg Hk Hv).
Qed.

Lemma member_lengths (g : list string) (k k' : string) :
  In g gs -> In k g -> In k' g -> length (items m k) = length (items m k').
Proof.
  intros Hg Hk Hk'. apply (sortable_lengths gs m (pi_sortable _ _ _ Hpi) g); auto;
    apply (pi_members _ _ _ Hpi g); auto.
Qed.

Lemma top_level_strings (k : string) :
  In k tl -> exists l, lookup k m = Some (strings l).
Proof.
  intros Hk. destruct (pi_keys _ _ _ Hpi k Hk) as [Hl [Hz Hp]].
  destruct (lookup k m) as [v |] eqn:Hv; [| contradiction].
  destruct (sortable_values gs m (pi_sortable _ _ _ Hpi) k v Hv Hz Hp) as [l ->].
  exists l; reflexivity.
Qed.

Lemma zip_row_group (sq : dict) (g : list string) (key : string) (idx : nat) :
  In g gs -> In key g ->
  (forall k, In k g -> lookup k sq = lookup k m) ->
  idx < length (items m key) ->
  zip_row tl sq g idx = Ok (zip_key_at tl m g idx, zip_entry_at m g idx).
Proof.
  intros Hg Hkey Hsame Hidx.
  assert (Hval : forall k, In k g ->
            (c <- getitem k sq ;; index_value c idx) = Ok (VStr (str_at m k idx))).
  { intros k Hk. destruct (member_strings g k Hg Hk) as [l Hl].
    unfold getitem. rewrite (Hsame k Hk), Hl. cbn [bind].
    assert (Hlen : idx < length l).
    { rewrite (member_lengths g key k Hg Hkey Hk), (items_strings _ _ _ Hl), length_map in Hidx.
      exact Hidx. }
    assert (Hn := str_at_strings m k l idx Hl Hlen).
    rewrite (items_strings _ _ _ Hl) in Hn.
    unfold index_value, strings. simpl. rewrite Hn. reflexivity. }
  unfold zip_row, zip_key_at, zip_entry_at.
  rewrite (mapM_pure _ (fun k => VStr (str_at m k idx))).
  2:{ intros k Hk. apply filter_In in Hk. apply Hval, Hk. }
  cbn [bind]. rewrite <- map_map, mapM_as_key_strings. cbn [bind].
  rewrite (mapM_pure _ (fun k => (k, VList [VStr (str_at m k idx)]))).
  2:{ intros k Hk.
      apply (bind_then _ _ (fun v => Ok (k, VList [v])) _ (Hval k Hk)). }
  cbn [bind]. unfold dict_of_items. rewrite (fold_setitem_fresh _ []); [reflexivity |].
  simpl. rewrite map_map. simpl. rewrite map_id.
  apply (NoDup_concat_member gs g (pi_disjoint _ _ _ Hpi) Hg).
Qed.

Lemma break_up_key_group (st : bstate) (key : string) (g : list string) :
  mem key (accounted_for_keys st) = false ->
  find (mem key) gs = Some g ->
  (forall k, In k g -> lookup k (squished st) = lookup k m) ->
  break_up_key tl (map (fun g => VList (map VStr g)) gs) st key
  = Ok (mk_bstate (accounted_for_keys st ++ g)
                  (zipped_configs st ++ [zipped_dim tl m g (length (items m key))])
                  (top_level_dimensions st)
                  (remove_keys g (squished st))).
Proof.
  intros Hacc Hfind Hsame. destruct (find_group_some _ _ _ Hfind) as [Hg Hkey].
  unfold break_up_key. rewrite Hacc, find_group_value, Hfind. cbn [option_map].
  unfold group_members. cbn [iter_value]. rewrite mapM_as_key_strings. cbn [bind].
  destruct (member_strings g key Hg Hkey) as [l Hl].
  unfold getitem. rewrite (Hsame key Hkey), Hl. cbn [bind].
  assert (Hn : len_value (strings l) = length (items m key)).
  { rewrite (items_strings _ _ _ Hl). reflexivity. }
  rewrite Hn.
  rewrite (mapM_pure _ (fun idx => (zip_key_at tl m g idx, zip_entry_at m g idx))).
  2:{ intros idx Hidx. apply in_seq in Hidx.
      apply (zip_row_group _ g key); auto. lia. }
  cbn [bind]. rewrite delete_group.
  - reflexivity.
  - apply (NoDup_concat_member gs g (pi_disjoint _ _ _ Hpi) Hg).
  - intros k Hk. rewrite (Hsame k Hk). apply (pi_members _ _ _ Hpi g k Hg Hk).
Qed.

Lemma break_up_key_standalone (st : bstate) (key : string) :
  mem key (accounted_for_keys st) = false ->
  find (mem key) gs = None ->
  In key tl ->
  lookup key (squished st) = lookup key m ->
  break_up_key tl (map (fun g => VList (map VStr g)) gs) st key
  = Ok (mk_bstate (accounted_for_keys st)
                  (zipped_configs st)
                  (top_level_dimensions st ++ [standalone_dim m key])
                  (remove_key key (squished st))).
Proof.
  intros Hacc Hfind Hkey Hsame.
  unfold break_up_key. rewrite Hacc, find_group_value, Hfind. cbn [option_map].
  destruct (top_level_strings key Hkey) as [l Hl].
  unfold getitem. rewrite Hsame, Hl. cbn [bind].
  unfold standalone_dim, items. rewrite Hl. reflexivity.
Qed.

Lemma loop_plan (keys : list string) :
  forall st,
    loop_inv tl gs m keys st ->
    foldM (break_up_key tl (map (fun g => VList (map VStr g)) gs)) keys st
    = Ok (mk_bstate
            (accounted_for_keys st
               ++ concat (map snd (zipped_units (plan gs keys (accounted_for_keys st)))))
            (zipped_configs st
               ++ map (fun u => zipped_dim tl m (snd u) (length (items m (fst u))))
                      (zipped_units (plan gs keys (accounted_for_keys st))))
            (top_level_dimensions st
               ++ map (standalone_dim m)
                      (standalone_keys (plan gs keys (accounted_for_keys st))))
            (remove_keys (flat_map unit_keys (plan gs keys (accounted_for_keys st)))
                         (squished st))).
Proof.
  induction keys as [| k r IH]; intros st [Hnd [Htl [Hfut Hacc]]].
  - simpl. rewrite !app_nil_r. destruct st; reflexivity.
  - inversion Hnd as [| ? ? Hnot Hnd']; subst. cbn [foldM plan].
    destruct (mem k (accounted_for_keys st)) eqn:Hk.
    + assert (Hstep : break_up_key tl (map (fun g => VList (map VStr g)) gs) st k = Ok st).
      { unfold break_up_key. rewrite Hk. reflexivity. }
      rewrite Hstep. cbn [bind]. apply IH.
      split; [exact Hnd' |]. split; [intros; apply Htl; right; assumption |].
      split; [intros k' Hk' Hn; apply Hfut; [right |]; assumption | exact Hacc].
    + apply mem_false in Hk. destruct (Hfut k (or_introl eq_refl) Hk) as [Hsame Hgroup].
      destruct (find (mem k) gs) as [g |] eqn:Hfind.
      * destruct (find_group_some _ _ _ Hfind) as [Hg Hkg].
        rewrite (break_up_key_group st k g); [| apply mem_false, Hk | exact Hfind |].
        2:{ intros k' Hk'. apply (Hgroup g k' Hg Hkg Hk'). }
        cbn [bind]. rewrite IH.
        -- cbn [accounted_for_keys zipped_configs top_level_dimensions squished].
           cbn [zipped_units standalone_keys flat_map snd fst map concat unit_keys app].
           rewrite <- !app_assoc. rewrite remove_keys_app. reflexivity.
        -- unfold loop_inv. cbn [accounted_for_keys squished].
           split; [exact Hnd' |]. split; [intros; apply Htl; right; assumption |]. split.
           ++ intros k' Hk' Hn.
              assert (Hk'acc : ~ In k' (accounted_for_keys st))
                by (intros Hc; apply Hn, in_or_app; left; exact Hc).
              assert (Hk'g : ~ In k' g)
                by (intros Hc; apply Hn, in_or_app; right; exact Hc).
              destruct (Hfut k' (or_intror Hk') Hk'acc) as [Hs' Hg'].
              split.
              ** rewrite lookup_remove_keys.
                 destruct (mem k' g) eqn:Hm; [apply mem_true in Hm; contradiction | exact Hs'].
              ** intros g' k'' Hg'in Hk'g' Hk''. rewrite lookup_remove_keys.
                 destruct (mem k'' g) eqn:Hm; [| apply (Hg' g' k'' Hg'in Hk'g' Hk'')].
                 exfalso. apply mem_true in Hm. apply Hk'g.
                 rewrite (NoDup_concat_disjoint gs g g' k'' (pi_disjoint _ _ _ Hpi)); auto.
           ++ intros k' Hk'. apply in_app_or in Hk'. destruct Hk' as [Hk' | Hk'].
              ** destruct (Hacc k' Hk') as [g0 [Hg0 [Hin Hall]]]. exists g0.
                 split; [exact Hg0 |]. split; [exact Hin |].
                 intros k'' Hk''. apply in_or_app. left. apply Hall, Hk''.
              ** exists g. split; [exact Hg |]. split; [exact Hk' |].
                 intros k'' Hk''. apply in_or_app. right; exact Hk''.
      * rewrite (break_up_key_standalone st k);
          [| apply mem_false, Hk | exact Hfind | apply Htl; left; reflexivity | exact Hsame].
        cbn [bind]. rewrite IH.
        -- cbn [accounted_for_keys zipped_configs top_level_dimensions squished].
           cbn [zipped_units standalone_keys flat_map snd fst map concat unit_keys app].
           rewrite <- !app_assoc. reflexivity.
        -- unfold loop_inv. cbn [accounted_for_keys squished].
           split; [exact Hnd' |]. split; [intros; apply Htl; right; assumption |]. split.
           ++ intros k' Hk' Hn. destruct (Hfut k' (or_intror Hk') Hn) as [Hs' Hg'].
              assert (Hne : k <> k') by (intros ->; contradiction).
              split.
              ** rewrite lookup_remove_key_ne by exact Hne. exact Hs'.
              ** intros g' k'' Hg'in Hk'g' Hk''. rewrite lookup_remove_key_ne.
                 --- apply (Hg' g' k'' Hg'in Hk'g' Hk'').
                 --- intros ->. apply (find_group_none _ _ Hfind g' Hg'in Hk'').
           ++ exact Hacc.
Qed.
End Partition.

(** ** Merging one entry of every dimension *)

Lemma lookup_fold_setitem_items {K V : Type} `{EqDec K} (l d : list (K * V)) (k : K) :
  NoDup (map fst l) ->
  lookup k (fold_left (fun acc kv => setitem (fst kv) (snd kv) acc) l d)
  = match lookup k l with
    | Some v => Some v
    | None => lookup k d
    end.
Proof.
  revert d; induction l as [| [k0 v0] r IH]; intros d Hnd; simpl; [reflexivity |].
  inversion Hnd as [| ? ? Hnot Hnd']; subst. rewrite (IH _ Hnd').
  destruct (eq_dec k k0) as [-> | Hne].
  - assert (Hr : lookup k0 r = None) by (apply lookup_None_keys, Hnot).
    rewrite Hr. apply lookup_setitem_eq.
  - destruct (lookup k r); [reflexivity |]. apply lookup_setitem_ne. congruence.
Qed.

Lemma lookup_update (d d' : dict) (k : string) :
  NoDup (map fst d') ->
  lookup k (update d d') = match lookup k d' with
                           | Some v => Some v
                           | None => lookup k d
                           end.
Proof. apply lookup_fold_setitem_items. Qed.

(** Under a key, the merge holds what the last entry that has the key
    holds. *)
Lemma lookup_merge (perm : list dict) (k : string) :
  (forall y, In y perm -> NoDup (map fst y)) ->
  forall acc,
    (lookup k (fold_left update perm acc) = lookup k acc
     /\ forall y, In y perm -> lookup k y = None)
    \/ exists y, In y perm /\ lookup k y <> None
                 /\ lookup k (fold_left update perm acc) = lookup k y.
Proof.
  induction perm as [| y r IH]; intros Hnd acc; simpl.
  - left. split; [reflexivity | intros y []].
  - destruct (IH (fun y' Hy' => Hnd y' (or_intror Hy')) (update acc y))
      as [[Hsame Hnone] | [y' [Hy' [Hhas Hl]]]].
    + rewrite Hsame, lookup_update by (apply Hnd; left; reflexivity).
      destruct (lookup k y) as [v |] eqn:Hy.
      * right. exists y. split; [left; reflexivity |]. rewrite Hy. split; [discriminate | reflexivity].
      * left. split; [reflexivity |]. intros y' [<- | Hy']; [exact Hy | apply Hnone, Hy'].
    + right. exists y'. split; [right; exact Hy' |]. split; assumption.
Qed.

Lemma combine_apart {A : Type} (Ks : list (list string)) (perm : list A)
  (K K' : list string) (y y' : A) (k : string) :
  NoDup (concat Ks) ->
  In (y, K) (combine perm Ks) -> In (y', K') (combine perm Ks) ->
  In k K -> In k K' -> y = y'.
Proof.
  revert perm; induction Ks as [| K0 r IH]; intros perm Hnd Hy Hy' Hk Hk'.
  - destruct perm; contradiction.
  - destruct perm as [| y0 perm]; [contradiction |]. simpl in Hy, Hy', Hnd.
    assert (Hlater : forall z Kz, In (z, Kz) (combine perm r) -> In k Kz -> In k K0 -> False).
    { intros z Kz Hz HkKz HkK0. apply (NoDup_app_apart _ _ k Hnd HkK0).
      apply in_concat. exists Kz. split; [| exact HkKz].
      apply (in_combine_r _ _ _ _ Hz). }
    destruct Hy as [Hy | Hy]; destruct Hy' as [Hy' | Hy'].
    + inversion Hy; inversion Hy'; subst. reflexivity.
    + inversion Hy; subst. exfalso. eapply Hlater; eauto.
    + inversion Hy'; subst. exfalso. eapply Hlater; eauto.
    + apply (IH perm); auto. apply NoDup_app_remove_l in Hnd. exact Hnd.
Qed.

Lemma chosen_member (specs : list (list string * list dict)) (perm : list dict)
  (y : dict) (s : list string * list dict) :
  chosen specs perm -> In (y, s) (combine perm specs) -> In s specs /\ In y (snd s).
Proof.
  unfold chosen. intros Hc. induction Hc as [| y0 s0 p ss Hy0 _ IH]; simpl; [intros [] |].
  intros [Heq | Hin].
  - inversion Heq; subst. split; [left; reflexivity | exact Hy0].
  - destruct (IH Hin) as [Hs Hy]. split; [right |]; assumption.
Qed.

Lemma chosen_at (specs : list (list string * list dict)) (perm : list dict)
  (s : list string * list dict) :
  chosen specs perm -> In s specs -> exists y, In (y, s) (combine perm specs).
Proof.
  unfold chosen. intros Hc. induction Hc as [| y0 s0 p ss Hy0 _ IH]; simpl; [intros [] |].
  intros [<- | Hin]; [exists y0; left; reflexivity |].
  destruct (IH Hin) as [y Hy]. exists y; right; exact Hy.
Qed.

Lemma chosen_entry (specs : list (list string * list dict)) (perm : list dict) (y : dict) :
  chosen specs perm -> In y perm -> exists s, In (y, s) (combine perm specs).
Proof.
  unfold chosen. intros Hc. induction Hc as [| y0 s0 p ss Hy0 _ IH]; simpl; [intros [] |].
  intros [<- | Hin]; [exists s0; left; reflexivity |].
  destruct (IH Hin) as [s Hs]. exists s; right; exact Hs.
Qed.

Lemma chosen_product (specs : list (list string * list dict)) (perm : list dict) :
  In perm (product (map snd specs)) <-> chosen specs perm.
Proof.
  unfold chosen. revert perm; induction specs as [| s r IH]; intros perm; simpl.
  - split.
    + intros [<- | []]. constructor.
    + intros Hc. inversion Hc. left; reflexivity.
  - rewrite in_flat_map. split.
    + intros [y [Hy Hin]]. apply in_map_iff in Hin. destruct Hin as [p [<- Hp]].
      constructor; [exact Hy | apply IH, Hp].
    + intros Hc. inversion Hc as [| y s' p r' Hy Hrest]; subst.
      exists y. split; [exact Hy |]. apply in_map, IH, Hrest.
Qed.

Lemma combine_fst_In {A B C : Type} (f : B -> C) (l : list A) (l' : list B) (x : A) (y : B) :
  In (x, y) (combine l l') -> In (x, f y) (combine l (map f l')).
Proof.
  revert l'; induction l as [| a r IH]; intros [| b r']; simpl; try contradiction.
  intros [Heq | Hin]; [inversion Heq; subst; left; reflexivity | right; apply IH, Hin].
Qed.

Lemma Forall_exists_Forall2 {A B : Type} (R : A -> B -> Prop) (l : list B) :
  (forall s, In s l -> exists y, R y s) -> exists perm, Forall2 R perm l.
Proof.
  induction l as [| s r IH]; intros Hall.
  - exists []. constructor.
  - destruct (Hall s (or_introl eq_refl)) as [y Hy].
    destruct IH as [perm Hperm]; [intros s' Hs'; apply Hall; right; exact Hs' |].
    exists (y :: perm). constructor; assumption.
Qed.

Lemma Forall2_combine_In {A B : Type} (R : A -> B -> Prop) (l : list A) (l' : list B)
  (x : A) (y : B) :
  Forall2 R l l' -> In (x, y) (combine l l') -> R x y.
Proof.
  intros HF. induction HF as [| a b r r' Hab _ IH]; simpl; [intros [] |].
  intros [Heq | Hin]; [inversion Heq; subst; exact Hab | apply IH, Hin].
Qed.

Lemma NoDup_product {A : Type} (dims : list (list A)) :
  (forall d, In d dims -> NoDup d) -> NoDup (product dims).
Proof.
  induction dims as [| d r IH]; intros Hnd; simpl.
  - repeat constructor. intros [].
  - assert (Hr : NoDup (product r)) by (apply IH; intros; apply Hnd; right; assumption).
    assert (Hd : NoDup d) by (apply Hnd; left; reflexivity).
    clear IH Hnd. induction Hd as [| x d' Hx _ IHd]; simpl; [constructor |].
    apply NoDup_app; [| exact IHd |].
    + apply (NoDup_map_NoDup_ForallPairs (cons x)); [| exact Hr].
      intros p p' _ _ Heq. inversion Heq; reflexivity.
    + intros p Hp Hp'. apply in_map_iff in Hp. destruct Hp as [p0 [<- _]].
      apply in_flat_map in Hp'. destruct Hp' as [x' [Hx' Hp']].
      apply in_map_iff in Hp'. destruct Hp' as [p1 [Heq _]].
      inversion Heq; subst. contradiction.
Qed.

Lemma find_exists {A : Type} (f : A -> bool) (l : list A) (x : A) :
  In x l -> f x = true -> exists y, find f l = Some y.
Proof.
  intros Hin Hf. destruct (find f l) as [y |] eqn:Hfind; [exists y; reflexivity |].
  rewrite (find_none _ _ Hfind x Hin) in Hf. discriminate.
Qed.

Lemma agrees_true (m config : dict) (idx : nat) (k : string) :
  agrees m config idx k = true -> top_value config k = nth_error (items m k) idx.
Proof.
  unfold agrees. destruct (top_value config k) as [a |]; [| discriminate].
  destruct (nth_error (items m k) idx) as [[s | l | d] |]; try discriminate.
  intros Ha. apply py_eqb_str in Ha. subst; reflexivity.
Qed.

Lemma agrees_string (m config : dict) (idx : nat) (k : string) (l : list string) :
  lookup k m = Some (strings l) -> idx < length (items m k) ->
  top_value config k = nth_error (items m k) idx -> agrees m config idx k = true.
Proof.
  intros Hl Hidx Htop. unfold agrees. rewrite Htop.
  rewrite (items_strings _ _ _ Hl), length_map in Hidx.
  rewrite (str_at_strings m k l idx Hl Hidx). apply py_eqb_str. reflexivity.
Qed.

Lemma combine3_left {A B C : Type} (l : list A) (l' : list B) (l'' : list C)
  (x : A) (y : B) (z : C) :
  In (x, (y, z)) (combine l (combine l' l'')) ->
  In (x, z) (combine l l'') /\ In (y, z) (combine l' l'').
Proof.
  revert l' l''; induction l as [| a r IH]; intros [| b r'] [| c r'']; simpl;
    try contradiction.
  intros [Heq | Hin].
  - inversion Heq; subst. split; left; reflexivity.
  - destruct (IH _ _ Hin). split; right; assumption.
Qed.

Lemma Forall2_pointwise_eq {A B : Type} (R : A -> B -> Prop) (l l' : list A)
  (specs : list B) :
  Forall2 R l specs -> Forall2 R l' specs ->
  (forall x x' s, In (x, (x', s)) (combine l (combine l' specs)) -> x = x') ->
  l = l'.
Proof.
  intros H1. revert l'. induction H1 as [| a s r ss _ _ IH]; intros l' H2 Heq.
  - inversion H2; reflexivity.
  - inversion H2 as [| a' s' r' ss' _ Hrest]; subst. f_equal.
    + apply (Heq a a' s). left; reflexivity.
    + apply IH; [exact Hrest |]. intros x x' s0 Hin. apply (Heq x x' s0). right; exact Hin.
Qed.

Section Product.
Variables (tl : list string) (gs : list (list string)) (m : dict).
Variable specs : list (list string * list dict).
Hypothesis Hspecs : forall s, In s specs -> dim_ok tl gs m (fst s) (snd s).
Hypothesis Hapart : NoDup (concat (map fst specs)).
Hypothesis Hcover : forall k, In k tl -> exists s, In s specs /\ In k (fst s).
Hypothesis Hstrings : forall k, In k tl -> exists l, lookup k m = Some (strings l).
Hypothesis Hdisjoint : NoDup (concat gs).
Hypothesis Hlengths :
  forall g k k', In g gs -> In k g -> In k' g -> length (items m k) = length (items m k').

Lemma chosen_keys (perm : list dict) :
  chosen specs perm -> forall y, In y perm -> NoDup (map fst y).
Proof.
  intros Hc y Hy. destruct (chosen_entry _ _ _ Hc Hy) as [s Hs].
  destruct (chosen_member _ _ _ _ Hc Hs) as [Hin Hys].
  apply (dim_keys _ _ _ _ _ (Hspecs s Hin) y Hys).
Qed.

(** Under a top-level variable the merged config holds what the entry of
    the dimension that owns the variable holds. *)
Lemma top_value_merge (perm : list dict) (y : dict) (s : list string * list dict)
  (k : string) :
  chosen specs perm -> In (y, s) (combine perm specs) -> In k (fst s) ->
  top_value (merge_permutation perm) k = top_value y k.
Proof.
  intros Hc Hys Hk. apply top_value_same_lookup. unfold merge_permutation.
  destruct (chosen_member _ _ _ _ Hc Hys) as [Hs Hy].
  destruct (lookup_merge perm k (chosen_keys perm Hc) [])
    as [[Hsame Hnone] | [y' [Hy' [Hhas Hl]]]].
  - rewrite Hsame. symmetry. apply Hnone. apply (in_combine_l _ _ _ _ Hys).
  - rewrite Hl. destruct (chosen_entry _ _ _ Hc Hy') as [s' Hs'].
    destruct (chosen_member _ _ _ _ Hc Hs') as [Hs'in Hy's'].
    assert (Hktl : In k tl) by (apply (dim_sub _ _ _ _ _ (Hspecs s Hs) k Hk)).
    assert (Hk' : In k (fst s'))
      by (apply (dim_owns _ _ _ _ _ (Hspecs s' Hs'in) y' k Hy's' Hktl Hhas)).
    rewrite (combine_apart (map fst specs) perm (fst s) (fst s') y y' k Hapart); auto;
      apply combine_fst_In; assumption.
Qed.

Lemma merged_combination_present (perm : list dict) :
  chosen specs perm -> present tl gs m (top_combo tl (merge_permutation perm)).
Proof.
  intros Hc. set (config := merge_permutation perm).
  assert (Hsel : forall k, In k tl ->
            sel_of tl gs m config k < length (items m k)
            /\ top_value config k = nth_error (items m k) (sel_of tl gs m config k)).
  { intros k Hk. destruct (Hcover k Hk) as [s [Hs HkK]].
    destruct (chosen_at _ _ _ Hc Hs) as [y Hys].
    destruct (chosen_member _ _ _ _ Hc Hys) as [_ Hy].
    destruct (dim_row _ _ _ _ _ (Hspecs s Hs) y Hy) as [idx Hidx].
    destruct (dim_sub _ _ _ _ _ (Hspecs s Hs) k HkK) as [_ Hpeers].
    assert (Hall : forallb (agrees m config idx) (peers tl gs k) = true).
    { apply forallb_forall. intros k' Hk'. rewrite Hpeers in Hk'.
      destruct (Hidx k' Hk') as [Hlt Htop].
      destruct (Hstrings k') as [l Hl];
        [apply (dim_sub _ _ _ _ _ (Hspecs s Hs) k' Hk') |].
      apply (agrees_string _ _ _ _ l Hl Hlt).
      unfold config. rewrite (top_value_merge perm y s k' Hc Hys Hk'). exact Htop. }
    destruct (find_exists (fun idx => forallb (agrees m config idx) (peers tl gs k))
                          (seq 0 (length (items m k))) idx) as [idx0 Hfind].
    - apply in_seq. destruct (Hidx k HkK) as [Hlt _]. lia.
    - exact Hall.
    - unfold sel_of. rewrite Hfind. apply find_some in Hfind. destruct Hfind as [Hin Hf].
      apply in_seq in Hin. split; [lia |].
      apply agrees_true. rewrite forallb_forall in Hf. apply Hf.
      rewrite Hpeers. exact HkK. }
  exists (sel_of tl gs m config). split; [| split].
  - intros g k k' Hg Hk Hk'. unfold sel_of, peers.
    rewrite (find_group_unique gs g k Hdisjoint Hg Hk).
    rewrite (find_group_unique gs g k' Hdisjoint Hg Hk').
    rewrite (Hlengths g k k' Hg Hk Hk'). reflexivity.
  - intros k Hk. apply (Hsel k Hk).
  - unfold top_combo. apply map_ext_in. intros k Hk. apply (Hsel k Hk).
Qed.

Lemma present_combination_merged (c : list (option value)) :
  present tl gs m c ->
  exists perm, chosen specs perm /\ top_combo tl (merge_permutation perm) = c.
Proof.
  intros [sel [Hrow [Hrange ->]]].
  destruct (Forall_exists_Forall2
              (fun y s => In y (snd s)
                          /\ forall k, In k (fst s) ->
                               top_value y k = nth_error (items m k) (sel k)) specs)
    as [perm Hperm].
  { intros s Hs. apply (dim_all _ _ _ _ _ (Hspecs s Hs) sel Hrow Hrange). }
  assert (Hc : chosen specs perm).
  { unfold chosen. eapply Forall2_impl; [| exact Hperm]. intros y s [Hy _]. exact Hy. }
  exists perm. split; [exact Hc |].
  unfold top_combo. apply map_ext_in. intros k Hk.
  destruct (Hcover k Hk) as [s [Hs HkK]].
  destruct (chosen_at _ _ _ Hc Hs) as [y Hys].
  rewrite (top_value_merge perm y s k Hc Hys HkK).
  apply (Forall2_combine_In _ _ _ _ _ Hperm Hys). exact HkK.
Qed.

(** On a deduplicated mapping no two choices of entries give the same
    top-level combination. *)
Lemma merged_combinations_NoDup :
  deduplicated tl gs m ->
  NoDup (map (fun perm => top_combo tl (merge_permutation perm))
             (product (map snd specs))).
Proof.
  intros Hdedup. apply NoDup_map_NoDup_ForallPairs.
  - intros perm perm' Hp Hp' Heq. apply chosen_product in Hp, Hp'.
    apply (Forall2_pointwise_eq _ _ _ _ Hp Hp').
    intros y y' s Hin. destruct (combine3_left _ _ _ _ _ _ Hin) as [Hys Hy's].
    destruct (chosen_member _ _ _ _ Hp Hys) as [Hs Hy].
    destruct (chosen_member _ _ _ _ Hp' Hy's) as [_ Hy'].
    apply (dim_inj _ _ _ _ _ (Hspecs s Hs) Hdedup y y' Hy Hy').
    intros k Hk.
    rewrite <- (top_value_merge perm y s k Hp Hys Hk).
    rewrite <- (top_value_merge perm' y' s k Hp' Hy's Hk).
    assert (Hktl : In k tl) by (apply (dim_sub _ _ _ _ _ (Hspecs s Hs) k Hk)).
    unfold top_combo in Heq.
    rewrite map_ext_in_iff in Heq. apply Heq, Hktl.
  - apply NoDup_product. intros d Hd. apply in_map_iff in Hd.
    destruct Hd as [s [<- Hs]]. apply (dim_nodup _ _ _ _ _ (Hspecs s Hs) Hdedup).
Qed.

(** The combinations of the merged configs are exactly the combinations
    present in the mapping, each once when the mapping is deduplicated. *)
Lemma product_partition :
  (deduplicated tl gs m ->
   NoDup (map (top_combo tl) (map merge_permutation (product (map snd specs)))))
  /\ forall c, In c (map (top_combo tl) (map merge_permutation (product (map snd specs))))
               <-> present tl gs m c.
Proof.
  rewrite map_map. split; [exact merged_combinations_NoDup |].
  intros c. rewrite in_map_iff. split.
  - intros [perm [<- Hperm]]. apply merged_combination_present.
    apply chosen_product, Hperm.
  - intros Hc. destruct (present_combination_merged c Hc) as [perm [Hperm <-]].
    exists perm. split; [reflexivity | apply chosen_product, Hperm].
Qed.
(** [zip_keys] in a merged config comes from an entry of a dimension that
    owns no variable. *)
Lemma merged_zip_keys (perm : list dict) (z : value) :
  chosen specs perm ->
  lookup "zip_keys" (merge_permutation perm) = Some z ->
  exists y s, In s specs /\ In y (snd s) /\ fst s = []
              /\ lookup "zip_keys" y = Some z.
Proof.
  intros Hc Hz. unfold merge_permutation in Hz.
  destruct (lookup_merge perm "zip_keys" (chosen_keys perm Hc) [])
    as [[Hsame _] | [y [Hy [Hhas Hl]]]].
  - rewrite Hsame in Hz. discriminate.
  - destruct (chosen_entry _ _ _ Hc Hy) as [s Hs].
    destruct (chosen_member _ _ _ _ Hc Hs) as [Hsin Hys].
    exists y, s. split; [exact Hsin |]. split; [exact Hys |].
    split; [| rewrite <- Hl; exact Hz].
    destruct (fst s) as [| k r] eqn:HK; [reflexivity |].
    exfalso. apply Hhas.
    apply (dim_reserved _ _ _ _ _ (Hspecs s Hsin) y Hys). rewrite HK. discriminate.
Qed.
End Product.

(** ** Grouping rows by key *)

Section Grouping.
Context {K V : Type} `{EqDec K}.

Lemma lookup_group_append (k t : K) (v : V) (d : list (K * list V)) :
  lookup t (group_append k v d)
  = if eq_dec t k
    then Some (match lookup k d with Some vs => vs ++ [v] | None => [v] end)
    else lookup t d.
Proof.
  induction d as [| [k0 vs] r IH]; simpl.
  - destruct (eq_dec t k); reflexivity.
  - destruct (eq_dec k k0) as [-> | Hne]; simpl.
    + destruct (eq_dec t k0); reflexivity.
    + destruct (eq_dec t k0) as [-> | Hne'].
      * destruct (eq_dec k0 k); [subst; contradiction | reflexivity].
      * exact IH.
Qed.

Lemma keys_group_append (k : K) (v : V) (d : list (K * list V)) :
  NoDup (map fst d) -> NoDup (map fst (group_append k v d)).
Proof.
  induction d as [| [k0 vs] r IH]; simpl; intros Hnd.
  - repeat constructor. intros [].
  - inversion Hnd as [| ? ? Hnot Hnd']; subst.
    destruct (eq_dec k k0) as [-> | Hne]; simpl; [constructor; assumption |].
    constructor; [| apply IH, Hnd'].
    intros Hin. apply lookup_In_keys in Hin. rewrite lookup_group_append in Hin.
    destruct (eq_dec k0 k); [subst; contradiction |].
    apply Hnot, lookup_In_keys, Hin.
Qed.

Lemma lookup_grouped (rows : list (K * V)) (t : K) :
  forall acc,
    lookup t (fold_left (fun d r => group_append (fst r) (snd r) d) rows acc)
    = match lookup t acc with
      | Some vs => Some (vs ++ picks t rows)
      | None => match picks t rows with
                | [] => None
                | vs => Some vs
                end
      end.
Proof.
  induction rows as [| [k v] r IH]; intros acc; simpl.
  - unfold picks. simpl. destruct (lookup t acc); [rewrite app_nil_r |]; reflexivity.
  - rewrite IH, lookup_group_append. unfold picks. simpl.
    destruct (eq_dec t k) as [-> | Hne].
    + destruct (eq_dec k k) as [_ | Hn]; [| contradiction]. simpl.
      destruct (lookup k acc) as [vs |]; [rewrite <- app_assoc |]; reflexivity.
    + destruct (eq_dec k t) as [He | _]; [symmetry in He; contradiction |]. reflexivity.
Qed.

Lemma keys_grouped (rows : list (K * V)) :
  forall acc, NoDup (map fst acc) ->
    NoDup (map fst (fold_left (fun d r => group_append (fst r) (snd r) d) rows acc)).
Proof.
  induction rows as [| r rs IH]; intros acc Hnd; simpl; [exact Hnd |].
  apply IH, keys_group_append, Hnd.
Qed.
End Grouping.

(** ** [merge_list_of_dicts] *)

Lemma fold_left_concat {A B : Type} (f : A -> B -> A) (l : list (list B)) (a : A) :
  fold_left (fun acc x => fold_left f x acc) l a = fold_left f (concat l) a.
Proof.
  revert a; induction l as [| x r IH]; intros a; simpl; [reflexivity |].
  rewrite fold_left_app. apply IH.
Qed.

Lemma merge_list_of_dicts_steps (l : list dict) :
  merge_list_of_dicts l = fold_left merge_step (concat l) [].
Proof. unfold merge_list_of_dicts. apply (fold_left_concat merge_step). Qed.

Lemma merge_steps (its : list (string * value)) :
  forall sq,
    all_lists sq -> NoDup (map fst sq) ->
    all_lists (fold_left merge_step its sq)
    /\ NoDup (map fst (fold_left merge_step its sq))
    /\ forall k,
         gathered (fold_left merge_step its sq) k = gathered sq k ++ collect k its
         /\ (lookup k (fold_left merge_step its sq) <> None
             <-> lookup k sq <> None \/ In k (map fst its)).
Proof.
  induction its as [| [k0 v0] r IH]; intros sq Hall Hnd.
  - simpl. split; [exact Hall |]. split; [exact Hnd |].
    intros k. unfold collect. simpl. rewrite app_nil_r. split; [reflexivity | tauto].
  - cbn [fold_left].
    assert (Hstep : forall k,
              lookup k (merge_step sq (k0, v0))
              = if eq_dec k0 k then Some (VList (gathered sq k0 ++ iter_value v0))
                else lookup k sq).
    { intros k. unfold merge_step. simpl. destruct (eq_dec k0 k) as [-> | Hne].
      - apply lookup_setitem_eq.
      - apply lookup_setitem_ne, Hne. }
    destruct (IH (merge_step sq (k0, v0))) as [Hall' [Hnd' Hk]].
    + intros k v. rewrite Hstep. destruct (eq_dec k0 k).
      * intros Hv; inversion Hv. eexists; reflexivity.
      * apply Hall.
    + apply NoDup_keys_setitem, Hnd.
    + split; [exact Hall' |]. split; [exact Hnd' |].
      intros k. destruct (Hk k) as [Hg Hhas]. split.
      * rewrite Hg. unfold gathered at 1. rewrite Hstep. unfold collect. simpl.
        destruct (eq_dec k0 k) as [-> | Hne]; [rewrite <- app_assoc |]; reflexivity.
      * rewrite Hhas, Hstep. simpl. destruct (eq_dec k0 k) as [-> | Hne].
        -- split; [intros _; right; left; reflexivity | intros _; left; discriminate].
        -- split; [intros [Hl | Hin]; [left; exact Hl | right; right; exact Hin] |].
           intros [Hl | [He | Hin]]; [left; exact Hl | contradiction | right; exact Hin].
Qed.

Lemma merge_lookup (l : list dict) (k : string) :
  NoDup (map fst (merge_list_of_dicts l))
  /\ lookup k (merge_list_of_dicts l)
     = if mem k (map fst (concat l)) then Some (VList (collect k (concat l))) else None.
Proof.
  rewrite merge_list_of_dicts_steps.
  destruct (merge_steps (concat l) []) as [Hall [Hnd Hk]];
    [intros k' v; discriminate | constructor |].
  split; [exact Hnd |]. destruct (Hk k) as [Hg Hhas]. simpl in Hg.
  destruct (mem k (map fst (concat l))) eqn:Hm.
  - apply mem_true in Hm.
    destruct (lookup k (fold_left merge_step (concat l) [])) as [v |] eqn:Hl.
    + destruct (Hall k v Hl) as [c ->]. unfold gathered in Hg. rewrite Hl in Hg.
      rewrite Hg. reflexivity.
    + exfalso. apply (proj2 Hhas); [right; exact Hm | reflexivity].
  - apply mem_false in Hm.
    destruct (lookup k (fold_left merge_step (concat l) [])) as [v |] eqn:Hl;
      [| reflexivity].
    exfalso. destruct (proj1 Hhas) as [Hc | Hc]; [discriminate | | contradiction].
    simpl in Hc. apply Hc; reflexivity.
Qed.

(** ** The pseudo-dimension of a zip group *)

Lemma collect_app (k : string) (l l' : list (string * value)) :
  collect k (l ++ l') = collect k l ++ collect k l'.
Proof. unfold collect. apply flat_map_app. Qed.

Lemma collect_entry_absent (m : dict) (g : list string) (idx : nat) (k : string) :
  ~ In k g -> collect k (zip_entry_at m g idx) = [].
Proof.
  unfold zip_entry_at, collect. induction g as [| k0 r IH]; intros Hk; [reflexivity |].
  simpl. destruct (eq_dec k0 k) as [-> | Hne]; [exfalso; apply Hk; left; reflexivity |].
  apply IH. intros Hin. apply Hk. right; exact Hin.
Qed.

Lemma collect_entry (m : dict) (g : list string) (idx : nat) (k : string) :
  NoDup g -> In k g -> collect k (zip_entry_at m g idx) = [VStr (str_at m k idx)].
Proof.
  induction g as [| k0 r IH]; intros Hnd Hk; [contradiction |].
  inversion Hnd as [| ? ? Hnot Hnd']; subst.
  change (zip_entry_at m (k0 :: r) idx)
    with ([(k0, VList [VStr (str_at m k0 idx)])] ++ zip_entry_at m r idx).
  rewrite collect_app. unfold collect at 1. simpl.
  destruct (eq_dec k0 k) as [-> | Hne].
  - rewrite (collect_entry_absent m r idx k Hnot). reflexivity.
  - destruct Hk as [-> | Hk]; [contradiction |]. simpl. apply IH; assumption.
Qed.

Lemma keys_entry (m : dict) (g : list string) (idx : nat) :
  map fst (zip_entry_at m g idx) = g.
Proof. unfold zip_entry_at. rewrite map_map. simpl. apply map_id. Qed.

Lemma collect_entries (m : dict) (g : list string) (idxs : list nat) (k : string) :
  NoDup g -> In k g ->
  collect k (concat (map (zip_entry_at m g) idxs)) = map VStr (map (str_at m k) idxs).
Proof.
  intros Hnd Hk. induction idxs as [| idx r IH]; [reflexivity |].
  cbn [map concat]. rewrite collect_app, (collect_entry m g idx k Hnd Hk), IH. reflexivity.
Qed.

Lemma zip_config_lookup (m : dict) (g : list string) (idxs : list nat) :
  NoDup g -> idxs <> [] ->
  NoDup (map fst (zip_config m g idxs))
  /\ (forall k, In k g ->
        lookup k (zip_config m g idxs) = Some (strings (map (str_at m k) idxs)))
  /\ (forall k, ~ In k g -> lookup k (zip_config m g idxs) = None).
Proof.
  intros Hnd Hne. unfold zip_config.
  assert (Hkeys : forall k, In k (map fst (concat (map (zip_entry_at m g) idxs))) <-> In k g).
  { intros k. rewrite concat_map, in_concat. split.
    - intros [ks [Hks Hk]]. rewrite map_map in Hks. apply in_map_iff in Hks.
      destruct Hks as [idx [<- _]]. rewrite keys_entry in Hk. exact Hk.
    - intros Hk. destruct idxs as [| idx0 r]; [contradiction |].
      exists g. split; [| exact Hk]. rewrite map_map. simpl. left. apply keys_entry. }
  split; [apply (merge_lookup _ "") |]. split.
  - intros k Hk. rewrite (proj2 (merge_lookup _ k)).
    replace (mem k (map fst (concat (map (zip_entry_at m g) idxs)))) with true
      by (symmetry; apply mem_true, Hkeys, Hk).
    rewrite (collect_entries m g idxs k Hnd Hk). reflexivity.
  - intros k Hk. rewrite (proj2 (merge_lookup _ k)).
    replace (mem k (map fst (concat (map (zip_entry_at m g) idxs)))) with false;
      [reflexivity |].
    symmetry. apply mem_false. intros Hin. apply Hk, Hkeys, Hin.
Qed.

Lemma picks_rows (tl : list string) (m : dict) (g : list string) (t : list string)
  (l : list nat) :
  picks t (map (fun idx => (zip_key_at tl m g idx, zip_entry_at m g idx)) l)
  = map (zip_entry_at m g)
        (filter (fun idx => if eq_dec (zip_key_at tl m g idx) t then true else false) l).
Proof.
  unfold picks. induction l as [| idx r IH]; simpl; [reflexivity |].
  destruct (eq_dec (zip_key_at tl m g idx) t); simpl; rewrite IH; reflexivity.
Qed.

(** The pseudo-dimension has one mapping for every tuple of top-level
    values that occurs, made of the positions where it occurs. *)
Lemma zipped_dim_classes (tl : list string) (m : dict) (g : list string) (n : nat) :
  zipped_dim tl m g n
  = map (fun t => zip_config m g (zip_class tl m g n t)) (map fst (zip_classes tl m g n))
  /\ NoDup (map fst (zip_classes tl m g n))
  /\ forall t, In t (map fst (zip_classes tl m g n)) <-> zip_class tl m g n t <> [].
Proof.
  assert (Hnd : NoDup (map fst (zip_classes tl m g n))).
  { unfold zip_classes. apply keys_grouped. constructor. }
  assert (Hl : forall t, lookup t (zip_classes tl m g n)
                         = match zip_class tl m g n t with
                           | [] => None
                           | idxs => Some (map (zip_entry_at m g) idxs)
                           end).
  { intros t. unfold zip_classes. rewrite lookup_grouped. simpl.
    rewrite picks_rows. fold (zip_class tl m g n t).
    destruct (zip_class tl m g n t); reflexivity. }
  split; [| split; [exact Hnd |]].
  - unfold zipped_dim. rewrite map_map. apply map_ext_in. intros [t es] Hin. simpl.
    apply (In_lookup_NoDup _ _ _ Hnd) in Hin. rewrite Hl in Hin.
    destruct (zip_class tl m g n t) as [| i r]; [discriminate |].
    inversion Hin. reflexivity.
  - intros t. rewrite <- lookup_In_keys, Hl.
    destruct (zip_class tl m g n t); split; intros Hx; try discriminate; contradiction.
Qed.

Lemma zip_class_member (tl : list string) (m : dict) (g : list string) (n : nat)
  (t : list string) (idx : nat) :
  In idx (zip_class tl m g n t) <-> idx < n /\ zip_key_at tl m g idx = t.
Proof.
  unfold zip_class. rewrite filter_In, in_seq.
  destruct (eq_dec (zip_key_at tl m g idx) t); split; intros [Ha Hb]; split;
    auto; try lia; try discriminate; contradiction.
Qed.

Lemma zip_key_same (tl : list string) (m : dict) (g : list string) (idx idx' : nat)
  (k : string) :
  zip_key_at tl m g idx = zip_key_at tl m g idx' ->
  In k g -> In k tl -> str_at m k idx = str_at m k idx'.
Proof.
  unfold zip_key_at. intros Heq Hg Htl. rewrite map_ext_in_iff in Heq.
  apply Heq. apply filter_In. split; [exact Hg | apply mem_true, Htl].
Qed.

(** ** The units the loop makes *)

Lemma whole_groups_app (gs : list (list string)) (acc g : list string) :
  whole_groups gs acc -> In g gs -> whole_groups gs (acc ++ g).
Proof.
  intros Hacc Hg k Hk. apply in_app_or in Hk. destruct Hk as [Hk | Hk].
  - destruct (Hacc k Hk) as [g0 [Hg0 [Hin Hall]]]. exists g0.
    split; [exact Hg0 |]. split; [exact Hin |].
    intros k' Hk'. apply in_or_app. left. apply Hall, Hk'.
  - exists g. split; [exact Hg |]. split; [exact Hk |].
    intros k' Hk'. apply in_or_app. right; exact Hk'.
Qed.

Lemma whole_groups_fresh (gs : list (list string)) (acc g : list string) (key k : string) :
  NoDup (concat gs) -> whole_groups gs acc ->
  In g gs -> In key g -> ~ In key acc -> In k g -> ~ In k acc.
Proof.
  intros Hnd Hacc Hg Hkey Hfresh Hk Hin.
  destruct (Hacc k Hin) as [g0 [Hg0 [Hkg0 Hall]]].
  assert (g0 = g) by (eapply NoDup_concat_disjoint; eauto). subst g0.
  apply Hfresh, Hall, Hkey.
Qed.

Lemma plan_units (gs : list (list string)) (keys : list string) :
  NoDup (concat gs) -> NoDup keys ->
  forall acc, whole_groups gs acc ->
    (forall k, In k (standalone_keys (plan gs keys acc)) ->
               In k keys /\ find (mem k) gs = None)
    /\ (forall key g, In (key, g) (zipped_units (plan gs keys acc)) ->
                      In key keys /\ find (mem key) gs = Some g
                      /\ forall k, In k g -> ~ In k acc)
    /\ (forall k, In k keys -> ~ In k acc ->
                  In k (standalone_keys (plan gs keys acc))
                  \/ exists key g, In (key, g) (zipped_units (plan gs keys acc)) /\ In k g)
    /\ NoDup (standalone_keys (plan gs keys acc))
    /\ NoDup (concat (map snd (zipped_units (plan gs keys acc)))).
Proof.
  intros Hgs Hkeys. induction Hkeys as [| k r Hnot Hnd IH]; intros acc Hacc.
  - simpl. repeat split; try (intros; contradiction); constructor.
  - cbn [plan]. destruct (mem k acc) eqn:Hk.
    + destruct (IH acc Hacc) as [Hs [Hz [Hc [Hns Hnz]]]].
      split; [intros k' Hk'; destruct (Hs k' Hk'); split; [right |]; assumption |].
      split; [intros key g Hin; destruct (Hz key g Hin) as [? [? ?]];
              split; [right |]; auto |].
      split; [| split; assumption].
      intros k' [<- | Hk'] Hfresh; [apply mem_true in Hk; contradiction | apply Hc; assumption].
    + apply mem_false in Hk. destruct (find (mem k) gs) as [g |] eqn:Hfind.
      * destruct (find_group_some _ _ _ Hfind) as [Hg Hkg].
        destruct (IH (acc ++ g) (whole_groups_app gs acc g Hacc Hg))
          as [Hs [Hz [Hc [Hns Hnz]]]].
        cbn [standalone_keys zipped_units flat_map snd fst app map concat].
        fold (standalone_keys (plan gs r (acc ++ g))).
        fold (zipped_units (plan gs r (acc ++ g))).
        split; [intros k' Hk'; destruct (Hs k' Hk'); split; [right |]; assumption |].
        split; [| split; [| split]].
        -- intros key g' [Heq | Hin].
           ++ inversion Heq as [[Hk1 Hg1]]. subst key g'.
              split; [left; reflexivity |]. split; [exact Hfind |].
              intros k' Hk'. apply (whole_groups_fresh gs acc g k k' Hgs Hacc Hg Hkg Hk Hk').
           ++ destruct (Hz key g' Hin) as [Hkey [Hf Hfresh]].
              split; [right; exact Hkey |]. split; [exact Hf |].
              intros k' Hk' Hin'. apply (Hfresh k' Hk'). apply in_or_app. left; exact Hin'.
        -- intros k' [<- | Hk'] Hfresh.
           ++ right. exists k, g. split; [left; reflexivity | exact Hkg].
           ++ destruct (in_dec string_dec k' g) as [Hing | Houtg].
              ** right. exists k, g. split; [left; reflexivity | exact Hing].
              ** destruct (Hc k' Hk') as [Hst | [key [g' [Hin Hk'g']]]].
                 --- intros Hin. apply in_app_or in Hin. destruct Hin; contradiction.
                 --- left; exact Hst.
                 --- right. exists key, g'. split; [right; exact Hin | exact Hk'g'].
        -- exact Hns.
        -- apply NoDup_app; [apply (NoDup_concat_member gs g Hgs Hg) | exact Hnz |].
           intros x Hx Hx'. apply in_concat in Hx'. destruct Hx' as [g' [Hg' Hxg']].
           apply in_map_iff in Hg'. destruct Hg' as [[key g''] [Heq Hin]]. simpl in Heq.
           subst g''. destruct (Hz key g' Hin) as [_ [_ Hfresh]].
           apply (Hfresh x Hxg'). apply in_or_app. right; exact Hx.
      * destruct (IH acc Hacc) as [Hs [Hz [Hc [Hns Hnz]]]].
        cbn [standalone_keys zipped_units flat_map snd fst app map concat].
        fold (standalone_keys (plan gs r acc)). fold (zipped_units (plan gs r acc)).
        split; [| split; [| split; [| split]]].
        -- intros k' [<- | Hk']; [split; [left; reflexivity | exact Hfind] |].
           destruct (Hs k' Hk'); split; [right |]; assumption.
        -- intros key g Hin. destruct (Hz key g Hin) as [? [? ?]]. split; [right |]; auto.
        -- intros k' [<- | Hk'] Hfresh; [left; left; reflexivity |].
           destruct (Hc k' Hk' Hfresh) as [Hst | Hzu]; [left; right; exact Hst | right; exact Hzu].
        -- constructor; [| exact Hns]. intros Hin. destruct (Hs k Hin) as [Hkr _]. contradiction.
        -- exact Hnz.
Qed.

Lemma mapM_map {A B C : Type} (f : B -> result C) (h : A -> B) (l : list A) :
  mapM f (map h l) = mapM (fun x => f (h x)) l.
Proof.
  induction l as [| x r IH]; simpl; [reflexivity | rewrite IH; reflexivity].
Qed.

Lemma Forall2_In_l {A B : Type} (R : A -> B -> Prop) (l : list A) (l' : list B) (a : A) :
  Forall2 R l l' -> In a l -> exists b, In b l' /\ R a b.
Proof.
  intros HF. induction HF as [| x y r r' Hxy _ IH]; [intros [] |].
  intros [<- | Hin]; [exists y; split; [left; reflexivity | exact Hxy] |].
  destruct (IH Hin) as [b [Hb HR]]. exists b. split; [right |]; assumption.
Qed.

Lemma Forall2_In_r {A B : Type} (R : A -> B -> Prop) (l : list A) (l' : list B) (b : B) :
  Forall2 R l l' -> In b l' -> exists a, In a l /\ R a b.
Proof.
  intros HF. induction HF as [| x y r r' Hxy _ IH]; [intros [] |].
  intros [<- | Hin]; [exists x; split; [left; reflexivity | exact Hxy] |].
  destruct (IH Hin) as [a [Ha HR]]. exists a. split; [right |]; assumption.
Qed.

Lemma Forall2_NoDup {A B : Type} (R : A -> B -> Prop) (l : list A) (l' : list B) :
  Forall2 R l l' -> NoDup l ->
  (forall a a' b, In a l -> In a' l -> R a b -> R a' b -> a = a') ->
  NoDup l'.
Proof.
  intros HF. induction HF as [| x y r r' Hxy Hrest IH]; intros Hnd Hinj; [constructor |].
  inversion Hnd as [| ? ? Hnot Hnd']; subst. constructor.
  - intros Hin. destruct (Forall2_In_r _ _ _ _ Hrest Hin) as [a [Ha HR]].
    apply Hnot. rewrite (Hinj x a y); auto; [left; reflexivity | right; exact Ha].
  - apply IH; [exact Hnd' |]. intros a a' b Ha Ha'. apply Hinj; right; assumption.
Qed.

Lemma unit_keys_member (p : list (string * option (list string))) (k : string) :
  In k (flat_map unit_keys p)
  <-> In k (standalone_keys p)
      \/ exists key g, In (key, g) (zipped_units p) /\ In k g.
Proof.
  induction p as [| [key [g |]] r IH]; simpl.
  - split; [intros [] | intros [[] | [key [g [[] _]]]]].
  - rewrite in_app_iff, IH. unfold unit_keys. simpl. split.
    + intros [Hk | [Hk | [key' [g' [Hin Hk]]]]].
      * right. exists key, g. split; [left; reflexivity | exact Hk].
      * left; exact Hk.
      * right. exists key', g'. split; [right; exact Hin | exact Hk].
    + intros [Hk | [key' [g' [[Heq | Hin] Hk]]]].
      * right; left; exact Hk.
      * inversion Heq; subst. left; exact Hk.
      * right; right. exists key', g'. auto.
  - rewrite IH. unfold unit_keys. simpl. split.
    + intros [Hk | [Hk | Hz]]; [left; left; exact Hk | left; right; exact Hk | right; exact Hz].
    + intros [[Hk | Hk] | Hz]; [left; exact Hk | right; left; exact Hk | right; right; exact Hz].
Qed.

Lemma sortable_restrict (gs : list (list string)) (c c' : dict) :
  sortable gs c -> NoDup (map fst c') ->
  (forall k v, lookup k c' = Some v -> lookup k c = Some v) ->
  sortable gs c'.
Proof.
  intros Hs Hnd Hsub.
  assert (Hitems : forall k, lookup k c' <> None -> items c' k = items c k).
  { intros k Hk. unfold items. destruct (lookup k c') as [v |] eqn:Hv; [| contradiction].
    rewrite (Hsub k v Hv). reflexivity. }
  constructor.
  - exact Hnd.
  - intros k v Hv. apply (sortable_values gs c Hs k v (Hsub k v Hv)).
  - intros v Hv. apply (sortable_zip_keys gs c Hs v (Hsub _ v Hv)).
  - intros v Hv. apply (sortable_pins gs c Hs v (Hsub _ v Hv)).
  - intros g k k' Hg Hk Hk' Hl Hl'. rewrite (Hitems k Hl), (Hitems k' Hl').
    apply (sortable_lengths gs c Hs g k k' Hg Hk Hk').
    + destruct (lookup k c') as [v |] eqn:Hv; [| contradiction].
      rewrite (Hsub k v Hv). discriminate.
    + destruct (lookup k' c') as [v |] eqn:Hv; [| contradiction].
      rewrite (Hsub k' v Hv). discriminate.
  - apply (sortable_members gs c Hs).
Qed.

Lemma concat_map_filter {A : Type} (f : A -> bool) (l : list (list A)) :
  concat (map (filter f) l) = filter f (concat l).
Proof.
  induction l as [| x r IH]; simpl; [reflexivity |].
  rewrite filter_app, IH. reflexivity.
Qed.

Lemma map_snd_combine {A B : Type} (l : list A) (l' : list B) :
  length l = length l' -> map snd (combine l l') = l'.
Proof.
  revert l'; induction l as [| a r IH]; intros [| b r'] Hlen; simpl in *;
    try reflexivity; try discriminate.
  f_equal. apply IH. lia.
Qed.

Lemma map_fst_combine {A B : Type} (l : list A) (l' : list B) :
  length l = length l' -> map fst (combine l l') = l.
Proof.
  revert l'; induction l as [| a r IH]; intros [| b r'] Hlen; simpl in *;
    try reflexivity; try discriminate.
  f_equal. apply IH. lia.
Qed.

Lemma Forall2_combine {A B : Type} (R : A -> B -> Prop) (l : list A) (l' : list B) :
  Forall2 R l l' -> forall a b, In (a, b) (combine l l') -> R a b.
Proof. intros HF a b. apply Forall2_combine_In, HF. Qed.

Lemma Forall2_combine_exists {A B : Type} (R : A -> B -> Prop) (l : list A) (l' : list B)
  (a : A) :
  Forall2 R l l' -> In a l -> exists b, In (a, b) (combine l l').
Proof.
  intros HF. induction HF as [| x y r r' _ _ IH]; [intros [] |].
  intros [<- | Hin]; [exists y; left; reflexivity |].
  destruct (IH Hin) as [b Hb]. exists b. right; exact Hb.
Qed.

Lemma concat_singletons {A : Type} (l : list A) : concat (map (fun x => [x]) l) = l.
Proof.
  induction l as [| x r IH]; simpl; [reflexivity | f_equal; exact IH].
Qed.

Lemma combine_map_l_In {A B C : Type} (f : A -> C) (l : list A) (l' : list B)
  (a : A) (b : B) :
  In (a, b) (combine l l') -> In (f a, b) (combine (map f l) l').
Proof.
  revert l'; induction l as [| x r IH]; intros [| y r']; simpl; try contradiction.
  intros [Heq | Hin]; [inversion Heq; subst; left; reflexivity | right; apply IH, Hin].
Qed.

Lemma background_dim_ok (tl : list string) (gs : list (list string)) (m background : dict) :
  NoDup (map fst background) ->
  (forall k, In k tl -> lookup k background = None) ->
  dim_ok tl gs m [] [background].
Proof.
  intros Hnd Hnone. constructor.
  - intros y [<- | []]. exact Hnd.
  - intros y k [<- | []] Hk Hl. exfalso. apply Hl, Hnone, Hk.
  - intros k [].
  - intros y _. exists 0. intros k [].
  - intros sel _ _. exists background. split; [left; reflexivity | intros k []].
  - intros _ y y' [<- | []] [<- | []] _. reflexivity.
  - intros _. repeat constructor. intros [].
  - intros y _ Hne. contradiction.
Qed.

(** ** The dimensions of the product *)

Section Dimensions.
Variables (tl : list string) (gs : list (list string)) (m : dict).
Hypothesis Hpi : partition_input tl gs m.

(** *** The dimension of a standalone variable *)

Lemma standalone_dim_ok (k : string) :
  In k tl -> find (mem k) gs = None ->
  dim_ok tl gs m [k] (standalone_dim m k).
Proof.
  intros Hk Hfind. unfold standalone_dim.
  assert (Hy : forall y, In y (map (fun val => [(k, VList [val])]) (items m k)) ->
                         exists v, In v (items m k) /\ y = [(k, VList [v])]).
  { intros y Hin. apply in_map_iff in Hin. destruct Hin as [v [<- Hv]]. exists v; auto. }
  assert (Htop : forall v, top_value [(k, VList [v])] k = Some v).
  { intros v. unfold top_value. simpl. destruct (eq_dec k k); [reflexivity | contradiction]. }
  constructor.
  - intros y Hin. destruct (Hy y Hin) as [v [_ ->]]. simpl. repeat constructor. intros [].
  - intros y k' Hin _ Hl. destruct (Hy y Hin) as [v [_ ->]]. simpl in Hl.
    destruct (eq_dec k' k) as [-> | Hne]; [left; reflexivity | contradiction].
  - intros k' [<- | []]. split; [exact Hk |]. unfold peers. rewrite Hfind. reflexivity.
  - intros y Hin. destruct (Hy y Hin) as [v [Hv ->]].
    destruct (In_nth_error _ _ Hv) as [idx Hidx]. exists idx.
    intros k' [<- | []]. split.
    + apply nth_error_Some. rewrite Hidx. discriminate.
    + rewrite Htop, Hidx. reflexivity.
  - intros sel _ Hrange. specialize (Hrange k Hk).
    destruct (nth_error (items m k) (sel k)) as [v |] eqn:Hv;
      [| apply nth_error_None in Hv; lia].
    exists [(k, VList [v])]. split.
    + apply (in_map (fun val => [(k, VList [val])])). apply (nth_error_In _ _ Hv).
    + intros k' [<- | []]. rewrite Htop, Hv. reflexivity.
  - intros _ y y' Hin Hin' Heq. destruct (Hy y Hin) as [v [_ ->]].
    destruct (Hy y' Hin') as [v' [_ ->]].
    specialize (Heq k (or_introl eq_refl)). rewrite !Htop in Heq. inversion Heq; reflexivity.
  - intros Hnd.
    apply (NoDup_map_NoDup_ForallPairs (fun val => [(k, VList [val])]));
      [| exact (Hnd k Hk Hfind)].
    intros v v' _ _ Heq. inversion Heq; reflexivity.
  - intros y Hin _. destruct (Hy y Hin) as [v [_ ->]]. simpl.
    destruct (eq_dec "zip_keys" k) as [<- | Hne]; [| reflexivity].
    destruct (pi_keys _ _ _ Hpi "zip_keys" Hk) as [_ [Hz _]]. contradiction.
Qed.

(** *** The dimension of a zip group *)

Lemma zip_config_sortable (g : list string) (idxs : list nat) :
  In g gs -> idxs <> [] -> sortable gs (zip_config m g idxs).
Proof.
  intros Hg Hne.
  assert (Hnd : NoDup g) by (apply (NoDup_concat_member gs g (pi_disjoint _ _ _ Hpi) Hg)).
  destruct (zip_config_lookup m g idxs Hnd Hne) as [Hkeys [Hin Hout]].
  assert (Hmem := sortable_members gs m (pi_sortable _ _ _ Hpi)).
  assert (Hhas : forall k v, lookup k (zip_config m g idxs) = Some v ->
                             In k g /\ v = strings (map (str_at m k) idxs)).
  { intros k v Hv. destruct (in_dec string_dec k g) as [Hk | Hk].
    - rewrite (Hin k Hk) in Hv. inversion Hv. auto.
    - rewrite (Hout k Hk) in Hv. discriminate. }
  constructor.
  - exact Hkeys.
  - intros k v Hv _ _. destruct (Hhas k v Hv) as [_ ->]. eexists; reflexivity.
  - intros v Hv. destruct (Hhas _ v Hv) as [Hk _].
    destruct (Hmem g _ Hg Hk) as [Hz _]. contradiction.
  - intros v Hv. destruct (Hhas _ v Hv) as [Hk _].
    destruct (Hmem g _ Hg Hk) as [_ Hp]. contradiction.
  - intros g' k k' _ _ _ Hk Hk'.
    destruct (lookup k (zip_config m g idxs)) as [v |] eqn:Hv; [| contradiction].
    destruct (lookup k' (zip_config m g idxs)) as [v' |] eqn:Hv'; [| contradiction].
    destruct (Hhas k v Hv) as [_ ->]. destruct (Hhas k' v' Hv') as [_ ->].
    rewrite (items_strings _ _ _ Hv), (items_strings _ _ _ Hv'), !length_map. reflexivity.
  - exact Hmem.
Qed.

(** After sorting, a top-level member of the group holds the value the
    mapping has at any position of the class. *)
Lemma zip_config_sorted_top (g : list string) (n : nat) (t : list string) (c' : dict)
  (idx : nat) (k : string) :
  In g gs -> In idx (zip_class tl m g n t) ->
  sort_config (zip_config m g (zip_class tl m g n t)) (groups_value gs) = Ok c' ->
  In k g -> In k tl ->
  top_value c' k = Some (VStr (str_at m k idx)).
Proof.
  intros Hg Hidx Hsort Hk Hktl.
  assert (Hne : zip_class tl m g n t <> []) by (intros Hc; rewrite Hc in Hidx; destruct Hidx).
  assert (Hnd : NoDup g) by (apply (NoDup_concat_member gs g (pi_disjoint _ _ _ Hpi) Hg)).
  destruct (zip_config_lookup m g _ Hnd Hne) as [_ [Hin _]].
  destruct (sort_config_sortable gs _ (zip_config_sortable g _ Hg Hne)) as [c'' [Hs [_ Hlists]]].
  rewrite Hsort in Hs. inversion Hs; subst c''. clear Hs.
  destruct (sortable_members gs m (pi_sortable _ _ _ Hpi) g k Hg Hk) as [_ Hpin].
  destruct (Hlists k _ (Hin k Hk) Hpin) as [l' [Hl' Hperm]].
  assert (Hall : forall x, In x l' -> x = VStr (str_at m k idx)).
  { intros x Hx. apply (Permutation_in _ (Permutation_sym Hperm)) in Hx.
    apply in_map_iff in Hx. destruct Hx as [s [<- Hs]].
    apply in_map_iff in Hs. destruct Hs as [idx' [<- Hidx']]. f_equal.
    apply zip_class_member in Hidx, Hidx'. destruct Hidx as [_ Ht], Hidx' as [_ Ht'].
    apply (zip_key_same tl m g idx' idx k); [congruence | exact Hk | exact Hktl]. }
  destruct l' as [| x r].
  - apply Permutation_sym, Permutation_nil in Hperm.
    destruct (zip_class tl m g n t); [contradiction | discriminate].
  - unfold top_value. rewrite Hl'. simpl. f_equal. apply Hall. left; reflexivity.
Qed.

Lemma group_position (key : string) (g : list string) (k : string) (idx : nat) :
  In g gs -> In key g -> In k g -> idx < length (items m key) ->
  idx < length (items m k)
  /\ nth_error (items m k) idx = Some (VStr (str_at m k idx)).
Proof.
  intros Hg Hkey Hk Hidx.
  rewrite (member_lengths tl gs m Hpi g key k Hg Hkey Hk) in Hidx.
  split; [exact Hidx |].
  destruct (member_strings tl gs m Hpi g k Hg Hk) as [l Hl].
  apply (str_at_strings m k l idx Hl).
  rewrite (items_strings _ _ _ Hl), length_map in Hidx. exact Hidx.
Qed.

Lemma zipped_dim_sorted (key : string) (g : list string) :
  In key tl -> find (mem key) gs = Some g ->
  exists zs,
    mapM (fun c => sort_config c (groups_value gs))
         (zipped_dim tl m g (length (items m key))) = Ok zs
    /\ dim_ok tl gs m (filter (fun k => mem k tl) g) zs.
Proof.
  intros Hkeytl Hfind. destruct (find_group_some _ _ _ Hfind) as [Hg Hkey].
  set (n := length (items m key)).
  set (K := filter (fun k => mem k tl) g).
  destruct (zipped_dim_classes tl m g n) as [Hdim [Hnd Hts]].
  set (ts := map fst (zip_classes tl m g n)) in *.
  set (zrel := fun t c' =>
                 sort_config (zip_config m g (zip_class tl m g n t)) (groups_value gs)
                 = Ok c').
  assert (HK : forall k, In k K <-> In k g /\ In k tl).
  { intros k. unfold K. rewrite filter_In, mem_true. tauto. }
  assert (Hgnd : NoDup g) by (apply (NoDup_concat_member gs g (pi_disjoint _ _ _ Hpi) Hg)).
  assert (Hsorted : exists zs, mapM (fun t => sort_config (zip_config m g (zip_class tl m g n t))
                                                          (groups_value gs)) ts = Ok zs).
  { apply mapM_total. intros t Ht. apply Hts in Ht.
    destruct (sort_config_sortable gs _ (zip_config_sortable g _ Hg Ht)) as [c' [Hc' _]].
    exists c'; exact Hc'. }
  destruct Hsorted as [zs Hzs]. exists zs.
  split; [rewrite Hdim, mapM_map; exact Hzs |].
  assert (HF : Forall2 zrel ts zs) by (apply mapM_ok_Forall2, Hzs).
  assert (Hclass : forall t, In t ts -> exists idx, In idx (zip_class tl m g n t)).
  { intros t Ht. apply Hts in Ht. destruct (zip_class tl m g n t) as [| idx r];
      [contradiction | exists idx; left; reflexivity]. }
  assert (Helem : forall c', In c' zs ->
             exists t idx, In t ts /\ zrel t c' /\ In idx (zip_class tl m g n t)).
  { intros c' Hc'. destruct (Forall2_In_r _ _ _ _ HF Hc') as [t [Ht Hrel]].
    destruct (Hclass t Ht) as [idx Hidx]. exists t, idx. auto. }
  assert (Htop : forall t c' idx k, zrel t c' -> In idx (zip_class tl m g n t) -> In k K ->
             idx < length (items m k)
             /\ top_value c' k = nth_error (items m k) idx
             /\ top_value c' k = Some (VStr (str_at m k idx))).
  { intros t c' idx k Hrel Hidx Hk. apply HK in Hk. destruct Hk as [Hkg Hktl].
    assert (Hlt : idx < n) by (apply zip_class_member in Hidx; apply Hidx).
    destruct (group_position key g k idx Hg Hkey Hkg Hlt) as [Hlen Hnth].
    assert (Hv := zip_config_sorted_top g n t c' idx k Hg Hidx Hrel Hkg Hktl).
    split; [exact Hlen |]. split; [rewrite Hv, Hnth; reflexivity | exact Hv]. }
  assert (Hkeys : forall t c', In t ts -> zrel t c' ->
             NoDup (map fst c') /\ forall k, lookup k c' <> None -> In k g).
  { intros t c' Ht Hrel. apply Hts in Ht.
    destruct (zip_config_lookup m g _ Hgnd Ht) as [Hknd [_ Hout]].
    assert (Hsame := sort_config_keys _ _ _ Hrel).
    split; [rewrite Hsame; exact Hknd |].
    intros k Hk. apply lookup_In_keys in Hk. rewrite Hsame in Hk.
    apply lookup_In_keys in Hk.
    destruct (in_dec string_dec k g) as [Hin | Hnot]; [exact Hin |].
    exfalso. apply Hk, Hout, Hnot. }
  assert (Hback : forall t t' c' , In t ts -> In t' ts -> zrel t c' -> zrel t' c' -> t = t').
  { intros t t' c' Ht Ht' Hrel Hrel'.
    destruct (Hclass t Ht) as [idx Hidx]. destruct (Hclass t' Ht') as [idx' Hidx'].
    assert (Hk : zip_key_at tl m g idx = zip_key_at tl m g idx').
    { unfold zip_key_at. apply map_ext_in. intros k Hk.
      destruct (Htop t c' idx k Hrel Hidx Hk) as [_ [_ H1]].
      destruct (Htop t' c' idx' k Hrel' Hidx' Hk) as [_ [_ H2]].
      rewrite H1 in H2. inversion H2; reflexivity. }
    apply zip_class_member in Hidx, Hidx'. destruct Hidx as [_ <-], Hidx' as [_ <-].
    exact Hk. }
  constructor.
  - intros c' Hc'. destruct (Helem c' Hc') as [t [idx [Ht [Hrel _]]]].
    apply (Hkeys t c' Ht Hrel).
  - intros c' k Hc' Hktl Hl. destruct (Helem c' Hc') as [t [idx [Ht [Hrel _]]]].
    apply HK. split; [apply (Hkeys t c' Ht Hrel), Hl | exact Hktl].
  - intros k Hk. apply HK in Hk. destruct Hk as [Hkg Hktl]. split; [exact Hktl |].
    unfold peers. rewrite (find_group_unique gs g k (pi_disjoint _ _ _ Hpi) Hg Hkg).
    reflexivity.
  - intros c' Hc'. destruct (Helem c' Hc') as [t [idx [Ht [Hrel Hidx]]]].
    exists idx. intros k Hk. destruct (Htop t c' idx k Hrel Hidx Hk) as [Hlen [Hn _]]. auto.
  - intros sel Hrow Hrange.
    assert (Hlt : sel key < n) by (apply Hrange, Hkeytl).
    set (t := zip_key_at tl m g (sel key)).
    assert (Hidx : In (sel key) (zip_class tl m g n t))
      by (apply zip_class_member; split; [exact Hlt | reflexivity]).
    assert (Ht : In t ts).
    { apply Hts. intros Hc. rewrite Hc in Hidx. destruct Hidx. }
    destruct (Forall2_In_l _ _ _ _ HF Ht) as [c' [Hc' Hrel]].
    exists c'. split; [exact Hc' |]. intros k Hk.
    destruct (Htop t c' (sel key) k Hrel Hidx Hk) as [_ [Hn _]].
    rewrite Hn. apply HK in Hk. destruct Hk as [Hkg _].
    rewrite (Hrow g k key Hg Hkg Hkey). reflexivity.
  - intros _ c1 c2 Hc1 Hc2 Heq.
    destruct (Helem c1 Hc1) as [t1 [idx1 [Ht1 [Hrel1 Hidx1]]]].
    destruct (Helem c2 Hc2) as [t2 [idx2 [Ht2 [Hrel2 Hidx2]]]].
    assert (Hk : zip_key_at tl m g idx1 = zip_key_at tl m g idx2).
    { unfold zip_key_at. apply map_ext_in. intros k Hk.
      destruct (Htop t1 c1 idx1 k Hrel1 Hidx1 Hk) as [_ [_ H1]].
      destruct (Htop t2 c2 idx2 k Hrel2 Hidx2 Hk) as [_ [_ H2]].
      rewrite (Heq k Hk), H2 in H1. inversion H1; reflexivity. }
    apply zip_class_member in Hidx1, Hidx2.
    destruct Hidx1 as [_ Ht1'], Hidx2 as [_ Ht2'].
    assert (Ht : t1 = t2) by congruence.
    unfold zrel in Hrel1, Hrel2. rewrite <- Ht, Hrel1 in Hrel2. inversion Hrel2; reflexivity.
  - intros _. apply (Forall2_NoDup zrel ts zs HF Hnd Hback).
  - intros c' Hc' _. destruct (Helem c' Hc') as [t [idx [Ht [Hrel _]]]].
    destruct (lookup "zip_keys" c') as [v |] eqn:Hv; [| reflexivity].
    exfalso. assert (Hin : In "zip_keys" g).
    { apply (Hkeys t c' Ht Hrel). rewrite Hv. discriminate. }
    destruct (sortable_members gs m (pi_sortable _ _ _ Hpi) g _ Hg Hin) as [Hz _].
    contradiction.
Qed.

(** *** Putting the dimensions together *)

Lemma initial_loop_inv : loop_inv tl gs m tl (mk_bstate [] [] [] m).
Proof.
  unfold loop_inv. simpl. split; [apply (pi_set _ _ _ Hpi) |].
  split; [auto |]. split; [| intros k []].
  intros k _ _. split; reflexivity.
Qed.

Lemma sorted_zipped_units (zu : list (string * list string)) :
  (forall key g, In (key, g) zu -> In key tl /\ find (mem key) gs = Some g) ->
  exists zss,
    mapM (mapM (fun c => sort_config c (groups_value gs)))
         (map (fun u => zipped_dim tl m (snd u) (length (items m (fst u)))) zu) = Ok zss
    /\ Forall2 (fun u zs => dim_ok tl gs m (filter (fun k => mem k tl) (snd u)) zs) zu zss.
Proof.
  induction zu as [| [key g] r IH]; intros Hu.
  - exists []. split; [reflexivity | constructor].
  - destruct (Hu key g (or_introl eq_refl)) as [Hkey Hfind].
    destruct (zipped_dim_sorted key g Hkey Hfind) as [zs [Hzs Hok]].
    destruct IH as [zss [Hzss HF]]; [intros k' g' Hin; apply Hu; right; exact Hin |].
    exists (zs :: zss). split; [| constructor; assumption].
    cbn [map mapM fst snd]. rewrite Hzs. cbn [bind]. rewrite Hzss. reflexivity.
Qed.


Lemma break_up_partition :
  exists configs,
    break_up_top_level_values tl m = Ok configs
    /\ (deduplicated tl gs m -> NoDup (map (top_combo tl) configs))
    /\ (forall c, In c (map (top_combo tl) configs) <-> present tl gs m c)
    /\ (forall config z,
          In config configs -> lookup "zip_keys" config = Some z ->
          exists l l', lookup "zip_keys" m = Some (VList l) /\ z = VList l'
                       /\ Permutation l l').
Proof.
  set (P := plan gs tl []).
  destruct (plan_units gs tl (pi_disjoint _ _ _ Hpi) (pi_set _ _ _ Hpi) [])
    as [Hs [Hz [Hc [Hns Hnz]]]]; [intros k [] |].
  fold P in Hs, Hz, Hc, Hns, Hnz.
  set (sq := remove_keys (flat_map unit_keys P) m).
  assert (Hremoved : forall k, In k (flat_map unit_keys P) ->
                               In k tl \/ exists g, In g gs /\ In k g).
  { intros k Hk. apply unit_keys_member in Hk. destruct Hk as [Hk | [key [g [Hin Hk]]]].
    - left. apply (Hs k Hk).
    - right. exists g. destruct (Hz key g Hin) as [_ [Hf _]].
      split; [apply (find_group_some _ _ _ Hf) | exact Hk]. }
  assert (Hkept : forall k, k = "zip_keys" \/ k = "pin_run_as_build" ->
                            ~ In k (flat_map unit_keys P)).
  { intros k Hk Hin. destruct (Hremoved k Hin) as [Htl | [g [Hg Hkg]]].
    - destruct (pi_keys _ _ _ Hpi k Htl) as [_ [Hz' Hp']]. destruct Hk; contradiction.
    - destruct (sortable_members gs m (pi_sortable _ _ _ Hpi) g k Hg Hkg) as [Hz' Hp'].
      destruct Hk; contradiction. }
  assert (Hsq : forall k, lookup k sq = if mem k (flat_map unit_keys P) then None
                                        else lookup k m).
  { intros k. apply lookup_remove_keys. }
  assert (Hsq_keys : NoDup (map fst sq)).
  { apply NoDup_keys_remove_keys, (sortable_keys gs m (pi_sortable _ _ _ Hpi)). }
  assert (Hsq_sortable : sortable gs sq).
  { apply (sortable_restrict gs m sq (pi_sortable _ _ _ Hpi) Hsq_keys).
    intros k v. rewrite Hsq. destruct (mem k (flat_map unit_keys P)); [discriminate | auto]. }
  assert (Hsq_tl : forall k, In k tl -> lookup k sq = None).
  { intros k Hk. rewrite Hsq.
    replace (mem k (flat_map unit_keys P)) with true; [reflexivity |].
    symmetry. apply mem_true, unit_keys_member. apply Hc; [exact Hk | intros []]. }
  destruct (zip_groups_known gs m (pi_zip _ _ _ Hpi)) as [Hgroups _].
  assert (Hafter : groups_after (map (fun g => VList (map VStr g)) gs) sq = groups_value gs).
  { unfold groups_after. rewrite Hsq.
    replace (mem "zip_keys" (flat_map unit_keys P)) with false
      by (symmetry; apply mem_false, Hkept; left; reflexivity).
    destruct (pi_zip _ _ _ Hpi) as [Hzk | [Hzk ->]]; rewrite Hzk; reflexivity. }
  destruct (sort_config_sortable gs sq Hsq_sortable) as [bg [Hbg [Hbg_keys Hbg_lists]]].
  destruct (sorted_zipped_units (zipped_units P)) as [zss [Hzss HF]].
  { intros key g Hin. destruct (Hz key g Hin) as [Hk [Hf _]]. auto. }
  set (Kof := fun u : string * list string => filter (fun k => mem k tl) (snd u)).
  set (specs := map (fun k => ([k], standalone_dim m k)) (standalone_keys P)
                ++ combine (map Kof (zipped_units P)) zss
                ++ (if is_nil bg then [] else [([], [bg])])).
  assert (Hlen : length (map Kof (zipped_units P)) = length zss).
  { rewrite length_map. apply (Forall2_length HF). }
  assert (Hdims : map snd specs
                  = map (standalone_dim m) (standalone_keys P) ++ zss
                    ++ (if is_nil bg then [] else [[bg]])).
  { unfold specs. rewrite !map_app, map_map, (map_snd_combine _ _ Hlen). simpl.
    destruct (is_nil bg); reflexivity. }
  assert (Hrun : break_up_top_level_values tl m
                 = Ok (map merge_permutation (product (map snd specs)))).
  { unfold break_up_top_level_values. rewrite Hgroups. cbn [bind].
    rewrite (loop_plan tl gs m Hpi tl _ initial_loop_inv).
    cbn [bind accounted_for_keys zipped_configs top_level_dimensions squished app].
    fold P. fold sq.
    fold (groups_after (map (fun g => VList (map VStr g)) gs) sq). rewrite Hafter.
    rewrite Hbg. cbn [bind]. rewrite Hzss. cbn [bind]. rewrite Hdims. reflexivity. }
  assert (Hzip_specs : forall K zs, In (K, zs) (combine (map Kof (zipped_units P)) zss) ->
             exists u, In u (zipped_units P) /\ K = Kof u /\ dim_ok tl gs m K zs).
  { clear -HF. induction HF as [| u zs r rs Hok _ IH]; simpl; [intros K zs [] |].
    intros K zs' [Heq | Hin].
    - inversion Heq; subst. exists u. split; [left; reflexivity | split; [reflexivity | exact Hok]].
    - destruct (IH K zs' Hin) as [u' [Hu' [HK Hd]]]. exists u'.
      split; [right; exact Hu' | split; assumption]. }
  assert (Hspecs : forall s, In s specs -> dim_ok tl gs m (fst s) (snd s)).
  { intros s Hin. unfold specs in Hin. apply in_app_or in Hin.
    destruct Hin as [Hin | Hin]; [| apply in_app_or in Hin; destruct Hin as [Hin | Hin]].
    - apply in_map_iff in Hin. destruct Hin as [k [<- Hk]]. simpl.
      destruct (Hs k Hk) as [Hktl Hfind].
      apply (standalone_dim_ok k Hktl Hfind).
    - destruct s as [K zs]. destruct (Hzip_specs K zs Hin) as [_ [_ [_ Hok]]]. exact Hok.
    - destruct (is_nil bg); [destruct Hin |]. destruct Hin as [<- | []]. simpl.
      apply background_dim_ok.
      + rewrite Hbg_keys. exact Hsq_keys.
      + intros k Hk. apply lookup_None_keys. rewrite Hbg_keys.
        apply lookup_None_keys, Hsq_tl, Hk. }
  assert (Hfst : concat (map fst specs)
                 = standalone_keys P
                   ++ filter (fun k => mem k tl) (concat (map snd (zipped_units P)))).
  { unfold specs. rewrite !map_app, map_map, (map_fst_combine _ _ Hlen). simpl.
    rewrite !concat_app.
    replace (concat (map (fun k : string => [k]) (standalone_keys P)))
      with (standalone_keys P).
    2:{ symmetry. apply concat_singletons. }
    unfold Kof. rewrite <- (map_map snd (filter (fun k => mem k tl))), concat_map_filter.
    destruct (is_nil bg); simpl; rewrite app_nil_r; reflexivity. }
  assert (Hapart : NoDup (concat (map fst specs))).
  { rewrite Hfst. apply NoDup_app; [exact Hns | apply NoDup_filter, Hnz |].
    intros k Hk Hk'. apply filter_In in Hk'. destruct Hk' as [Hk' _].
    apply in_concat in Hk'. destruct Hk' as [g [Hg Hkg]].
    apply in_map_iff in Hg. destruct Hg as [[key g'] [Heq Hin]]. simpl in Heq. subst g'.
    destruct (Hs k Hk) as [_ Hfind]. destruct (Hz key g Hin) as [_ [Hf _]].
    apply (find_group_none _ _ Hfind g (proj1 (find_group_some _ _ _ Hf)) Hkg). }
  assert (Hcover : forall k, In k tl -> exists s, In s specs /\ In k (fst s)).
  { intros k Hk. destruct (Hc k Hk) as [Hst | [key [g [Hin Hkg]]]]; [intros [] | |].
    - exists ([k], standalone_dim m k). split; [| left; reflexivity].
      unfold specs. apply in_or_app. left.
      apply (in_map (fun k => ([k], standalone_dim m k))), Hst.
    - destruct (Forall2_combine_exists _ _ _ (key, g) HF Hin) as [zs Hzs].
      exists (Kof (key, g), zs). split.
      + unfold specs. apply in_or_app. right. apply in_or_app. left.
        apply (combine_map_l_In Kof), Hzs.
      + unfold Kof. simpl. apply filter_In. split; [exact Hkg | apply mem_true, Hk]. }
  exists (map merge_permutation (product (map snd specs))).
  split; [exact Hrun |].
  destruct (product_partition tl gs m specs Hspecs Hapart Hcover
              (top_level_strings tl gs m Hpi) (pi_disjoint _ _ _ Hpi)
              (member_lengths tl gs m Hpi)) as [Hnodup Hpresent].
  split; [exact Hnodup |]. split; [exact Hpresent |].
  intros config z Hconfig Hzk. apply in_map_iff in Hconfig.
  destruct Hconfig as [perm [<- Hperm]]. apply chosen_product in Hperm.
  destruct (merged_zip_keys tl gs m specs Hspecs perm z Hperm Hzk)
    as [y [s [Hsin [Hys [HK Hy]]]]].
  assert (Hbackground : y = bg).
  { unfold specs in Hsin. apply in_app_or in Hsin.
    destruct Hsin as [Hin | Hin]; [| apply in_app_or in Hin; destruct Hin as [Hin | Hin]].
    - apply in_map_iff in Hin. destruct Hin as [k [<- _]]. discriminate HK.
    - exfalso. destruct s as [K zs]. simpl in HK. subst K.
      destruct (Hzip_specs [] zs Hin) as [[key g] [Hu [HKof _]]].
      destruct (Hz key g Hu) as [Hkey [Hfind _]].
      assert (Hmember : In key (Kof (key, g))).
      { unfold Kof. simpl. apply filter_In.
        split; [apply (find_group_some _ _ _ Hfind) | apply mem_true, Hkey]. }
      rewrite <- HKof in Hmember. destruct Hmember.
    - destruct (is_nil bg); [destruct Hin |]. destruct Hin as [<- | []].
      simpl in Hys. destruct Hys as [<- | []]. reflexivity. }
  subst y.
  assert (Hzm : lookup "zip_keys" sq = lookup "zip_keys" m).
  { rewrite Hsq. replace (mem "zip_keys" (flat_map unit_keys P)) with false; [reflexivity |].
    symmetry. apply mem_false, Hkept. left; reflexivity. }
  destruct (lookup "zip_keys" sq) as [v |] eqn:Hv.
  - destruct (sortable_zip_keys gs sq Hsq_sortable v Hv) as [groups ->].
    destruct (Hbg_lists "zip_keys" _ Hv) as [l' [Hl' Hperm']]; [discriminate |].
    rewrite Hl' in Hy. inversion Hy; subst z.
    eexists; exists l'. split; [symmetry; exact Hzm |]. split; [reflexivity | exact Hperm'].
  - exfalso. assert (Hnone : lookup "zip_keys" bg = None).
    { apply lookup_None_keys. rewrite Hbg_keys. apply lookup_None_keys, Hv. }
    rewrite Hnone in Hy. discriminate.
Qed.
End Dimensions.

(** C1: for top-level variables that are keys of a well-formed,
    deduplicated squished mapping, [break_up_top_level_values] returns
    Configs whose top-level combinations are exactly the combinations present
    in the mapping, none left out and none twice. *)
Theorem break_up_partitions_top_level_combinations
  (tl : list string) (gs : list (list string)) (m : dict) :
  partition_input tl gs m ->
  deduplicated tl gs m ->
  exists configs,
    break_up_top_level_values tl m = Ok configs
    /\ NoDup (map (top_combo tl) configs)
    /\ forall c, In c (map (top_combo tl) configs) <-> present tl gs m c.
Proof.
  intros Hpi Hdedup.
  destruct (break_up_partition tl gs m Hpi) as [configs [Hrun [Hnd [Hpresent _]]]].
  exists configs. auto.
Qed.

Lemma python_numpy_partition_input :
  partition_input ["python"; "c_compiler"] [["python"; "numpy"]] python_numpy.
Proof.
  constructor.
  - exact python_numpy_sortable.
  - left; reflexivity.
  - simpl. repeat constructor; simpl; intuition discriminate.
  - intros g k [<- | []] [<- | [<- | []]]; discriminate.
  - repeat constructor; simpl; intuition discriminate.
  - intros k [<- | [<- | []]]; repeat split; discriminate.
Qed.

Lemma python_numpy_deduplicated :
  deduplicated ["python"; "c_compiler"] [["python"; "numpy"]] python_numpy.
Proof.
  intros k [<- | [<- | []]] Hfind.
  - vm_compute in Hfind. discriminate.
  - unfold items. simpl. repeat constructor; simpl; intuition discriminate.
Qed.

Lemma break_up_partitions_top_level_combinations_witness :
  partition_input ["python"; "c_compiler"] [["python"; "numpy"]] python_numpy
  /\ deduplicated ["python"; "c_compiler"] [["python"; "numpy"]] python_numpy
  /\ exists configs,
       break_up_top_level_values ["python"; "c_compiler"] python_numpy = Ok configs
       /\ NoDup (map (top_combo ["python"; "c_compiler"]) configs)
       /\ forall c, In c (map (top_combo ["python"; "c_compiler"]) configs)
                    <-> present ["python"; "c_compiler"] [["python"; "numpy"]] python_numpy c.
Proof.
  split; [exact python_numpy_partition_input |].
  split; [exact python_numpy_deduplicated |].
  apply (break_up_partitions_top_level_combinations
           ["python"; "c_compiler"] [["python"; "numpy"]] python_numpy
           python_numpy_partition_input python_numpy_deduplicated).
Defined.

(** The scenario: [python] zipped with [numpy] and a free compiler give
    four Configs, the two rows with [python] 3.9 merged into one. *)
Example python_numpy_configs :
  option_map (map (top_combo ["python"; "c_compiler"]))
             (match break_up_top_level_values ["python"; "c_compiler"] python_numpy with
              | Ok configs => Some configs
              | Raise _ => None
              end)
  = Some [[Some (VStr "3.9"); Some (VStr "gcc")];
          [Some (VStr "3.10"); Some (VStr "gcc")];
          [Some (VStr "3.9"); Some (VStr "clang")];
          [Some (VStr "3.10"); Some (VStr "clang")]].
Proof. vm_compute. reflexivity. Qed.

(** A mapping that is not deduplicated: the value a standalone variable
    holds twice gives two Configs. *)
Example repeated_value_emitted_twice :
  break_up_top_level_values ["c_compiler"] [("c_compiler", strings ["gcc"; "gcc"])]
  = Ok [[("c_compiler", strings ["gcc"])]; [("c_compiler", strings ["gcc"])]].
Proof. reflexivity. Qed.

(** ** Trimmed zip groups in the emitted configs *)

(** C6. On a mapping whose [zip_keys] is well formed [_trim_unused_zip_keys]
    returns; every group it leaves under [zip_keys] has at least two
    members, each a key of the mapping; when no group keeps two members
    that are keys of the mapping, [zip_keys] is removed; and every group
    under [zip_keys] of a Config that [break_up_top_level_values] emits
    from the trimmed mapping has at least two members. *)
Theorem trimmed_zip_groups_have_two_members (all_used_vars : dict) :
  zip_keys_well_formed all_used_vars ->
  exists trimmed,
    _trim_unused_zip_keys all_used_vars = Ok trimmed
    /\ (forall z, lookup "zip_keys" trimmed = Some z ->
          exists used_groups,
            z = groups_value used_groups
            /\ forall g, In g used_groups ->
                 2 <= length g /\ forall k, In k g -> contains k trimmed = true)
    /\ (forall groups,
          zip_key_groups_of all_used_vars = Ok groups ->
          (forall group ks, In group groups ->
                            filter_group all_used_vars group = Ok ks -> length ks < 2) ->
          lookup "zip_keys" trimmed = None)
    /\ (forall tl gs,
          partition_input tl gs trimmed ->
          exists configs,
            break_up_top_level_values tl trimmed = Ok configs
            /\ forall config z,
                 In config configs -> lookup "zip_keys" config = Some z ->
                 exists groups,
                   z = groups_value groups /\ forall g, In g groups -> 2 <= length g).
Proof.
  intros Hwf. destruct (trim_zip_keys_total all_used_vars Hwf) as [trimmed Ht].
  destruct (trim_zip_keys_partial all_used_vars trimmed Ht) as [Hkept [Hgone _]].
  exists trimmed. split; [exact Ht |]. split; [| split; [exact Hgone |]].
  - intros z Hz. destruct (Hkept z Hz) as [used [-> [_ Hused]]].
    exists used. split; [reflexivity |]. intros g Hg.
    destruct (Hused g Hg) as [Hlen [Hkeys _]]. split; assumption.
  - intros tl gs Hpi.
    destruct (break_up_partition tl gs trimmed Hpi) as [configs [Hrun [_ [_ Hzip]]]].
    exists configs. split; [exact Hrun |]. intros config z Hconfig Hz.
    destruct (Hzip config z Hconfig Hz) as [l [l' [Hl [-> Hperm]]]].
    destruct (Hkept _ Hl) as [used [Heq [_ Hused]]].
    unfold groups_value in Heq. inversion Heq; subst l.
    apply Permutation_sym, Permutation_map_inv in Hperm.
    destruct Hperm as [groups [-> Hperm]].
    exists groups. split; [reflexivity |]. intros g Hg.
    apply (Hused g). apply (Permutation_in g (Permutation_sym Hperm) Hg).
Qed.

Lemma trimmed_zip_groups_have_two_members_witness :
  zip_keys_well_formed untrimmed_python_numpy
  /\ exists trimmed,
       _trim_unused_zip_keys untrimmed_python_numpy = Ok trimmed
       /\ (forall z, lookup "zip_keys" trimmed = Some z ->
             exists used_groups,
               z = groups_value used_groups
               /\ forall g, In g used_groups ->
                    2 <= length g /\ forall k, In k g -> contains k trimmed = true)
       /\ (forall groups,
             zip_key_groups_of untrimmed_python_numpy = Ok groups ->
             (forall group ks, In group groups ->
                               filter_group untrimmed_python_numpy group = Ok ks ->
                               length ks < 2) ->
             lookup "zip_keys" trimmed = None)
       /\ (forall tl gs,
             partition_input tl gs trimmed ->
             exists configs,
               break_up_top_level_values tl trimmed = Ok configs
               /\ forall config z,
                    In config configs -> lookup "zip_keys" config = Some z ->
                    exists groups,
                      z = groups_value groups /\ forall g, In g groups -> 2 <= length g).
Proof.
  assert (Hwf : zip_keys_well_formed untrimmed_python_numpy)
    by (left; eexists; reflexivity).
  split; [exact Hwf |].
  exact (trimmed_zip_groups_have_two_members untrimmed_python_numpy Hwf).
Defined.

(** Trimming the scenario drops [pypy] from the first group and the whole
    second group, which keeps [c_compiler] alone. *)
Example untrimmed_python_numpy_trimmed :
  _trim_unused_zip_keys untrimmed_python_numpy = Ok python_numpy.
Proof. reflexivity. Qed.

(** A mapping whose only group keeps one member loses [zip_keys]. *)
Example single_member_group_removed :
  _trim_unused_zip_keys
    [("c_compiler", strings ["gcc"]);
     ("zip_keys", groups_value [["c_compiler"; "cxx_compiler"]])]
  = Ok [("c_compiler", strings ["gcc"])].
Proof. reflexivity. Qed.

(** The Configs of the trimmed scenario carry the trimmed group. *)
Example python_numpy_config_zip_keys :
  option_map (map (lookup "zip_keys"))
             (match break_up_top_level_values ["python"; "c_compiler"] python_numpy with
              | Ok configs => Some configs
              | Raise _ => None
              end)
  = Some (repeat (Some (groups_value [["python"; "numpy"]])) 4).
Proof. vm_compute. reflexivity. Qed.

(** * Further properties *)

(** ** More on insertion-ordered mappings *)

Section AssocMore.
Context {K V : Type} `{EqDec K}.

Lemma setitem_same (k : K) (v : V) (d : list (K * V)) :
  setitem k v (setitem k v d) = setitem k v d.
Proof.
  induction d as [| [k0 v0] r IH]; simpl.
  - destruct (eq_dec k k); [reflexivity | contradiction].
  - destruct (eq_dec k k0) as [He | Hn]; simpl.
    + destruct (eq_dec k k); [reflexivity | contradiction].
    + destruct (eq_dec k k0); [contradiction | rewrite IH; reflexivity].
Qed.

Lemma remove_key_absent (k : K) (d : list (K * V)) :
  lookup k d = None -> remove_key k d = d.
Proof.
  induction d as [| [k0 v0] r IH]; simpl; [reflexivity |].
  destruct (eq_dec k k0); [discriminate |]. intros Hl. rewrite IH; auto.
Qed.

Lemma remove_key_twice (k : K) (d : list (K * V)) :
  remove_key k (remove_key k d) = remove_key k d.
Proof. apply remove_key_absent, lookup_remove_key_eq. Qed.

Lemma contains_setitem (k k0 : K) (v : V) (d : list (K * V)) :
  contains k d = true -> contains k (setitem k0 v d) = true.
Proof.
  unfold contains. destruct (eq_dec k0 k) as [-> | Hne].
  - rewrite lookup_setitem_eq. reflexivity.
  - rewrite (lookup_setitem_ne k0 k v d Hne). auto.
Qed.

Lemma contains_setitem_self (k : K) (v : V) (d : list (K * V)) :
  contains k (setitem k v d) = true.
Proof. unfold contains. rewrite lookup_setitem_eq. reflexivity. Qed.

Lemma setitem_present (k : K) (v : V) (d : list (K * V)) :
  lookup k d = Some v -> setitem k v d = d.
Proof.
  induction d as [| [k0 v0] r IH]; simpl; [discriminate |].
  destruct (eq_dec k k0) as [-> | Hn]; intros Hl.
  - inversion Hl; subst. reflexivity.
  - rewrite IH; auto.
Qed.
End AssocMore.

Lemma filter_all {A : Type} (f : A -> bool) (l : list A) :
  (forall x, In x l -> f x = true) -> filter f l = l.
Proof.
  induction l as [| x r IH]; simpl; intros Hf; [reflexivity |].
  rewrite (Hf x (or_introl eq_refl)). rewrite IH; [reflexivity | auto].
Qed.

Lemma filter_twice {A : Type} (f : A -> bool) (l : list A) :
  filter f (filter f l) = filter f l.
Proof.
  apply filter_all. intros x Hx. apply filter_In in Hx. apply Hx.
Qed.

(** ** [_trim_unused_zip_keys], once more *)

(** X1. Trimming is idempotent: on the mapping a first call leaves, a second
    call changes nothing. Only [zip_keys] is touched by a call: any other
    key keeps its value, and no key is added. *)
Theorem trim_zip_keys_idempotent (all_used_vars trimmed : dict) :
  _trim_unused_zip_keys all_used_vars = Ok trimmed ->
  _trim_unused_zip_keys trimmed = Ok trimmed
  /\ (forall k, k <> "zip_keys" -> lookup k trimmed = lookup k all_used_vars)
  /\ (forall k, contains k trimmed = true -> contains k all_used_vars = true).
Proof.
  intros Ht.
  destruct (trim_zip_keys_partial all_used_vars trimmed Ht) as [Hkept [_ Hsame]].
  split; [| split; [exact Hsame |]].
  - unfold _trim_unused_zip_keys, zip_key_groups_of.
    destruct (lookup "zip_keys" trimmed) as [z |] eqn:Hz.
    + destruct (Hkept z eq_refl) as [used [-> [Hne Hused]]].
      rewrite as_groups_groups_value. cbn [bind].
      rewrite (mapM_pure _ (fun v => match v with
                                     | VList l => flat_map (fun x => match x with
                                                                     | VStr s => [s]
                                                                     | _ => []
                                                                     end) l
                                     | _ => []
                                     end)).
      * cbn [bind]. rewrite map_map.
        assert (Hid : map (fun g : list string =>
                             flat_map (fun x => match x with
                                                | VStr s => [s]
                                                | _ => []
                                                end) (map VStr g)) used = used).
        { clear. induction used as [| g r IH]; simpl; [reflexivity |].
          rewrite IH. f_equal.
          induction g as [| k g' IHg]; simpl; [reflexivity | rewrite IHg; reflexivity]. }
        rewrite Hid. rewrite filter_all.
        -- destruct used as [| g r]; [contradiction |]. cbn [is_nil].
           unfold _trim_unused_zip_keys in Ht. inv_bind Ht. inv_bind Ht.
           match type of Ht with
           | (if is_nil ?l then _ else _) = _ => destruct l eqn:Hl
           end; simpl in Ht; inversion Ht; subst trimmed.
           ++ rewrite lookup_remove_key_eq in Hz. discriminate.
           ++ rewrite lookup_setitem_eq in Hz.
              match goal with
              | |- context [setitem _ ?a (setitem _ ?b _)] =>
                  replace a with b by congruence
              end.
              rewrite setitem_same. reflexivity.
        -- intros g Hg. destruct (Hused g Hg) as [Hlen _].
           apply Nat.ltb_lt. lia.
      * intros v Hv. apply in_map_iff in Hv. destruct Hv as [g [<- Hg]].
        rewrite filter_group_names. destruct (Hused g Hg) as [_ [Hkeys _]].
        rewrite filter_all by exact Hkeys. f_equal.
        clear. induction g as [| k g' IHg]; simpl; [reflexivity | rewrite <- IHg; reflexivity].
    + cbn [bind mapM filter is_nil]. rewrite remove_key_absent by exact Hz. reflexivity.
  - intros k Hk. destruct (string_dec k "zip_keys") as [-> | Hne].
    + unfold _trim_unused_zip_keys in Ht. inv_bind Ht. inv_bind Ht.
      match type of Ht with
      | (if is_nil ?l then _ else _) = _ => destruct l eqn:Hl
      end; simpl in Ht; inversion Ht; subst trimmed.
      * unfold contains in Hk. rewrite lookup_remove_key_eq in Hk. discriminate.
      * unfold zip_key_groups_of in Ha. unfold contains.
        destruct (lookup "zip_keys" all_used_vars); [reflexivity |].
        inversion Ha; subst. simpl in Ha0. inversion Ha0; subst. discriminate Hl.
    + unfold contains in *. rewrite <- (Hsame k Hne). exact Hk.
Qed.

Lemma trim_zip_keys_idempotent_witness :
  _trim_unused_zip_keys untrimmed_python_numpy = Ok python_numpy
  /\ _trim_unused_zip_keys python_numpy = Ok python_numpy
  /\ (forall k, k <> "zip_keys" -> lookup k python_numpy = lookup k untrimmed_python_numpy)
  /\ (forall k, contains k python_numpy = true -> contains k untrimmed_python_numpy = true).
Proof.
  split; [reflexivity |].
  exact (trim_zip_keys_idempotent untrimmed_python_numpy python_numpy eq_refl).
Defined.

(** ** [_trim_unused_pin_run_as_build] *)

Lemma replace_char_gone (old new : ascii) (s : string) :
  old <> new -> ~ In old (list_ascii_of_string (replace_char old new s)).
Proof.
  intros Hne. induction s as [| c r IH]; simpl; [tauto |].
  intros [Hc | Hc]; [| exact (IH Hc)].
  destruct (Ascii.eqb c old) eqn:He.
  - apply Hne. symmetry. exact Hc.
  - apply Ascii.eqb_neq in He. apply He. exact Hc.
Qed.

Lemma replace_char_absent (old new : ascii) (s : string) :
  ~ In old (list_ascii_of_string s) -> replace_char old new s = s.
Proof.
  induction s as [| c r IH]; simpl; [reflexivity |].
  intros Hnot. destruct (Ascii.eqb c old) eqn:He.
  - apply Ascii.eqb_eq in He. exfalso. apply Hnot. left. exact He.
  - rewrite IH; [reflexivity | tauto].
Qed.

(** X2. After [_trim_unused_pin_run_as_build] the packages left under
    [pin_run_as_build] are those of the original mapping whose variable
    name, hyphens turned into underscores, is a key, each with its pins;
    the key is gone when no package is left; every other key keeps its
    value; and a second call changes nothing. *)
Theorem trim_pins_keeps_used_packages (all_used_vars trimmed : dict) :
  _trim_unused_pin_run_as_build all_used_vars = Ok trimmed ->
  (forall v, lookup "pin_run_as_build" trimmed = Some v ->
     exists pkgs used_pkgs,
       lookup "pin_run_as_build" all_used_vars = Some (VDict pkgs)
       /\ v = VDict used_pkgs /\ used_pkgs <> []
       /\ forall pkg pins,
            In (pkg, pins) used_pkgs
            <-> In (pkg, pins) pkgs
                /\ contains (_package_var_name pkg) trimmed = true)
  /\ ((forall pkgs pkg pins,
         lookup "pin_run_as_build" all_used_vars = Some (VDict pkgs) ->
         In (pkg, pins) pkgs ->
         contains (_package_var_name pkg) all_used_vars = false) ->
      lookup "pin_run_as_build" trimmed = None)
  /\ (forall k, k <> "pin_run_as_build" -> lookup k trimmed = lookup k all_used_vars)
  /\ _trim_unused_pin_run_as_build trimmed = Ok trimmed.
Proof.
  unfold _trim_unused_pin_run_as_build at 1. intros Ht. inv_bind Ht.
  rename a into used_pkgs.
  assert (Hused : used_pkgs = []
                  \/ exists pkgs,
                       lookup "pin_run_as_build" all_used_vars = Some (VDict pkgs)
                       /\ used_pkgs
                          = filter (fun kv => contains (_package_var_name (fst kv))
                                                       all_used_vars) pkgs).
  { unfold pin_run_as_build_of in Ha.
    destruct (lookup "pin_run_as_build" all_used_vars) as [pkgs |].
    - destruct (truthy pkgs); [| inversion Ha; auto].
      destruct pkgs as [s | l | d]; try discriminate.
      inversion Ha; subst. right. exists d. auto.
    - simpl in Ha. inversion Ha; auto. }
  assert (Hin : forall k, contains k all_used_vars = true ->
                          contains k (setitem "pin_run_as_build" (VDict used_pkgs)
                                              all_used_vars) = true)
    by (intros k; apply contains_setitem).
  destruct used_pkgs as [| p r] eqn:Hu; simpl in Ht; inversion Ht; subst trimmed; clear Ht.
  - split; [| split; [| split]].
    + intros v Hv. rewrite lookup_remove_key_eq in Hv. discriminate.
    + intros _. apply lookup_remove_key_eq.
    + intros k Hne. apply lookup_remove_key_ne. congruence.
    + unfold _trim_unused_pin_run_as_build, pin_run_as_build_of.
      rewrite lookup_remove_key_eq. simpl. rewrite remove_key_twice. reflexivity.
  - destruct Hused as [Hnil | [pkgs [Hpkgs Hfilter]]]; [discriminate |].
    assert (Hcontains : forall k,
              contains k (setitem "pin_run_as_build" (VDict (p :: r)) all_used_vars)
              = contains k all_used_vars).
    { intros k. unfold contains. destruct (string_dec k "pin_run_as_build") as [-> | Hne].
      - rewrite lookup_setitem_eq, Hpkgs. reflexivity.
      - rewrite lookup_setitem_ne by congruence. reflexivity. }
    split; [| split; [| split]].
    + intros v Hv. rewrite lookup_setitem_eq in Hv. inversion Hv; subst v.
      exists pkgs, (p :: r). split; [exact Hpkgs |]. split; [reflexivity |].
      split; [discriminate |]. intros pkg pins. rewrite Hcontains, Hfilter, filter_In.
      reflexivity.
    + intros Hnone. exfalso.
      assert (Hp : In p (filter (fun kv => contains (_package_var_name (fst kv))
                                                    all_used_vars) pkgs))
        by (rewrite <- Hfilter; left; reflexivity).
      apply filter_In in Hp. destruct Hp as [Hp Hc]. destruct p as [pkg pins].
      cbn [fst] in Hc. rewrite (Hnone pkgs pkg pins Hpkgs Hp) in Hc. discriminate.
    + intros k Hne. apply lookup_setitem_ne. congruence.
    + unfold _trim_unused_pin_run_as_build, pin_run_as_build_of.
      rewrite lookup_setitem_eq. cbn [truthy iter_value map is_nil negb bind].
      rewrite filter_all.
      * cbn [is_nil]. rewrite setitem_same. reflexivity.
      * intros kv Hkv. rewrite Hcontains. rewrite Hfilter in Hkv.
        apply filter_In in Hkv. apply Hkv.
Qed.

Lemma trim_pins_keeps_used_packages_witness :
  exists trimmed,
    _trim_unused_pin_run_as_build pinned_numpy = Ok trimmed
    /\ lookup "pin_run_as_build" trimmed
       = Some (VDict [("numpy", VDict [("min_pin", VStr "x.x"); ("max_pin", VStr "x.x")])])
    /\ _trim_unused_pin_run_as_build trimmed = Ok trimmed.
Proof.
  eexists. split; [reflexivity |]. split; [reflexivity |].
  apply (trim_pins_keeps_used_packages pinned_numpy _ eq_refl).
Defined.

(** X3. [_trim_unused_pin_run_as_build] raises exactly when
    [pin_run_as_build] holds a non-empty value that is not a mapping, and
    then it raises [AttributeError]. *)
Theorem trim_pins_raises_on_non_mapping (all_used_vars : dict) (e : exn) :
  _trim_unused_pin_run_as_build all_used_vars = Raise e
  <-> e = AttributeError
      /\ exists v, lookup "pin_run_as_build" all_used_vars = Some v
                   /\ truthy v = true /\ forall d, v <> VDict d.
Proof.
  unfold _trim_unused_pin_run_as_build, pin_run_as_build_of.
  destruct (lookup "pin_run_as_build" all_used_vars) as [v |].
  - destruct (truthy v) eqn:Htruthy.
    + destruct v as [s | l | d]; cbn [bind].
      * split.
        -- intros He. inversion He. split; [reflexivity |].
           exists (VStr s). repeat split; [exact Htruthy | discriminate].
        -- intros [-> _]. reflexivity.
      * split.
        -- intros He. inversion He. split; [reflexivity |].
           exists (VList l). repeat split; [exact Htruthy | discriminate].
        -- intros [-> _]. reflexivity.
      * split.
        -- match goal with |- context [is_nil ?x] => destruct (is_nil x) end; discriminate.
        -- intros [_ [v [Hv [_ Hd]]]]. inversion Hv; subst. exfalso. apply (Hd d eq_refl).
    + cbn [bind is_nil]. split; [discriminate |].
      intros [_ [v' [Hv [Ht _]]]]. inversion Hv; subst. congruence.
  - cbn [truthy iter_value map is_nil negb bind]. split; [discriminate |].
    intros [_ [v [Hv _]]]. discriminate.
Qed.

(** ** [_santize_remote_ci_setup] *)

Lemma prefix_double_quote (s : string) :
  prefix double_quote (double_quote ++ s) = true.
Proof. unfold double_quote. simpl. destruct s; reflexivity. Qed.

Lemma sanitized_package_twice (package : string) :
  sanitized_package (sanitized_package package) = sanitized_package package.
Proof.
  destruct (prefix "'" package || prefix double_quote package) eqn:Hq.
  - assert (He : sanitized_package package = package)
      by (unfold sanitized_package; rewrite Hq; reflexivity).
    rewrite He. exact He.
  - destruct (is_substring "<" package || is_substring ">" package
              || is_substring "|" package) eqn:Hs.
    + assert (He : sanitized_package package
                   = (double_quote ++ package ++ double_quote)%string)
        by (unfold sanitized_package; rewrite Hq, Hs; reflexivity).
      rewrite He. unfold sanitized_package at 1.
      rewrite prefix_double_quote, orb_true_r. reflexivity.
    + assert (He : sanitized_package package = package)
        by (unfold sanitized_package; rewrite Hq, Hs; reflexivity).
      rewrite He. exact He.
Qed.

(** X4. [_santize_remote_ci_setup] keeps the number and the order of the
    packages; a package that names a version constraint with [<], [>] or
    [|] comes out quoted, any other package comes out as it is; and
    sanitizing the result again changes nothing. *)
Theorem sanitize_remote_ci_setup_idempotent (remote_ci_setup : list string) :
  length (_santize_remote_ci_setup remote_ci_setup) = length remote_ci_setup
  /\ (forall i package,
        nth_error remote_ci_setup i = Some package ->
        exists sanitized,
          nth_error (_santize_remote_ci_setup remote_ci_setup) i = Some sanitized
          /\ (is_substring "<" package || is_substring ">" package
              || is_substring "|" package = true ->
              prefix "'" sanitized || prefix double_quote sanitized = true)
          /\ (is_substring "<" package || is_substring ">" package
              || is_substring "|" package = false ->
              sanitized = package))
  /\ _santize_remote_ci_setup (_santize_remote_ci_setup remote_ci_setup)
     = _santize_remote_ci_setup remote_ci_setup.
Proof.
  unfold _santize_remote_ci_setup. split; [apply length_map |]. split.
  - intros i package Hi. exists (sanitized_package package).
    split; [apply map_nth_error, Hi |]. unfold sanitized_package. split.
    + intros Hs. destruct (prefix "'" package || prefix double_quote package) eqn:Hq.
      * exact Hq.
      * rewrite Hs. rewrite prefix_double_quote. apply orb_true_r.
    + intros Hs. rewrite Hs.
      destruct (prefix "'" package || prefix double_quote package); reflexivity.
  - rewrite map_map. apply map_ext. apply sanitized_package_twice.
Qed.

(** A constraint is quoted once, a quoted package and a plain one are
    kept. *)
Example sanitize_remote_ci_setup_packages :
  _santize_remote_ci_setup ["conda-forge-ci-setup=3"; "numpy>=1.20"; "'py<3.9'"]
  = ["conda-forge-ci-setup=3"; (double_quote ++ "numpy>=1.20" ++ double_quote)%string;
     "'py<3.9'"].
Proof. reflexivity. Qed.

(** ** The short name of a config *)

Lemma length_substring_le (n : nat) (s : string) :
  String.length (substring 0 n s) <= n.
Proof.
  revert s; induction n as [| n IH]; intros s.
  - destruct s; simpl; lia.
  - destruct s as [| c r]; simpl; [lia |]. specialize (IH r). lia.
Qed.

Lemma short_name_length (sha256_hex : string -> string) (platform arch key : string) :
  String.length (snd (config_names sha256_hex platform arch key)) < 49.
Proof.
  unfold config_names. cbn [snd].
  set (full := (platform ++ "_" ++ arch ++ "_" ++ key)%string).
  destruct (49 <=? String.length full)%nat eqn:H49.
  - rewrite !length_string_app. simpl.
    assert (H35 := length_substring_le 35 full).
    assert (H10 := length_substring_le 10 (sha256_hex full)). lia.
  - apply Nat.leb_gt in H49. exact H49.
Qed.

(** X5. The short name [dump_subspace_config_files] gives a config is
    always shorter than 49 characters, whatever the digest function
    returns. A full name under 49 characters is both the name and the short
    name; a longer full name that stays under the ceiling of 250 is kept as
    the name, and the short name then differs from it. *)
Theorem short_config_name_below_49 (sha256_hex : string -> string)
  (platform arch key : string) :
  let full := (platform ++ "_" ++ arch ++ "_" ++ key)%string in
  let names := config_names sha256_hex platform arch key in
  String.length (snd names) < 49
  /\ (String.length full < 49 -> names = (full, full))
  /\ (49 <= String.length full ->
      String.length ("conda-forge-build-done-" ++ full)%string < 250 ->
      fst names = full /\ snd names <> full).
Proof.
  intros full names. unfold names, config_names. fold full. cbn [fst snd].
  assert (Hshort : String.length (substring 0 35 full ++ "_h"
                                  ++ substring 0 10 (sha256_hex full))%string < 49).
  { rewrite !length_string_app. simpl.
    assert (H35 := length_substring_le 35 full).
    assert (H10 := length_substring_le 10 (sha256_hex full)). lia. }
  destruct (49 <=? String.length full)%nat eqn:H49.
  - apply Nat.leb_le in H49. split; [exact Hshort |]. split; [lia |].
    intros _ H250. apply Nat.leb_gt in H250. rewrite H250.
    split; [reflexivity |]. intros Heq. rewrite Heq in Hshort. lia.
  - apply Nat.leb_gt in H49. split; [exact H49 |]. split.
    + intros _.
      assert (H250 : (250 <=? String.length ("conda-forge-build-done-" ++ full)%string)%nat
                     = false).
      { apply Nat.leb_gt. rewrite length_string_app. simpl. lia. }
      rewrite H250. reflexivity.
    + lia.
Qed.

(** ** [finalize_config], once more *)

Lemma truncate_single_valued (cfg : dict) (k : string) :
  single_valued cfg k -> truncate_key cfg k = Ok cfg.
Proof.
  intros [x Hx]. rewrite (truncate_key_total cfg k x (top_value_singleton _ _ _ Hx)).
  rewrite setitem_present by exact Hx. reflexivity.
Qed.

Lemma truncate_keeps_single_valued (cfg cfg' : dict) (k : string) :
  truncate_key cfg k = Ok cfg' ->
  single_valued cfg' k /\ forall k', single_valued cfg k' -> single_valued cfg' k'.
Proof.
  intros Ht. apply truncate_key_ok in Ht. destruct Ht as [x [_ ->]].
  assert (Hk : single_valued (setitem k (VList [x]) cfg) k)
    by (exists x; apply lookup_setitem_eq).
  split; [exact Hk |]. intros k' [y Hy].
  destruct (string_dec k' k) as [-> | Hne]; [exact Hk |].
  exists y. rewrite lookup_setitem_ne by congruence. exact Hy.
Qed.

Lemma finalize_step_single_valued (keys : list value) (cfg cfg' : dict) :
  foldM finalize_step keys cfg = Ok cfg' ->
  (forall k, single_valued cfg k -> single_valued cfg' k)
  /\ (forall key, In key keys ->
        key = VStr "docker_image" \/ exists k, key = VStr k /\ single_valued cfg' k).
Proof.
  revert cfg; induction keys as [| key r IH]; simpl; intros cfg Hf.
  - inversion Hf; subst. split; [auto | intros key []].
  - inv_bind Hf. rename a into cfg1.
    destruct (IH cfg1 Hf) as [Hkeep Hkeys].
    unfold finalize_step in Ha. destruct (py_eqb key (VStr "docker_image")) eqn:Hd.
    + inversion Ha; subst cfg1. apply py_eqb_str in Hd. split; [exact Hkeep |].
      intros key' [<- | Hin]; [left; exact Hd | apply Hkeys, Hin].
    + inv_bind Ha. destruct key as [s | l | d]; simpl in Ha0; inversion Ha0; subst a.
      destruct (truncate_keeps_single_valued cfg cfg1 s Ha) as [Hs Hk1].
      split; [intros k Hk; apply Hkeep, Hk1, Hk |].
      intros key' [<- | Hin]; [| apply Hkeys, Hin].
      right. exists s. split; [reflexivity | apply Hkeep, Hs].
Qed.

Lemma finalize_ziplist_single_valued (ziplists : list value) (cfg cfg' : dict) :
  foldM finalize_ziplist ziplists cfg = Ok cfg' ->
  (forall k, single_valued cfg k -> single_valued cfg' k)
  /\ (forall ziplist, In ziplist ziplists -> key_in "docker_image" ziplist = true ->
                      group_finalized cfg' ziplist).
Proof.
  revert cfg; induction ziplists as [| z r IH]; simpl; intros cfg Hf.
  - inversion Hf; subst. split; [auto | intros zl []].
  - inv_bind Hf. rename a into cfg1. destruct (IH cfg1 Hf) as [Hkeep Hgroups].
    unfold finalize_ziplist in Ha. destruct (key_in "docker_image" z) eqn:Hz.
    + destruct (finalize_step_single_valued _ _ _ Ha) as [Hk1 Hkeys].
      split; [intros k Hk; apply Hkeep, Hk1, Hk |].
      intros zl [<- | Hin] Hd; [| apply Hgroups; assumption].
      intros key Hkey. destruct (Hkeys key Hkey) as [Hdocker | [k [Hk Hs]]];
        [left; exact Hdocker | right].
      exists k. split; [exact Hk | apply Hkeep, Hs].
    + inversion Ha; subst cfg1. split; [exact Hkeep |].
      intros zl [<- | Hin] Hd; [congruence | apply Hgroups; assumption].
Qed.

Lemma finalize_step_settled (keys : list value) (cfg : dict) :
  (forall key, In key keys ->
     key = VStr "docker_image" \/ exists k, key = VStr k /\ single_valued cfg k) ->
  foldM finalize_step keys cfg = Ok cfg.
Proof.
  induction keys as [| key r IH]; simpl; intros Hkeys; [reflexivity |].
  assert (Hstep : finalize_step cfg key = Ok cfg).
  { unfold finalize_step. destruct (py_eqb key (VStr "docker_image")) eqn:Hd; [reflexivity |].
    destruct (Hkeys key (or_introl eq_refl)) as [-> | [k [-> Hk]]].
    - simpl in Hd. discriminate.
    - simpl. apply truncate_single_valued, Hk. }
  rewrite Hstep. cbn [bind]. apply IH. intros key' Hin. apply Hkeys. right; exact Hin.
Qed.

Lemma finalize_ziplist_settled (ziplists : list value) (cfg : dict) :
  (forall ziplist, In ziplist ziplists -> key_in "docker_image" ziplist = true ->
                   group_finalized cfg ziplist) ->
  foldM finalize_ziplist ziplists cfg = Ok cfg.
Proof.
  induction ziplists as [| z r IH]; simpl; intros Hz; [reflexivity |].
  assert (Hstep : finalize_ziplist cfg z = Ok cfg).
  { unfold finalize_ziplist. destruct (key_in "docker_image" z) eqn:Hd; [| reflexivity].
    apply finalize_step_settled. apply (Hz z (or_introl eq_refl) Hd). }
  rewrite Hstep. cbn [bind]. apply IH. intros zl Hin. apply Hz. right; exact Hin.
Qed.

Lemma index_value_first (c x : value) :
  index_value c 0 = Ok x -> In x (iter_value c).
Proof.
  unfold index_value. destruct c as [s | l | d]; try discriminate;
    destruct (nth_error _ 0) as [y |] eqn:Hy; try discriminate;
    intros Hx; inversion Hx; subst; apply (nth_error_In _ _ Hy).
Qed.

(** X6. [finalize_config] is idempotent: finalizing a config it has
    returned gives that config back. *)
Theorem finalize_config_idempotent (config : dict) (platform arch : string)
  (forge_config config' : dict) :
  finalize_config config platform arch forge_config = Ok config' ->
  finalize_config config' platform arch forge_config = Ok config'.
Proof.
  intros Hf.
  destruct (build_platform_of forge_config platform arch) as [bp | e] eqn:Hbp.
  2:{ unfold finalize_config, build_platform_of in *.
      destruct (getitem "build_platform" forge_config) as [bps | e']; cbn [bind] in *;
        [rewrite Hbp in Hf |]; discriminate. }
  destruct bp as [build_platform | l | d].
  2,3: (unfold finalize_config, build_platform_of in *;
        destruct (getitem "build_platform" forge_config) as [bps | e']; cbn [bind] in *;
        [rewrite Hbp in Hf |]; discriminate).
  destruct (prefix "linux" build_platform) eqn:Hlinux.
  2:{ rewrite (finalize_config_other_platform _ _ _ _ _ Hbp Hlinux) in Hf.
      inversion Hf; subst. apply (finalize_config_other_platform _ _ _ _ _ Hbp Hlinux). }
  rewrite (finalize_config_unfold config _ _ _ _ Hbp Hlinux) in Hf.
  rewrite (finalize_config_unfold config' _ _ _ _ Hbp Hlinux).
  inv_bind Hf. rename a into config1.
  destruct (finalize_docker_image _ _ _ Ha) as [[x [Hdi _]] _].
  assert (Hdocker1 : single_valued config1 "docker_image") by (exists x; exact Hdi).
  assert (Hsecond : forall cfg, single_valued cfg "docker_image" ->
            (if contains "docker_image" cfg
             then truncate_key cfg "docker_image"
             else f <- fallback_image forge_config ;;
                  Ok (setitem "docker_image" (VList [f]) cfg)) = Ok cfg).
  { intros cfg Hs. assert (Hc : contains "docker_image" cfg = true).
    { destruct Hs as [y Hy]. unfold contains. rewrite Hy. reflexivity. }
    rewrite Hc. apply truncate_single_valued, Hs. }
  destruct (lookup "zip_keys" config1) as [zip_keys |] eqn:Hz.
  - assert (Hinv : finalize_inv config1 config1) by (intros k; left; reflexivity).
    destruct (finalize_groups config1 _ _ _ Hinv Hf) as [Hinv' _].
    destruct (finalize_ziplist_single_valued _ _ _ Hf) as [Hkeep Hgroups].
    rewrite (Hsecond config' (Hkeep _ Hdocker1)). cbn [bind].
    destruct (lookup "zip_keys" config') as [zip_keys' |] eqn:Hz'; [| reflexivity].
    apply finalize_ziplist_settled. intros zl Hin Hd.
    apply Hgroups; [| exact Hd].
    destruct (Hinv' "zip_keys") as [Hsame | [y [Hy Hl]]].
    + rewrite Hz, Hz' in Hsame. inversion Hsame; subst. exact Hin.
    + rewrite Hz' in Hl. inversion Hl; subst zip_keys'.
      destruct Hin as [<- | []].
      apply top_value_lookup in Hy. destruct Hy as [c [Hc Hy]].
      rewrite Hz in Hc. inversion Hc; subst c. apply index_value_first, Hy.
  - inversion Hf; subst config'. rewrite (Hsecond config1 Hdocker1). cbn [bind].
    rewrite Hz. reflexivity.
Qed.

Lemma finalize_config_idempotent_witness :
  exists config',
    finalize_config docker_zip_config "linux" "64" linux_forge_config = Ok config'
    /\ finalize_config config' "linux" "64" linux_forge_config = Ok config'.
Proof.
  eexists. split; [reflexivity |].
  apply (finalize_config_idempotent docker_zip_config "linux" "64" linux_forge_config).
  reflexivity.
Defined.

Lemma truncate_key_keys (cfg cfg' : dict) (k : string) :
  truncate_key cfg k = Ok cfg' -> map fst cfg' = map fst cfg.
Proof.
  intros Ht. apply truncate_key_ok in Ht. destruct Ht as [x [Hx ->]].
  apply keys_setitem_present. apply lookup_In_keys.
  apply top_value_lookup in Hx. destruct Hx as [c [Hc _]]. rewrite Hc. discriminate.
Qed.

Lemma finalize_step_keys (keys : list value) (cfg cfg' : dict) :
  foldM finalize_step keys cfg = Ok cfg' -> map fst cfg' = map fst cfg.
Proof.
  revert cfg; induction keys as [| key r IH]; simpl; intros cfg Hf.
  - inversion Hf; reflexivity.
  - inv_bind Hf. rewrite (IH _ Hf). unfold finalize_step in Ha.
    destruct (py_eqb key (VStr "docker_image")); [inversion Ha; reflexivity |].
    inv_bind Ha. apply (truncate_key_keys _ _ _ Ha).
Qed.

Lemma finalize_ziplist_keys (ziplists : list value) (cfg cfg' : dict) :
  foldM finalize_ziplist ziplists cfg = Ok cfg' -> map fst cfg' = map fst cfg.
Proof.
  revert cfg; induction ziplists as [| z r IH]; simpl; intros cfg Hf.
  - inversion Hf; reflexivity.
  - inv_bind Hf. rewrite (IH _ Hf). unfold finalize_ziplist in Ha.
    destruct (key_in "docker_image" z); [| inversion Ha; reflexivity].
    apply (finalize_step_keys _ _ _ Ha).
Qed.

(** X7. [finalize_config] drops no key and keeps the keys in their order.
    On a build platform whose name starts with [linux] the one key it can
    add is [docker_image], at the end, when the config had none; on any
    other build platform it returns the config as it is. *)
Theorem finalize_config_keeps_keys (config : dict) (platform arch : string)
  (forge_config : dict) (build_platform : string) (config' : dict) :
  build_platform_of forge_config platform arch = Ok (VStr build_platform) ->
  finalize_config config platform arch forge_config = Ok config' ->
  (prefix "linux" build_platform = false -> config' = config)
  /\ (prefix "linux" build_platform = true ->
      map fst config'
      = map fst config ++ (if contains "docker_image" config then [] else ["docker_image"])).
Proof.
  intros Hbp Hf. split; intros Hlinux.
  - rewrite (finalize_config_other_platform _ _ _ _ _ Hbp Hlinux) in Hf.
    inversion Hf; reflexivity.
  - rewrite (finalize_config_unfold config _ _ _ _ Hbp Hlinux) in Hf.
    inv_bind Hf. rename a into config1.
    assert (H1 : map fst config1
                 = map fst config
                   ++ (if contains "docker_image" config then [] else ["docker_image"])).
    { destruct (contains "docker_image" config) eqn:Hc.
      - rewrite app_nil_r. apply (truncate_key_keys _ _ _ Ha).
      - inv_bind Ha. inversion Ha; subst config1. apply keys_setitem_absent.
        intros Hin. apply contains_true in Hin. congruence. }
    rewrite <- H1. destruct (lookup "zip_keys" config1) as [zip_keys |].
    + apply (finalize_ziplist_keys _ _ _ Hf).
    + inversion Hf; reflexivity.
Qed.

Lemma finalize_config_keeps_keys_witness :
  exists config',
    finalize_config docker_zip_config "linux" "64" linux_forge_config = Ok config'
    /\ map fst config' = ["python"; "docker_image"; "numpy"; "zip_keys"].
Proof.
  eexists. split; [reflexivity |].
  apply (finalize_config_keeps_keys docker_zip_config "linux" "64" linux_forge_config
           "linux_64" _ eq_refl eq_refl).
  reflexivity.
Defined.

(** X8. On a build platform whose name starts with [linux],
    [finalize_config] returns exactly when the values it reads are there:
    [docker_image] holds a first element, or is absent and the fallback
    image is configured, and every member of a [zip_keys] group that
    contains [docker_image] is a name under which the config holds a first
    element. Otherwise it raises. *)
Theorem finalize_config_returns_iff_ready (config : dict) (platform arch : string)
  (forge_config : dict) (build_platform : string) :
  build_platform_of forge_config platform arch = Ok (VStr build_platform) ->
  prefix "linux" build_platform = true ->
  (exists config', finalize_config config platform arch forge_config = Ok config')
  <-> finalize_ready config forge_config.
Proof.
  intros Hbp Hlinux. split; [| apply (finalize_config_total _ _ _ _ _ Hbp Hlinux)].
  intros [config' Hf].
  rewrite (finalize_config_unfold config _ _ _ _ Hbp Hlinux) in Hf.
  inv_bind Hf. rename a into config1.
  destruct (finalize_docker_image _ _ _ Ha) as [[x [Hdi Hx]] Hother].
  split.
  - destruct (contains "docker_image" config); exists x; exact Hx.
  - intros zip_keys ziplist key Hz Hin Hd Hkey.
    assert (Hz1 : lookup "zip_keys" config1 = Some zip_keys)
      by (rewrite Hother by discriminate; exact Hz).
    rewrite Hz1 in Hf.
    assert (Hinv : finalize_inv config1 config1) by (intros k; left; reflexivity).
    destruct (finalize_groups config1 _ _ _ Hinv Hf) as [_ [Htrunc _]].
    destruct (finalize_ziplist_single_valued _ _ _ Hf) as [_ Hgroups].
    destruct (Hgroups ziplist Hin Hd key Hkey) as [-> | [k [-> _]]].
    + exists "docker_image". split; [reflexivity | left; reflexivity].
    + exists k. split; [reflexivity |].
      destruct (string_dec k "docker_image") as [-> | Hne]; [left; reflexivity | right].
      destruct (Htrunc k ziplist Hne Hin Hd Hkey) as [y [Hy _]].
      exists y. rewrite <- Hy. apply top_value_same_lookup. symmetry. apply Hother, Hne.
Qed.

Lemma finalize_config_returns_iff_ready_witness :
  (exists config',
      finalize_config docker_zip_config "linux" "64" linux_forge_config = Ok config')
  <-> finalize_ready docker_zip_config linux_forge_config.
Proof.
  apply (finalize_config_returns_iff_ready docker_zip_config "linux" "64"
           linux_forge_config "linux_64"); reflexivity.
Defined.

(** A member of the [docker_image] group that the config does not hold
    makes [finalize_config] raise. *)
Example finalize_config_missing_member :
  finalize_config [("docker_image", strings ["a"; "b"]);
                   ("zip_keys", groups_value [["docker_image"; "cdt_name"]])]
                  "linux" "64" linux_forge_config
  = Raise KeyError.
Proof. reflexivity. Qed.

(** ** The mapping of a migrations directory, once more *)

Lemma length_setitem {K V : Type} `{EqDec K} (k : K) (v : V) (d : list (K * V)) :
  length (setitem k v d) <= S (length d).
Proof.
  induction d as [| [k0 v0] r IH]; simpl; [lia |].
  destruct (eq_dec k k0); simpl; lia.
Qed.

Lemma migrations_length (files : list mfile) :
  forall fresh res res',
    get_migrations_in_dir_from fresh files res = Ok res' ->
    length res' <= length res + length files.
Proof.
  induction files as [| f r IH]; simpl; intros fresh res res' Hg.
  - inversion Hg; subst. lia.
  - inv_bind Hg. apply IH in Hg.
    assert (Hs := length_setitem (migration_ts_key fresh (fst a)) (snd a) res). lia.
Qed.

Lemma migrations_readable (files : list mfile) :
  forall fresh res res',
    get_migrations_in_dir_from fresh files res = Ok res' -> readable files.
Proof.
  induction files as [| f r IH]; simpl; intros fresh res res' Hg h Hh; [destruct Hh |].
  inv_bind Hg. destruct Hh as [<- | Hh].
  - exists a. exact Ha.
  - apply (IH _ _ _ Hg h Hh).
Qed.

(** X9. [get_migrations_in_dir] returns exactly when every file of the
    directory loads as a migration. The mapping it returns has at most one
    entry per file, every entry was read from a file of the directory, and
    a file is left out only when a later file carries its timestamp: a file
    without timestamp always has its entry. *)
Theorem migrations_directory_accounted (fresh : nat) (files : list mfile) :
  ((exists res, get_migrations_in_dir fresh files = Ok res) <-> readable files)
  /\ forall res,
       get_migrations_in_dir fresh files = Ok res ->
       NoDup (map fst res)
       /\ length res <= length files
       /\ (forall k e, In (k, e) res ->
             exists f ts, In f files /\ read_migration f = Ok (ts, e))
       /\ (forall pre f post ts e,
             files = pre ++ f :: post ->
             read_migration f = Ok (ts, e) ->
             (forall s, ts = Some s -> forall h, In h post -> ~ has_ts h s) ->
             exists k, lookup k res = Some e).
Proof.
  unfold get_migrations_in_dir. split.
  - split.
    + intros [res Hg]. apply (migrations_readable _ _ _ _ Hg).
    + intros Hr. apply (migrations_total files Hr).
  - intros res Hg. split; [| split; [| split]].
    + apply (migrations_keys_NoDup _ _ _ _ Hg). constructor.
    + apply migrations_length in Hg. simpl in Hg. exact Hg.
    + intros k e Hin.
      destruct (migrations_origin _ _ _ _ _ _ Hg Hin) as [[] | [f [ts [Hf [Hr _]]]]].
      exists f, ts. auto.
    + intros pre f post ts e -> Hr Hlast. destruct ts as [s |].
      * exists (TsVal s). apply (migrations_lookup_last s pre post f e _ _ _ Hg Hr).
        apply Hlast. reflexivity.
      * exists (TsObject (fresh + length pre)).
        apply (migrations_lookup_untimed pre post f e _ _ _ Hg Hr).
Qed.

(** A directory with a file whose document is a list cannot be read. *)
Example migrations_directory_unreadable :
  get_migrations_in_dir 0 [feedstock_a; mk_mfile "feedstock/e.yaml" (Some (strings ["x"]))]
  = Raise AttributeError.
Proof. reflexivity. Qed.

(** ** [set_migration_fns], once more *)

Lemma kept_or_dropped (migrations_in_cfp : list (ts_key * mig_entry))
  (item : ts_key * mig_entry) :
  (exists fn, kept_path migrations_in_cfp item = Some fn
              /\ dropped_path migrations_in_cfp item = None)
  \/ (kept_path migrations_in_cfp item = None
      /\ dropped_path migrations_in_cfp item = Some (entry_path (snd item))
      /\ is_timestamp (fst item) = true).
Proof.
  destruct item as [ts [[fn num] use_local]]. unfold kept_path, dropped_path.
  destruct (use_local || negb (is_timestamp ts)) eqn:Hu; [left; eexists; eauto |].
  destruct (lookup ts migrations_in_cfp) as [[[new_fn new_num] u] |].
  - left. destruct (num_eqb num new_num); eexists; eauto.
  - right. repeat split. apply orb_false_iff in Hu. destruct Hu as [_ Hu].
    simpl. destruct (is_timestamp ts); [reflexivity | discriminate].
Qed.

Lemma selected_lengths (migrations_in_cfp items : list (ts_key * mig_entry)) :
  forall acc,
    length (migration_fns (fold_left (select_migration migrations_in_cfp) items acc))
    + length (removed_files (fold_left (select_migration migrations_in_cfp) items acc))
    = length (migration_fns acc) + length (removed_files acc) + length items.
Proof.
  induction items as [| item r IH]; simpl; intros acc; [lia |].
  rewrite IH, select_migration_paths. simpl. rewrite !length_app.
  destruct (kept_or_dropped migrations_in_cfp item) as [[fn [-> ->]] | [-> [-> _]]];
    simpl; lia.
Qed.

Lemma Forall2_weaken_In {A B : Type} (R R' : A -> B -> Prop) (l : list A) (l' : list B) :
  (forall a b, In a l -> R a b -> R' a b) -> Forall2 R l l' -> Forall2 R' l l'.
Proof.
  intros Himp HF. induction HF as [| a b l l' Hab _ IH]; constructor.
  - apply Himp; [left; reflexivity | exact Hab].
  - apply IH. intros a' b' Ha'. apply Himp. right; exact Ha'.
Qed.

Lemma Forall2_map_same {A B : Type} (f : A -> B) (l : list A) :
  Forall2 (fun x y => y = f x) l (map f l).
Proof. induction l; simpl; constructor; auto. Qed.

(** The loop of [set_migration_fns] splits the entries: each either adds
    one path to [migration_fns] or has its own file removed. *)
Lemma selected_split (migrations_in_cfp items : list (ts_key * mig_entry)) :
  forall acc,
    exists kept dropped listed,
      Permutation items (kept ++ dropped)
      /\ migration_fns (fold_left (select_migration migrations_in_cfp) items acc)
         = migration_fns acc ++ listed
      /\ Forall2 (fun item fn => kept_path migrations_in_cfp item = Some fn) kept listed
      /\ removed_files (fold_left (select_migration migrations_in_cfp) items acc)
         = removed_files acc ++ map (fun item => entry_path (snd item)) dropped.
Proof.
  induction items as [| item r IH]; intros acc.
  - exists [], [], []. simpl. rewrite !app_nil_r. repeat split; constructor.
  - cbn [fold_left]. rewrite select_migration_paths.
    destruct (IH (mk_outcome
                    (migration_fns acc ++ match kept_path migrations_in_cfp item with
                                          | Some fn => [fn]
                                          | None => []
                                          end)
                    (removed_files acc ++ match dropped_path migrations_in_cfp item with
                                          | Some fn => [fn]
                                          | None => []
                                          end)))
      as [kept [dropped [listed [Hp [Hfns [HF Hrem]]]]]].
    rewrite Hfns, Hrem. cbn [migration_fns removed_files].
    destruct (kept_or_dropped migrations_in_cfp item) as [[fn [Hk Hd]] | [Hk [Hd _]]];
      rewrite Hk, Hd.
    + exists (item :: kept), dropped, (fn :: listed). split; [| split; [| split]].
      * simpl. apply perm_skip, Hp.
      * rewrite <- app_assoc. reflexivity.
      * constructor; [exact Hk | exact HF].
      * rewrite app_nil_r. reflexivity.
    + exists kept, (item :: dropped), listed. split; [| split; [| split]].
      * apply Permutation_cons_app, Hp.
      * rewrite app_nil_r. reflexivity.
      * exact HF.
      * rewrite <- app_assoc. reflexivity.
Qed.

(** X10. [set_migration_fns] accounts for every entry of the mapping of
    the feedstock directory exactly once: the entries split into those
    kept and those dropped, every kept entry gives one path of
    [migration_fns], its own or the path the shared mapping holds under its
    timestamp, one path for one entry, and the removed files are the files of the dropped
    entries. Only feedstock files are removed, every listed path is the
    path of a file of the feedstock or of the shared directory, and, when
    the paths are distinct, no removed file is listed. Without a shared
    directory nothing is removed. *)
Theorem set_migration_fns_accounts_for_entries (feedstock : list mfile)
  (cfp : option (list mfile)) (out : migration_outcome) :
  set_migration_fns feedstock cfp = Ok out ->
  exists migrations_in_feedstock kept dropped,
    get_migrations_in_dir 0 feedstock = Ok migrations_in_feedstock
    /\ Permutation migrations_in_feedstock (kept ++ dropped)
    /\ Forall2 (fun item fn =>
                  fn = entry_path (snd item)
                  \/ exists cfp_files migrations_in_cfp shared,
                       cfp = Some cfp_files
                       /\ get_migrations_in_dir (length feedstock) cfp_files
                          = Ok migrations_in_cfp
                       /\ lookup (fst item) migrations_in_cfp = Some shared
                       /\ fn = entry_path shared)
               kept (migration_fns out)
    /\ removed_files out = map (fun item => entry_path (snd item)) dropped
    /\ length (migration_fns out) + length (removed_files out)
       = length migrations_in_feedstock
    /\ (forall fn, In fn (removed_files out) -> In fn (map mf_path feedstock))
    /\ (forall fn, In fn (migration_fns out) ->
          In fn (map mf_path feedstock)
          \/ exists cfp_files, cfp = Some cfp_files /\ In fn (map mf_path cfp_files))
    /\ (cfp = None -> removed_files out = [])
    /\ (NoDup (map mf_path feedstock) ->
        (forall cfp_files fn, cfp = Some cfp_files -> In fn (map mf_path feedstock) ->
                              ~ In fn (map mf_path cfp_files)) ->
        forall fn, In fn (removed_files out) -> ~ In fn (migration_fns out)).
Proof.
  intros Hs. destruct cfp as [cfp_files |].
  - destruct (set_migration_fns_shared _ _ _ Hs) as [mf [mc [Hmf [Hmc [Hfns Hrem]]]]].
    assert (Hkept : forall item fn, In item mf -> kept_path mc item = Some fn ->
              fn = entry_path (snd item)
              \/ In fn (map mf_path cfp_files)).
    { intros [ts [[fn0 num] u]] fn Hitem Hk. unfold kept_path in Hk.
      destruct (u || negb (is_timestamp ts)); [inversion Hk; left; reflexivity |].
      destruct (lookup ts mc) as [[[new_fn new_num] u'] |] eqn:Hl; [| discriminate].
      destruct (num_eqb num new_num); inversion Hk; subst; [right | left; reflexivity].
      apply lookup_In in Hl.
      apply (entry_path_in_directory _ _ _ _ _ Hmc Hl). }
    assert (Hdropped : forall item fn, dropped_path mc item = Some fn ->
              fn = entry_path (snd item) /\ is_timestamp (fst item) = true).
    { intros item fn Hd.
      destruct (kept_or_dropped mc item) as [[fn' [_ Hn]] | [_ [Hd' Ht]]]; [congruence |].
      rewrite Hd in Hd'. inversion Hd'. auto. }
    assert (Hout : out = fold_left (select_migration mc) mf (mk_outcome [] [])).
    { unfold set_migration_fns in Hs. rewrite Hmf, Hmc in Hs. cbn [bind] in Hs.
      inversion Hs; reflexivity. }
    destruct (selected_split mc mf (mk_outcome [] []))
      as [kept [dropped [listed [Hp [Hlisted [HF Hremoved]]]]]].
    rewrite <- Hout in Hlisted, Hremoved. cbn [migration_fns removed_files app] in *.
    exists mf, kept, dropped. split; [exact Hmf |]. split; [exact Hp |].
    split; [| split; [exact Hremoved |]].
    { rewrite Hlisted.
      apply (Forall2_weaken_In (fun item fn => kept_path mc item = Some fn)); [| exact HF].
      intros item fn Hin Hk.
      assert (Hitem : In item mf).
      { apply (Permutation_in _ (Permutation_sym Hp)). apply in_or_app. left; exact Hin. }
      destruct item as [ts [[fn0 num] u]]. unfold kept_path in Hk.
      destruct (u || negb (is_timestamp ts)); [inversion Hk; left; reflexivity |].
      destruct (lookup ts mc) as [[[new_fn new_num] u'] |] eqn:Hl; [| discriminate].
      destruct (num_eqb num new_num); inversion Hk; subst; [right | left; reflexivity].
      exists cfp_files, mc, (fn, new_num, u'). auto. }
    split; [| split; [| split; [| split]]].
    + rewrite Hout, selected_lengths. reflexivity.
    + intros fn Hin. apply Hrem in Hin. destruct Hin as [[k e] [Hitem Hd]].
      destruct (Hdropped _ _ Hd) as [-> _].
      apply (entry_path_in_directory _ _ _ _ _ Hmf Hitem).
    + intros fn Hin. apply Hfns in Hin. destruct Hin as [[k e] [Hitem Hk]].
      destruct (Hkept _ _ Hitem Hk) as [-> | Hc].
      * left. apply (entry_path_in_directory _ _ _ _ _ Hmf Hitem).
      * right. exists cfp_files. auto.
    + discriminate.
    + intros Hnd Hapart fn Hr Hl.
      apply Hrem in Hr. destruct Hr as [[k e] [Hitem Hd]].
      apply Hfns in Hl. destruct Hl as [[k' e'] [Hitem' Hk]].
      destruct (Hdropped _ _ Hd) as [Hfn Hts]. cbn [fst snd] in Hfn, Hts.
      assert (Hfeed : In fn (map mf_path feedstock))
        by (rewrite Hfn; apply (entry_path_in_directory _ _ _ _ _ Hmf Hitem)).
      destruct (Hkept _ _ Hitem' Hk) as [Hfn' | Hc];
        [| apply (Hapart cfp_files fn eq_refl Hfeed Hc)].
      cbn [snd] in Hfn'.
      destruct (migrations_origin _ _ _ _ _ _ Hmf Hitem)
        as [[] | [f [ts [Hf [Hread [Hsome Hnone]]]]]].
      assert (Hpath : entry_path e' = mf_path f).
      { rewrite <- Hfn', Hfn. apply (read_migration_path _ _ _ Hread). }
      destruct (entry_of_path _ _ _ _ _ _ Hmf Hnd Hf Hread k' e' Hitem' Hpath)
        as [-> [Hsome' Hnone']].
      assert (Hkk : k' = k).
      { destruct ts as [s |].
        - rewrite (Hsome s eq_refl), (Hsome' s eq_refl). reflexivity.
        - rewrite (Hnone eq_refl) in Hts. discriminate. }
      subst k'.
      destruct (kept_or_dropped mc (k, e)) as [[fn' [_ Hn]] | [Hn _]]; congruence.
  - unfold set_migration_fns in Hs. inv_bind Hs. inversion Hs; subst out.
    exists a, a, []. split; [exact Ha |]. cbn [migration_fns removed_files].
    split; [rewrite app_nil_r; apply Permutation_refl |].
    split.
    { apply (Forall2_weaken_In (fun item fn => fn = entry_path (snd item)));
        [intros item fn _ ->; left; reflexivity |].
      apply (Forall2_map_same (fun item : ts_key * mig_entry => entry_path (snd item))). }
    split; [reflexivity |].
    split; [rewrite length_map; simpl; rewrite Nat.add_0_r; reflexivity |].
    split; [intros fn [] |]. split; [| split; [reflexivity | intros _ _ fn []]].
    intros fn Hin. left. apply in_map_iff in Hin. destruct Hin as [[k e] [<- Hitem]].
    apply (entry_path_in_directory _ _ _ _ _ Ha Hitem).
Qed.

Lemma set_migration_fns_accounts_for_entries_witness :
  exists out,
    set_migration_fns [feedstock_a; feedstock_b; feedstock_c; feedstock_untimed]
                      (Some [shared_a]) = Ok out
    /\ migration_fns out = ["shared/a.yaml"; "feedstock/b.yaml"; "feedstock/d.yaml"]
    /\ removed_files out = ["feedstock/c.yaml"]
    /\ forall fn, In fn (removed_files out) -> ~ In fn (migration_fns out).
Proof.
  eexists. split; [reflexivity |]. split; [reflexivity |]. split; [reflexivity |].
  destruct (set_migration_fns_accounts_for_entries
              [feedstock_a; feedstock_b; feedstock_c; feedstock_untimed]
              (Some [shared_a]) _ eq_refl)
    as [mf [kept [dropped [_ [_ [_ [_ [_ [_ [_ [_ Hapart]]]]]]]]]]].
  apply Hapart.
  - repeat constructor; simpl; intuition discriminate.
  - intros cfp_files fn Hc Hin. inversion Hc; subst cfp_files. simpl in *.
    intuition (subst; discriminate).
Defined.

(** ** Ascending strings *)

Lemma sort_strings_sorted (l : list string) : StronglySorted string_le (sort_strings l).
Proof.
  apply (sort_pure_StronglySorted String.ltb string_le).
  - intros a b. apply string_ltb_leb.
  - intros a b. apply String.leb_total.
  - intros a b c. apply string_leb_trans.
Qed.

Lemma sort_strings_perm (l : list string) : Permutation l (sort_strings l).
Proof. apply sort_pure_perm. Qed.

(** The ascending arrangement of a collection of strings does not depend
    on the order in which the collection is listed. *)
Lemma sort_strings_of_permutation (l l' : list string) :
  Permutation l l' -> sort_strings l = sort_strings l'.
Proof.
  intros Hp. apply (StronglySorted_unique string_le).
  - intros a b _ _. apply String.leb_antisym.
  - apply sort_strings_sorted.
  - apply sort_strings_sorted.
  - eapply perm_trans; [apply Permutation_sym, sort_strings_perm |].
    eapply perm_trans; [exact Hp | apply sort_strings_perm].
Qed.

(** ** [package_key], once more *)

(** X12. [package_key] is a function of the set of loop variables: the
    order in which the set is iterated does not change the key, and
    [target_platform] in the set makes no difference. The function returns
    exactly when every other variable of the set is a key of the config
    under which the config holds a first element. *)
Theorem package_key_of_a_set (repr : value -> string) (config : dict)
  (used_loop_vars : list string) :
  (forall listed, Permutation used_loop_vars listed ->
                  package_key repr config listed = package_key repr config used_loop_vars)
  /\ package_key repr config
       (filter (fun k => negb (String.eqb k "target_platform")) used_loop_vars)
     = package_key repr config used_loop_vars
  /\ ((exists name, package_key repr config used_loop_vars = Ok name)
      <-> forall k, In k used_loop_vars -> k <> "target_platform" ->
                    exists v, top_value config k = Some v).
Proof.
  split; [| split].
  - intros listed Hp. unfold package_key.
    rewrite (sort_strings_of_permutation _ _ Hp). reflexivity.
  - unfold package_key. f_equal. f_equal.
    set (keep := fun k => negb (String.eqb k "target_platform")).
    assert (Hsorted : sort_strings (filter keep used_loop_vars)
                      = filter keep (sort_strings used_loop_vars)).
    { apply (StronglySorted_unique string_le).
      - intros a b _ _. apply String.leb_antisym.
      - apply sort_strings_sorted.
      - assert (Hs := sort_strings_sorted used_loop_vars).
        induction Hs as [| a l Hl IH Ha]; simpl; [constructor |].
        destruct (keep a); [| exact IH]. constructor; [exact IH |].
        apply Forall_forall. intros x Hx. apply filter_In in Hx.
        rewrite Forall_forall in Ha. apply Ha, Hx.
      - eapply perm_trans; [apply Permutation_sym, sort_strings_perm |].
        clear. assert (Hp := sort_strings_perm used_loop_vars).
        induction Hp as [| x l l' Hp IH | x y l | l l' l'' Hp1 IH1 Hp2 IH2]; simpl.
        + constructor.
        + destruct (keep x); [apply perm_skip |]; exact IH.
        + destruct (keep x), (keep y); try apply Permutation_refl. apply perm_swap.
        + eapply perm_trans; eauto. }
    rewrite Hsorted. apply filter_twice.
  - split.
    + intros [name Hn] k Hk Hne. unfold package_key in Hn. inv_bind Hn.
      apply mapM_ok_Forall2 in Ha.
      assert (Hin : In k (filter (fun k => negb (String.eqb k "target_platform"))
                                 (sort_strings used_loop_vars))).
      { apply filter_In. split; [apply sort_strings_In, Hk |].
        apply negb_true_iff, String.eqb_neq, Hne. }
      destruct (Forall2_In_l _ _ _ _ Ha Hin) as [part [_ Hpart]].
      cbn beta in Hpart. unfold getitem in Hpart.
      destruct (lookup k config) as [c |] eqn:Hc; cbn [bind] in Hpart; [| discriminate].
      destruct (index_value c 0) as [x | e] eqn:Hx; cbn [bind] in Hpart; [| discriminate].
      exists x. apply top_value_lookup. exists c. auto.
    + intros Hres. unfold package_key. eexists.
      rewrite package_key_parts; [reflexivity |].
      intros k Hk. apply filter_In in Hk. destruct Hk as [Hk Hne].
      apply (proj1 (sort_strings_In _ _)) in Hk. apply Hres; [exact Hk |].
      intros ->. discriminate.
Qed.

(** ** Sorting with comparisons that do not raise *)

Section SortedByPure.
Context {A : Type} (lt : A -> A -> result bool) (ltb : A -> A -> bool).

Lemma insert_by_pure (x : A) (l : list A) :
  (forall y, In y l -> lt y x = Ok (ltb y x)) ->
  insert_by lt x l = Ok (insert_pure ltb x l).
Proof.
  induction l as [| y r IH]; simpl; intros Hlt; [reflexivity |].
  rewrite (Hlt y (or_introl eq_refl)). cbn [bind].
  destruct (ltb y x); [| reflexivity].
  rewrite IH by (intros z Hz; apply Hlt; right; exact Hz). reflexivity.
Qed.

Lemma sorted_by_pure (l : list A) :
  (forall a b, In a l -> In b l -> lt a b = Ok (ltb a b)) ->
  sorted_by lt l = Ok (sort_pure ltb l).
Proof.
  induction l as [| x r IH]; simpl; intros Hlt; [reflexivity |].
  rewrite IH by (intros a b Ha Hb; apply Hlt; right; assumption). cbn [bind].
  apply insert_by_pure. intros y Hy. apply Hlt; [right | left; reflexivity].
  eapply Permutation_in; [apply Permutation_sym, sort_pure_perm | exact Hy].
Qed.
End SortedByPure.

Lemma insert_pure_map {A B : Type} (f : A -> B) (ltb : A -> A -> bool)
  (ltb' : B -> B -> bool) (x : A) (l : list A) :
  (forall a b, ltb' (f a) (f b) = ltb a b) ->
  insert_pure ltb' (f x) (map f l) = map f (insert_pure ltb x l).
Proof.
  intros Hf. induction l as [| y r IH]; simpl; [reflexivity |].
  rewrite Hf. destruct (ltb y x); simpl; [rewrite IH |]; reflexivity.
Qed.

Lemma sort_pure_map {A B : Type} (f : A -> B) (ltb : A -> A -> bool)
  (ltb' : B -> B -> bool) (l : list A) :
  (forall a b, ltb' (f a) (f b) = ltb a b) ->
  sort_pure ltb' (map f l) = map f (sort_pure ltb l).
Proof.
  intros Hf. induction l as [| x r IH]; simpl; [reflexivity |].
  rewrite IH. apply insert_pure_map, Hf.
Qed.

Lemma sort_pure_ext {A : Type} (ltb ltb' : A -> A -> bool) (l : list A) :
  (forall a b, In a l -> In b l -> ltb a b = ltb' a b) ->
  sort_pure ltb l = sort_pure ltb' l.
Proof.
  induction l as [| x r IH]; simpl; intros He; [reflexivity |].
  rewrite <- IH by (intros a b Ha Hb; apply He; right; assumption).
  assert (Hin : forall y, In y (sort_pure ltb r) -> In y r).
  { intros y Hy. eapply Permutation_in; [apply Permutation_sym, sort_pure_perm | exact Hy]. }
  revert Hin. generalize (sort_pure ltb r) as s.
  induction s as [| y s IHs]; simpl; intros Hin; [reflexivity |].
  rewrite <- (He y x) by (auto using in_eq).
  destruct (ltb y x); [| reflexivity].
  rewrite IHs; [reflexivity |]. intros z Hz. apply Hin. right; exact Hz.
Qed.

(** [sorted] on a list of strings is the ascending arrangement. *)
Lemma sorted_strings (l : list string) :
  sorted (map VStr l) = Ok (map VStr (sort_strings l)).
Proof.
  unfold sorted.
  rewrite (sorted_by_pure py_lt (fun a b => match py_lt a b with
                                            | Ok r => r
                                            | Raise _ => false
                                            end)).
  - f_equal. apply sort_pure_map. reflexivity.
  - intros a b Ha Hb. apply in_map_iff in Ha, Hb.
    destruct Ha as [s [<- _]], Hb as [t [<- _]]. reflexivity.
Qed.

(** ** The order of tuples of strings *)

Lemma py_lt_strings (a b : list string) :
  py_lt (strings a) (strings b) = Ok (lex_ltb a b).
Proof.
  unfold strings. revert b; induction a as [| x xs IH]; intros [| y ys]; simpl;
    try reflexivity.
  destruct (String.eqb x y); [| reflexivity]. specialize (IH ys). simpl in IH. exact IH.
Qed.

Lemma lex_ltb_compare (a b : list string) :
  lex_ltb a b = match lex_compare a b with Lt => true | _ => false end.
Proof.
  revert b; induction a as [| x xs IH]; intros [| y ys]; simpl; try reflexivity.
  destruct (String.eqb x y) eqn:He.
  - apply String.eqb_eq in He. subst y. rewrite string_compare_refl. apply IH.
  - unfold String.ltb. destruct (String.compare x y) eqn:Hc; try reflexivity.
    apply String.compare_eq_iff in Hc. apply String.eqb_neq in He. contradiction.
Qed.

Lemma lex_compare_antisym (a b : list string) :
  lex_compare b a = CompOpp (lex_compare a b).
Proof.
  revert b; induction a as [| x xs IH]; intros [| y ys]; simpl; try reflexivity.
  rewrite (String.compare_antisym x y).
  destruct (String.compare y x); simpl; [apply IH | reflexivity | reflexivity].
Qed.

Lemma lex_compare_eq (a b : list string) : lex_compare a b = Eq -> a = b.
Proof.
  revert b; induction a as [| x xs IH]; intros [| y ys]; simpl; try discriminate;
    [reflexivity |].
  destruct (String.compare x y) eqn:Hc; try discriminate.
  apply String.compare_eq_iff in Hc. intros Hr. rewrite (IH ys Hr), Hc. reflexivity.
Qed.

Lemma lex_compare_refl (a : list string) : lex_compare a a = Eq.
Proof.
  induction a as [| x xs IH]; simpl; [reflexivity |].
  rewrite string_compare_refl. exact IH.
Qed.

Lemma lex_compare_lt_trans (a b c : list string) :
  lex_compare a b = Lt -> lex_compare b c = Lt -> lex_compare a c = Lt.
Proof.
  revert b c; induction a as [| x xs IH]; intros [| y ys] [| z zs]; simpl;
    try discriminate; try reflexivity.
  destruct (String.compare x y) eqn:Hxy; try discriminate;
    destruct (String.compare y z) eqn:Hyz; try discriminate; intros Hab Hbc.
  - apply String.compare_eq_iff in Hxy, Hyz. subst. rewrite string_compare_refl.
    eapply IH; eauto.
  - apply String.compare_eq_iff in Hxy. subst. rewrite Hyz. reflexivity.
  - apply String.compare_eq_iff in Hyz. subst. rewrite Hxy. reflexivity.
  - rewrite (string_compare_lt_trans _ _ _ Hxy Hyz). reflexivity.
Qed.

Lemma lex_le_compare (a b : list string) : lex_le a b <-> lex_compare a b <> Gt.
Proof.
  unfold lex_le. rewrite lex_ltb_compare, (lex_compare_antisym a b).
  destruct (lex_compare a b); simpl; split; intros Hx; congruence.
Qed.

Lemma lex_le_trans (a b c : list string) : lex_le a b -> lex_le b c -> lex_le a c.
Proof.
  rewrite !lex_le_compare. intros Hab Hbc.
  destruct (lex_compare a b) eqn:Eab; [| | congruence].
  - apply lex_compare_eq in Eab. subst. exact Hbc.
  - destruct (lex_compare b c) eqn:Ebc; [| | congruence].
    + apply lex_compare_eq in Ebc. subst. rewrite Eab. discriminate.
    + rewrite (lex_compare_lt_trans _ _ _ Eab Ebc). discriminate.
Qed.

Lemma lex_ltb_asym (a b : list string) : lex_ltb a b = true -> lex_ltb b a = false.
Proof.
  rewrite !lex_ltb_compare, (lex_compare_antisym a b).
  destruct (lex_compare a b); simpl; congruence.
Qed.

Lemma lex_le_antisym (a b : list string) : lex_le a b -> lex_le b a -> a = b.
Proof.
  rewrite !lex_le_compare, (lex_compare_antisym a b).
  destruct (lex_compare a b) eqn:Hc; simpl; intros H1 H2; try congruence.
  apply lex_compare_eq, Hc.
Qed.

(** ** A stable sort of positions *)

Section StableSort.
Context {A : Type} (kltb : A -> A -> bool) (row : nat -> A).
Hypothesis kltb_asym : forall a b, kltb a b = true -> kltb b a = false.
Hypothesis kle_trans :
  forall a b c, kltb b a = false -> kltb c b = false -> kltb c a = false.

Lemma stably_before_trans (i j k : nat) :
  stably_before kltb row i j -> stably_before kltb row j k -> stably_before kltb row i k.
Proof.
  unfold stably_before. intros [Hij Hij'] [Hjk Hjk']. split.
  - eapply kle_trans; eauto.
  - intros Hki.
    assert (Hkj : kltb (row j) (row k) = false) by (eapply kle_trans; eauto).
    assert (Hji : kltb (row i) (row j) = false) by (eapply kle_trans; eauto).
    specialize (Hij' Hji). specialize (Hjk' Hkj). lia.
Qed.

Lemma insert_pure_stable (x : nat) (l : list nat) :
  (forall y, In y l -> x < y) ->
  StronglySorted (stably_before kltb row) l ->
  StronglySorted (stably_before kltb row)
                 (insert_pure (fun i j => kltb (row i) (row j)) x l).
Proof.
  induction l as [| y r IH]; simpl; intros Hlt Hs.
  - repeat constructor.
  - inversion Hs as [| ? ? Hr Hy]; subst.
    destruct (kltb (row y) (row x)) eqn:Hyx.
    + constructor; [apply IH; auto |].
      apply Forall_forall. intros z Hz.
      eapply Permutation_in in Hz; [| apply Permutation_sym, insert_pure_perm].
      destruct Hz as [<- | Hz].
      * split; [apply kltb_asym, Hyx | congruence].
      * rewrite Forall_forall in Hy. apply Hy, Hz.
    + assert (Hxy : stably_before kltb row x y).
      { split; [exact Hyx | intros _; apply Hlt; left; reflexivity]. }
      constructor; [exact Hs |]. constructor; [exact Hxy |].
      apply Forall_forall. intros z Hz. rewrite Forall_forall in Hy.
      eapply stably_before_trans; [exact Hxy | apply Hy, Hz].
Qed.

Lemma sort_pure_stable (a n : nat) :
  StronglySorted (stably_before kltb row)
                 (sort_pure (fun i j => kltb (row i) (row j)) (seq a n)).
Proof.
  revert a; induction n as [| n IH]; intros a; simpl; [constructor |].
  apply insert_pure_stable; [| apply IH].
  intros y Hy. eapply Permutation_in in Hy; [| apply Permutation_sym, sort_pure_perm].
  apply in_seq in Hy. lia.
Qed.
End StableSort.

(** ** [argsort] *)

Lemma argsort_strings (rows : list (list string)) :
  argsort (map strings rows)
  = Ok (sort_pure (fun i j => lex_ltb (nth i rows []) (nth j rows []))
                  (seq 0 (length rows))).
Proof.
  unfold argsort. rewrite length_map. apply sorted_by_pure.
  intros i j _ _. change (VList []) with (strings []).
  rewrite !(map_nth strings). apply py_lt_strings.
Qed.

(** X13. On rows that are tuples of strings [argsort] returns a
    rearrangement of the positions of the rows along which the rows ascend,
    equal rows keeping the order of their positions. *)
Theorem argsort_sorts_stably (rows : list (list string)) :
  exists order,
    argsort (map strings rows) = Ok order
    /\ Permutation (seq 0 (length rows)) order
    /\ StronglySorted (stably_before lex_ltb (fun i => nth i rows [])) order.
Proof.
  set (ltb := fun i j => lex_ltb (nth i rows []) (nth j rows [])).
  exists (sort_pure ltb (seq 0 (length rows))). split; [apply argsort_strings |].
  split; [apply sort_pure_perm |].
  apply (sort_pure_stable lex_ltb (fun i => nth i rows [])).
  - apply lex_ltb_asym.
  - intros a b c. apply lex_le_trans.
Qed.

(** The rows [b], [a], [b], [a] are picked in the order 1, 3, 0, 2. *)
Example argsort_ties :
  argsort [strings ["b"; "1"]; strings ["a"; "1"]; strings ["b"; "1"]; strings ["a"; "1"]]
  = Ok [1; 3; 0; 2].
Proof. reflexivity. Qed.

(** ** [sort_config], once more *)

Lemma sort_config_entries (gs : list (list string)) (c : dict) :
  sortable gs c ->
  exists so c',
    sorting_order_of c (filter (fun g => negb (is_nil g)) (map (present_members c) gs))
    = Ok so
    /\ sort_config c (groups_value gs) = Ok c'
    /\ map fst c' = map fst c
    /\ (forall k v, lookup k c = Some v ->
                    exists v', lookup k c' = Some v' /\ sort_entry so k v = Ok v')
    /\ (forall k, lookup k so <> None ->
                  exists g, In g gs /\ In k g /\ contains k c = true).
Proof.
  intros Hs. destruct (sort_config_sortable gs c Hs) as [c' [Hc' [Hkeys _]]].
  assert (Hrun := Hc'). unfold sort_config in Hc'. rewrite usable_groups_value in Hc'.
  cbn [bind] in Hc'. inv_bind Hc'. rename a into so.
  exists so, c'. split; [exact Ha |]. split; [exact Hrun |]. split; [exact Hkeys |].
  split; [apply (mapM_entries _ _ _ Hc') |].
  destruct (sorting_order_uniform c _
              (fun g Hg => proj1 (usable_groups_uniform gs c Hs g Hg)) [])
    as [so' [Hso' [_ Hdom]]]; [discriminate |].
  unfold sorting_order_of in Ha. unfold present_members in Ha. rewrite Hso' in Ha.
  inversion Ha; subst so'. intros k Hk.
  destruct (Hdom k Hk) as [H0 | [g [Hg Hin]]]; [exfalso; apply H0; reflexivity |].
  apply filter_In in Hg. destruct Hg as [Hg _]. apply in_map_iff in Hg.
  destruct Hg as [g0 [<- Hg0]]. apply filter_In in Hin. destruct Hin as [Hin Hc].
  exists g0. auto.
Qed.

Lemma sorted_groups (groups : list (list string)) :
  sorted (map (fun g => VList (map VStr g)) groups)
  = Ok (map (fun g => VList (map VStr g)) (sort_pure lex_ltb groups)).
Proof.
  unfold sorted.
  rewrite (sorted_by_pure py_lt (fun a b => match py_lt a b with
                                            | Ok r => r
                                            | Raise _ => false
                                            end)).
  - f_equal. apply (sort_pure_map (fun g => VList (map VStr g))).
    intros a b. assert (Hlt := py_lt_strings a b). unfold strings in Hlt.
    rewrite Hlt. reflexivity.
  - intros a b Ha Hb. apply in_map_iff in Ha, Hb.
    destruct Ha as [s [<- _]], Hb as [t [<- _]].
    assert (Hlt := py_lt_strings s t). unfold strings in Hlt.
    rewrite Hlt. reflexivity.
Qed.

Lemma lex_sorted (groups : list (list string)) :
  StronglySorted lex_le (sort_pure lex_ltb groups).
Proof.
  apply (sort_pure_StronglySorted lex_ltb lex_le).
  - intros a b. reflexivity.
  - intros a b. unfold lex_le. destruct (lex_ltb b a) eqn:Hb; [right | left; reflexivity].
    apply lex_ltb_asym, Hb.
  - apply lex_le_trans.
Qed.

Lemma sort_config_free_list (gs : list (list string)) (c : dict) :
  sortable gs c ->
  exists c',
    sort_config c (groups_value gs) = Ok c'
    /\ forall k l,
         lookup k c = Some (strings l) ->
         k <> "zip_keys" -> k <> "pin_run_as_build" ->
         (forall g, In g gs -> ~ In k g) ->
         lookup k c' = Some (strings (sort_strings l)).
Proof.
  intros Hs. destruct (sort_config_entries gs c Hs) as [so [c' [_ [Hrun [Hkeys [Hent Hdom]]]]]].
  exists c'. split; [exact Hrun |].
  intros k l Hk Hzip Hpin Hfree. destruct (Hent k _ Hk) as [v' [Hv' Hsort]].
  assert (Hnone : lookup k so = None).
  { destruct (lookup k so) eqn:Hl; [| reflexivity]. exfalso.
    destruct (Hdom k) as [g [Hg [Hin _]]]; [rewrite Hl; discriminate |].
    apply (Hfree g Hg Hin). }
  unfold sort_entry, strings in Hsort. rewrite Hnone, sorted_strings in Hsort.
  cbn [bind] in Hsort.
  assert (Hnot : String.eqb k "pin_run_as_build" = false) by (apply String.eqb_neq, Hpin).
  rewrite Hnot in Hsort. inversion Hsort; subst v'. exact Hv'.
Qed.

(** X14. On a sortable config [sort_config] returns a config with the same
    keys in the same order, in which the list of every variable that is in
    no zip group is the ascending arrangement of the original list, and the
    groups under [zip_keys] are in ascending order. The result does not
    depend on the order in which such a list was given. *)
Theorem sort_config_sorts_free_lists (gs : list (list string)) (c : dict) :
  sortable gs c ->
  exists c',
    sort_config c (groups_value gs) = Ok c'
    /\ map fst c' = map fst c
    /\ (forall k l,
          lookup k c = Some (strings l) ->
          k <> "zip_keys" -> k <> "pin_run_as_build" ->
          (forall g, In g gs -> ~ In k g) ->
          exists l', lookup k c' = Some (strings l')
                     /\ Permutation l l' /\ StronglySorted string_le l'
                     /\ forall listed, Permutation l listed -> sort_strings listed = l')
    /\ (forall groups,
          lookup "zip_keys" c = Some (groups_value groups) ->
          exists groups', lookup "zip_keys" c' = Some (groups_value groups')
                          /\ Permutation groups groups'
                          /\ StronglySorted lex_le groups').
Proof.
  intros Hs. destruct (sort_config_free_list gs c Hs) as [c' [Hrun Hlists]].
  destruct (sort_config_entries gs c Hs) as [so [c'' [_ [Hrun' [Hkeys [Hent Hdom]]]]]].
  assert (Hsame : c'' = c') by congruence. subst c''.
  exists c'. split; [exact Hrun |]. split; [exact Hkeys |]. split.
  - intros k l Hk Hzip Hpin Hfree. exists (sort_strings l).
    split; [apply (Hlists k l); assumption |].
    split; [apply sort_strings_perm |]. split; [apply sort_strings_sorted |].
    intros listed Hp. symmetry. apply sort_strings_of_permutation, Hp.
  - intros groups Hz. destruct (Hent _ _ Hz) as [v' [Hv' Hsort]].
    assert (Hnone : lookup "zip_keys" so = None).
    { destruct (lookup "zip_keys" so) eqn:Hl; [| reflexivity]. exfalso.
      destruct (Hdom "zip_keys") as [g [Hg [Hin _]]]; [rewrite Hl; discriminate |].
      destruct (sortable_members gs c Hs g _ Hg Hin) as [Hne _]. apply Hne; reflexivity. }
    unfold sort_entry, groups_value in Hsort. rewrite Hnone, sorted_groups in Hsort.
    cbn [bind] in Hsort. simpl in Hsort. inversion Hsort; subst v'.
    exists (sort_pure lex_ltb groups). split; [exact Hv' |].
    split; [apply sort_pure_perm | apply lex_sorted].
Qed.

Lemma unsorted_config_sortable : sortable [["python"; "numpy"]] unsorted_config.
Proof.
  constructor.
  - simpl. repeat constructor; simpl; intuition discriminate.
  - intros k v H Hz Hp. lookup_cases H; inversion H; subst; try contradiction;
      eexists; reflexivity.
  - intros v H. lookup_cases H. inversion H. eexists; reflexivity.
  - intros v H. lookup_cases H. inversion H. eexists. split; [reflexivity |].
    intros pkg p [Hp | [Hp | []]]; inversion Hp; eexists; reflexivity.
  - intros g k k' [<- | []] [<- | [<- | []]] [<- | [<- | []]] _ _; reflexivity.
  - intros g k [<- | []] [<- | [<- | []]]; split; discriminate.
Qed.

Lemma sort_config_sorts_free_lists_witness :
  exists c',
    sort_config unsorted_config (groups_value [["python"; "numpy"]]) = Ok c'
    /\ lookup "c_compiler" c' = Some (strings ["clang"; "gcc"]).
Proof.
  destruct (sort_config_sorts_free_lists [["python"; "numpy"]] unsorted_config
              unsorted_config_sortable) as [c' [Hrun [_ [Hfree _]]]].
  exists c'. split; [exact Hrun |].
  destruct (Hfree "c_compiler" ["gcc"; "clang"] eq_refl) as [l' [Hl' [_ [_ Hsorted]]]];
    try discriminate.
  - intros g [<- | []] [Hk | [Hk | []]]; discriminate.
  - rewrite Hl'. rewrite <- (Hsorted _ (Permutation_refl _)). reflexivity.
Defined.

Lemma index_value_str_at (c : dict) (k : string) (l : list string) (idx : nat) :
  lookup k c = Some (strings l) -> idx < length l ->
  index_value (strings l) idx = Ok (VStr (str_at c k idx)).
Proof.
  intros Hl Hidx. assert (Hn := str_at_strings c k l idx Hl Hidx).
  rewrite (items_strings _ _ _ Hl) in Hn. unfold index_value, strings. simpl.
  rewrite Hn. reflexivity.
Qed.

Lemma group_rows_explicit (c : dict) (k0 : string) (g : list string) :
  uniform_group c (k0 :: g) ->
  group_rows c (k0 :: g)
  = Ok (map (fun idx => strings (map (fun k => str_at c k idx) (k0 :: g)))
            (seq 0 (length (items c k0)))).
Proof.
  intros [Hpresent Hlen]. unfold group_rows.
  destruct (Hpresent k0 (or_introl eq_refl)) as [l0 Hl0].
  unfold getitem at 1. rewrite Hl0. cbn [bind].
  replace (len_value (strings l0)) with (length (items c k0))
    by (rewrite (items_strings _ _ _ Hl0); reflexivity).
  apply mapM_pure. intros idx Hidx. apply in_seq in Hidx.
  rewrite (mapM_pure _ (fun k => VStr (str_at c k idx))).
  - cbn [bind]. unfold strings. rewrite map_map. reflexivity.
  - intros k Hk. destruct (Hpresent k Hk) as [l Hl].
    unfold getitem. rewrite Hl. cbn [bind]. apply (index_value_str_at c k l idx Hl).
    rewrite <- (length_map VStr), <- (items_strings _ _ _ Hl).
    rewrite (Hlen k k0 Hk (or_introl eq_refl)). lia.
Qed.

Lemma sorting_order_untouched (c : dict) (groups : list (list string)) (k : string) :
  forall so0 so,
    foldM (fun so group =>
             rows <- group_rows c group ;;
             order <- argsort rows ;;
             Ok (fold_left (fun so key => setitem key order so) group so))
          groups so0 = Ok so ->
    (forall g, In g groups -> ~ In k g) ->
    lookup k so = lookup k so0.
Proof.
  induction groups as [| g r IH]; simpl; intros so0 so Hf Hout.
  - inversion Hf; reflexivity.
  - inv_bind Hf. inv_bind Ha. inv_bind Ha. inversion Ha; subst a. clear Ha.
    rewrite (IH _ _ Hf) by (intros g' Hg'; apply Hout; right; exact Hg').
    rewrite lookup_fold_setitem.
    replace (mem k g) with false; [reflexivity |].
    symmetry. apply mem_false. apply Hout. left; reflexivity.
Qed.

Lemma sorting_order_disjoint (c : dict) (groups : list (list string)) :
  NoDup (concat groups) ->
  forall so0 so,
    foldM (fun so group =>
             rows <- group_rows c group ;;
             order <- argsort rows ;;
             Ok (fold_left (fun so key => setitem key order so) group so))
          groups so0 = Ok so ->
    forall g k, In g groups -> In k g ->
      exists rows order,
        group_rows c g = Ok rows /\ argsort rows = Ok order /\ lookup k so = Some order.
Proof.
  induction groups as [| g0 r IH]; simpl; intros Hnd so0 so Hf g k Hg Hk; [destruct Hg |].
  inv_bind Hf. inv_bind Ha. rename a0 into rows. inv_bind Ha. rename a0 into order.
  inversion Ha; subst a. clear Ha.
  destruct Hg as [<- | Hg].
  - exists rows, order. split; [assumption |]. split; [assumption |].
    rewrite (sorting_order_untouched _ _ k _ _ Hf).
    + rewrite lookup_fold_setitem.
      replace (mem k g0) with true; [reflexivity |]. symmetry. apply mem_true, Hk.
    + intros g' Hg' Hk'. apply NoDup_app_remove_l in Hnd as Hr.
      assert (Hin : In k (concat r)) by (apply in_concat; exists g'; auto).
      clear -Hnd Hk Hin. induction g0 as [| x g0 IHg]; [destruct Hk |].
      simpl in Hnd. inversion Hnd as [| ? ? Hnot Hnd']; subst.
      destruct Hk as [-> | Hk]; [apply Hnot, in_or_app; right; exact Hin | auto].
  - apply (IH (NoDup_app_remove_l _ _ Hnd) _ _ Hf g k Hg Hk).
Qed.

Lemma concat_nonempty {A : Type} (l : list (list A)) :
  concat (filter (fun g => negb (is_nil g)) l) = concat l.
Proof.
  induction l as [| g r IH]; simpl; [reflexivity |].
  destruct g as [| x g]; simpl; rewrite IH; reflexivity.
Qed.

Lemma StronglySorted_ext_in {A : Type} (R R' : A -> A -> Prop) (l : list A) :
  (forall a b, In a l -> In b l -> R a b -> R' a b) ->
  StronglySorted R l -> StronglySorted R' l.
Proof.
  intros He Hs. induction Hs as [| a l Hl IH Ha]; [constructor |].
  constructor.
  - apply IH. intros x y Hx Hy. apply He; right; assumption.
  - rewrite Forall_forall in *. intros x Hx.
    apply He; [left; reflexivity | right; exact Hx | apply Ha, Hx].
Qed.

Lemma nth_map_seq {A : Type} (f : nat -> A) (n i : nat) (d : A) :
  i < n -> nth i (map f (seq 0 n)) d = f i.
Proof.
  intros Hi. rewrite (nth_indep _ d (f 0)) by (rewrite length_map, length_seq; exact Hi).
  rewrite (map_nth f). rewrite seq_nth by exact Hi. reflexivity.
Qed.

Lemma sort_config_rows_order (gs : list (list string)) (c : dict) :
  sortable gs c ->
  NoDup (concat gs) ->
  exists c',
    sort_config c (groups_value gs) = Ok c'
    /\ forall g k0,
         In g gs -> In k0 (present_members c g) ->
         exists order,
           argsort (map strings (map (group_row c g) (seq 0 (length (items c k0)))))
           = Ok order
           /\ Permutation (seq 0 (length (items c k0))) order
           /\ (forall k, In k (present_members c g) ->
                         lookup k c' = Some (strings (map (str_at c k) order))).
Proof.
  intros Hs Hnd.
  destruct (sort_config_entries gs c Hs) as [so [c' [Hso [Hrun [_ [Hent _]]]]]].
  exists c'. split; [exact Hrun |]. intros g k0 Hg Hk0.
  set (K := present_members c g) in *.
  set (G := filter (fun g => negb (is_nil g)) (map (present_members c) gs)) in *.
  assert (HK : In K G).
  { apply filter_In. split; [apply in_map, Hg |]. destruct K; [destruct Hk0 | reflexivity]. }
  assert (HGnd : NoDup (concat G)).
  { unfold G. rewrite concat_nonempty. unfold present_members.
    rewrite concat_map_filter. apply NoDup_filter, Hnd. }
  destruct (usable_groups_uniform gs c Hs K HK) as [Hu _].
  assert (Hn : forall k, In k K -> length (items c k) = length (items c k0))
    by (intros k Hk; apply (proj2 Hu); assumption).
  set (n := length (items c k0)) in *.
  set (rows := map (group_row c g) (seq 0 n)).
  assert (Hrows : group_rows c K = Ok (map strings rows)).
  { destruct K as [| k1 K'] eqn:HKeq; [destruct Hk0 |].
    rewrite (group_rows_explicit c k1 K' Hu). unfold rows, group_row. fold K.
    rewrite HKeq, map_map. rewrite (Hn k1 (or_introl eq_refl)). reflexivity. }
  assert (Hlen : length rows = n) by (unfold rows; rewrite length_map, length_seq; reflexivity).
  set (order := sort_pure (fun i j => lex_ltb (nth i rows []) (nth j rows [])) (seq 0 n)).
  assert (Horder : argsort (map strings rows) = Ok order).
  { unfold order. rewrite <- Hlen. apply argsort_strings. }
  assert (Hperm : Permutation (seq 0 n) order) by apply sort_pure_perm.
  exists order. split; [exact Horder |]. split; [exact Hperm |].
  intros k Hk. unfold sorting_order_of in Hso.
  destruct (sorting_order_disjoint c G HGnd _ _ Hso K k HK Hk)
    as [rows' [order' [Hr' [Ho' Hl']]]].
  rewrite Hrows in Hr'. inversion Hr'; subst rows'.
  rewrite Horder in Ho'. inversion Ho'; subst order'.
  destruct (proj1 Hu k Hk) as [l Hl].
  destruct (Hent k _ Hl) as [v' [Hv' Hsort]].
  unfold sort_entry, strings in Hsort. rewrite Hl' in Hsort.
  assert (Hpick : mapM (index_value (VList (map VStr l))) order
                  = Ok (map (fun i => VStr (str_at c k i)) order)).
  { apply mapM_pure. intros i Hi.
    apply (Permutation_in _ (Permutation_sym Hperm)) in Hi. apply in_seq in Hi.
    apply (index_value_str_at c k l i Hl).
    rewrite <- (length_map VStr), <- (items_strings _ _ _ Hl), (Hn k Hk). lia. }
  rewrite Hpick in Hsort. cbn [bind] in Hsort.
  assert (Hpin : String.eqb k "pin_run_as_build" = false).
  { apply String.eqb_neq. apply filter_In in Hk.
    apply (sortable_members gs c Hs g k Hg (proj1 Hk)). }
  rewrite Hpin in Hsort. inversion Hsort; subst v'.
  rewrite Hv'. unfold strings. rewrite map_map. reflexivity.
Qed.

(** X15. On a sortable config with disjoint zip groups [sort_config]
    rearranges the lists of the members of a group together: one
    rearrangement of the positions is applied to the list of every member
    that is a key of the config, so the rows of the group are kept; along
    it the rows ascend, equal rows keeping their order. *)
Theorem sort_config_keeps_rows_aligned (gs : list (list string)) (c : dict) :
  sortable gs c ->
  NoDup (concat gs) ->
  exists c',
    sort_config c (groups_value gs) = Ok c'
    /\ forall g k0,
         In g gs -> In k0 (present_members c g) ->
         exists order,
           Permutation (seq 0 (length (items c k0))) order
           /\ (forall k, In k (present_members c g) ->
                         lookup k c' = Some (strings (map (str_at c k) order)))
           /\ StronglySorted (stably_before lex_ltb (group_row c g)) order.
Proof.
  intros Hs Hnd. destruct (sort_config_rows_order gs c Hs Hnd) as [c' [Hrun Hgroups]].
  exists c'. split; [exact Hrun |]. intros g k0 Hg Hk0.
  destruct (Hgroups g k0 Hg Hk0) as [order [Horder [Hperm Hlists]]].
  exists order. split; [exact Hperm |]. split; [exact Hlists |].
  set (n := length (items c k0)) in *.
  set (rows := map (group_row c g) (seq 0 n)) in *.
  assert (Hlen : length rows = n) by (unfold rows; rewrite length_map, length_seq; reflexivity).
  rewrite argsort_strings, Hlen in Horder.
  assert (Ho : order = sort_pure (fun i j => lex_ltb (nth i rows []) (nth j rows []))
                                 (seq 0 n)) by congruence.
  clear Horder.
  apply (StronglySorted_ext_in (stably_before lex_ltb (fun i => nth i rows []))).
  - assert (Hrow : forall i, In i order -> nth i rows [] = group_row c g i).
    { intros i Hi. apply (Permutation_in _ (Permutation_sym Hperm)) in Hi.
      apply in_seq in Hi. unfold rows. apply nth_map_seq. lia. }
    intros i j Hi Hj. unfold stably_before.
    rewrite (Hrow i Hi), (Hrow j Hj). auto.
  - rewrite Ho. apply (sort_pure_stable lex_ltb (fun i => nth i rows [])).
    + apply lex_ltb_asym.
    + intros a b c0. apply lex_le_trans.
Qed.

Lemma sort_config_keeps_rows_aligned_witness :
  sortable [["python"; "numpy"]] unsorted_config
  /\ NoDup (concat [["python"; "numpy"]])
  /\ exists c',
       sort_config unsorted_config (groups_value [["python"; "numpy"]]) = Ok c'
       /\ forall g k0,
            In g [["python"; "numpy"]] -> In k0 (present_members unsorted_config g) ->
            exists order,
              Permutation (seq 0 (length (items unsorted_config k0))) order
              /\ (forall k, In k (present_members unsorted_config g) ->
                            lookup k c' = Some (strings (map (str_at unsorted_config k) order)))
              /\ StronglySorted (stably_before lex_ltb (group_row unsorted_config g)) order.
Proof.
  assert (Hnd : NoDup (concat [["python"; "numpy"]]))
    by (simpl; repeat constructor; simpl; intuition discriminate).
  split; [exact unsorted_config_sortable |]. split; [exact Hnd |].
  exact (sort_config_keeps_rows_aligned [["python"; "numpy"]] unsorted_config
           unsorted_config_sortable Hnd).
Defined.

(** The rows (3.9, 1.22), (3.10, 1.23), (3.9, 1.21) come out as
    (3.10, 1.23), (3.9, 1.21), (3.9, 1.22). *)
Example sort_config_rows :
  option_map (fun c' => (lookup "python" c', lookup "numpy" c'))
             (match sort_config unsorted_config (groups_value [["python"; "numpy"]]) with
              | Ok c' => Some c'
              | Raise _ => None
              end)
  = Some (Some (strings ["3.10"; "3.9"; "3.9"]), Some (strings ["1.23"; "1.21"; "1.22"])).
Proof. reflexivity. Qed.

(** ** The order of [pin_run_as_build] *)

Lemma reorder_keys (ks : list string) (d : dict) :
  (forall k, In k ks -> lookup k d <> None) -> map fst (reorder ks d) = ks.
Proof.
  unfold reorder. induction ks as [| k r IH]; simpl; intros Hks; [reflexivity |].
  rewrite map_app, IH by (intros k' Hk'; apply Hks; right; exact Hk').
  destruct (lookup k d) eqn:Hl; [reflexivity |].
  exfalso. apply (Hks k (or_introl eq_refl)). exact Hl.
Qed.

Lemma lookup_app_dict (d d' : dict) (k : string) :
  lookup k (d ++ d') = match lookup k d with Some v => Some v | None => lookup k d' end.
Proof.
  induction d as [| [k0 v0] r IH]; simpl; [reflexivity |].
  destruct (eq_dec k k0); [reflexivity | exact IH].
Qed.

Lemma lookup_reorder (ks : list string) (d : dict) (k : string) :
  lookup k (reorder ks d) = if mem k ks then lookup k d else None.
Proof.
  unfold reorder. induction ks as [| k0 r IH]; simpl; [reflexivity |].
  rewrite lookup_app_dict, IH. unfold mem. simpl.
  destruct (eq_dec k0 k) as [-> | Hne].
  - destruct (lookup k d) as [v |] eqn:Hl; simpl.
    + destruct (eq_dec k k); [| contradiction].
      destruct (in_dec eq_dec k r); reflexivity.
    + destruct (in_dec eq_dec k r); reflexivity.
  - assert (Hhead : lookup k match lookup k0 d with
                             | Some v => [(k0, v)]
                             | None => []
                             end = None).
    { destruct (lookup k0 d); simpl; [| reflexivity].
      destruct (eq_dec k k0); [congruence | reflexivity]. }
    rewrite Hhead. destruct (in_dec eq_dec k r); reflexivity.
Qed.

Lemma lookup_map_values (h : value -> value) (d : dict) (k : string) :
  lookup k (map (fun kv => (fst kv, h (snd kv))) d) = option_map h (lookup k d).
Proof.
  induction d as [| [k0 v0] r IH]; simpl; [reflexivity |].
  destruct (eq_dec k k0); [reflexivity | exact IH].
Qed.

Lemma StronglySorted_rev {A : Type} (R : A -> A -> Prop) (l : list A) :
  StronglySorted R l -> StronglySorted (fun a b => R b a) (rev l).
Proof.
  induction 1 as [| a l Hl IH Ha]; simpl; [constructor |].
  assert (Happ : forall l1 l2, StronglySorted (fun a b => R b a) l1 ->
                               StronglySorted (fun a b => R b a) l2 ->
                               (forall x y, In x l1 -> In y l2 -> R y x) ->
                               StronglySorted (fun a b => R b a) (l1 ++ l2)).
  { clear. induction l1 as [| x l1 IH1]; simpl; intros l2 H1 H2 H12; [exact H2 |].
    inversion H1 as [| ? ? Hs Hx]; subst. constructor.
    - apply IH1; auto.
    - apply Forall_app. split; [exact Hx |].
      apply Forall_forall. intros y Hy. apply H12; [left; reflexivity | exact Hy]. }
  apply Happ; [exact IH | repeat constructor |].
  intros x y Hx [<- | []]. rewrite Forall_forall in Ha. apply Ha, in_rev, Hx.
Qed.

Lemma sort_pins_sorted (d : dict) :
  (forall pkg p, In (pkg, p) d -> exists pins, p = VDict pins) ->
  sort_pins (VDict d)
  = Ok (VDict (map (fun kv => (fst kv, sorted_pins (snd kv)))
                   (reorder (sort_strings (map fst d)) d))).
Proof.
  intros Hd. unfold sort_pins.
  rewrite (mapM_pure _ (fun kv => (fst kv, sorted_pins (snd kv)))); [reflexivity |].
  intros [pkg p] Hin. apply reorder_In in Hin.
  destruct (Hd pkg p Hin) as [pins ->]. reflexivity.
Qed.

(** X16. [sort_config] puts the packages of [pin_run_as_build] in
    ascending order and the pins of each package in descending order, and
    every package keeps its pins. *)
Theorem sort_config_orders_pins (gs : list (list string)) (c d : dict) :
  sortable gs c ->
  lookup "pin_run_as_build" c = Some (VDict d) ->
  exists c' p,
    sort_config c (groups_value gs) = Ok c'
    /\ lookup "pin_run_as_build" c' = Some (VDict p)
    /\ Permutation (map fst d) (map fst p)
    /\ StronglySorted string_le (map fst p)
    /\ forall pkg pins,
         lookup pkg d = Some (VDict pins) ->
         exists pins',
           lookup pkg p = Some (VDict pins')
           /\ Permutation (map fst pins) (map fst pins')
           /\ StronglySorted (fun a b => string_le b a) (map fst pins')
           /\ forall pin, lookup pin pins' = lookup pin pins.
Proof.
  intros Hs Hpins.
  destruct (sort_config_entries gs c Hs) as [so [c' [_ [Hrun [_ [Hent _]]]]]].
  destruct (Hent _ _ Hpins) as [v' [Hv' Hsort]].
  destruct (sortable_pins gs c Hs _ Hpins) as [d0 [Hd0 Hwf]]. inversion Hd0; subst d0.
  unfold sort_entry in Hsort. cbn [bind] in Hsort.
  replace (String.eqb "pin_run_as_build" "pin_run_as_build") with true in Hsort
    by reflexivity.
  rewrite (sort_pins_sorted d Hwf) in Hsort. inversion Hsort; subst v'. clear Hsort.
  set (ks := sort_strings (map fst d)) in *.
  assert (Hks : forall k, In k ks -> lookup k d <> None).
  { intros k Hk. apply lookup_In_keys. apply sort_strings_In, Hk. }
  eexists c', _. split; [exact Hrun |]. split; [exact Hv' |].
  assert (Hkeys : map fst (map (fun kv => (fst kv, sorted_pins (snd kv))) (reorder ks d)) = ks).
  { rewrite map_map. cbn [fst]. apply (reorder_keys ks d Hks). }
  rewrite Hkeys. split; [apply sort_strings_perm |]. split; [apply sort_strings_sorted |].
  intros pkg pins Hpkg.
  exists (reorder (rev (sort_strings (map fst pins))) pins).
  assert (Hin : forall k, In k (rev (sort_strings (map fst pins))) -> lookup k pins <> None).
  { intros k Hk. apply in_rev in Hk. apply lookup_In_keys. apply sort_strings_In, Hk. }
  split; [| split; [| split]].
  - rewrite (lookup_map_values sorted_pins), lookup_reorder.
    replace (mem pkg ks) with true.
    + rewrite Hpkg. reflexivity.
    + symmetry. apply mem_true. apply sort_strings_In. apply lookup_In_keys.
      rewrite Hpkg. discriminate.
  - rewrite (reorder_keys _ _ Hin).
    eapply perm_trans; [apply sort_strings_perm | apply Permutation_rev].
  - rewrite (reorder_keys _ _ Hin). apply StronglySorted_rev, sort_strings_sorted.
  - intros pin. rewrite lookup_reorder.
    destruct (mem pin (rev (sort_strings (map fst pins)))) eqn:Hm; [reflexivity |].
    apply mem_false in Hm. symmetry. apply lookup_None_keys. intros Hk. apply Hm.
    apply in_rev. rewrite rev_involutive. apply sort_strings_In, Hk.
Qed.

Lemma sort_config_orders_pins_witness :
  sortable [["python"; "numpy"]] unsorted_config
  /\ lookup "pin_run_as_build" unsorted_config = Some (VDict unsorted_pins)
  /\ exists c' p,
       sort_config unsorted_config (groups_value [["python"; "numpy"]]) = Ok c'
       /\ lookup "pin_run_as_build" c' = Some (VDict p)
       /\ Permutation (map fst unsorted_pins) (map fst p)
       /\ StronglySorted string_le (map fst p)
       /\ forall pkg pins,
            lookup pkg unsorted_pins = Some (VDict pins) ->
            exists pins',
              lookup pkg p = Some (VDict pins')
              /\ Permutation (map fst pins) (map fst pins')
              /\ StronglySorted (fun a b => string_le b a) (map fst pins')
              /\ forall pin, lookup pin pins' = lookup pin pins.
Proof.
  split; [exact unsorted_config_sortable |]. split; [reflexivity |].
  exact (sort_config_orders_pins [["python"; "numpy"]] unsorted_config unsorted_pins
           unsorted_config_sortable eq_refl).
Defined.

(** [boost] comes before [zlib], and [min_pin] before [max_pin]. *)
Example sort_config_pins :
  option_map (lookup "pin_run_as_build")
             (match sort_config unsorted_config (groups_value [["python"; "numpy"]]) with
              | Ok c' => Some c'
              | Raise _ => None
              end)
  = Some (Some (VDict [("boost", VDict [("max_pin", VStr "x")]);
                       ("zlib", VDict [("min_pin", VStr "x"); ("max_pin", VStr "x.x")])])).
Proof. reflexivity. Qed.

(** ** [merge_list_of_dicts] *)

Lemma collect_absent (k : string) (d : dict) :
  ~ In k (map fst d) -> collect k d = [].
Proof.
  unfold collect. induction d as [| [k0 v0] r IH]; simpl; intros Hout; [reflexivity |].
  destruct (eq_dec k0 k) as [-> | Hne]; [exfalso; apply Hout; left; reflexivity |].
  apply IH. intros Hin. apply Hout. right; exact Hin.
Qed.

Lemma collect_items (k : string) (d : dict) :
  NoDup (map fst d) -> collect k d = items d k.
Proof.
  unfold items. induction d as [| [k0 v0] r IH]; simpl; intros Hnd; [reflexivity |].
  inversion Hnd as [| ? ? Hnot Hnd']; subst.
  change (flat_map (fun kv => if eq_dec (fst kv) k then iter_value (snd kv) else []) r)
    with (collect k r).
  destruct (eq_dec k0 k) as [-> | Hne].
  - destruct (eq_dec k k); [| contradiction].
    rewrite (collect_absent k r Hnot). apply app_nil_r.
  - destruct (eq_dec k k0); [congruence |]. simpl. apply IH, Hnd'.
Qed.

Lemma collect_concat (k : string) (l : list dict) :
  collect k (concat l) = flat_map (collect k) l.
Proof.
  unfold collect. induction l as [| d r IH]; simpl; [reflexivity |].
  rewrite flat_map_app, IH. reflexivity.
Qed.

(** X17. [merge_list_of_dicts] gathers under every key the elements the
    mappings hold under it, in the order of the mappings; a key of none of
    them is no key of the result, and no key appears twice. *)
Theorem merge_list_of_dicts_concatenates (list_of_dicts : list dict) :
  (forall d, In d list_of_dicts -> NoDup (map fst d)) ->
  NoDup (map fst (merge_list_of_dicts list_of_dicts))
  /\ forall k,
       lookup k (merge_list_of_dicts list_of_dicts)
       = if existsb (contains k) list_of_dicts
         then Some (VList (flat_map (fun d => items d k) list_of_dicts))
         else None.
Proof.
  intros Hnd. split; [apply (merge_lookup list_of_dicts ""%string) |].
  intros k. rewrite (proj2 (merge_lookup list_of_dicts k)).
  assert (Hmem : mem k (map fst (concat list_of_dicts)) = existsb (contains k) list_of_dicts).
  { apply Bool.eq_iff_eq_true. rewrite mem_true, existsb_exists, in_map_iff. split.
    - intros [[k0 v] [Hk Hin]]. simpl in Hk. subst k0. apply in_concat in Hin.
      destruct Hin as [d [Hd Hkv]]. exists d. split; [exact Hd |].
      apply contains_true. apply in_map_iff. exists (k, v). auto.
    - intros [d [Hd Hc]]. apply contains_true, in_map_iff in Hc.
      destruct Hc as [[k0 v] [Hk Hkv]]. simpl in Hk. subst k0.
      exists (k, v). split; [reflexivity |]. apply in_concat. exists d. auto. }
  rewrite Hmem. destruct (existsb (contains k) list_of_dicts); [| reflexivity].
  rewrite collect_concat. do 2 f_equal.
  clear Hmem. induction list_of_dicts as [| d r IH]; simpl; [reflexivity |].
  rewrite (collect_items k d) by (apply Hnd; left; reflexivity).
  rewrite IH by (intros d' Hd'; apply Hnd; right; exact Hd'). reflexivity.
Qed.

Lemma merge_list_of_dicts_concatenates_witness :
  merge_list_of_dicts [[("python", strings ["3.9"]); ("numpy", strings ["1.21"])];
                       [("numpy", strings ["1.22"]); ("python", strings ["3.9"])]]
  = [("python", strings ["3.9"; "3.9"]); ("numpy", strings ["1.21"; "1.22"])]
  /\ lookup "numpy"
       (merge_list_of_dicts [[("python", strings ["3.9"]); ("numpy", strings ["1.21"])];
                             [("numpy", strings ["1.22"]); ("python", strings ["3.9"])]])
     = Some (strings ["1.21"; "1.22"]).
Proof.
  split; [reflexivity |].
  rewrite (proj2 (merge_list_of_dicts_concatenates
                    [[("python", strings ["3.9"]); ("numpy", strings ["1.21"])];
                     [("numpy", strings ["1.22"]); ("python", strings ["3.9"])]]
                    ltac:(intros d [<- | [<- | []]]; simpl; repeat constructor;
                          simpl; intuition discriminate))
                 "numpy").
  reflexivity.
Defined.

(** ** [_update_dict_within_dict] *)

(** The body of the loop. *)
Lemma update_step (key : string) (val : value) (rest : list (string * value))
  (config : value) :
  _update_dict_within_dict ((key, val) :: rest) config
  = (config' <- match val with
                | VDict sub =>
                    old <- config_get key config ;;
                    merged <- _update_dict_within_dict sub old ;;
                    config_set key merged config
                | _ => config_set key val config
                end ;;
     _update_dict_within_dict rest config').
Proof. destruct val; reflexivity. Qed.

Lemma contains_setitem_other {K V : Type} `{EqDec K} (k k0 : K) (v : V) (d : list (K * V)) :
  k <> k0 -> contains k (setitem k0 v d) = contains k d.
Proof.
  intros Hne. unfold contains. rewrite lookup_setitem_ne by congruence. reflexivity.
Qed.

Lemma keys_setitem (key : string) (v : value) (cur : dict) :
  map fst (setitem key v cur)
  = map fst cur ++ (if contains key cur then [] else [key]).
Proof.
  destruct (contains key cur) eqn:Hc.
  - rewrite app_nil_r. apply keys_setitem_present. apply contains_true, Hc.
  - apply keys_setitem_absent. intros Hin. apply contains_true in Hin. congruence.
Qed.

Lemma update_loop (items : list (string * value)) :
  forall cur r,
    NoDup (map fst items) ->
    _update_dict_within_dict items (VDict cur) = Ok r ->
    exists c',
      r = VDict c'
      /\ (forall k, lookup k items = None -> lookup k c' = lookup k cur)
      /\ (forall k v, lookup k items = Some v -> (forall d, v <> VDict d) ->
                      lookup k c' = Some v)
      /\ (forall k sub, lookup k items = Some (VDict sub) ->
            exists merged,
              _update_dict_within_dict sub (sub_config k cur) = Ok merged
              /\ lookup k c' = Some merged)
      /\ map fst c'
         = map fst cur ++ filter (fun k => negb (contains k cur)) (map fst items).
Proof.
  induction items as [| [key val] rest IH]; intros cur r Hnd Hu.
  - inversion Hu; subst r. exists cur. split; [reflexivity |].
    split; [reflexivity |]. split; [discriminate |]. split; [discriminate |].
    simpl. rewrite app_nil_r. reflexivity.
  - rewrite update_step in Hu. inv_bind Hu. rename a into config'.
    simpl in Hnd. inversion Hnd as [| ? ? Hfresh Hnd']; subst.
    assert (Hrest : lookup key rest = None) by (apply lookup_None_keys; exact Hfresh).
    assert (Hset : exists new,
               config' = VDict (setitem key new cur)
               /\ match val with
                  | VDict sub => _update_dict_within_dict sub (sub_config key cur) = Ok new
                  | _ => new = val
                  end).
    { destruct val as [s | l | sub]; simpl in Ha.
      - inversion Ha. eexists; split; reflexivity.
      - inversion Ha. eexists; split; reflexivity.
      - inv_bind Ha. inversion Ha; subst. eexists; split; [reflexivity | exact Ha0]. }
    destruct Hset as [new [-> Hnew]].
    destruct (IH _ _ Hnd' Hu) as [c' [-> [Hout [Hleaf [Hsub Hkeys]]]]].
    exists c'. split; [reflexivity |].
    assert (Hkey : lookup key c' = Some new)
      by (rewrite (Hout key Hrest); apply lookup_setitem_eq).
    split; [| split; [| split]].
    + intros k Hk. simpl in Hk. destruct (eq_dec k key); [discriminate |].
      rewrite (Hout k Hk). apply lookup_setitem_ne. congruence.
    + intros k v Hk Hv. simpl in Hk. destruct (eq_dec k key) as [-> | Hne].
      * inversion Hk; subst v. rewrite Hkey. f_equal.
        destruct val as [s | l | sub]; [exact Hnew | exact Hnew |].
        exfalso. apply (Hv sub). reflexivity.
      * apply (Hleaf k v Hk Hv).
    + intros k sub Hk. simpl in Hk. destruct (eq_dec k key) as [-> | Hne].
      * inversion Hk; subst val. exists new. auto.
      * destruct (Hsub k sub Hk) as [merged [Hm Hl]]. exists merged. split; [| exact Hl].
        unfold sub_config in *. rewrite lookup_setitem_ne in Hm by congruence. exact Hm.
    + rewrite Hkeys, keys_setitem, <- app_assoc. f_equal. simpl.
      assert (Hfilter : filter (fun k => negb (contains k (setitem key new cur)))
                               (map fst rest)
                        = filter (fun k => negb (contains k cur)) (map fst rest)).
      { apply filter_ext_in. intros k Hk. rewrite contains_setitem_other; [reflexivity |].
        intros ->. contradiction. }
      rewrite Hfilter. destruct (contains key cur); reflexivity.
Qed.

Lemma update_not_mapping (items : list (string * value)) (config updated : value) :
  _update_dict_within_dict items config = Ok updated ->
  items = [] /\ updated = config \/ exists c, config = VDict c.
Proof.
  destruct items as [| [key val] rest]; intros Hu.
  - inversion Hu. left; auto.
  - right. rewrite update_step in Hu. inv_bind Hu.
    destruct config as [s | l | c]; [| | exists c; reflexivity];
      destruct val; simpl in Ha; discriminate.
Qed.

(** X18. [_update_dict_within_dict] merges the items into the config level
    by level. It returns on a config that is no mapping only when there
    are no items, and then returns the config. On a mapping, under a key
    of the items the result holds the value of the item, or, when that
    value is a mapping, the merge of it into what the config held under
    the key; every other key keeps its value; the keys of the config keep
    their order and new keys follow in the order of the items. *)
Theorem update_dict_within_dict_merges (items : list (string * value))
  (config updated : value) :
  NoDup (map fst items) ->
  _update_dict_within_dict items config = Ok updated ->
  (items = [] /\ updated = config)
  \/ exists c c',
       config = VDict c /\ updated = VDict c'
       /\ (forall k, lookup k items = None -> lookup k c' = lookup k c)
       /\ (forall k v, lookup k items = Some v -> (forall d, v <> VDict d) ->
                       lookup k c' = Some v)
       /\ (forall k sub, lookup k items = Some (VDict sub) ->
             exists merged,
               _update_dict_within_dict sub (sub_config k c) = Ok merged
               /\ lookup k c' = Some merged)
       /\ map fst c'
          = map fst c ++ filter (fun k => negb (contains k c)) (map fst items).
Proof.
  intros Hnd Hu.
  destruct (update_not_mapping items config updated Hu) as [Hempty | [c Hc]];
    [left; exact Hempty | right].
  subst config. destruct (update_loop items c updated Hnd Hu) as [c' [Hc' Hrest]].
  exists c, c'. split; [reflexivity |]. split; [exact Hc' | exact Hrest].
Qed.

Lemma update_dict_within_dict_merges_witness :
  NoDup (map fst file_settings)
  /\ _update_dict_within_dict file_settings (VDict default_settings)
     = Ok (VDict [("recipe_dir", VStr "recipe");
                  ("azure", VDict [("force", VStr "True"); ("timeout_minutes", VStr "360")]);
                  ("provider", VDict [("linux_64", VList [VStr "azure"])]);
                  ("github", VDict [("branch_name", VStr "main")])])
  /\ exists c',
       (forall k, lookup k file_settings = None ->
                  lookup k c' = lookup k default_settings)
       /\ map fst c' = ["recipe_dir"; "azure"; "provider"; "github"].
Proof.
  assert (Hnd : NoDup (map fst file_settings))
    by (simpl; repeat constructor; simpl; intuition discriminate).
  split; [exact Hnd |]. split; [reflexivity |].
  destruct (update_dict_within_dict_merges file_settings (VDict default_settings) _
              Hnd eq_refl)
    as [[Hempty _] | [c [c' [Hc [_ [Hout [_ [_ Hkeys]]]]]]]]; [discriminate Hempty |].
  inversion Hc; subst c. exists c'. split; [exact Hout | exact Hkeys].
Defined.

(** Merging a non-empty mapping into a setting that is no mapping raises,
    merging an empty one leaves the setting. *)
Example update_dict_within_dict_conflict :
  _update_dict_within_dict [("recipe_dir", VDict [("path", VStr "recipe")])]
                           (VDict default_settings) = Raise TypeError
  /\ _update_dict_within_dict [("recipe_dir", VDict [])] (VDict default_settings)
     = Ok (VDict default_settings).
Proof. split; reflexivity. Qed.

Lemma well_keyed_dict (d : dict) :
  well_keyed (VDict d)
  <-> NoDup (map fst d) /\ forall k x, In (k, x) d -> well_keyed x.
Proof.
  simpl. split; intros [Hnd Hall]; (split; [exact Hnd |]); clear Hnd.
  - induction d as [| [k0 x0] r IH]; intros k x Hin; [destruct Hin |].
    destruct Hall as [H0 Hr]. destruct Hin as [He | Hin].
    + inversion He; subst. exact H0.
    + apply (IH Hr k x Hin).
  - induction d as [| [k0 x0] r IH]; [exact I |]. split.
    + apply (Hall k0 x0). left; reflexivity.
    + apply IH. intros k x Hin. apply (Hall k x). right; exact Hin.
Qed.

(** Induction on the mappings nested in a value. *)
Lemma value_dict_ind (P : value -> Prop) :
  (forall s, P (VStr s)) ->
  (forall l, P (VList l)) ->
  (forall d, (forall k x, In (k, x) d -> P x) -> P (VDict d)) ->
  forall v, P v.
Proof.
  intros Hs Hl Hd.
  refine (fix IH (v : value) : P v :=
            match v with
            | VStr s => Hs s
            | VList l => Hl l
            | VDict d =>
                Hd d ((fix go (d : list (string * value))
                         : forall k x, In (k, x) d -> P x :=
                         match d with
                         | [] => fun k x H => match H with end
                         | (k0, x0) :: r =>
                             fun k x H =>
                               match H with
                               | or_introl e =>
                                   eq_ind x0 P (IH x0) x (f_equal snd e)
                               | or_intror H' => go r k x H'
                               end
                         end) d)
            end).
Qed.

Lemma update_twice (v : value) :
  forall items, v = VDict items -> well_keyed v ->
  forall config updated,
    _update_dict_within_dict items config = Ok updated ->
    _update_dict_within_dict items updated = Ok updated.
Proof.
  induction v as [s | l | d IHd] using value_dict_ind; intros items Hv Hwk;
    try discriminate.
  inversion Hv; subst items. clear Hv. apply well_keyed_dict in Hwk.
  destruct Hwk as [Hnd Hall].
  assert (Hsub : forall k sub, In (k, VDict sub) d ->
            forall config updated,
              _update_dict_within_dict sub config = Ok updated ->
              _update_dict_within_dict sub updated = Ok updated).
  { intros k sub Hin. apply (IHd k (VDict sub) Hin sub eq_refl). apply (Hall k _ Hin). }
  clear IHd Hall. induction d as [| [key val] rest IH]; intros config updated Hu.
  - inversion Hu; reflexivity.
  - destruct (update_not_mapping _ _ _ Hu) as [[Hnil _] | [c ->]]; [discriminate |].
    assert (Hu0 := Hu). rewrite update_step in Hu. inv_bind Hu. rename a into config'.
    simpl in Hnd. inversion Hnd as [| ? ? Hfresh Hnd']; subst.
    assert (Hrest : lookup key rest = None) by (apply lookup_None_keys; exact Hfresh).
    assert (Hset : exists new,
               config' = VDict (setitem key new c)
               /\ match val with
                  | VDict sub => _update_dict_within_dict sub (sub_config key c) = Ok new
                  | _ => new = val
                  end).
    { destruct val as [s | l | sub]; simpl in Ha.
      - inversion Ha. eexists; split; reflexivity.
      - inversion Ha. eexists; split; reflexivity.
      - inv_bind Ha. inversion Ha; subst. eexists; split; [reflexivity | exact Ha0]. }
    destruct Hset as [new [-> Hnew]].
    destruct (update_loop rest _ _ Hnd' Hu) as [c' [-> [Hout _]]].
    assert (Hkey : lookup key c' = Some new)
      by (rewrite (Hout key Hrest); apply lookup_setitem_eq).
    rewrite update_step.
    assert (Hstep : match val with
                    | VDict sub =>
                        old <- config_get key (VDict c') ;;
                        merged <- _update_dict_within_dict sub old ;;
                        config_set key merged (VDict c')
                    | _ => config_set key val (VDict c')
                    end = Ok (VDict c')).
    { destruct val as [s | l | sub].
      - subst new. simpl. rewrite (setitem_present _ _ _ Hkey). reflexivity.
      - subst new. simpl. rewrite (setitem_present _ _ _ Hkey). reflexivity.
      - unfold config_get. rewrite Hkey. cbn [bind].
        rewrite (Hsub key sub (or_introl eq_refl) _ _ Hnew). cbn [bind].
        simpl. rewrite (setitem_present _ _ _ Hkey). reflexivity. }
    rewrite Hstep. cbn [bind].
    apply (IH Hnd' (fun k sub Hin => Hsub k sub (or_intror Hin)) _ _ Hu).
Qed.

(** X19. Merging the same items a second time changes nothing: on the
    config a first call of [_update_dict_within_dict] has returned, a
    second call with the same items returns that config. *)
Theorem update_dict_within_dict_idempotent (items : list (string * value))
  (config updated : value) :
  well_keyed (VDict items) ->
  _update_dict_within_dict items config = Ok updated ->
  _update_dict_within_dict items updated = Ok updated.
Proof.
  intros Hwk Hu. apply (update_twice (VDict items) items eq_refl Hwk config updated Hu).
Qed.

Lemma update_dict_within_dict_idempotent_witness :
  exists updated,
    _update_dict_within_dict file_settings (VDict default_settings) = Ok updated
    /\ _update_dict_within_dict file_settings updated = Ok updated.
Proof.
  eexists. split; [reflexivity |].
  apply (update_dict_within_dict_idempotent file_settings (VDict default_settings)).
  - simpl. repeat split; repeat constructor; simpl; intuition discriminate.
  - reflexivity.
Defined.

(** ** The configs of [break_up_top_level_values] *)

Lemma product_Forall2 {A : Type} (dims : list (list A)) (perm : list A) :
  In perm (product dims) <-> Forall2 (fun y d => In y d) perm dims.
Proof.
  revert perm; induction dims as [| d r IH]; intros perm; simpl.
  - split.
    + intros [<- | []]. constructor.
    + intros Hf. inversion Hf. left; reflexivity.
  - rewrite in_flat_map. split.
    + intros [x [Hx Hin]]. apply in_map_iff in Hin. destruct Hin as [p [<- Hp]].
      constructor; [exact Hx | apply IH, Hp].
    + intros Hf. inversion Hf as [| y d' p r' Hy Hp]; subst.
      exists y. split; [exact Hy |]. apply in_map, IH, Hp.
Qed.

Lemma Forall2_map_l {A B C : Type} (f : A -> B) (R : B -> C -> Prop)
  (l : list A) (l' : list C) :
  Forall2 R (map f l) l' <-> Forall2 (fun x y => R (f x) y) l l'.
Proof.
  revert l'; induction l as [| x r IH]; intros l'; simpl.
  - split; intros Hf; inversion Hf; constructor.
  - split; intros Hf; inversion Hf; subst; constructor; auto; apply IH; assumption.
Qed.

Section Configs.
Variables (tl : list string) (gs : list (list string)) (m : dict).
Hypothesis Hpi : partition_input tl gs m.

Let P := plan gs tl [].
Let sq := remove_keys (flat_map unit_keys P) m.

(** The dimensions of the product [break_up_top_level_values] takes. *)
Lemma break_up_dimensions :
  exists bg zss,
    sort_config sq (groups_value gs) = Ok bg
    /\ Forall2 (fun u zs =>
                  mapM (fun c => sort_config c (groups_value gs))
                       (zipped_dim tl m (snd u) (length (items m (fst u)))) = Ok zs)
               (zipped_units P) zss
    /\ break_up_top_level_values tl m
       = Ok (map merge_permutation
                 (product (map (standalone_dim m) (standalone_keys P) ++ zss
                           ++ (if is_nil bg then [] else [[bg]])))).
Proof.
  destruct (plan_units gs tl (pi_disjoint _ _ _ Hpi) (pi_set _ _ _ Hpi) [])
    as [Hs [Hz [Hc [Hns Hnz]]]]; [intros k [] |].
  fold P in Hs, Hz, Hc, Hns, Hnz.
  assert (Hremoved : forall k, In k (flat_map unit_keys P) ->
                               In k tl \/ exists g, In g gs /\ In k g).
  { intros k Hk. apply unit_keys_member in Hk. destruct Hk as [Hk | [key [g [Hin Hk]]]].
    - left. apply (Hs k Hk).
    - right. exists g. destruct (Hz key g Hin) as [_ [Hf _]].
      split; [apply (find_group_some _ _ _ Hf) | exact Hk]. }
  assert (Hkept : ~ In "zip_keys" (flat_map unit_keys P)).
  { intros Hin. destruct (Hremoved _ Hin) as [Htl | [g [Hg Hkg]]].
    - destruct (pi_keys _ _ _ Hpi _ Htl) as [_ [Hz' _]]. contradiction.
    - destruct (sortable_members gs m (pi_sortable _ _ _ Hpi) g _ Hg Hkg) as [Hz' _].
      contradiction. }
  assert (Hsq : forall k, lookup k sq = if mem k (flat_map unit_keys P) then None
                                        else lookup k m).
  { intros k. apply lookup_remove_keys. }
  assert (Hsq_keys : NoDup (map fst sq)).
  { apply NoDup_keys_remove_keys, (sortable_keys gs m (pi_sortable _ _ _ Hpi)). }
  assert (Hsq_sortable : sortable gs sq).
  { apply (sortable_restrict gs m sq (pi_sortable _ _ _ Hpi) Hsq_keys).
    intros k v. rewrite Hsq. destruct (mem k (flat_map unit_keys P)); [discriminate | auto]. }
  destruct (zip_groups_known gs m (pi_zip _ _ _ Hpi)) as [Hgroups _].
  assert (Hafter : groups_after (map (fun g => VList (map VStr g)) gs) sq = groups_value gs).
  { unfold groups_after. rewrite Hsq.
    replace (mem "zip_keys" (flat_map unit_keys P)) with false
      by (symmetry; apply mem_false, Hkept).
    destruct (pi_zip _ _ _ Hpi) as [Hzk | [Hzk ->]]; rewrite Hzk; reflexivity. }
  destruct (sort_config_sortable gs sq Hsq_sortable) as [bg [Hbg _]].
  destruct (sorted_zipped_units tl gs m Hpi (zipped_units P)) as [zss [Hzss _]].
  { intros key g Hin. destruct (Hz key g Hin) as [Hk [Hf _]]. auto. }
  exists bg, zss. split; [exact Hbg |]. split.
  - apply mapM_ok_Forall2 in Hzss. apply Forall2_map_l in Hzss. exact Hzss.
  - unfold break_up_top_level_values. rewrite Hgroups. cbn [bind].
    rewrite (loop_plan tl gs m Hpi tl _ (initial_loop_inv tl gs m Hpi)).
    cbn [bind accounted_for_keys zipped_configs top_level_dimensions squished app].
    fold P. fold sq.
    fold (groups_after (map (fun g => VList (map VStr g)) gs) sq). rewrite Hafter.
    rewrite Hbg. cbn [bind]. rewrite Hzss. reflexivity.
Qed.

Lemma zipped_entry_shape (g : list string) (n : nat) (zs : list dict) (y : dict) :
  In g gs ->
  mapM (fun c => sort_config c (groups_value gs)) (zipped_dim tl m g n) = Ok zs ->
  In y zs ->
  NoDup (map fst y)
  /\ exists t,
       zip_class tl m g n t <> []
       /\ (forall k, In k g ->
             exists l', lookup k y = Some (VList l')
                        /\ Permutation (map (fun i => VStr (str_at m k i))
                                            (zip_class tl m g n t)) l')
       /\ (forall k, ~ In k g -> lookup k y = None).
Proof.
  intros Hg Hzs Hy. destruct (mapM_In _ _ _ _ Hzs Hy) as [c [Hc Hsort]].
  destruct (zipped_dim_classes tl m g n) as [Hdim [_ Hts]].
  rewrite Hdim in Hc. apply in_map_iff in Hc. destruct Hc as [t [<- Ht]].
  apply Hts in Ht.
  assert (Hgnd : NoDup g) by (apply (NoDup_concat_member gs g (pi_disjoint _ _ _ Hpi) Hg)).
  destruct (zip_config_lookup m g (zip_class tl m g n t) Hgnd Ht) as [Hkeys [Hin Hout]].
  destruct (sort_config_sortable gs _ (zip_config_sortable tl gs m Hpi g _ Hg Ht))
    as [y' [Hy' [Hkeys' Hlists]]].
  rewrite Hsort in Hy'. inversion Hy'; subst y'.
  split; [rewrite Hkeys'; exact Hkeys |]. exists t. split; [exact Ht |]. split.
  - intros k Hk.
    destruct (Hlists k _ (Hin k Hk)) as [l' [Hl' Hp]].
    + apply (sortable_members gs m (pi_sortable _ _ _ Hpi) g k Hg Hk).
    + exists l'. split; [exact Hl' |]. rewrite map_map in Hp. exact Hp.
  - intros k Hk. apply lookup_None_keys. rewrite Hkeys'. apply lookup_None_keys, Hout, Hk.
Qed.

End Configs.

(** ** The rows of a zip group in the configs *)

Lemma Forall2_compose {A B C : Type} (R : A -> B -> Prop) (S : C -> B -> Prop)
  (la : list A) (lb : list B) (lc : list C) :
  Forall2 R la lb -> Forall2 S lc lb ->
  Forall2 (fun a c => exists b, R a b /\ S c b) la lc.
Proof.
  intros HR. revert lc. induction HR as [| a b la lb Hab _ IH]; intros lc HS.
  - inversion HS. constructor.
  - inversion HS as [| c b' lc' lb' Hcb Hrest]; subst. constructor.
    + exists b. auto.
    + apply IH, Hrest.
Qed.

(** Of the entries picked for the zip groups only one holds a given key. *)
Lemma zipped_pick_unique (units : list (string * list string)) (pb : list dict)
  (holds : string * list string -> dict -> Prop) (k : string) :
  Forall2 holds units pb ->
  (forall u y, In u units -> holds u y -> lookup k y <> None -> In k (snd u)) ->
  NoDup (concat (map snd units)) ->
  forall y y', In y pb -> In y' pb ->
               lookup k y <> None -> lookup k y' <> None -> y = y'.
Proof.
  intros HF. induction HF as [| u y0 units pb Hu HF' IH]; simpl;
    intros Hkey Hnd y y' Hy Hy'; [destruct Hy |].
  intros Hk Hk'.
  assert (Htail : forall z, In z pb -> lookup k z <> None -> In k (concat (map snd units))).
  { intros z Hz Hkz.
    assert (Hkey' : forall u y, In u units -> holds u y -> lookup k y <> None ->
                                In k (snd u))
      by (intros u' z' Hu'; apply Hkey; right; exact Hu').
    clear -HF' Hz Hkz Hkey'.
    induction HF' as [| u' z' us zs Hu' _ IH']; [destruct Hz |]. simpl.
    apply in_or_app. destruct Hz as [<- | Hz].
    - left. apply (Hkey' u' z' (or_introl eq_refl) Hu' Hkz).
    - right. apply IH'; [exact Hz |].
      intros u0 y1 Hu0. apply Hkey'. right; exact Hu0. }
  assert (Hhead : lookup k y0 <> None -> ~ In k (concat (map snd units))).
  { intros Hk0 Hin. assert (Hku := Hkey u y0 (or_introl eq_refl) Hu Hk0).
    clear -Hnd Hku Hin. induction (snd u) as [| x g IHg]; [destruct Hku |].
    simpl in Hnd. inversion Hnd as [| ? ? Hnot Hnd']; subst.
    destruct Hku as [-> | Hku]; [apply Hnot, in_or_app; right; exact Hin | auto]. }
  destruct Hy as [<- | Hy], Hy' as [<- | Hy'].
  - reflexivity.
  - exfalso. apply (Hhead Hk). apply (Htail y' Hy' Hk').
  - exfalso. apply (Hhead Hk'). apply (Htail y Hy Hk).
  - apply IH; auto.
    + intros u' z' Hu'. apply Hkey. right; exact Hu'.
    + apply (NoDup_app_remove_l _ _ Hnd).
Qed.

Lemma str_at_zip_config (m : dict) (g : list string) (idxs : list nat) (k : string)
  (i : nat) :
  NoDup g -> idxs <> [] -> In k g -> i < length idxs ->
  str_at (zip_config m g idxs) k i = str_at m k (nth i idxs 0).
Proof.
  intros Hnd Hne Hk Hi.
  destruct (zip_config_lookup m g idxs Hnd Hne) as [_ [Hin _]].
  unfold str_at at 1. rewrite (items_strings _ _ _ (Hin k Hk)).
  rewrite map_map. rewrite (nth_error_nth' _ (VStr (str_at m k 0)))
    by (rewrite length_map; exact Hi).
  rewrite (map_nth (fun x => VStr (str_at m k x))). reflexivity.
Qed.

Lemma map_nth_seq_self {A : Type} (l : list A) (d : A) :
  map (fun i => nth i l d) (seq 0 (length l)) = l.
Proof.
  apply (nth_ext _ _ d d).
  - rewrite length_map, length_seq. reflexivity.
  - intros i Hi. rewrite length_map, length_seq in Hi.
    apply (nth_map_seq (fun j => nth j l d)). exact Hi.
Qed.

(** The lists a Config holds under the members of a zip group are the
    values of the mapping at one list of positions; for a group with a
    top-level member the positions are those of one class of rows. *)
Lemma break_up_group_rows (tl : list string) (gs : list (list string)) (m : dict) :
  partition_input tl gs m ->
  exists configs,
    break_up_top_level_values tl m = Ok configs
    /\ forall config g,
         In config configs -> In g gs ->
         exists idxs,
           (forall k, In k g ->
                      lookup k config = Some (strings (map (str_at m k) idxs))
                      /\ forall i, In i idxs -> i < length (items m k))
           /\ (forall k, In k g -> In k tl ->
                 exists t,
                   zip_class tl m g (length (items m k)) t <> []
                   /\ Permutation (zip_class tl m g (length (items m k)) t) idxs).
Proof.
  intros Hpi.
  set (P := plan gs tl []).
  set (sq := remove_keys (flat_map unit_keys P) m).
  destruct (break_up_dimensions tl gs m Hpi) as [bg [zss [Hbg [HF Hrun]]]].
  fold P in HF, Hrun. fold sq in Hbg.
  destruct (plan_units gs tl (pi_disjoint _ _ _ Hpi) (pi_set _ _ _ Hpi) [])
    as [Hs [Hz [Hcover [_ Hnz]]]]; [intros k [] |].
  fold P in Hs, Hz, Hcover, Hnz.
  assert (Hsq : forall k, lookup k sq = if mem k (flat_map unit_keys P) then None
                                        else lookup k m).
  { intros k. apply lookup_remove_keys. }
  assert (Hsq_keys : NoDup (map fst sq)).
  { apply NoDup_keys_remove_keys, (sortable_keys gs m (pi_sortable _ _ _ Hpi)). }
  assert (Hsq_sortable : sortable gs sq).
  { apply (sortable_restrict gs m sq (pi_sortable _ _ _ Hpi) Hsq_keys).
    intros k v. rewrite Hsq. destruct (mem k (flat_map unit_keys P)); [discriminate | auto]. }
  assert (Hbg_keys : map fst bg = map fst sq) by (apply (sort_config_keys _ _ _ Hbg)).
  assert (Hbg_has : forall k, lookup k bg <> None <-> lookup k sq <> None).
  { intros k. rewrite !lookup_In_keys, Hbg_keys. reflexivity. }
  exists (map merge_permutation
              (product (map (standalone_dim m) (standalone_keys P) ++ zss
                        ++ (if is_nil bg then [] else [[bg]])))).
  split; [exact Hrun |]. intros config g Hconfig Hg.
  apply in_map_iff in Hconfig. destruct Hconfig as [perm [<- Hperm]].
  apply product_Forall2 in Hperm.
  apply Forall2_app_inv_r in Hperm. destruct Hperm as [pa [rest [Hpa [Hrest ->]]]].
  apply Forall2_app_inv_r in Hrest. destruct Hrest as [pb [pc [Hpb [Hpc ->]]]].
  assert (Hgnd : NoDup g) by (apply (NoDup_concat_member gs g (pi_disjoint _ _ _ Hpi) Hg)).
  assert (Hpa' : forall y, In y pa ->
             exists k0 val, In k0 (standalone_keys P) /\ y = [(k0, VList [val])]).
  { intros y Hy. destruct (Forall2_In_l _ _ _ _ Hpa Hy) as [d [Hd Hyd]].
    apply in_map_iff in Hd. destruct Hd as [k0 [<- Hk0]].
    unfold standalone_dim in Hyd. apply in_map_iff in Hyd.
    destruct Hyd as [val [<- _]]. exists k0, val. auto. }
  assert (Hpc' : forall y, In y pc -> y = bg).
  { intros y Hy. destruct (Forall2_In_l _ _ _ _ Hpc Hy) as [d [Hd Hyd]].
    destruct (is_nil bg); [destruct Hd |]. destruct Hd as [<- | []].
    destruct Hyd as [<- | []]. reflexivity. }
  set (holds := fun (u : string * list string) (y : dict) =>
                  exists zs,
                    mapM (fun c => sort_config c (groups_value gs))
                         (zipped_dim tl m (snd u) (length (items m (fst u)))) = Ok zs
                    /\ In y zs).
  assert (Hunits : Forall2 holds (zipped_units P) pb).
  { apply (Forall2_compose _ _ _ _ _ HF Hpb). }
  assert (Hholds : forall u y, In u (zipped_units P) -> holds u y ->
             In (snd u) gs /\ In (fst u) (snd u) /\ In (fst u) tl
             /\ NoDup (map fst y)
             /\ forall k, lookup k y <> None -> In k (snd u)).
  { intros [key g'] y Hu [zs [Hzs Hy]]. simpl in *.
    destruct (Hz key g' Hu) as [Hkey [Hf _]].
    destruct (find_group_some _ _ _ Hf) as [Hg' Hkg'].
    destruct (zipped_entry_shape tl gs m Hpi g' _ zs y Hg' Hzs Hy) as [Hnd' [t [_ [_ Hout]]]].
    repeat split; auto. intros k Hk.
    destruct (in_dec string_dec k g') as [Hin | Hnot]; [exact Hin |].
    exfalso. apply Hk, Hout, Hnot. }
  assert (Hpb' : forall y, In y pb -> exists u, In u (zipped_units P) /\ holds u y).
  { intros y Hy. destruct (Forall2_In_r _ _ _ _ Hunits Hy) as [u [Hu Hh]]. exists u; auto. }
  assert (Hnd : forall y, In y (pa ++ pb ++ pc) -> NoDup (map fst y)).
  { intros y Hy. apply in_app_or in Hy.
    destruct Hy as [Hy | Hy]; [| apply in_app_or in Hy; destruct Hy as [Hy | Hy]].
    - destruct (Hpa' y Hy) as [k0 [val [_ ->]]]. simpl. repeat constructor. intros [].
    - destruct (Hpb' y Hy) as [u [Hu Hh]]. apply (Hholds u y Hu Hh).
    - rewrite (Hpc' y Hy), Hbg_keys. exact Hsq_keys. }
  assert (Hmembers : forall k, In k g -> exists l, lookup k m = Some (strings l))
    by (intros k Hk; apply (member_strings tl gs m Hpi g k Hg Hk)).
  destruct (in_dec (list_eq_dec string_dec) g (map snd (zipped_units P))) as [Hunit | Hfree].
  - apply in_map_iff in Hunit. destruct Hunit as [[key g'] [Heq Hu]]. simpl in Heq. subst g'.
    destruct (Forall2_In_l _ _ _ _ Hunits Hu) as [y [Hy [zs [Hzs Hyz]]]]. simpl in Hzs.
    destruct (Hz key g Hu) as [Hkey [Hf _]].
    destruct (find_group_some _ _ _ Hf) as [_ Hkeyg].
    set (n := length (items m key)) in *.
    destruct (mapM_In _ _ _ _ Hzs Hyz) as [c [Hc Hsort]].
    destruct (zipped_dim_classes tl m g n) as [Hdim [_ Hts]].
    rewrite Hdim in Hc. apply in_map_iff in Hc. destruct Hc as [t [<- Ht]].
    apply Hts in Ht. set (class := zip_class tl m g n t) in *.
    destruct (zip_config_lookup m g class Hgnd Ht) as [_ [Hin _]].
    assert (Hpresent : present_members (zip_config m g class) g = g).
    { unfold present_members. apply filter_all. intros k Hk. unfold contains.
      rewrite (Hin k Hk). reflexivity. }
    destruct (sort_config_rows_order gs _
                (zip_config_sortable tl gs m Hpi g class Hg Ht) (pi_disjoint _ _ _ Hpi))
      as [y' [Hy' Hrows]].
    rewrite Hsort in Hy'. inversion Hy'; subst y'.
    destruct (Hrows g key Hg) as [order [_ [Hperm Hlists]]];
      [rewrite Hpresent; exact Hkeyg |].
    rewrite Hpresent in Hlists.
    assert (Hlen : length (items (zip_config m g class) key) = length class).
    { rewrite (items_strings _ _ _ (Hin key Hkeyg)). rewrite !length_map. reflexivity. }
    rewrite Hlen in Hperm.
    exists (map (fun i => nth i class 0) order). split.
    2:{ intros k Hk Hktl. exists t.
        rewrite (member_lengths tl gs m Hpi g k key Hg Hk Hkeyg). fold n. fold class.
        split; [exact Ht |].
        rewrite <- (map_nth_seq_self class 0) at 1. apply Permutation_map, Hperm. }
    intros k Hk. split.
    + assert (Hky : lookup k y = Some (strings (map (str_at m k)
                                                 (map (fun i => nth i class 0) order)))).
      { rewrite (Hlists k Hk). do 2 f_equal. rewrite map_map. apply map_ext_in.
        intros i Hi. apply (Permutation_in _ (Permutation_sym Hperm)) in Hi.
        apply in_seq in Hi. apply str_at_zip_config; auto. lia. }
      rewrite <- Hky. unfold merge_permutation.
      destruct (lookup_merge (pa ++ pb ++ pc) k Hnd []) as [[_ Hnone] | [y' [Hy'in [Hky' ->]]]].
      * exfalso. rewrite (Hnone y) in Hky; [discriminate |].
        apply in_or_app; right; apply in_or_app; left; exact Hy.
      * assert (Hyy : y' = y); [| rewrite Hyy; reflexivity].
        apply in_app_or in Hy'in.
        destruct Hy'in as [Hi | Hi]; [| apply in_app_or in Hi; destruct Hi as [Hi | Hi]].
        -- exfalso. destruct (Hpa' y' Hi) as [k0 [val [Hk0 ->]]]. simpl in Hky'.
           destruct (eq_dec k k0) as [-> | Hne]; [| contradiction].
           destruct (Hs k0 Hk0) as [_ Hnone].
           apply (find_group_none _ _ Hnone g Hg Hk).
        -- apply (zipped_pick_unique (zipped_units P) pb holds k Hunits); auto.
           ++ intros u z Hu' Hh Hkz. apply (Hholds u z Hu' Hh); exact Hkz.
           ++ rewrite Hky. discriminate.
        -- exfalso. rewrite (Hpc' y' Hi) in Hky'. apply Hbg_has in Hky'. apply Hky'.
           rewrite Hsq. replace (mem k (flat_map unit_keys P)) with true; [reflexivity |].
           symmetry. apply mem_true, unit_keys_member. right. exists key, g. auto.
    + intros idx Hidx. apply in_map_iff in Hidx. destruct Hidx as [i [<- Hi]].
      apply (Permutation_in _ (Permutation_sym Hperm)) in Hi. apply in_seq in Hi.
      assert (Hcl : In (nth i class 0) class) by (apply nth_In; lia).
      apply zip_class_member in Hcl. destruct Hcl as [Hlt _].
      rewrite (member_lengths tl gs m Hpi g k key Hg Hk Hkeyg). exact Hlt.
  - assert (Hout : forall k, In k g -> ~ In k (flat_map unit_keys P)).
    { intros k Hk Hin. apply unit_keys_member in Hin.
      destruct Hin as [Hst | [key [g' [Hu Hkg']]]].
      - destruct (Hs k Hst) as [_ Hnone]. apply (find_group_none _ _ Hnone g Hg Hk).
      - destruct (Hz key g' Hu) as [_ [Hf _]].
        destruct (find_group_some _ _ _ Hf) as [Hg' _].
        assert (Hgg : find (mem k) gs = Some g)
          by (apply (find_group_unique gs g k (pi_disjoint _ _ _ Hpi) Hg Hk)).
        assert (Hgg' : find (mem k) gs = Some g')
          by (apply (find_group_unique gs g' k (pi_disjoint _ _ _ Hpi) Hg' Hkg')).
        rewrite Hgg in Hgg'. inversion Hgg'; subst g'.
        apply Hfree. apply in_map_iff. exists (key, g). auto. }
    assert (Hsame : forall k, In k g -> lookup k sq = lookup k m).
    { intros k Hk. rewrite Hsq.
      replace (mem k (flat_map unit_keys P)) with false; [reflexivity |].
      symmetry. apply mem_false, Hout, Hk. }
    destruct g as [| k0 g'] eqn:Hgeq; [exists []; split; [intros k [] | intros k []] |].
    rewrite <- Hgeq in *.
    assert (Hk0 : In k0 g) by (rewrite Hgeq; left; reflexivity).
    assert (Hpresent : present_members sq g = g).
    { unfold present_members. apply filter_all. intros k Hk. unfold contains.
      rewrite (Hsame k Hk). destruct (Hmembers k Hk) as [l ->]. reflexivity. }
    destruct (sort_config_rows_order gs sq Hsq_sortable (pi_disjoint _ _ _ Hpi))
      as [bg' [Hbg' Hrows]].
    assert (Hb : Ok bg' = Ok bg) by (rewrite <- Hbg'; exact Hbg).
    inversion Hb; subst bg'. clear Hb.
    destruct (Hrows g k0 Hg) as [order [_ [Hperm Hlists]]]; [rewrite Hpresent; exact Hk0 |].
    rewrite Hpresent in Hlists.
    exists order. split.
    2:{ intros k Hk Hktl. exfalso. apply (Hout k Hk). apply unit_keys_member.
        apply Hcover; [exact Hktl | intros []]. }
    intros k Hk.
    assert (Hkbg : lookup k bg = Some (strings (map (str_at m k) order))).
    { rewrite (Hlists k Hk). do 2 f_equal. apply map_ext. intros i.
      apply str_at_same, Hsame, Hk. }
    split.
    + rewrite <- Hkbg. unfold merge_permutation.
      assert (Hbgin : In bg pc).
      { destruct bg as [| e bg0]; [discriminate Hkbg |]. simpl in Hpc.
        inversion Hpc as [| y d pc' ds Hyd Hnil]; subst.
        destruct Hyd as [<- | []]. left; reflexivity. }
      destruct (lookup_merge (pa ++ pb ++ pc) k Hnd []) as [[_ Hnone] | [y' [Hy'in [Hky' ->]]]].
      * exfalso. rewrite (Hnone bg) in Hkbg; [discriminate |].
        apply in_or_app; right; apply in_or_app; right; exact Hbgin.
      * apply in_app_or in Hy'in.
        destruct Hy'in as [Hi | Hi]; [| apply in_app_or in Hi; destruct Hi as [Hi | Hi]].
        -- exfalso. destruct (Hpa' y' Hi) as [k1 [val [Hk1 ->]]]. simpl in Hky'.
           destruct (eq_dec k k1) as [-> | Hne]; [| contradiction].
           destruct (Hs k1 Hk1) as [_ Hnone].
           apply (find_group_none _ _ Hnone g Hg Hk).
        -- exfalso. destruct (Hpb' y' Hi) as [u [Hu Hh]].
           apply (Hout k Hk). apply unit_keys_member. right.
           exists (fst u), (snd u). split; [destruct u; exact Hu |].
           apply (Hholds u y' Hu Hh). exact Hky'.
        -- rewrite (Hpc' y' Hi). reflexivity.
    + intros i Hi. apply (Permutation_in _ (Permutation_sym Hperm)) in Hi.
      apply in_seq in Hi. unfold items in Hi. rewrite (Hsame k0 Hk0) in Hi.
      fold (items m k0) in Hi.
      rewrite (member_lengths tl gs m Hpi g k k0 Hg Hk Hk0). lia.
Qed.


(** X21. The members of a zip group stay aligned in every Config that
    [break_up_top_level_values] returns on a well-formed squished mapping:
    the lists a Config holds under the members of a group are the values
    the mapping holds at one and the same list of positions, so every row
    of the Config is a row of the mapping. *)
Theorem break_up_keeps_zipped_rows
  (tl : list string) (gs : list (list string)) (m : dict) :
  partition_input tl gs m ->
  exists configs,
    break_up_top_level_values tl m = Ok configs
    /\ forall config g,
         In config configs -> In g gs ->
         exists idxs,
           forall k, In k g ->
                     lookup k config = Some (strings (map (str_at m k) idxs))
                     /\ forall i, In i idxs -> i < length (items m k).
Proof.
  intros Hpi. destruct (break_up_group_rows tl gs m Hpi) as [configs [Hrun Hrows]].
  exists configs. split; [exact Hrun |]. intros config g Hconfig Hg.
  destruct (Hrows config g Hconfig Hg) as [idxs [Hlists _]].
  exists idxs. exact Hlists.
Qed.

Lemma break_up_keeps_zipped_rows_witness :
  partition_input ["python"; "c_compiler"] [["python"; "numpy"]] python_numpy
  /\ exists configs,
       break_up_top_level_values ["python"; "c_compiler"] python_numpy = Ok configs
       /\ forall config g,
            In config configs -> In g [["python"; "numpy"]] ->
            exists idxs,
              forall k, In k g ->
                        lookup k config = Some (strings (map (str_at python_numpy k) idxs))
                        /\ forall i, In i idxs -> i < length (items python_numpy k).
Proof.
  split; [exact python_numpy_partition_input |].
  exact (break_up_keeps_zipped_rows
           ["python"; "c_compiler"] [["python"; "numpy"]] python_numpy
           python_numpy_partition_input).
Defined.

Lemma map_const_repeat {A B : Type} (f : A -> B) (c : B) (l : list A) :
  (forall x, In x l -> f x = c) -> map f l = repeat c (length l).
Proof.
  induction l as [| x r IH]; simpl; intros Hall; [reflexivity |].
  rewrite (Hall x (or_introl eq_refl)), IH; [reflexivity |].
  intros y Hy. apply Hall. right; exact Hy.
Qed.

(** X20. Every Config [break_up_top_level_values] returns on a well-formed
    squished mapping has exactly the keys of the mapping. A variable that
    is neither top-level nor in a zip group holds in every Config all its
    values, in ascending order. A top-level variable holds one value of
    the mapping: once when it is in no zip group, and, when it is in a zip
    group, once for every row of the mapping that has the values the
    Config holds for the top-level members of the group. *)
Theorem break_up_configs_keep_every_variable
  (tl : list string) (gs : list (list string)) (m : dict) :
  partition_input tl gs m ->
  exists configs,
    break_up_top_level_values tl m = Ok configs
    /\ forall config, In config configs ->
         (forall k, lookup k config <> None <-> lookup k m <> None)
         /\ (forall k l,
               lookup k m = Some (strings l) ->
               ~ In k tl -> (forall g, In g gs -> ~ In k g) ->
               k <> "zip_keys" -> k <> "pin_run_as_build" ->
               lookup k config = Some (strings (sort_strings l)))
         /\ (forall k, In k tl -> (forall g, In g gs -> ~ In k g) ->
               exists s, In (VStr s) (items m k)
                         /\ lookup k config = Some (strings [s]))
         /\ (forall k g, In k tl -> In g gs -> In k g ->
               exists s,
                 In (VStr s) (items m k)
                 /\ merged_rows tl m config g (length (items m k)) <> []
                 /\ lookup k config
                    = Some (strings
                              (repeat s (length (merged_rows tl m config g
                                                             (length (items m k))))))).
Proof.
  intros Hpi.
  set (P := plan gs tl []).
  set (sq := remove_keys (flat_map unit_keys P) m).
  destruct (break_up_dimensions tl gs m Hpi) as [bg [zss [Hbg [HF Hrun]]]].
  fold P in HF, Hrun. fold sq in Hbg.
  destruct (plan_units gs tl (pi_disjoint _ _ _ Hpi) (pi_set _ _ _ Hpi) [])
    as [Hs [Hz [Hc _]]]; [intros k [] |].
  fold P in Hs, Hz, Hc.
  assert (Hsq : forall k, lookup k sq = if mem k (flat_map unit_keys P) then None
                                        else lookup k m).
  { intros k. apply lookup_remove_keys. }
  assert (Hsq_keys : NoDup (map fst sq)).
  { apply NoDup_keys_remove_keys, (sortable_keys gs m (pi_sortable _ _ _ Hpi)). }
  assert (Hsq_sortable : sortable gs sq).
  { apply (sortable_restrict gs m sq (pi_sortable _ _ _ Hpi) Hsq_keys).
    intros k v. rewrite Hsq. destruct (mem k (flat_map unit_keys P)); [discriminate | auto]. }
  assert (Hbg_keys : map fst bg = map fst sq) by (apply (sort_config_keys _ _ _ Hbg)).
  assert (Hbg_has : forall k, lookup k bg <> None <-> lookup k sq <> None).
  { intros k. rewrite !lookup_In_keys, Hbg_keys. reflexivity. }
  assert (Hunit : forall k, In k (flat_map unit_keys P) ->
            (In k (standalone_keys P) /\ In k tl /\ find (mem k) gs = None)
            \/ exists key g, In (key, g) (zipped_units P) /\ In k g /\ In g gs
                             /\ In key tl /\ In key g).
  { intros k Hk. apply unit_keys_member in Hk. destruct Hk as [Hk | [key [g [Hin Hk]]]].
    - left. destruct (Hs k Hk). auto.
    - right. exists key, g. destruct (Hz key g Hin) as [Hkey [Hf _]].
      destruct (find_group_some _ _ _ Hf). auto. }
  exists (map merge_permutation
              (product (map (standalone_dim m) (standalone_keys P) ++ zss
                        ++ (if is_nil bg then [] else [[bg]])))).
  split; [exact Hrun |]. intros config Hconfig.
  assert (Hgroup : forall g, In g gs ->
            exists idxs,
              (forall k, In k g ->
                         lookup k config = Some (strings (map (str_at m k) idxs))
                         /\ forall i, In i idxs -> i < length (items m k))
              /\ (forall k, In k g -> In k tl ->
                    exists t,
                      zip_class tl m g (length (items m k)) t <> []
                      /\ Permutation (zip_class tl m g (length (items m k)) t) idxs)).
  { destruct (break_up_group_rows tl gs m Hpi) as [configs' [Hrun' Hrows]].
    rewrite Hrun in Hrun'. inversion Hrun'; subst configs'.
    intros g Hg. apply (Hrows config g Hconfig Hg). }
  apply in_map_iff in Hconfig. destruct Hconfig as [perm [<- Hperm]].
  apply product_Forall2 in Hperm.
  assert (Hclass : forall y, In y perm ->
            (exists k0 val, In k0 (standalone_keys P) /\ In val (items m k0)
                            /\ y = [(k0, VList [val])])
            \/ (exists key g zs,
                  In (key, g) (zipped_units P)
                  /\ mapM (fun c => sort_config c (groups_value gs))
                          (zipped_dim tl m g (length (items m key))) = Ok zs
                  /\ In y zs)
            \/ y = bg).
  { intros y Hy. destruct (Forall2_In_l _ _ _ _ Hperm Hy) as [d [Hd Hyd]].
    apply in_app_or in Hd.
    destruct Hd as [Hd | Hd]; [| apply in_app_or in Hd; destruct Hd as [Hd | Hd]].
    - left. apply in_map_iff in Hd. destruct Hd as [k0 [<- Hk0]].
      unfold standalone_dim in Hyd. apply in_map_iff in Hyd.
      destruct Hyd as [val [<- Hval]]. exists k0, val. auto.
    - right; left. destruct (Forall2_In_r _ _ _ _ HF Hd) as [[key g] [Hu Hzs]].
      exists key, g, d. auto.
    - right; right. destruct (is_nil bg); [destruct Hd |].
      destruct Hd as [<- | []]. destruct Hyd as [<- | []]. reflexivity. }
  assert (Hpick : forall d,
            In d (map (standalone_dim m) (standalone_keys P) ++ zss
                  ++ (if is_nil bg then [] else [[bg]])) ->
            exists y, In y perm /\ In y d).
  { intros d Hd. destruct (Forall2_In_r _ _ _ _ Hperm Hd) as [y [Hy Hyd]].
    exists y. auto. }
  assert (Hnd : forall y, In y perm -> NoDup (map fst y)).
  { intros y Hy. destruct (Hclass y Hy) as [[k0 [val [_ [_ ->]]]] | [[key [g [zs [Hu [Hzs Hin]]]]] | ->]].
    - simpl. repeat constructor. intros [].
    - destruct (Hz key g Hu) as [_ [Hf _]].
      apply (zipped_entry_shape tl gs m Hpi g _ zs y (proj1 (find_group_some _ _ _ Hf)) Hzs Hin).
    - rewrite Hbg_keys. exact Hsq_keys. }
  assert (Hfound : forall k,
            (exists y, In y perm /\ lookup k y <> None) ->
            exists y, In y perm /\ lookup k y <> None
                      /\ lookup k (merge_permutation perm) = lookup k y).
  { intros k [y0 [Hy0 Hk0]].
    destruct (lookup_merge perm k Hnd []) as [[_ Hnone] | Hsome]; [| exact Hsome].
    exfalso. apply Hk0, Hnone, Hy0. }
  assert (Hholder : forall k, lookup k m <> None ->
            exists y, In y perm /\ lookup k y <> None).
  { intros k Hk. destruct (in_dec string_dec k (flat_map unit_keys P)) as [Hin | Hout].
    - destruct (Hunit k Hin) as [[Hst _] | [key [g [Hu [Hkg [Hg _]]]]]].
      + destruct (Hpick (standalone_dim m k)) as [y [Hy Hyd]].
        { apply in_or_app. left. apply in_map, Hst. }
        exists y. split; [exact Hy |]. unfold standalone_dim in Hyd.
        apply in_map_iff in Hyd. destruct Hyd as [val [<- _]]. simpl.
        destruct (eq_dec k k); [discriminate | contradiction].
      + destruct (Forall2_In_l _ _ _ _ HF Hu) as [zs [Hzs Hsort]].
        destruct (Hpick zs) as [y [Hy Hyd]].
        { apply in_or_app. right. apply in_or_app. left. exact Hzs. }
        exists y. split; [exact Hy |].
        destruct (zipped_entry_shape tl gs m Hpi g _ zs y Hg Hsort Hyd) as [_ [t [_ [Hin' _]]]].
        destruct (Hin' k Hkg) as [l' [Hl' _]]. rewrite Hl'. discriminate.
    - assert (Hk' : lookup k bg <> None).
      { apply Hbg_has. rewrite Hsq.
        replace (mem k (flat_map unit_keys P)) with false; [exact Hk |].
        symmetry. apply mem_false, Hout. }
      destruct (Hpick [bg]) as [y [Hy Hyd]].
      { apply in_or_app. right. apply in_or_app. right.
        destruct bg; [exfalso; apply Hk'; reflexivity | left; reflexivity]. }
      destruct Hyd as [<- | []]. exists bg. auto. }
  assert (Hbg_out : forall k, In k (flat_map unit_keys P) -> lookup k bg = None).
  { intros k Hk. destruct (lookup k bg) eqn:Hl; [| reflexivity]. exfalso.
    assert (Hne : lookup k bg <> None) by (rewrite Hl; discriminate).
    apply Hbg_has in Hne. apply Hne. rewrite Hsq.
    replace (mem k (flat_map unit_keys P)) with true; [reflexivity |].
    symmetry. apply mem_true, Hk. }
  split; [| split; [| split]].
  - intros k. split.
    + intros Hk.
      destruct (lookup_merge perm k Hnd []) as [[Hsame _] | [y [Hy [Hky _]]]].
      { exfalso. apply Hk. unfold merge_permutation. rewrite Hsame. reflexivity. }
      destruct (Hclass y Hy) as [[k0 [val [Hk0 [_ ->]]]] | [[key [g [zs [Hu [Hzs Hin]]]]] | ->]].
      * simpl in Hky. destruct (eq_dec k k0) as [-> | Hne]; [| contradiction].
        apply (pi_keys _ _ _ Hpi k0). apply (Hs k0 Hk0).
      * destruct (Hz key g Hu) as [_ [Hf _]]. destruct (find_group_some _ _ _ Hf) as [Hg _].
        destruct (zipped_entry_shape tl gs m Hpi g _ zs y Hg Hzs Hin) as [_ [t [_ [_ Hout]]]].
        destruct (in_dec string_dec k g) as [Hkg | Hkg];
          [apply (pi_members _ _ _ Hpi g k Hg Hkg) | rewrite (Hout k Hkg) in Hky; contradiction].
      * apply Hbg_has in Hky. rewrite Hsq in Hky.
        destruct (mem k (flat_map unit_keys P)); [contradiction | exact Hky].
    + intros Hk. destruct (Hfound k (Hholder k Hk)) as [y [_ [Hky ->]]]. exact Hky.
  - intros k l Hl Htl Hfree Hzip Hpin.
    assert (Hout : ~ In k (flat_map unit_keys P)).
    { intros Hin. destruct (Hunit k Hin) as [[_ [Hk _]] | [key [g [_ [Hkg [Hg _]]]]]];
        [contradiction | apply (Hfree g Hg Hkg)]. }
    assert (Hlsq : lookup k sq = Some (strings l)).
    { rewrite Hsq. replace (mem k (flat_map unit_keys P)) with false; [exact Hl |].
      symmetry. apply mem_false, Hout. }
    destruct (sort_config_free_list gs sq Hsq_sortable) as [c' [Hc' Hlists]].
    assert (Hb : Ok c' = Ok bg) by (rewrite <- Hc'; exact Hbg).
    inversion Hb; subst c'. clear Hb.
    assert (Hl' := Hlists k l Hlsq Hzip Hpin Hfree).
    destruct (Hfound k) as [y [Hy [Hky ->]]].
    { apply Hholder. rewrite Hl. discriminate. }
    destruct (Hclass y Hy) as [[k0 [val [Hk0 [_ ->]]]] | [[key [g [zs [Hu [Hzs Hin]]]]] | ->]].
    + simpl in Hky. destruct (eq_dec k k0) as [-> | Hne]; [| contradiction].
      exfalso. apply Htl. apply (Hs k0 Hk0).
    + destruct (Hz key g Hu) as [_ [Hf _]]. destruct (find_group_some _ _ _ Hf) as [Hg _].
      destruct (zipped_entry_shape tl gs m Hpi g _ zs y Hg Hzs Hin) as [_ [t [_ [_ Hnone]]]].
      rewrite (Hnone k (Hfree g Hg)) in Hky. contradiction.
    + exact Hl'.
  - intros k Hk Hfree.
    assert (Hkm : lookup k m <> None) by (apply (pi_keys _ _ _ Hpi k Hk)).
    assert (Hin : In k (flat_map unit_keys P)).
    { apply unit_keys_member. apply Hc; [exact Hk | intros []]. }
    destruct (Hfound k (Hholder k Hkm)) as [y [Hy [Hky ->]]].
    destruct (Hclass y Hy) as [[k0 [val [Hk0 [Hval ->]]]] | [[key [g [zs [Hu [Hzs Hyz]]]]] | ->]].
    + simpl in Hky. simpl. destruct (eq_dec k k0) as [-> | Hne]; [| contradiction].
      destruct (top_level_strings tl gs m Hpi k0 Hk) as [l Hl].
      rewrite (items_strings _ _ _ Hl) in Hval. apply in_map_iff in Hval.
      destruct Hval as [s [<- Hsl]]. exists s. split; [| reflexivity].
      rewrite (items_strings _ _ _ Hl). apply in_map, Hsl.
    + destruct (Hz key g Hu) as [Hkey [Hf _]].
      destruct (find_group_some _ _ _ Hf) as [Hg Hkeyg].
      destruct (zipped_entry_shape tl gs m Hpi g _ zs y Hg Hzs Hyz) as [_ [t [Ht [Hmem Hnone]]]].
      destruct (in_dec string_dec k g) as [Hkg | Hkg];
        [exfalso; apply (Hfree g Hg Hkg) | rewrite (Hnone k Hkg) in Hky; contradiction].
    + rewrite (Hbg_out k Hin) in Hky. contradiction.
  - intros k g Hk Hg Hkg.
    destruct (Hgroup g Hg) as [idxs [Hlists Hrows]].
    destruct (Hrows k Hkg Hk) as [t [Hne Hpm]].
    set (config := merge_permutation perm) in *.
    set (n := length (items m k)) in *.
    set (class := zip_class tl m g n t) in *.
    assert (Hfirst : exists i0, In i0 class).
    { destruct class as [| i0 rest]; [contradiction | exists i0; left; reflexivity]. }
    destruct Hfirst as [i0 Hi0].
    assert (Hi0' : i0 < n /\ zip_key_at tl m g i0 = t) by (apply zip_class_member, Hi0).
    assert (Hlen : forall k', In k' g -> length (items m k') = n)
      by (intros k' Hk'; apply (member_lengths tl gs m Hpi g k' k Hg Hk' Hkg)).
    assert (Hnth : forall k' idx, In k' g -> idx < n ->
              nth_error (items m k') idx = Some (VStr (str_at m k' idx))).
    { intros k' idx Hk' Hidx. destruct (member_strings tl gs m Hpi g k' Hg Hk') as [l Hl].
      apply (str_at_strings m k' l idx Hl).
      rewrite <- (length_map VStr), <- (items_strings _ _ _ Hl), (Hlen k' Hk'). exact Hidx. }
    assert (Hconst : forall k', In k' g -> In k' tl ->
              lookup k' config
              = Some (strings (repeat (str_at m k' i0) (length class)))).
    { intros k' Hk'g Hk'tl. rewrite (proj1 (Hlists k' Hk'g)). do 2 f_equal.
      rewrite (Permutation_length Hpm). apply map_const_repeat. intros i Hi.
      apply (Permutation_in _ (Permutation_sym Hpm)) in Hi. apply zip_class_member in Hi.
      apply (zip_key_same tl m g i i0 k'); [| exact Hk'g | exact Hk'tl].
      rewrite (proj2 Hi), (proj2 Hi0'). reflexivity. }
    assert (Hagrees : forall k' idx, In k' (filter (fun k => mem k tl) g) -> idx < n ->
              agrees m config idx k' = String.eqb (str_at m k' i0) (str_at m k' idx)).
    { intros k' idx Hk' Hidx. apply filter_In in Hk'. destruct Hk' as [Hk'g Hk'tl].
      apply mem_true in Hk'tl. unfold agrees, top_value.
      rewrite (Hconst k' Hk'g Hk'tl), (Hnth k' idx Hk'g Hidx).
      destruct (length class) eqn:Hlc; [| reflexivity].
      apply length_zero_iff_nil in Hlc. contradiction. }
    assert (Hsame : merged_rows tl m config g n = class).
    { unfold merged_rows, class, zip_class. apply filter_ext_in. intros idx Hidx.
      apply in_seq in Hidx.
      destruct (eq_dec (zip_key_at tl m g idx) t) as [He | Hd].
      - apply forallb_forall. intros k' Hk'. rewrite (Hagrees k' idx Hk'); [| lia].
        apply String.eqb_eq. apply filter_In in Hk'. destruct Hk' as [Hk'g Hk'tl].
        apply (zip_key_same tl m g i0 idx k'); [| exact Hk'g | apply mem_true, Hk'tl].
        rewrite He. apply Hi0'.
      - destruct (forallb (agrees m config idx) (filter (fun k0 => mem k0 tl) g)) eqn:Hf;
          [| reflexivity].
        exfalso. apply Hd. rewrite <- (proj2 Hi0'). unfold zip_key_at. apply map_ext_in.
        intros k' Hk'. rewrite forallb_forall in Hf. specialize (Hf k' Hk').
        rewrite (Hagrees k' idx Hk') in Hf; [| lia].
        apply String.eqb_eq in Hf. symmetry. exact Hf. }
    exists (str_at m k i0). rewrite Hsame. split; [| split].
    + apply (nth_error_In _ i0). apply Hnth; [exact Hkg | apply Hi0'].
    + exact Hne.
    + apply Hconst; assumption.
Qed.

Lemma break_up_configs_keep_every_variable_witness :
  partition_input ["python"; "c_compiler"] [["python"; "numpy"]] python_numpy
  /\ exists configs,
       break_up_top_level_values ["python"; "c_compiler"] python_numpy = Ok configs
       /\ forall config, In config configs ->
            (forall k, lookup k config <> None <-> lookup k python_numpy <> None)
            /\ (forall k, In k ["python"; "c_compiler"] ->
                  (forall g, In g [["python"; "numpy"]] -> ~ In k g) ->
                  exists s, In (VStr s) (items python_numpy k)
                            /\ lookup k config = Some (strings [s])).
Proof.
  split; [exact python_numpy_partition_input |].
  destruct (break_up_configs_keep_every_variable
              ["python"; "c_compiler"] [["python"; "numpy"]] python_numpy
              python_numpy_partition_input) as [configs [Hrun Hall]].
  exists configs. split; [exact Hrun |]. intros config Hconfig.
  destruct (Hall config Hconfig) as [Hkeys [_ [Hfree _]]]. split; assumption.
Defined.

(** The first Config of the scenario: the two rows with [python] 3.9 are
    merged, so [python] holds its value twice. *)
Example python_numpy_first_config :
  option_map (fun configs => nth 0 configs [])
             (match break_up_top_level_values ["python"; "c_compiler"] python_numpy with
              | Ok configs => Some configs
              | Raise _ => None
              end)
  = Some [("c_compiler", strings ["gcc"]);
          ("python", strings ["3.9"; "3.9"]);
          ("numpy", strings ["1.21"; "1.22"]);
          ("docker_image", strings ["quay.io/condaforge/linux-anvil-cos7-x86_64"]);
          ("zip_keys", groups_value [["python"; "numpy"]])].
Proof. vm_compute. reflexivity. Qed.


(** ** [dump_subspace_config_files] *)

Lemma Forall2_Permutation_r {A B : Type} (R : A -> B -> Prop) (l' l'' : list B) :
  Permutation l' l'' ->
  forall l, Forall2 R l l' -> exists l0, Permutation l l0 /\ Forall2 R l0 l''.
Proof.
  induction 1 as [| x t t' _ IH | x y t | t1 t2 t3 _ IH1 _ IH2]; intros l HF.
  - inversion HF; subst. exists []. split; constructor.
  - inversion HF as [| a x' la t0 Hax Hrest]; subst.
    destruct (IH la Hrest) as [l0 [Hp HF0]].
    exists (a :: l0). split; [apply perm_skip, Hp | constructor; assumption].
  - inversion HF as [| a y' la t0 Hay Hrest]; subst.
    inversion Hrest as [| b x' lb t1 Hbx Hrest']; subst.
    exists (b :: a :: lb). split; [apply perm_swap |].
    constructor; [exact Hbx |]. constructor; assumption.
  - destruct (IH1 l HF) as [l0 [Hp0 HF0]]. destruct (IH2 l0 HF0) as [l1 [Hp1 HF1]].
    exists l1. split; [apply (perm_trans Hp0 Hp1) | exact HF1].
Qed.

(** X22. The list [dump_subspace_config_files] returns has exactly one
    entry for every config, in ascending order of the config names: the
    entries match the configs one for one along a rearrangement of the
    configs. The entry of a config carries the names derived from the
    [package_key] of the config, the config as [finalize_config] leaves it,
    its first [target_platform] or else the platform and the architecture
    joined by a hyphen, the [upload] flag, and a short name of fewer than
    49 characters. *)
Theorem dump_subspace_config_files_sorted (repr : value -> string)
  (sha256_hex : string -> string) (configs : list dict)
  (top_level_loop_vars : list string) (platform arch : string) (upload : bool)
  (forge_config : dict) (result : list dumped) :
  dump_subspace_config_files repr sha256_hex configs top_level_loop_vars platform arch
                             upload forge_config = Ok result ->
  length result = length configs
  /\ StronglySorted (fun a b => string_le (dumped_config_name a) (dumped_config_name b))
                    result
  /\ exists ordered,
       Permutation configs ordered
       /\ Forall2 (fun config entry =>
                     String.length (dumped_short_config_name entry) < 49
                     /\ dumped_upload entry = upload
                     /\ target_platform_of (dumped_config entry) platform arch
                        = Ok (dumped_platform entry)
                     /\ finalize_config config platform arch forge_config
                        = Ok (dumped_config entry)
                     /\ exists key,
                          package_key repr config top_level_loop_vars = Ok key
                          /\ (dumped_config_name entry, dumped_short_config_name entry)
                             = config_names sha256_hex platform arch key)
                  ordered result.
Proof.
  unfold dump_subspace_config_files. intros Hd. inv_bind Hd. rename a into entries.
  inversion Hd; subst result. clear Hd.
  set (ltb := fun a b => String.ltb (dumped_config_name a) (dumped_config_name b)).
  split; [| split].
  - rewrite <- (Permutation_length (sort_pure_perm ltb entries)).
    apply (mapM_length _ _ _ Ha).
  - apply (sort_pure_StronglySorted ltb).
    + intros a b. apply string_ltb_leb.
    + intros a b. apply String.leb_total.
    + intros a b c. apply string_leb_trans.
  - apply mapM_ok_Forall2 in Ha.
    destruct (Forall2_Permutation_r _ _ _ (sort_pure_perm ltb entries) configs Ha)
      as [ordered [Hp HF]].
    exists ordered. split; [exact Hp |].
    apply (Forall2_weaken_In
             (fun config entry =>
                dump_config repr sha256_hex top_level_loop_vars platform arch upload
                            forge_config config = Ok entry)); [| exact HF].
    intros config entry _ Hdump.
    unfold dump_config in Hdump. inv_bind Hdump. rename a into key.
    inv_bind Hdump. rename a into config'. inv_bind Hdump. rename a into target.
    inv_bind Hdump. destruct a as [build_platform | l | d]; try discriminate.
    assert (He : entry
                 = mk_dumped (fst (config_names sha256_hex platform arch key)) target upload
                             config' (snd (config_names sha256_hex platform arch key))
                             (replace_char "_" "-" build_platform)) by congruence.
    rewrite He. cbn [dumped_short_config_name dumped_config dumped_platform
                     dumped_config_name dumped_upload].
    split; [apply (short_name_length sha256_hex platform arch key) |].
    split; [reflexivity |]. split; [assumption |]. split; [assumption |].
    exists key. split; [assumption |].
    destruct (config_names sha256_hex platform arch key); reflexivity.
Qed.

Lemma dump_subspace_config_files_sorted_witness :
  exists result,
    dump_subspace_config_files (fun _ => "") (fun _ => "")
      [[("python", strings ["3.9"])]; [("python", strings ["3.10"])]]
      ["python"] "linux" "64" true linux_forge_config = Ok result
    /\ map dumped_config_name result = ["linux_64_python3.10"; "linux_64_python3.9"]
    /\ length result = 2
    /\ StronglySorted (fun a b => string_le (dumped_config_name a) (dumped_config_name b))
                      result.
Proof.
  eexists. split; [reflexivity |]. split; [reflexivity |].
  destruct (dump_subspace_config_files_sorted (fun _ => "") (fun _ => "")
              [[("python", strings ["3.9"])]; [("python", strings ["3.10"])]]
              ["python"] "linux" "64" true linux_forge_config _ eq_refl)
    as [Hlen [Hsorted _]].
  split; [exact Hlen | exact Hsorted].
Defined.

(** * Properties that rest on the lemmas above *)

(** ** [break_up_top_level_values] and a name that is no key *)








(** Without top-level keys the zipped lists of the scenario come out in the
    order of their rows, not each in ascending order. *)
Example python_numpy_background :
  option_map (fun configs => map (fun c => (lookup "python" c, lookup "numpy" c)) configs)
             (match break_up_top_level_values [] python_numpy with
              | Ok configs => Some configs
              | Raise _ => None
              end)
  = Some [(Some (strings ["3.10"; "3.9"; "3.9"]), Some (strings ["1.23"; "1.21"; "1.22"]))].
Proof. vm_compute. reflexivity. Qed.

(** ** Insertion sort under an order that holds of the elements at hand *)

Section SortPureOn.
Context {A : Type} (ltb : A -> A -> bool) (le : A -> A -> Prop) (P : A -> Prop).
Hypothesis ltb_le : forall a b, P a -> P b -> (ltb b a = false <-> le a b).
Hypothesis le_total : forall a b, P a -> P b -> le a b \/ le b a.
Hypothesis le_trans : forall a b c, P a -> P b -> P c -> le a b -> le b c -> le a c.

Lemma insert_pure_sorted_on (x : A) (l : list A) :
  P x -> Forall P l -> StronglySorted le l -> StronglySorted le (insert_pure ltb x l).
Proof.
  intros Px. induction l as [| y r IH]; simpl; intros HP Hs.
  - repeat constructor.
  - inversion HP as [| ? ? Py Pr]; subst. inversion Hs as [| ? ? Hr Hy]; subst.
    destruct (ltb y x) eqn:Hyx.
    + constructor; [apply IH; assumption |].
      assert (Hle : le y x).
      { destruct (le_total y x Py Px) as [Hle | Hle]; [exact Hle |].
        apply (ltb_le x y Px Py) in Hle. congruence. }
      apply Forall_forall. intros z Hz.
      apply (Permutation_in _ (Permutation_sym (insert_pure_perm ltb x r))) in Hz.
      destruct Hz as [<- | Hz]; [exact Hle |].
      rewrite Forall_forall in Hy. apply Hy, Hz.
    + assert (Hle : le x y) by (apply (ltb_le x y Px Py), Hyx).
      constructor; [exact Hs |]. constructor; [exact Hle |].
      rewrite Forall_forall in *. intros z Hz.
      apply (le_trans x y z Px Py (Pr z Hz) Hle (Hy z Hz)).
Qed.

Lemma sort_pure_sorted_on (l : list A) :
  Forall P l -> StronglySorted le (sort_pure ltb l).
Proof.
  induction l as [| x r IH]; simpl; intros HP; [constructor |].
  inversion HP as [| ? ? Px Pr]; subst.
  apply insert_pure_sorted_on; [exact Px | | apply IH, Pr].
  rewrite Forall_forall in *. intros z Hz. apply Pr.
  apply (Permutation_in _ (Permutation_sym (sort_pure_perm ltb r)) Hz).
Qed.
End SortPureOn.

Lemma StronglySorted_map_on {A B : Type} (R : A -> A -> Prop) (R' : B -> B -> Prop)
  (P : A -> Prop) (f : A -> B) (l : list A) :
  (forall a b, P a -> P b -> R a b -> R' (f a) (f b)) ->
  Forall P l -> StronglySorted R l -> StronglySorted R' (map f l).
Proof.
  intros Hf HP Hs. induction Hs as [| a r Hr IH Ha]; simpl; [constructor |].
  inversion HP as [| ? ? Pa Pr]; subst. constructor; [apply IH, Pr |].
  rewrite Forall_forall in *. intros y Hy. apply in_map_iff in Hy.
  destruct Hy as [b [<- Hb]]. apply Hf; auto.
Qed.

Lemma mapM_Permutation {A B : Type} (f : A -> result B) (l l' : list A) :
  Permutation l l' ->
  forall r, mapM f l = Ok r -> exists r', mapM f l' = Ok r' /\ Permutation r r'.
Proof.
  induction 1 as [| x l l' _ IH | x y l | l1 l2 l3 _ IH1 _ IH2]; intros r Hm.
  - exists r. split; [exact Hm | apply Permutation_refl].
  - simpl in Hm. inv_bind Hm. inv_bind Hm. inversion Hm; subst r.
    destruct (IH a0 Ha0) as [r' [Hr' Hp]]. exists (a :: r'). simpl.
    rewrite Ha, Hr'. split; [reflexivity | apply perm_skip, Hp].
  - simpl in Hm. inv_bind Hm. inv_bind Hm. inversion Hm; subst r.
    inv_bind Ha0. inv_bind Ha0. inversion Ha0; subst a0.
    exists (a1 :: a :: a2). simpl. rewrite Ha1, Ha, Ha2.
    split; [reflexivity | apply perm_swap].
  - destruct (IH1 r Hm) as [r1 [Hr1 Hp1]]. destruct (IH2 r1 Hr1) as [r2 [Hr2 Hp2]].
    exists r2. split; [exact Hr2 | apply (perm_trans Hp1 Hp2)].
Qed.

(** ** [migrate_combined_spec] *)

Lemma Z_ordered_stamps (ts : list Z) : ordered_stamps Z.ltb ts.
Proof.
  constructor.
  - reflexivity.
  - intros a b _ _. simpl.
    destruct (Z.eqb_spec a b), (Z.ltb_spec a b), (Z.ltb_spec b a); simpl; try reflexivity; lia.
  - intros a b _ _. rewrite Z.ltb_lt, Z.ltb_ge. lia.
  - intros a b c _ _ _. rewrite !Z.ltb_ge. lia.
Qed.

Section OrderedStamps.
Context {T : Type} `{Stamp T} (ltb : T -> T -> bool) (ts : list T).
Hypothesis Hos : ordered_stamps ltb ts.

Lemma stamps_ltb_trans (a b c : T) :
  In a ts -> In b ts -> In c ts -> ltb a b = true -> ltb b c = true -> ltb a c = true.
Proof.
  intros Ha Hb Hc Hab Hbc. destruct (ltb a c) eqn:Hac; [reflexivity |].
  assert (Hcb : ltb c b = false) by (apply (os_asym _ _ Hos b c Hb Hc Hbc)).
  rewrite (os_trans _ _ Hos a c b Ha Hc Hb Hac Hcb) in Hab. discriminate.
Qed.

Lemma keyed_ltb_le {X : Type} (a b : (T * string) * X) :
  In (fst (fst a)) ts -> In (fst (fst b)) ts ->
  (keyed_ltb ltb b a = false <-> keyed_le ltb a b).
Proof.
  destruct a as [[ta fa] xa], b as [[tb fb] xb]. unfold keyed_ltb, keyed_le, key_le.
  cbn [fst snd]. intros Ha Hb. rewrite (os_eq _ _ Hos tb ta Hb Ha).
  destruct (ltb ta tb) eqn:Hab.
  - rewrite (os_asym _ _ Hos ta tb Ha Hb Hab). simpl. split; auto.
  - destruct (ltb tb ta) eqn:Hba; simpl.
    + split; [discriminate | intros [Hx | [Hx _]]; discriminate].
    + rewrite string_ltb_leb. split; [intros Hle; right; auto | intros [Hx | [_ Hle]]];
        [discriminate | exact Hle].
Qed.

Lemma key_le_total (a b : T * string) :
  In (fst a) ts -> In (fst b) ts -> key_le ltb a b \/ key_le ltb b a.
Proof.
  destruct a as [ta fa], b as [tb fb]. unfold key_le. cbn [fst snd]. intros Ha Hb.
  destruct (ltb ta tb) eqn:Hab; [left; left; reflexivity |].
  destruct (ltb tb ta) eqn:Hba; [right; left; reflexivity |].
  destruct (String.leb_total fa fb) as [Hle | Hle]; [left | right]; right; auto.
Qed.

Lemma key_le_trans (a b c : T * string) :
  In (fst a) ts -> In (fst b) ts -> In (fst c) ts ->
  key_le ltb a b -> key_le ltb b c -> key_le ltb a c.
Proof.
  destruct a as [ta fa], b as [tb fb], c as [tc fc]. unfold key_le. cbn [fst snd].
  intros Ha Hb Hc [Hab | [Hba Hf]] [Hbc | [Hcb Hg]].
  - left. apply (stamps_ltb_trans ta tb tc); assumption.
  - left. destruct (ltb ta tc) eqn:Hac; [reflexivity |].
    rewrite (os_trans _ _ Hos ta tc tb Ha Hc Hb Hac Hcb) in Hab. discriminate.
  - left. destruct (ltb ta tc) eqn:Hac; [reflexivity |].
    rewrite (os_trans _ _ Hos tb ta tc Hb Ha Hc Hba Hac) in Hbc. discriminate.
  - right. split; [apply (os_trans _ _ Hos tc tb ta Hc Hb Ha Hcb Hba) |].
    apply (string_leb_trans _ _ _ Hf Hg).
Qed.

Lemma key_le_names (a b : T * string) :
  In (fst a) ts -> In (fst b) ts ->
  key_le ltb a b -> key_le ltb b a -> snd a = snd b.
Proof.
  destruct a as [ta fa], b as [tb fb]. unfold key_le. cbn [fst snd].
  intros Ha Hb [Hab | [Hba Hf]] [Hba' | [Hab' Hg]].
  - rewrite (os_asym _ _ Hos ta tb Ha Hb Hab) in Hba'. discriminate.
  - congruence.
  - congruence.
  - apply String.leb_antisym; assumption.
Qed.

Lemma keyed_sorted (keys : list ((T * string) * (string * migration T))) :
  Forall (is_keyed ts) keys ->
  StronglySorted (keyed_le ltb) (sort_pure (keyed_ltb ltb) keys).
Proof.
  apply (sort_pure_sorted_on (keyed_ltb ltb) (keyed_le ltb) (is_keyed ts)).
  - intros a b [Ha _] [Hb _]. apply keyed_ltb_le; assumption.
  - intros a b [Ha _] [Hb _]. apply key_le_total; assumption.
  - intros a b c [Ha _] [Hb _] [Hc _]. apply key_le_trans; assumption.
Qed.

Lemma sorted_keys (keys : list ((T * string) * (string * migration T))) :
  Forall (is_keyed ts) keys ->
  sorted_by (fun a b => migration_key_lt (fst a) (fst b)) keys
  = Ok (sort_pure (keyed_ltb ltb) keys).
Proof.
  intros HP. apply sorted_by_pure. intros a b Ha Hb. rewrite Forall_forall in HP.
  destruct (HP a Ha) as [Hta _]. destruct (HP b Hb) as [Htb _].
  unfold migration_key_lt, keyed_ltb.
  destruct (stamp_eqb (fst (fst a)) (fst (fst b))); [reflexivity |].
  apply (os_lt _ _ Hos); assumption.
Qed.
End OrderedStamps.

Lemma migration_keys {T : Type} (ms : list (string * migration T))
  (keys : list ((T * string) * (string * migration T))) :
  mapM (fun fn_v => k <- migration_key fn_v ;; Ok (k, fn_v)) ms = Ok keys ->
  map snd keys = ms /\ Forall (is_keyed (stamps ms)) keys.
Proof.
  revert keys; induction ms as [| fn_v r IH]; intros keys Hm; simpl in Hm.
  - inversion Hm; subst. split; constructor.
  - inv_bind Hm. inv_bind Hm. inversion Hm; subst keys. inv_bind Ha. inversion Ha; subst a.
    unfold migration_key in Ha1. destruct (migrator_ts (snd fn_v)) as [t |] eqn:Hts;
      [| discriminate]. inversion Ha1; subst a1.
    destruct (IH a0 Ha0) as [Hsnd HP]. split; [simpl; rewrite Hsnd; reflexivity |].
    assert (Hst : stamps (fn_v :: r) = t :: stamps r)
      by (unfold stamps; simpl; rewrite Hts; reflexivity).
    rewrite Hst. constructor.
    + unfold is_keyed. cbn [fst snd]. split; [left; reflexivity | auto].
    + rewrite Forall_forall in *. intros a Hin. destruct (HP a Hin) as [Ht Hrest].
      split; [right; exact Ht | exact Hrest].
Qed.

Lemma migration_keys_total {T : Type} (ms : list (string * migration T)) :
  (forall fn_v, In fn_v ms -> migrator_ts (snd fn_v) <> None) ->
  exists keys, mapM (fun fn_v => k <- migration_key fn_v ;; Ok (k, fn_v)) ms = Ok keys.
Proof.
  induction ms as [| fn_v r IH]; simpl; intros Hts; [eexists; reflexivity |].
  unfold migration_key at 1.
  destruct (migrator_ts (snd fn_v)) as [t |] eqn:Ht;
    [| exfalso; apply (Hts fn_v (or_introl eq_refl) Ht)].
  cbn [bind]. destruct IH as [keys Hk]; [intros; apply Hts; right; assumption |].
  rewrite Hk. eexists; reflexivity.
Qed.

Lemma stamps_Permutation {T : Type} (ms ms' : list (string * migration T)) :
  Permutation ms ms' -> forall t, In t (stamps ms) -> In t (stamps ms').
Proof.
  intros Hp t Ht. unfold stamps in *. apply in_flat_map in Ht.
  destruct Ht as [fn_v [Hin Ht]]. apply in_flat_map. exists fn_v.
  split; [apply (Permutation_in _ Hp Hin) | exact Ht].
Qed.

(** The loop adds the patches that are not empty, one after the other. *)
Lemma apply_migrations_patches {T : Type} (variant_add : dict -> dict -> result dict)
  (ms : list (string * migration T)) :
  forall combined_spec,
    foldM (apply_migration variant_add) ms combined_spec
    = foldM variant_add (patches ms) combined_spec.
Proof.
  induction ms as [| fn_v r IH]; intros spec; [reflexivity |].
  unfold patches. cbn [foldM map filter]. unfold apply_migration at 1.
  destruct (patch (snd fn_v)) as [| kv p] eqn:Hp; cbn [is_nil negb bind foldM].
  - apply IH.
  - destruct (variant_add spec (kv :: p)); [apply IH | reflexivity].
Qed.

(** What [sort_migrations] returns on migrations that all have a timestamp,
    the timestamps being ordered. *)
Lemma sort_migrations_ordered {T : Type} `{Stamp T} (ltb : T -> T -> bool)
  (ms : list (string * migration T)) :
  (forall fn_v, In fn_v ms -> migrator_ts (snd fn_v) <> None) ->
  ordered_stamps ltb (stamps ms) ->
  exists ordered,
    sort_migrations ms = Ok ordered
    /\ Permutation ms ordered
    /\ StronglySorted (migration_le ltb) ordered.
Proof.
  intros Hts Hos. destruct (migration_keys_total ms Hts) as [keys Hk].
  destruct (migration_keys ms keys Hk) as [Hsnd HP].
  exists (map snd (sort_pure (keyed_ltb ltb) keys)). split; [| split].
  - unfold sort_migrations. rewrite Hk. cbn [bind].
    rewrite (sorted_keys ltb (stamps ms) Hos keys HP). reflexivity.
  - rewrite <- Hsnd at 1. apply Permutation_map, sort_pure_perm.
  - apply (StronglySorted_map_on (keyed_le ltb) _ (is_keyed (stamps ms))).
    + intros a b [_ [Hfa Hta]] [_ [Hfb Htb]] Hle. unfold migration_le.
      rewrite Hta, Htb, <- Hfa, <- Hfb. destruct a as [[ta fa] xa], b as [[tb fb] xb].
      exact Hle.
    + rewrite Forall_forall in *. intros a Ha. apply HP.
      apply (Permutation_in _ (Permutation_sym (sort_pure_perm _ keys)) Ha).
    + apply (keyed_sorted ltb (stamps ms) Hos keys HP).
Qed.

(** Migrations with distinct file names have one ascending arrangement. *)
Lemma ascending_migrations_unique {T : Type} `{Stamp T} (ltb : T -> T -> bool)
  (ms o o' : list (string * migration T)) :
  ordered_stamps ltb (stamps ms) ->
  NoDup (map fst ms) ->
  (forall fn_v, In fn_v o -> In fn_v ms) ->
  StronglySorted (migration_le ltb) o -> StronglySorted (migration_le ltb) o' ->
  Permutation o o' -> o = o'.
Proof.
  intros Hos Hnd Hsub Hs Hs' Hp.
  apply (StronglySorted_unique (migration_le ltb)); try assumption.
  intros a b Ha Hb Hab Hba.
  assert (Hain : In a ms) by (apply Hsub, Ha).
  assert (Hbin : In b ms) by (apply Hsub, Hb).
  apply (NoDup_map_injective fst ms); try assumption.
  unfold migration_le in Hab, Hba.
  destruct (migrator_ts (snd a)) as [ta |] eqn:Hta; [| contradiction].
  destruct (migrator_ts (snd b)) as [tb |] eqn:Htb; [| contradiction].
  apply (key_le_names ltb (stamps ms) Hos (ta, fst a) (tb, fst b)); try assumption.
  - unfold stamps. apply in_flat_map. exists a. rewrite Hta. split; [exact Hain | left; reflexivity].
  - unfold stamps. apply in_flat_map. exists b. rewrite Htb. split; [exact Hbin | left; reflexivity].
Qed.

Lemma ordered_stamps_sub {T : Type} `{Stamp T} (ltb : T -> T -> bool) (ts ts' : list T) :
  (forall t, In t ts' -> In t ts) -> ordered_stamps ltb ts -> ordered_stamps ltb ts'.
Proof.
  intros Hin Hos. constructor.
  - intros a b Ha Hb. apply (os_lt _ _ Hos); auto.
  - intros a b Ha Hb. apply (os_eq _ _ Hos); auto.
  - intros a b Ha Hb. apply (os_asym _ _ Hos); auto.
  - intros a b c Ha Hb Hc. apply (os_trans _ _ Hos); auto.
Qed.

(** C3: when every parsed migration has its [migrator_ts] and the
    timestamps are ordered, [migrate_combined_spec] adds the patches to the
    combined spec with [variant_add], one after the other from the left,
    along the rearrangement of the migrations that ascends by timestamp,
    then by file name; a migration that holds nothing besides its timestamp
    adds nothing. The result is therefore the same for every order in which
    the same files are listed. *)
Theorem migrations_apply_in_ascending_order {T : Type} `{Stamp T} (ltb : T -> T -> bool)
  (variant_add : dict -> dict -> result dict)
  (combined_spec : dict) (migration_variants : list (string * migration T)) :
  (forall fn_v, In fn_v migration_variants -> migrator_ts (snd fn_v) <> None) ->
  ordered_stamps ltb (stamps migration_variants) ->
  exists ordered,
    Permutation migration_variants ordered
    /\ StronglySorted (migration_le ltb) ordered
    /\ migrate_combined_spec variant_add combined_spec migration_variants
       = foldM variant_add (patches ordered) combined_spec
    /\ (NoDup (map fst migration_variants) ->
        forall listed, Permutation migration_variants listed ->
          migrate_combined_spec variant_add combined_spec listed
          = migrate_combined_spec variant_add combined_spec migration_variants).
Proof.
  intros Hts Hos.
  destruct (sort_migrations_ordered ltb migration_variants Hts Hos)
    as [ordered [Hsort [Hp Hs]]].
  exists ordered. split; [exact Hp |]. split; [exact Hs |]. split.
  - unfold migrate_combined_spec. rewrite Hsort. cbn [bind].
    apply apply_migrations_patches.
  - intros Hnd listed Hl.
    assert (Hts' : forall fn_v, In fn_v listed -> migrator_ts (snd fn_v) <> None).
    { intros fn_v Hin. apply Hts. apply (Permutation_in _ (Permutation_sym Hl) Hin). }
    assert (Hos' : ordered_stamps ltb (stamps listed)).
    { apply (ordered_stamps_sub ltb (stamps migration_variants)); [| exact Hos].
      apply stamps_Permutation, Permutation_sym, Hl. }
    destruct (sort_migrations_ordered ltb listed Hts' Hos') as [ordered' [Hsort' [Hp' Hs']]].
    unfold migrate_combined_spec. rewrite Hsort, Hsort'.
    rewrite (ascending_migrations_unique ltb migration_variants ordered ordered' Hos Hnd);
      try assumption; [reflexivity | |].
    + intros fn_v Hin. apply (Permutation_in _ (Permutation_sym Hp) Hin).
    + apply (perm_trans (Permutation_sym Hp)). apply (perm_trans Hl Hp').
Qed.

Lemma migrations_apply_in_ascending_order_witness :
  (forall fn_v, In fn_v three_one_two -> migrator_ts (snd fn_v) <> None)
  /\ ordered_stamps Z.ltb (stamps three_one_two)
  /\ exists ordered,
       Permutation three_one_two ordered
       /\ StronglySorted (migration_le Z.ltb) ordered
       /\ migrate_combined_spec (fun spec p => Ok (update spec p)) [] three_one_two
          = foldM (fun spec p => Ok (update spec p)) (patches ordered) [].
Proof.
  assert (Hts : forall fn_v, In fn_v three_one_two -> migrator_ts (snd fn_v) <> None).
  { intros fn_v [<- | [<- | [<- | []]]]; discriminate. }
  split; [exact Hts |]. split; [apply Z_ordered_stamps |].
  destruct (migrations_apply_in_ascending_order Z.ltb (fun spec p => Ok (update spec p)) []
              three_one_two Hts (Z_ordered_stamps _)) as [ordered [Hp [Hs [Hrun _]]]].
  exists ordered. auto.
Defined.

(** Migrations stamped 3, 1 and 2 are merged as the patches of the
    migrations stamped 1, 2 and 3 added in that order, whatever
    [variant_add] is. *)
Example migrations_three_one_two (variant_add : dict -> dict -> result dict)
  (combined_spec : dict) :
  migrate_combined_spec variant_add combined_spec three_one_two
  = (spec1 <- variant_add combined_spec [("python", VList [VStr "3.10"])] ;;
     spec2 <- variant_add spec1 [("python", VList [VStr "3.11"])] ;;
     variant_add spec2 [("python", VList [VStr "3.12"])]).
Proof.
  unfold migrate_combined_spec. cbn.
  destruct (variant_add combined_spec [("python", VList [VStr "3.10"])]) as [s1 |];
    [| reflexivity]. cbn.
  destruct (variant_add s1 [("python", VList [VStr "3.11"])]) as [s2 |]; [| reflexivity].
  cbn. destruct (variant_add s2 [("python", VList [VStr "3.12"])]); reflexivity.
Qed.

(** ** [migrate_combined_spec]: its errors, and migrations that add nothing *)

Lemma mapM_raise {A B : Type} (f : A -> result B) (e : exn) (l : list A) :
  (forall x e', In x l -> f x = Raise e' -> e' = e) ->
  (exists x, In x l /\ f x = Raise e) ->
  mapM f l = Raise e.
Proof.
  induction l as [| x r IH]; simpl; intros Hall [y [Hy Hf]]; [destruct Hy |].
  destruct (f x) as [b | e'] eqn:Hx; cbn [bind].
  - destruct Hy as [<- | Hy]; [congruence |].
    rewrite IH; [reflexivity | intros; eapply Hall; eauto | exists y; auto].
  - rewrite (Hall x e' (or_introl eq_refl) Hx). reflexivity.
Qed.

Lemma Permutation_filter {A : Type} (p : A -> bool) (l l' : list A) :
  Permutation l l' -> Permutation (filter p l) (filter p l').
Proof.
  induction 1 as [| x l l' _ IH | x y l | l1 l2 l3 _ IH1 _ IH2]; simpl.
  - constructor.
  - destruct (p x); [apply perm_skip, IH | exact IH].
  - destruct (p x), (p y); try apply Permutation_refl. apply perm_swap.
  - apply (perm_trans IH1 IH2).
Qed.

Lemma StronglySorted_filter {A : Type} (R : A -> A -> Prop) (p : A -> bool) (l : list A) :
  StronglySorted R l -> StronglySorted R (filter p l).
Proof.
  induction 1 as [| x l _ IH Hx]; simpl; [constructor |].
  destruct (p x); [| exact IH]. constructor; [exact IH |].
  rewrite Forall_forall in *. intros y Hy. apply filter_In in Hy. apply Hx, Hy.
Qed.

Lemma patches_filter {T : Type} (ms : list (string * migration T)) :
  patches (filter (fun fn_v => negb (is_nil (patch (snd fn_v)))) ms) = patches ms.
Proof.
  unfold patches. induction ms as [| fn_v r IH]; [reflexivity |].
  cbn [filter map]. destruct (negb (is_nil (patch (snd fn_v)))) eqn:Hp.
  - cbn [filter map]. rewrite Hp. f_equal. exact IH.
  - exact IH.
Qed.

(** X11. [migrate_combined_spec] raises [KeyError] as soon as one parsed
    migration has no [migrator_ts], whatever the comparison of the
    timestamps and [variant_add] do: the keys are computed before anything
    is compared or added. When every migration has a timestamp, the
    timestamps are ordered and the file names are distinct, the migrations
    that hold nothing besides their timestamp can be left out of the list:
    the result is the same. *)
Theorem migrate_combined_spec_needs_timestamps {T : Type} `{Stamp T}
  (ltb : T -> T -> bool) (variant_add : dict -> dict -> result dict)
  (combined_spec : dict) (migration_variants : list (string * migration T)) :
  ((exists fn_v, In fn_v migration_variants /\ migrator_ts (snd fn_v) = None) ->
   migrate_combined_spec variant_add combined_spec migration_variants = Raise KeyError)
  /\ ((forall fn_v, In fn_v migration_variants -> migrator_ts (snd fn_v) <> None) ->
      ordered_stamps ltb (stamps migration_variants) ->
      NoDup (map fst migration_variants) ->
      migrate_combined_spec variant_add combined_spec
        (filter (fun fn_v => negb (is_nil (patch (snd fn_v)))) migration_variants)
      = migrate_combined_spec variant_add combined_spec migration_variants).
Proof.
  split.
  - intros [fn_v [Hin Hts]]. unfold migrate_combined_spec, sort_migrations.
    rewrite (mapM_raise _ KeyError); [reflexivity | |].
    + intros x e' _. unfold migration_key. destruct (migrator_ts (snd x)); simpl;
        intros He; inversion He; reflexivity.
    + exists fn_v. split; [exact Hin |]. unfold migration_key. rewrite Hts. reflexivity.
  - intros Hts Hos Hnd.
    set (p := fun fn_v : string * migration T => negb (is_nil (patch (snd fn_v)))).
    assert (Hsub : forall fn_v, In fn_v (filter p migration_variants) ->
                                In fn_v migration_variants)
      by (intros fn_v Hin; apply filter_In in Hin; apply Hin).
    assert (Hts' : forall fn_v, In fn_v (filter p migration_variants) ->
                                migrator_ts (snd fn_v) <> None)
      by (intros fn_v Hin; apply Hts, Hsub, Hin).
    assert (Hos' : ordered_stamps ltb (stamps (filter p migration_variants))).
    { apply (ordered_stamps_sub ltb (stamps migration_variants)); [| exact Hos].
      intros t Ht. unfold stamps in *. apply in_flat_map in Ht.
      destruct Ht as [fn_v [Hin Ht]]. apply in_flat_map. exists fn_v.
      split; [apply Hsub, Hin | exact Ht]. }
    destruct (sort_migrations_ordered ltb migration_variants Hts Hos)
      as [ordered [Hsort [Hp Hs]]].
    destruct (sort_migrations_ordered ltb _ Hts' Hos') as [ordered' [Hsort' [Hp' Hs']]].
    assert (Hsame : filter p ordered = ordered').
    { apply (ascending_migrations_unique ltb migration_variants _ _ Hos Hnd).
      - intros fn_v Hin. apply filter_In in Hin.
        apply (Permutation_in _ (Permutation_sym Hp)), Hin.
      - apply StronglySorted_filter, Hs.
      - exact Hs'.
      - apply (perm_trans (Permutation_sym (Permutation_filter p _ _ Hp))). exact Hp'. }
    unfold migrate_combined_spec. rewrite Hsort, Hsort'. cbn [bind].
    rewrite !apply_migrations_patches, <- Hsame. unfold p.
    rewrite (patches_filter ordered). reflexivity.
Qed.

Lemma migrate_combined_spec_needs_timestamps_witness :
  (exists fn_v,
      In fn_v [("a.yaml", migration_at 1 "3.10");
               ("b.yaml", mk_migration None [("python", strings ["3.11"])])]
      /\ migrator_ts (snd fn_v) = None)
  /\ migrate_combined_spec (fun spec p => Ok (update spec p)) []
       [("a.yaml", migration_at 1 "3.10");
        ("b.yaml", mk_migration None [("python", strings ["3.11"])])]
     = Raise KeyError.
Proof.
  assert (Hmissing : exists fn_v,
            In fn_v [("a.yaml", migration_at 1 "3.10");
                     ("b.yaml", mk_migration None [("python", strings ["3.11"])])]
            /\ migrator_ts (snd fn_v) = None).
  { exists ("b.yaml", mk_migration None [("python", strings ["3.11"])]).
    split; [right; left; reflexivity | reflexivity]. }
  split; [exact Hmissing |].
  apply (proj1 (migrate_combined_spec_needs_timestamps
                  Z.ltb (fun spec p => Ok (update spec p)) [] _) Hmissing).
Defined.

(** A timestamp that is a number and one that is a string cannot be
    compared: the sort raises [TypeError] and no patch is added. *)
Example migration_timestamps_of_unlike_types (variant_add : dict -> dict -> result dict)
  (combined_spec : dict) :
  migrate_combined_spec variant_add combined_spec number_and_text = Raise TypeError.
Proof. reflexivity. Qed.

(** An addition that raises ends the loop: the migrations after it add
    nothing. *)
Example migration_addition_raises (combined_spec : dict) :
  migrate_combined_spec
    (fun spec p => if py_eqb (VDict p) (VDict [("python", VList [VStr "3.11"])])
                   then Raise RuntimeError else Ok (update spec p))
    combined_spec three_one_two
  = Raise RuntimeError.
Proof. reflexivity. Qed.
